(* ===== verification/_CoqProject ===== *)
-Q . S2P
Prelude.v
Platform.v
Handles.v
Policies.v
Prepend.v
Ring.v
Breaker.v
Config.v
Net.v
Channel.v
Lock.v
Transport.v
Flow.v
Cycle.v
Owners.v
HttpDiag.v
HttpDiagFacts.v
Instrument.v
ManagedConfig.v
ManagedConfigFacts.v
Provisioning.v
ProvisioningFacts.v
Identity.v
IdentityFacts.v
Controls.v
ControlsFacts.v
MinisHttp.v
MinisHttpFacts.v
Alerts.v
AlertsFacts.v
Pages.v
Portal.v
PortalFacts.v
Limits.v
Fingerprint.v
Session.v
SessionFacts.v
Tunnel.v
TunnelOwns.v
TunnelFacts.v
Lifecycle.v
