(* ===== verification/Prelude.v ===== *)
(** * Verification of the ESP32 reverse SSH tunnel

    The library under src/src keeps an SSH session from a microcontroller to a
    server, asks the server to listen on remote ports, and forwards every
    connection accepted there to a local TCP endpoint.  This development models
    its code, file by file, as executable definitions, and proves what makes it
    correct.  This file holds the prelude (below) and this guide.

    ** The program and its model

    - [SSHTunnel] (ssh_tunnel.h, ssh_tunnel.cpp) is the facade: a state machine
      driven by [loop()], with reconnection, accepted channels that wait for a
      slot, and teardown.  It embeds the three parts below.  Model: Tunnel.v.
    - [SSHSession] (ssh_session.h, ssh_session.cpp): the TCP connection,
      handshake, host-key check, authentication, reverse listeners, keepalives,
      and the mutex that serialises libssh2.  Models: Session.v, Fingerprint.v
      (the fingerprint encodings and their comparison), Lock.v (the mutex).
    - [ChannelManager] (ssh_channel.h, ssh_channel.cpp): a fixed array of slots,
      each tying an SSH channel to a local socket and two ring buffers.  Models:
      Channel.v, Net.v (socket options, local connect; network_optimizations.h).
    - [TransportPump] (ssh_transport.h, ssh_transport.cpp): moves bytes between
      the two sides of every slot, in four phases per cycle, with back-pressure,
      put-back of unsent bytes, half-closes and deadlines.  Model: Transport.v.
    - [DataRingBuffer] and [PrependBuffer] (ring_buffer.h, prepend_buffer.h):
      Ring.v, Prepend.v.  [CircuitBreaker] (circuit_breaker.h): Breaker.v.  The
      header-only decisions (channel_slot_alloc.h, channel_timeout.h,
      channel_memory_guard.h, channel_close_progress.h, forward_accept_error.h,
      forward_accept_diag.h): one Module each in Policies.v.
    - [SSHConfiguration] (ssh_config.h, ssh_config.cpp,
      ssh_config_validators.h): Config.v.

    - Two builds for diagnosis: the HTTP request observer of the pump
      ([TUNNEL_DIAG_LOG_ONLY], HttpDiag.v) and its counters
      ([TUNNEL_INSTRUMENT], Instrument.v).  They only look at the bytes and the
      answers that pass, so they are components of their own and the models above
      are those of the plain build.

    - The reference firmware (examples/src), which puts the tunnel into service,
      in components that share only files and queues, so each is modelled on its
      own: wifi_provisioning.cpp and mac_vendor.cpp, the stored settings
      (Provisioning.v), the setup portal (Portal.v, its pages in Pages.v), and
      the button (Controls.v); status_led.cpp (Controls.v);
      ssh_key_provisioning.cpp (Identity.v); minis_registration.cpp, the HTTP
      client of the control centre (MinisHttp.v), the managed configuration it
      fetches (ManagedConfig.v), and the alerts it posts (Alerts.v); of main.cpp,
      what the main task does with that configuration (Provisioning.v).

    A definition bears the name of the function it translates; parts of long
    functions (loop bodies, phases of [connect]) have names of their own, and
    the composition follows the source.  State is a record with the source's
    fields; a program is a function in the state monad [M] of this file; an
    embedded object's program runs through [focus] (Platform.v), so that the
    aliasing of the source (the pump works on the manager and the mutex it was
    attached to) is one state, not copies.

    Everything outside the repository (libssh2, lwIP, FreeRTOS, the heap, the
    clock) is a [call] answered by an arbitrary environment ([Platform],
    Platform.v); the [world] keeps the trace of all calls and answers, and the
    theorems about I/O are statements about traces.  What is assumed of an
    answer is [call_ok]; what is assumed of FreeRTOS byte rings is
    [ByteRingLaws] (Ring.v), with the concrete instance [wrap_ring]; the
    numeric constants of third-party headers are the class [Target], with the
    instance [esp32_target].  [script_platform] is a concrete environment on
    which every witness runs.

    ** The files with proofs about several parts

    - Flow.v, Cycle.v: the pump.  Flow.v proves that each part of a phase
      performs a relation on one slot; Cycle.v lifts it to the manager.  The
      phases are proved once, against the interface [PumpRelation], which has
      two instances: [prel] (byte streams, lock discipline, ownership of
      handles) and [pump_owns] (Owners.v: assets).  Limits.v: deadlines, bounds
      and termination of the pump.
    - SessionFacts.v: the order of the connection steps as an automaton over the
      trace, sockets, locks, the failure counters.
    - Handles.v: the life of a channel handle, and [moves], the statement that a
      run transfers assets (live channels, open sockets) without misuse or loss.
      Owners.v: the slots' assets; TunnelOwns.v: those of the tunnel, by a small
      logic of programs with assets in hand ([runs]); TunnelFacts.v: every
      public operation as a run of one relation [trel]; Lifecycle.v: what
      follows for whole lives of a tunnel.
    - HttpDiagFacts.v: the request observer, from operations on memory to the
      reference parser.
    - ManagedConfigFacts.v, MinisHttpFacts.v: the in-place parser of cfg.txt and
      the HTTP client, against readers of whole texts and whole answers.
      ProvisioningFacts.v: a small logic for programs on files that holds at every
      state of the log ([wp]), and under a condition on these states ([under]);
      IdentityFacts.v, ControlsFacts.v and PortalFacts.v use it.

    ** What the theorems show

    - Data: over any number of cycles the bytes towards SSH leave in the order in
      which they came, without loss while the slot is in use; so do those towards
      the local side until the tunnel sends its own EOF, but for what a [send] that
      failed for good discarded; the counters agree with the trace in the same
      cases (Cycle.v); the ring refines a FIFO queue with put-back (Ring.v).
    - Resources: over any sequence of public operations no channel is used
      before it is accepted or after it is freed, none is freed twice, no socket
      is lost or closed twice, and without a connection nothing is left
      (Lifecycle.v, Channel.v, SessionFacts.v).
    - Security: with host-key verification on (it is off by default) credentials
      are sent only after a key of the configured type and fingerprint was shown;
      a configured fingerprint accepts one digest (SessionFacts.v,
      Fingerprint.v).
    - Locks: every libssh2 call of the pump and of the session's operations is
      made under the mutex, which is never taken twice and always given back
      (the one exception is [connect_unlocked_call]).
    - Progress: the accept loop, the write loop and the listener requests end;
      deadlines are exact; the back-off is what it says; the error state dials
      again (unless libssh2 cannot free the old session).
    - Memory: the request observer and the formatting of the counters work on
      fixed arrays; every access is inside them, and what they store is the
      prefix of a reference text that fits (HttpDiagFacts.v, Instrument.v).
    - Stored settings: what was saved is what the next start loads; at any
      power failure the configuration is the old one or what the storage took of
      the new one; the firmware's own key pair is made once and never mixed with
      another; what the portal's forms store is in force after the restart; its
      pages are safe for any value; a factory reset leaves a device like new.
      Where such a theorem needs that a write does not stop short
      ([complete_write], [serves]) or that a file can be removed ([removes],
      [serves]), this is a hypothesis on the states of the one run it is about
      (ProvisioningFacts.v, IdentityFacts.v, PortalFacts.v, ControlsFacts.v).
    - Managed configuration: whatever the server sends, requests end, stay in
      their arrays and yield only valid settings; what is served properly, with
      header lines that fit the line array, is what comes into force
      (MinisHttpFacts.v, ProvisioningFacts.v).
    - Alerts: posted in order, each until it is acknowledged, and read by the
      server as they were queued; the notice of a new configuration survives
      restarts until it is delivered (AlertsFacts.v).
    - Decisions: circuit breaker, slot choice, admission, configuration
      validation equal their declarative specifications.
    - Deviations the modelling found are theorems where they can be
      ([bind_accepts_unusable_rings], [oversized_restore_reorders],
      [paused_read_ignores_buffer], [connect_unlocked_call], [breaker_window],
      [short_write_loses_config], [saveKeys_mixes_pair], [kept_public_key_mixes],
      [long_header_ends_headers], [cached_backup_ignored],
      [second_notice_lost], [password_save_loses_setup]).

    ** Bounds and fuel

    [loop n] is used where the source bounds its loop ([4] reads, [4] sends,
    [3] receives, [50] listener attempts, [8] session frees).  Unbounded loops
    get enough rounds: the write loop one per byte of its budget and one
    ([write_loop_terminates]); the accept loop one per slot and one
    ([accept_loop_ends]); the delay doubling one per attempt
    ([double_delay_capped]); the ring's write loop one per byte; the parser's
    loops one more than the bytes in front of them.  Integers are
    [Z] with the wrap-around of their C type written out ([u32], [s32]).

    ** Not modelled

    - Log output: logger.h, logger.cpp, the logging parts of every file, and the
      statistics of ssh_session.cpp and ssh_tunnel.cpp that only feed it (the
      libssh2 trace hook, accept diagnostics).  They change no state the program
      reads.
    - memory_fixes.h is [malloc] with logging; the model calls [Malloc].
    - Pre-emption: [loop()] and the other operations run one after another, as
      the class is used from one task; the mutexes are modelled as calls whose
      discipline is proved, not as concurrency.
    - Destructors beyond the calls they make ([disconnect], deleting a mutex).
    - Of the firmware: the upload of the public key and [setup] and [loop] of
      main.cpp.  The test harness and the tools. *)

From Stdlib Require Export ZArith Lia Strings.Byte.
From stdpp Require Export base list list_numbers strings option.

#[global] Open Scope Z_scope.
#[export] Set Default Goal Selector "!".
#[export] Set Warnings "-clear-no-such-hyp".

(* ------------------------------------------------------------------ *)
(** ** Machine integers *)

(** The target is a 32-bit core: [size_t], [unsigned long], [uint32_t] and
    [unsigned int] are 32 bits wide and wrap; [int] and [long] are 32-bit two's
    complement. *)
Definition u32 (x : Z) : Z := x mod 2 ^ 32.

Definition s32 (x : Z) : Z :=
  if u32 x <? 2 ^ 31 then u32 x else u32 x - 2 ^ 32.

(** [a - b] on an unsigned 32-bit type. *)
Definition u32_sub (a b : Z) : Z := u32 (a - b).

Definition u32_range (x : Z) : Prop := 0 <= x < 2 ^ 32.

(** Lengths of byte strings as [size_t] values. *)
Abbreviation zlen l := (Z.of_nat (length l)).
Definition ztake {A} (n : Z) (l : list A) : list A := take (Z.to_nat n) l.
Definition zdrop {A} (n : Z) (l : list A) : list A := drop (Z.to_nat n) l.

Section ByteStrings.
Context {A : Type}.
Implicit Types l : list A.

Lemma zlen_ztake n l : zlen (ztake n l) = Z.min (Z.max 0 n) (zlen l).
Proof. unfold ztake. rewrite length_take. lia. Qed.

Lemma zlen_zdrop n l : zlen (zdrop n l) = Z.max 0 (zlen l - Z.max 0 n).
Proof. unfold zdrop. rewrite length_drop. lia. Qed.

Lemma ztake_zdrop n l : ztake n l ++ zdrop n l = l.
Proof. apply take_drop. Qed.

Lemma ztake_nonpos n l : n <= 0 -> ztake n l = [].
Proof. intros. unfold ztake. by replace (Z.to_nat n) with 0%nat by lia. Qed.

Lemma zdrop_nonpos n l : n <= 0 -> zdrop n l = l.
Proof. intros. unfold zdrop. by replace (Z.to_nat n) with 0%nat by lia. Qed.

Lemma ztake_all n l : zlen l <= n -> ztake n l = l.
Proof. intros. unfold ztake. apply take_ge. lia. Qed.

Lemma zdrop_all n l : zlen l <= n -> zdrop n l = [].
Proof. intros. unfold zdrop. apply drop_ge. lia. Qed.

Lemma ztake_app_exact n l1 l2 : zlen l1 = n -> ztake n (l1 ++ l2) = l1.
Proof. intros. unfold ztake. apply take_app_length'. lia. Qed.

Lemma zdrop_app_exact n l1 l2 : zlen l1 = n -> zdrop n (l1 ++ l2) = l2.
Proof. intros. unfold zdrop. apply drop_app_length'. lia. Qed.

Lemma zdrop_zdrop n m l : 0 <= n -> 0 <= m -> zdrop n (zdrop m l) = zdrop (m + n) l.
Proof. intros. unfold zdrop. rewrite drop_drop. f_equal. lia. Qed.

Lemma zlen_0 l : zlen l = 0 <-> l = [].
Proof. destruct l; simpl; split; intros; try done; lia. Qed.

End ByteStrings.

Lemma u32_small x : 0 <= x < 2 ^ 32 -> u32 x = x.
Proof. apply Z.mod_small. Qed.

Lemma u32_bound x : u32_range (u32 x).
Proof. unfold u32_range, u32. apply Z.mod_pos_bound. lia. Qed.

Lemma u32_add_l x y : u32 (u32 x + y) = u32 (x + y).
Proof. unfold u32. apply Zplus_mod_idemp_l. Qed.

Lemma u32_add_r x y : u32 (x + u32 y) = u32 (x + y).
Proof. unfold u32. apply Zplus_mod_idemp_r. Qed.

(** Arithmetic on lengths: expose the lengths of prefixes and suffixes. *)
Ltac zlen_simpl :=
  repeat rewrite ?length_app, ?length_cons, ?length_nil, ?Nat2Z.inj_add, ?Nat2Z.inj_succ,
    ?zlen_ztake, ?zlen_zdrop in *.

Ltac zlia := zlen_simpl; unfold u32_range in *; lia.

(* ------------------------------------------------------------------ *)
(** ** Functional update of record fields

    [r <| p := v |>] is [r] with field [p] set to [v].  A record type supports
    it once its constructor applied to all its projections is declared as an
    [Eta] instance. *)
Class Eta (R : Type) := eta_of : R -> R.
Class Updater {R T : Type} (p : R -> T) := upd : (T -> T) -> R -> R.

Ltac derive_updater :=
  lazymatch goal with
  | |- @Updater ?R ?T ?p =>
      let inst := constr:(_ : Eta R) in
      let f := fresh "f" in
      let r := fresh "r" in
      refine (fun (f : T -> T) (r : R) => _);
      let e := eval cbv [eta_of] in (@eta_of R inst r) in
      let e := eval red in e in
      let e' := eval pattern (p r) in e in
      lazymatch e' with
      | ?k _ => let b := eval cbv beta in (k (f (p r))) in exact b
      end
  end.

#[export] Hint Extern 1 (Updater _) => derive_updater : typeclass_instances.

Declare Scope record_scope.
Delimit Scope record_scope with record.
Notation "r <| p := v |>" := (upd (p := p) (fun _ => v) r)
  (at level 1, left associativity, p at level 9, v at level 200,
   format "r  <| p  :=  v |>") : record_scope.
#[global] Open Scope record_scope.

(* ------------------------------------------------------------------ *)
(** ** A state monad with weakest preconditions *)

Definition M (S A : Type) : Type := S -> A * S.

Section Monad.
Context {S : Type}.

Definition ret {A} (a : A) : M S A := fun s => (a, s).

Definition bind {A B} (m : M S A) (k : A -> M S B) : M S B :=
  fun s => let '(a, s') := m s in k a s'.

Definition gets {A} (f : S -> A) : M S A := fun s => (f s, s).

Definition modify (f : S -> S) : M S unit := fun s => (tt, f s).

Definition when (b : bool) (m : M S unit) : M S unit :=
  if b then m else ret tt.

(** [loop n body]: at most [n] rounds; a round answers whether to go on
    ([false] is the source's [break]). *)
Fixpoint loop (n : nat) (body : M S bool) : M S unit :=
  match n with
  | O => ret tt
  | Datatypes.S n' => bind body (fun go => if go then loop n' body else ret tt)
  end.

(** A [for] loop over a fixed index list. *)
Fixpoint for_each {A} (l : list A) (body : A -> M S unit) : M S unit :=
  match l with
  | [] => ret tt
  | x :: l' => bind (body x) (fun _ => for_each l' body)
  end.

(** Weakest precondition: [m] run in [s] answers [a] in state [s'] with
    [Q a s'].  Programs are total, so this is also a termination claim. *)
Definition wp {A} (m : M S A) (Q : A -> S -> Prop) (s : S) : Prop :=
  Q (fst (m s)) (snd (m s)).

Lemma wp_ret {A} (a : A) Q s : Q a s -> wp (ret a) Q s.
Proof. done. Qed.

Lemma wp_bind {A B} (m : M S A) (k : A -> M S B) Q s :
  wp m (fun a s' => wp (k a) Q s') s -> wp (bind m k) Q s.
Proof. unfold wp, bind. by destruct (m s). Qed.

Lemma wp_gets {A} (f : S -> A) Q s : Q (f s) s -> wp (gets f) Q s.
Proof. done. Qed.

Lemma wp_modify f Q s : Q tt (f s) -> wp (modify f) Q s.
Proof. done. Qed.

Lemma wp_when (b : bool) m Q s :
  (b = true -> wp m Q s) -> (b = false -> Q tt s) -> wp (when b m) Q s.
Proof. destruct b; intros H1 H2; [by apply H1 | by apply H2]. Qed.

Lemma wp_if {A} (b : bool) (m1 m2 : M S A) Q s :
  (b = true -> wp m1 Q s) -> (b = false -> wp m2 Q s) ->
  wp (if b then m1 else m2) Q s.
Proof. destruct b; auto. Qed.

Lemma wp_option {A B} (o : option B) (m1 : B -> M S A) (m2 : M S A) Q s :
  (forall b, o = Some b -> wp (m1 b) Q s) -> (o = None -> wp m2 Q s) ->
  wp (match o with Some b => m1 b | None => m2 end) Q s.
Proof. destruct o; auto. Qed.

Lemma wp_conseq {A} (m : M S A) (Q Q' : A -> S -> Prop) s :
  wp m Q s -> (forall a s', Q a s' -> Q' a s') -> wp m Q' s.
Proof. unfold wp. auto. Qed.

Lemma wp_run {A} (m : M S A) (Q : A -> S -> Prop) s a s' :
  wp m Q s -> m s = (a, s') -> Q a s'.
Proof. unfold wp. intros HQ E. by rewrite E in HQ. Qed.

(** A loop whose every round is a step of a preorder performs that preorder. *)
Lemma wp_loop (R : relation S) `{!PreOrder R} body :
  (forall s, wp body (fun _ s' => R s s') s) ->
  forall n s, wp (loop n body) (fun _ s' => R s s') s.
Proof.
  intros Hbody n. induction n as [|n IH]; intros s; [by apply wp_ret|].
  simpl. apply wp_bind. eapply wp_conseq; [apply Hbody|].
  intros [|] s1 H1; [|by apply wp_ret].
  eapply wp_conseq; [apply IH|]. intros ? s2 H2. by transitivity s1.
Qed.

Lemma wp_for_each {A} (R : relation S) `{!PreOrder R} (body : A -> M S unit) :
  forall l, (forall x s, x ∈ l -> wp (body x) (fun _ s' => R s s') s) ->
  forall s, wp (for_each l body) (fun _ s' => R s s') s.
Proof.
  intros l. induction l as [|x l IH]; intros Hbody s; [by apply wp_ret|].
  simpl. apply wp_bind. eapply wp_conseq; [apply Hbody; left|].
  intros ? s1 H1. eapply wp_conseq; [apply IH|].
  - intros y s' Hy. apply Hbody. by right.
  - intros ? s2 H2. by transitivity s1.
Qed.

End Monad.

(** Running a program on a component [T] of a larger state [S]. *)
Definition zoom {S T A} (get : S -> T) (put : T -> S -> S) (m : M T A) : M S A :=
  fun s => let '(a, t) := m (get s) in (a, put t s).

Lemma wp_zoom {S T A} (get : S -> T) (put : T -> S -> S) (m : M T A) Q s :
  wp m (fun a t => Q a (put t s)) (get s) -> wp (zoom get put m) Q s.
Proof. unfold wp, zoom. by destruct (m (get s)). Qed.

Declare Scope prog_scope.
Delimit Scope prog_scope with prog.
Notation "x <- m ;; k" := (bind m (fun x => k))
  (at level 100, m at next level, k at level 200, right associativity) : prog_scope.
Notation "m ;; k" := (bind m (fun _ => k))
  (at level 100, k at level 200, right associativity) : prog_scope.
Notation "'let*' p := m 'in' k" := (bind m (fun x => let 'p := x in k))
  (at level 100, p strict pattern, m at next level, k at level 200, right associativity)
  : prog_scope.
#[global] Open Scope prog_scope.

#[global] Arguments wp : simpl never.
