(* ===== verification/Platform.v ===== *)
(** * The world outside the repository

    libssh2, lwIP sockets, FreeRTOS primitives and the heap allocator are not
    part of this repository.  Every call the sources make into them is a value
    of [call]; [ret_of] gives the type of its answer, and the class [Platform]
    is an arbitrary environment that answers calls.  The only facts the
    development uses about an answer are those of [call_ok]: documented bounds
    such as "[recv] returns at most the requested number of bytes".

    A [world] pairs the environment's state with the trace of the calls made
    and the answers received, so that properties of a run (which bytes went
    where, which lock was held when) are statements about its trace. *)

From S2P Require Import Prelude.

(** Pointers handed out by libssh2 ([LIBSSH2_CHANNEL *], [LIBSSH2_SESSION *],
    [LIBSSH2_LISTENER *]); a null pointer is [None] of an option. *)
Definition chan := Z.
Definition sess := Z.
Definition listener := Z.

(** The FreeRTOS mutexes the sources create. *)
Inductive sem := SessionMutex | StatsMutex | ConfigMutex.

(** Macros of third-party headers, compile-time options and the tick rate. *)
Class Target := {
  LIBSSH2_ERROR_EAGAIN : Z;
  LIBSSH2_ERROR_CHANNEL_UNKNOWN : Z;
  LIBSSH2_ERROR_CHANNEL_CLOSED : Z;
  LIBSSH2_ERROR_SOCKET_SEND : Z;
  LIBSSH2_ERROR_SOCKET_DISCONNECT : Z;
  EAGAIN : Z;
  EWOULDBLOCK : Z;
  EINPROGRESS : Z;
  LIBSSH2_HOSTKEY_TYPE_RSA : Z;
  LIBSSH2_HOSTKEY_TYPE_DSS : Z;
  LIBSSH2_HOSTKEY_TYPE_ECDSA_256 : Z;
  LIBSSH2_HOSTKEY_TYPE_ECDSA_384 : Z;
  LIBSSH2_HOSTKEY_TYPE_ECDSA_521 : Z;
  LIBSSH2_HOSTKEY_TYPE_ED25519 : Z;
  pdMS_TO_TICKS : Z -> Z;
  portMAX_DELAY : Z;
  SSH_TUNNEL_PREPEND_CAPACITY : Z;
  O_NONBLOCK : Z;
  (** [sizeof] of the structures the sources allocate. *)
  sizeof_StaticRingbuffer : Z;
  sizeof_ChannelSlot : Z;
  eagain_negative : LIBSSH2_ERROR_EAGAIN < 0;
  (** [static_assert(PREPEND_CAP > 0)] in ring_buffer.h. *)
  prepend_capacity_range : 0 < SSH_TUNNEL_PREPEND_CAPACITY < 2 ^ 32;
}.

(** Socket options set by network_optimizations.h. *)
Inductive sockopt :=
  | TCP_NODELAY | SO_RCVBUF | SO_SNDBUF | SO_RCVTIMEO | SO_SNDTIMEO | SO_KEEPALIVE
  | TCP_KEEPIDLE | TCP_KEEPINTVL | TCP_KEEPCNT.

Inductive call :=
  (* Arduino / FreeRTOS *)
  | Millis
  | SemCreate (m : sem)
  | SemTake (m : sem) (ticks : Z)
  | SemGive (m : sem)
  | TaskDelay (ticks : Z)
  (* heap *)
  | PsramFreeSize | PsramLargestBlock | HeapFreeSize | HeapLargestBlock
  | HeapCapsMallocPsram (n : Z) | Malloc (n : Z)
  (* libssh2 channels *)
  | ChannelRead (c : chan) (n : Z)
  | ChannelWrite (c : chan) (bs : list byte)
  | ChannelEof (c : chan)
  | ChannelSendEof (c : chan)
  | ChannelClose (c : chan)
  | ChannelFree (c : chan)
  | ChannelSetBlocking (c : chan) (blocking : Z)
  (* libssh2 sessions and listeners *)
  | LibInit
  | SessionInit
  | SessionHandshake (s : sess) (fd : Z)
  | SessionDisconnect (s : sess)
  | SessionFree (s : sess)
  | SessionSetBlocking (s : sess) (blocking : Z)
  | SessionLastErrno (s : sess)
  | SessionLastError (s : sess)
  | SessionHostkey (s : sess)
  | HostkeyHashSha256 (s : sess)
  | UserauthList (s : sess) (user : string)
  | UserauthPassword (s : sess) (user password : string)
  | UserauthPublickey (s : sess) (user : string) (publicKey : option string)
      (privateKey : string) (passphrase : option string)
  | ForwardListen (s : sess) (host : string) (port maxlisten : Z)
  | ForwardAccept (l : listener)
  | ForwardCancel (l : listener)
  | KeepaliveConfig (s : sess) (want_reply interval : Z)
  | KeepaliveSend (s : sess)
  (* sockets *)
  | Socket
  | InetPton (host : string)
  | GetHostByName (host : string)
  | FcntlGetfl (fd : Z) | FcntlSetfl (fd : Z) (flags : Z)
  | Connect (fd : Z) (host : string) (port : Z)
  | SelectWritable (fd : Z) (timeoutUs : Z)
  | GetSockOptError (fd : Z)
  | SetSockOpt (fd : Z) (o : sockopt) (v : Z)
  | Send (fd : Z) (bs : list byte)
  | Recv (fd : Z) (n : Z)
  | ShutdownWr (fd : Z)
  | ShutdownRdWr (fd : Z)
  | CloseFd (fd : Z)
  (* a handler of the application: an opaque function pointer and its arguments *)
  | CallHandler (handler : Z) (ints : list Z) (texts : list string) (context : option Z).

Definition ret_of (c : call) : Type :=
  match c with
  | Millis => Z
  | SemCreate _ | SemTake _ _ => bool
  | SemGive _ | TaskDelay _ => unit
  | PsramFreeSize | PsramLargestBlock | HeapFreeSize | HeapLargestBlock => Z
  | HeapCapsMallocPsram _ | Malloc _ => bool
  | ChannelRead _ _ => Z * list byte          (* return code, bytes stored *)
  | ChannelWrite _ _ => Z
  | ChannelEof _ => bool
  | ChannelSendEof _ | ChannelClose _ | ChannelFree _ => Z
  | ChannelSetBlocking _ _ => unit
  | LibInit => Z
  | SessionInit => option sess
  | SessionHandshake _ _ | SessionDisconnect _ | SessionFree _ => Z
  | SessionSetBlocking _ _ => unit
  | SessionLastErrno _ => Z
  | SessionLastError _ => string
  | SessionHostkey _ => option (list byte) * Z  (* key blob, key type *)
  | HostkeyHashSha256 _ => option (list byte)
  | UserauthList _ _ => option string
  | UserauthPassword _ _ _ | UserauthPublickey _ _ _ _ _ => Z
  | ForwardListen _ _ _ _ => option listener * Z  (* listener, bound port *)
  | ForwardAccept _ => option chan
  | ForwardCancel _ => Z
  | KeepaliveConfig _ _ _ => unit
  | KeepaliveSend _ => Z
  | Socket => Z
  | InetPton _ => bool
  | GetHostByName _ => bool
  | FcntlGetfl _ | FcntlSetfl _ _ => Z
  | Connect _ _ _ => Z * Z                    (* result, errno *)
  | SelectWritable _ _ => Z * bool            (* result, FD_ISSET *)
  | GetSockOptError _ => Z * Z                (* result, SO_ERROR *)
  | SetSockOpt _ _ _ => Z
  | Send _ _ => Z * Z                         (* result, errno *)
  | Recv _ _ => Z * Z * list byte             (* result, errno, bytes stored *)
  | ShutdownWr _ | ShutdownRdWr _ | CloseFd _ => Z
  | CallHandler _ _ _ _ => unit
  end.

(** Documented bounds on answers: a clock value fits [unsigned long], reads and
    writes never exceed the requested length, a positive read count is the number
    of bytes stored, a failed [socket] answers -1, a SHA-256 hash has 32 bytes. *)
Definition call_ok (c : call) : ret_of c -> Prop :=
  match c with
  | Millis => fun t => u32_range t
  | ChannelRead _ n => fun '(rc, bs) => 0 <= n -> rc <= n /\ (0 < rc -> zlen bs = rc)
  | ChannelWrite _ bs => fun rc => rc <= zlen bs
  | Send _ bs => fun '(rc, _) => rc <= zlen bs
  | Recv _ n => fun '(rc, _, bs) => 0 <= n -> rc <= n /\ (0 < rc -> zlen bs = rc)
  | PsramFreeSize => fun n => u32_range n
  | PsramLargestBlock => fun n => u32_range n
  | HeapFreeSize => fun n => u32_range n
  | HeapLargestBlock => fun n => u32_range n
  | HostkeyHashSha256 _ => fun h => forall bs, h = Some bs -> length bs = 32%nat
  | Socket => fun fd => -1 <= fd
  | _ => fun _ => True
  end.

Class Platform (Env : Type) := {
  answer : forall c : call, Env -> ret_of c * Env;
  answer_ok : forall c e, call_ok c (fst (answer c e));
}.

(* ------------------------------------------------------------------ *)
(** ** Worlds and traces *)

Record event := Event { ev_call : call; ev_ret : ret_of ev_call }.

Record world (Env : Type) := World { w_env : Env; w_trace : list event }.
Arguments World {Env} _ _.
Arguments w_env {Env} _.
Arguments w_trace {Env} _.

(** State types that contain the world. *)
Class HasWorld (Env S : Type) := {
  get_world : S -> world Env;
  put_world : world Env -> S -> S;
}.

Section Calls.
Context {Env : Type} {P : Platform Env}.
Context {S : Type} {HW : HasWorld Env S}.

Definition push_event (c : call) (r : ret_of c) (e : Env) (s : S) : S :=
  put_world (World e (w_trace (get_world s) ++ [Event c r])) s.

(** Perform one external call and record it. *)
Definition sys (c : call) : M S (ret_of c) := fun s =>
  let '(r, e) := answer c (w_env (get_world s)) in (r, push_event c r e s).

Lemma wp_sys c Q s :
  (forall r e, call_ok c r -> Q r (push_event c r e s)) -> wp (sys c) Q s.
Proof.
  intros H. unfold wp, sys.
  pose proof (answer_ok c (w_env (get_world s))) as Hok.
  destruct (answer c (w_env (get_world s))) as [r e]. by apply H.
Qed.

Definition millis : M S Z := sys Millis.

End Calls.

#[export] Instance world_has_world Env : HasWorld Env (world Env) := {|
  get_world w := w;
  put_world w _ := w;
|}.

#[export] Instance pair_has_world Env T : HasWorld Env (T * world Env) := {|
  get_world s := s.2;
  put_world w s := (s.1, w);
|}.

(** Programs of a component run on the component's own state paired with the
    world; [focus] runs a component inside a larger state. *)
Section Focus.
Context {Env T U : Type}.

Definition get {A} (f : T -> A) : M (T * world Env) A := gets (fun s => f s.1).
Definition put (f : T -> T) : M (T * world Env) unit := modify (fun s => (f s.1, s.2)).

Definition focus {A} (g : U -> T) (p : T -> U -> U) (m : M (T * world Env) A)
  : M (U * world Env) A :=
  zoom (fun s => (g s.1, s.2)) (fun t s => (p t.1 s.1, t.2)) m.

Lemma wp_get {A} (f : T -> A) Q s : Q (f s.1) s -> wp (get f) Q s.
Proof. done. Qed.

Lemma wp_put (f : T -> T) Q s : Q tt (f s.1, s.2) -> wp (put f) Q s.
Proof. done. Qed.

(** The same rules on a state given as a pair. *)
Lemma wp_get_pair {A} (f : T -> A) Q a w : Q (f a) (a, w) -> wp (get f) Q (a, w).
Proof. done. Qed.

Lemma wp_put_pair (f : T -> T) Q a w : Q tt (f a, w) -> wp (put f) Q (a, w).
Proof. done. Qed.

Lemma wp_focus_pair {A} (g : U -> T) p (m : M (T * world Env) A) Q u w :
  wp m (fun a t => Q a (p t.1 u, t.2)) (g u, w) -> wp (focus g p m) Q (u, w).
Proof. intros H. unfold focus. by apply wp_zoom. Qed.

(** The world after one more call. *)
Definition log (c : call) (r : ret_of c) (e : Env) (w : world Env) : world Env :=
  World e (w_trace w ++ [Event c r]).

#[global] Arguments log _ _ _ _ /.

Lemma wp_sys_pair {P : Platform Env} c (Q : ret_of c -> T * world Env -> Prop) a w :
  (forall r e, call_ok c r -> Q r (a, log c r e w)) -> wp (sys c) Q (a, w).
Proof. intros H. by apply wp_sys. Qed.

Lemma wp_focus {A} (g : U -> T) p (m : M (T * world Env) A) Q s :
  wp m (fun a t => Q a (p t.1 s.1, t.2)) (g s.1, s.2) -> wp (focus g p m) Q s.
Proof. intros H. unfold focus. by apply wp_zoom. Qed.

End Focus.

(** Symbolic execution: run a program forward, splitting on its branches and
    generalising every external answer to one allowed by [call_ok]. *)
Ltac sys_intro :=
  let r := fresh "r" in let e := fresh "e" in let H := fresh "Hok" in
  intros r e H; cbn [call_ok ret_of] in H, r.

Ltac wp_step :=
  lazymatch goal with
  | |- wp (bind _ _) _ _ => apply wp_bind; cbv beta
  | |- wp (ret _) _ _ => apply wp_ret; cbv beta
  | |- wp (get _) _ (_, _) => apply wp_get_pair; cbv beta
  | |- wp (put _) _ (_, _) => apply wp_put_pair; cbv beta
  | |- wp (focus _ _ _) _ (_, _) => apply wp_focus_pair; cbv beta
  | |- wp (sys ?c) _ (_, _) => apply (wp_sys_pair c); sys_intro; cbv beta
  | |- wp (gets _) _ _ => apply wp_gets; cbv beta
  | |- wp (modify _) _ _ => apply wp_modify; cbv beta
  | |- wp (get _) _ _ => apply wp_get; cbv beta; cbn [fst snd]
  | |- wp (put _) _ _ => apply wp_put; cbv beta; cbn [fst snd]
  | |- wp (focus _ _ _) _ _ => apply wp_focus; cbv beta; cbn [fst snd]
  | |- wp millis _ _ => unfold millis at 1
  | |- wp (sys ?c) _ _ => apply (wp_sys c); sys_intro; cbv beta; cbn [fst snd]
  | |- wp (when _ _) _ _ => apply wp_when; intros ?
  | |- wp (match ?x with _ => _ end) _ _ => destruct x eqn:?
  end.

Ltac wp_go := repeat wp_step.

(* ------------------------------------------------------------------ *)
(** ** Observations on traces

    What a run did to one libssh2 channel [c] and one local socket [fd]. *)

(** Bytes the run read from the SSH channel [c]. *)
Definition ev_ssh_in (c : chan) (ev : event) : list byte :=
  match ev with
  | Event cl r =>
      match cl return ret_of cl -> list byte with
      | ChannelRead c' _ => fun '(rc, bs) =>
          if (c' =? c) && (0 <? rc) then bs else []
      | _ => fun _ => []
      end r
  end.

(** Bytes the SSH channel accepted from the run. *)
Definition ev_ssh_out (c : chan) (ev : event) : list byte :=
  match ev with
  | Event cl r =>
      match cl return ret_of cl -> list byte with
      | ChannelWrite c' bs => fun rc => if c' =? c then ztake rc bs else []
      | _ => fun _ => []
      end r
  end.

(** Bytes the run received from the local socket [fd]. *)
Definition ev_local_in (fd : Z) (ev : event) : list byte :=
  match ev with
  | Event cl r =>
      match cl return ret_of cl -> list byte with
      | Recv fd' _ => fun '(rc, _, bs) =>
          if (fd' =? fd) && (0 <? rc) then bs else []
      | _ => fun _ => []
      end r
  end.

(** Bytes the local socket accepted from the run. *)
Definition ev_local_out (fd : Z) (ev : event) : list byte :=
  match ev with
  | Event cl r =>
      match cl return ret_of cl -> list byte with
      | Send fd' bs => fun '(rc, _) => if fd' =? fd then ztake rc bs else []
      | _ => fun _ => []
      end r
  end.

Definition ssh_in (c : chan) (evs : list event) : list byte := evs ≫= ev_ssh_in c.
Definition ssh_out (c : chan) (evs : list event) : list byte := evs ≫= ev_ssh_out c.
Definition local_in (fd : Z) (evs : list event) : list byte := evs ≫= ev_local_in fd.
Definition local_out (fd : Z) (evs : list event) : list byte := evs ≫= ev_local_out fd.

Lemma ssh_in_app c l1 l2 : ssh_in c (l1 ++ l2) = ssh_in c l1 ++ ssh_in c l2.
Proof. apply bind_app. Qed.
Lemma ssh_out_app c l1 l2 : ssh_out c (l1 ++ l2) = ssh_out c l1 ++ ssh_out c l2.
Proof. apply bind_app. Qed.
Lemma local_in_app fd l1 l2 : local_in fd (l1 ++ l2) = local_in fd l1 ++ local_in fd l2.
Proof. apply bind_app. Qed.
Lemma local_out_app fd l1 l2 : local_out fd (l1 ++ l2) = local_out fd l1 ++ local_out fd l2.
Proof. apply bind_app. Qed.

(** The channel, respectively the socket, a call works on. *)
Definition call_chan (c : call) : option chan :=
  match c with
  | ChannelRead c _ | ChannelWrite c _ | ChannelEof c | ChannelSendEof c
  | ChannelClose c | ChannelFree c | ChannelSetBlocking c _ => Some c
  | _ => None
  end.

Definition call_fd (c : call) : option Z :=
  match c with
  | Send fd _ | Recv fd _ | ShutdownWr fd | CloseFd fd => Some fd
  | _ => None
  end.

(** Calls into libssh2, which the sources serialise with the session mutex. *)
Definition is_libssh2 (c : call) : bool :=
  match c with
  | ChannelRead _ _ | ChannelWrite _ _ | ChannelEof _ | ChannelSendEof _
  | ChannelClose _ | ChannelFree _ | ChannelSetBlocking _ _
  | SessionHandshake _ _ | SessionDisconnect _ | SessionFree _
  | SessionSetBlocking _ _ | SessionLastErrno _ | SessionLastError _
  | SessionHostkey _ | HostkeyHashSha256 _ | UserauthList _ _
  | UserauthPassword _ _ _ | UserauthPublickey _ _ _ _ _
  | ForwardListen _ _ _ _ | ForwardAccept _ | ForwardCancel _
  | KeepaliveConfig _ _ _ | KeepaliveSend _ => true
  | _ => false
  end.

(** The session-mutex automaton: [Some held] is the state after the events,
    [None] a violation: a libssh2 call without the mutex, taking the
    (non-recursive) mutex while holding it, or giving it back when not held. *)
Definition lock_step (held : bool) (ev : event) : option bool :=
  match ev with
  | Event cl r =>
      match cl return ret_of cl -> option bool with
      | SemTake SessionMutex _ => fun ok => if held then None else Some ok
      | SemGive SessionMutex => fun _ => if held then Some false else None
      | cl' => fun _ => if is_libssh2 cl' && negb held then None else Some held
      end r
  end.

Fixpoint lock_run (held : bool) (evs : list event) : option bool :=
  match evs with
  | [] => Some held
  | ev :: evs' => h ← lock_step held ev; lock_run h evs'
  end.

Lemma lock_run_app h l1 l2 :
  lock_run h (l1 ++ l2) = h' ← lock_run h l1; lock_run h' l2.
Proof.
  revert h. induction l1 as [|ev l1 IH]; intros h; [done|].
  simpl. destruct (lock_step h ev); simpl; auto.
Qed.

(** Sockets opened and closed by a run. *)
Definition ev_opened (ev : event) : list Z :=
  match ev with
  | Event cl r =>
      match cl return ret_of cl -> list Z with
      | Socket => fun fd => if fd <? 0 then [] else [fd]
      | _ => fun _ => []
      end r
  end.
Definition ev_closed (ev : event) : list Z :=
  match ev_call ev with CloseFd fd => [fd] | _ => [] end.
Definition opened (evs : list event) : list Z := evs ≫= ev_opened.
Definition closed (evs : list event) : list Z := evs ≫= ev_closed.

Lemma opened_app l1 l2 : opened (l1 ++ l2) = opened l1 ++ opened l2.
Proof. apply bind_app. Qed.
Lemma closed_app l1 l2 : closed (l1 ++ l2) = closed l1 ++ closed l2.
Proof. apply bind_app. Qed.

(** Clock readings and heap calls: they touch no channel and no socket. *)
Definition quiet (ev : event) : Prop :=
  match ev_call ev with
  | Millis | PsramFreeSize | PsramLargestBlock | HeapFreeSize | HeapLargestBlock
  | HeapCapsMallocPsram _ | Malloc _ => True
  | _ => False
  end.

Lemma quiet_sockets evs : Forall quiet evs -> opened evs = [] /\ closed evs = [].
Proof.
  induction 1 as [|[cl r] evs Hq _ [IH1 IH2]]; [done|].
  unfold opened, closed in *. rewrite !bind_cons, IH1, IH2. by destruct cl.
Qed.

(** The run from [s] to [s'] made the calls [evs]. *)
Definition ran {Env T1 T2} (s : T1 * world Env) (evs : list event) (s' : T2 * world Env) : Prop :=
  w_trace s'.2 = w_trace s.2 ++ evs.

Lemma ran_nil {Env T1 T2} (a : T1) (b : T2) (w : world Env) : ran (a, w) [] (b, w).
Proof. unfold ran. by rewrite app_nil_r. Qed.

Lemma ran_app {Env T1 T2 T3} (s1 : T1 * world Env) (s2 : T2 * world Env) (s3 : T3 * world Env) e1 e2 :
  ran s1 e1 s2 -> ran s2 e2 s3 -> ran s1 (e1 ++ e2) s3.
Proof. unfold ran. intros H1 H2. by rewrite H2, H1, app_assoc. Qed.

(** Close a goal [ran s ?evs s'] after symbolic execution. *)
Ltac ran_done := unfold ran; simpl; rewrite <- ?app_assoc; reflexivity.

(** A property of each event of an explicit list. *)
Ltac events := repeat (apply Forall_cons_2; [done|]); apply Forall_nil_2.

(** An event concerns at most the given channel and socket. *)
Definition only_about (oc : option chan) (fd : Z) (ev : event) : Prop :=
  (call_chan (ev_call ev) = None \/ call_chan (ev_call ev) = oc) /\
  (call_fd (ev_call ev) = None \/ call_fd (ev_call ev) = Some fd).

Lemma observe_none (f : event -> list byte) oc fd evs :
  Forall (only_about oc fd) evs -> (forall ev, only_about oc fd ev -> f ev = []) ->
  evs ≫= f = [].
Proof.
  intros H Hf. induction H as [|ev evs Hev _ IH]; [done|].
  by rewrite bind_cons, IH, Hf.
Qed.

Ltac observe_other :=
  intros Hevs Hne; eapply observe_none; [exact Hevs|];
  intros [cl r] [Hc Hfd]; destruct cl; try done; simpl in *;
  repeat match goal with r : _ * _ |- _ => destruct r end;
  match goal with |- context [?x =? ?y] => destruct (Z.eqb_spec x y) end;
  intuition congruence.

Lemma ssh_in_other oc fd c evs :
  Forall (only_about oc fd) evs -> oc <> Some c -> ssh_in c evs = [].
Proof. observe_other. Qed.

Lemma ssh_out_other oc fd c evs :
  Forall (only_about oc fd) evs -> oc <> Some c -> ssh_out c evs = [].
Proof. observe_other. Qed.

Lemma local_in_other oc fd fd' evs :
  Forall (only_about oc fd) evs -> fd <> fd' -> local_in fd' evs = [].
Proof. observe_other. Qed.

Lemma local_out_other oc fd fd' evs :
  Forall (only_about oc fd) evs -> fd <> fd' -> local_out fd' evs = [].
Proof. observe_other. Qed.

(* ------------------------------------------------------------------ *)
(** ** A scripted environment

    A concrete [Platform] for running the model: the answers to reads, writes
    and lock attempts are queued in advance, the clock advances by a fixed step
    per reading, and every other call is answered by a table. *)
Record script := Script {
  sc_now : Z;
  sc_step : Z;
  sc_locks : list bool;                    (* default: taken *)
  sc_reads : list (Z * list byte);         (* default: EAGAIN *)
  sc_writes : list Z;                      (* default: everything *)
  sc_sends : list (Z * Z);                 (* default: everything *)
  sc_recvs : list (Z * Z * list byte);     (* default: EAGAIN *)
  sc_codes : list Z;                       (* close / free / send_eof; default 0 *)
  sc_chans : list (option chan);           (* accepted channels; default none *)
  sc_other : forall c : call, ret_of c;
}.
#[export] Instance script_eta : Eta script := fun s =>
  Script (sc_now s) (sc_step s) (sc_locks s) (sc_reads s) (sc_writes s)
    (sc_sends s) (sc_recvs s) (sc_codes s) (sc_chans s) (sc_other s).

(** Everything succeeds: calls answer zero, true, or a fresh handle. *)
Definition all_succeed (c : call) : ret_of c :=
  match c return ret_of c with
  | Millis => 0
  | SemCreate _ | SemTake _ _ => true
  | SemGive _ | TaskDelay _ => tt
  | PsramFreeSize | PsramLargestBlock => 0
  | HeapFreeSize | HeapLargestBlock => 200000
  | HeapCapsMallocPsram _ => false
  | Malloc _ => true
  | ChannelRead _ _ => (-37, [])
  | ChannelWrite _ _ => 0
  | ChannelEof _ => false
  | ChannelSendEof _ | ChannelClose _ | ChannelFree _ => 0
  | ChannelSetBlocking _ _ => tt
  | LibInit => 0
  | SessionInit => Some 9000
  | SessionHandshake _ _ | SessionDisconnect _ | SessionFree _ => 0
  | SessionSetBlocking _ _ => tt
  | SessionLastErrno _ => -37
  | SessionLastError _ => EmptyString
  | SessionHostkey _ => (Some [x00], 6)
  | HostkeyHashSha256 _ => Some (replicate 32 x00)
  | UserauthList _ _ => Some "password"%string
  | UserauthPassword _ _ _ | UserauthPublickey _ _ _ _ _ => 0
  | ForwardListen _ _ port _ => (Some 8000, port)
  | ForwardAccept _ => None
  | ForwardCancel _ => 0
  | KeepaliveConfig _ _ _ => tt
  | KeepaliveSend _ => 0
  | Socket => 50
  | InetPton _ | GetHostByName _ => true
  | FcntlGetfl _ | FcntlSetfl _ _ => 0
  | Connect _ _ _ => (0, 0)
  | SelectWritable _ _ => (1, true)
  | GetSockOptError _ => (0, 0)
  | SetSockOpt _ _ _ => 0
  | Send _ _ => (-1, 11)
  | Recv _ _ => (-1, 11, [])
  | ShutdownWr _ | ShutdownRdWr _ | CloseFd _ => 0
  | CallHandler _ _ _ _ => tt
  end.

Definition idle_script : script :=
  Script 1000 1 [] [] [] [] [] [] [] all_succeed.

Definition pop {A} (d : A) (l : list A) : A * list A :=
  match l with [] => (d, []) | x :: l' => (x, l') end.

(** A queued read clamped to the requested length. *)
Definition clamp_read (n : Z) (rc : Z) (bs : list byte) : Z * list byte :=
  if rc <=? 0 then (rc, []) else let b := ztake n bs in (zlen b, b).

Definition script_answer (c : call) (s : script) : ret_of c * script :=
  match c return ret_of c * script with
  | Millis => (u32 (sc_now s), s <| sc_now := u32 (sc_now s + sc_step s) |>)
  | SemTake m t =>
      match m with
      | SessionMutex => let '(b, l) := pop true (sc_locks s) in (b, s <| sc_locks := l |>)
      | _ => (sc_other s (SemTake m t), s)
      end
  | ChannelRead _ n =>
      let '(p, l) := pop (-37, []) (sc_reads s) in
      (clamp_read n (fst p) (snd p), s <| sc_reads := l |>)
  | ChannelWrite _ bs =>
      let '(rc, l) := pop (zlen bs) (sc_writes s) in
      (Z.min rc (zlen bs), s <| sc_writes := l |>)
  | Send _ bs =>
      let '((rc, er), l) := pop (zlen bs, 0) (sc_sends s) in
      ((Z.min rc (zlen bs), er), s <| sc_sends := l |>)
  | Recv _ n =>
      let '((rc, er, bs), l) := pop (-1, 11, []) (sc_recvs s) in
      let '(rc', bs') := clamp_read n rc bs in ((rc', er, bs'), s <| sc_recvs := l |>)
  | ChannelSendEof _ => let '(rc, l) := pop 0 (sc_codes s) in (rc, s <| sc_codes := l |>)
  | ChannelClose _ => let '(rc, l) := pop 0 (sc_codes s) in (rc, s <| sc_codes := l |>)
  | ChannelFree _ => let '(rc, l) := pop 0 (sc_codes s) in (rc, s <| sc_codes := l |>)
  | ForwardAccept _ => let '(ch, l) := pop None (sc_chans s) in (ch, s <| sc_chans := l |>)
  | Socket => (Z.max (-1) (sc_other s Socket), s)
  | PsramFreeSize => (u32 (sc_other s PsramFreeSize), s)
  | PsramLargestBlock => (u32 (sc_other s PsramLargestBlock), s)
  | HeapFreeSize => (u32 (sc_other s HeapFreeSize), s)
  | HeapLargestBlock => (u32 (sc_other s HeapLargestBlock), s)
  | HostkeyHashSha256 x =>
      (match sc_other s (HostkeyHashSha256 x) with
       | Some bs => if (length bs =? 32)%nat then Some bs else None
       | None => None
       end, s)
  | c' => (sc_other s c', s)
  end.

Lemma clamp_read_ok n rc bs :
  0 <= n -> let '(rc', bs') := clamp_read n rc bs in
  rc' <= n /\ (0 < rc' -> zlen bs' = rc').
Proof.
  intros Hn. unfold clamp_read. destruct (Z.leb_spec rc 0); simpl; [lia|].
  unfold ztake. rewrite length_take. lia.
Qed.

Lemma script_answer_ok c s : call_ok c (fst (script_answer c s)).
Proof.
  destruct c; try done; simpl; try apply u32_bound.
  - destruct (sc_reads s) as [|p l]; simpl.
    + intros. split; simpl; lia.
    + pose proof (clamp_read_ok n (fst p) (snd p)).
      by destruct (clamp_read n (fst p) (snd p)).
  - destruct (sc_writes s); simpl; lia.
  - destruct (sc_other s (HostkeyHashSha256 s0)) as [bs|]; [|done].
    destruct (length bs =? 32)%nat eqn:E; [|done].
    intros ? [= <-]. by apply Nat.eqb_eq.
  - lia.
  - destruct (sc_sends s) as [|[] ]; simpl; lia.
  - destruct (sc_recvs s) as [|[[rc er] bs] l]; simpl.
    + intros. split; simpl; lia.
    + pose proof (clamp_read_ok n rc bs). by destruct (clamp_read n rc bs).
Qed.

#[export] Instance script_platform : Platform script := {|
  answer := script_answer;
  answer_ok := script_answer_ok;
|}.

(** libssh2's and lwIP's constants, a 1 kHz tick, the default prepend size. *)
Definition esp32_target : Target := {|
  LIBSSH2_ERROR_EAGAIN := -37;
  LIBSSH2_ERROR_CHANNEL_UNKNOWN := -23;
  LIBSSH2_ERROR_CHANNEL_CLOSED := -26;
  LIBSSH2_ERROR_SOCKET_SEND := -7;
  LIBSSH2_ERROR_SOCKET_DISCONNECT := -13;
  EAGAIN := 11; EWOULDBLOCK := 11; EINPROGRESS := 119;
  LIBSSH2_HOSTKEY_TYPE_RSA := 1; LIBSSH2_HOSTKEY_TYPE_DSS := 2;
  LIBSSH2_HOSTKEY_TYPE_ECDSA_256 := 3; LIBSSH2_HOSTKEY_TYPE_ECDSA_384 := 4;
  LIBSSH2_HOSTKEY_TYPE_ECDSA_521 := 5; LIBSSH2_HOSTKEY_TYPE_ED25519 := 6;
  pdMS_TO_TICKS ms := ms; portMAX_DELAY := 4294967295; O_NONBLOCK := 1;
  sizeof_StaticRingbuffer := 60; sizeof_ChannelSlot := 280;
  SSH_TUNNEL_PREPEND_CAPACITY := 8192;
  eagain_negative := ltac:(lia);
  prepend_capacity_range := ltac:(lia);
|}.
