(* ===== verification/Handles.v ===== *)
(** * The life of channel handles, and what a component owns

    libssh2 hands out channel handles with [forward_accept] and takes them back
    when the channel or its session is freed; a call of [session_free] ends
    them all whatever it answers, since it may have freed any of them before it
    asked to try again.  [life_run] follows one handle
    through a trace: using it when it is not alive is [Misused]; the library
    handing out a handle that is still alive is [Reused], which it never does
    ([fresh]).  [moves] says how a run changes what a component owns, a list of
    live channels and a list of open sockets, whatever anybody else owns. *)

From stdpp Require Import sets.
From S2P Require Import Prelude Platform.

Inductive life := Dead | Alive | Reused | Misused.
#[export] Instance life_eq_dec : EqDecision life.
Proof. solve_decision. Defined.

Section Life.
Context {T : Target}.

(** A call that uses the handle [c]. *)
Definition use (l : life) : life := match l with Dead => Misused | l => l end.

Definition life_step (c : chan) (l : life) (ev : event) : life :=
  match l with
  | Reused | Misused => l
  | _ =>
      match ev with
      | Event cl r =>
          match cl return ret_of cl -> life with
          | ForwardAccept _ => fun o =>
              if bool_decide (o = Some c) then match l with Dead => Alive | _ => Reused end else l
          | SessionFree _ => fun _ => Dead
          | ChannelFree c' => fun rc =>
              if c' =? c then
                match l with
                | Dead => Misused
                | _ => if rc =? LIBSSH2_ERROR_EAGAIN then l else Dead
                end
              else l
          | cl' => fun _ => if bool_decide (call_chan cl' = Some c) then use l else l
          end r
      end
  end.

Definition life_run (c : chan) : life -> list event -> life := foldl (life_step c).

(** What the world knows about every handle, before and after a run. *)
Definition lives : Type := chan -> life.
Definition after (C : lives) (evs : list event) : lives := fun c => life_run c (C c) evs.

(** libssh2 hands out no handle that is still alive. *)
Definition fresh (C : lives) (evs : list event) : Prop := forall c, after C evs c <> Reused.

Lemma after_app C e1 e2 c : after C (e1 ++ e2) c = after (after C e1) e2 c.
Proof. apply foldl_app. Qed.

Lemma life_stuck c l evs : l = Reused \/ l = Misused -> life_run c l evs = l.
Proof. intros H. induction evs as [|ev evs IH]; [done|]. by destruct H as [->| ->]. Qed.

Lemma fresh_app C e1 e2 : fresh C (e1 ++ e2) -> fresh C e1 /\ fresh (after C e1) e2.
Proof.
  intros H. split; intros c; specialize (H c); rewrite after_app in H; [|done].
  intros E. apply H. unfold after at 1. rewrite E. apply life_stuck. by left.
Qed.

(** Events that say nothing about [c]. *)
Definition concerns (c : chan) (ev : event) : bool :=
  match ev with
  | Event cl r =>
      match cl return ret_of cl -> bool with
      | ForwardAccept _ => fun o => bool_decide (o = Some c)
      | SessionFree _ => fun _ => true
      | cl' => fun _ => bool_decide (call_chan cl' = Some c)
      end r
  end.

Lemma life_unconcerned c l evs : Forall (fun ev => concerns c ev = false) evs -> life_run c l evs = l.
Proof.
  intros H. induction H as [|[cl r] evs Hev _ IH]; [done|]. change (life_run c l (Event cl r :: evs)) with
    (life_run c (life_step c l (Event cl r)) evs).
  assert (life_step c l (Event cl r) = l) as ->; [|done].
  unfold concerns in Hev. destruct l, cl; try done; cbn in *; try (by rewrite Hev);
    rewrite bool_decide_eq_false in Hev; destruct (Z.eqb_spec c0 c); congruence.
Qed.

(** ** Ownership *)

(** The channels a component holds are alive and held once, and no handle has
    been misused. *)
Record coherent (C : lives) (held : list chan) : Prop := {
  co_nodup : NoDup held;
  co_alive : forall c, c ∈ held -> C c = Alive;
  co_known : forall c, C c = Dead \/ C c = Alive;
}.

Lemma coherent_perm C l1 l2 : l1 ≡ₚ l2 -> coherent C l1 -> coherent C l2.
Proof.
  intros E [H1 H2 H3]. split; [by rewrite <- E|intros c Hc; apply H2; by rewrite E|done].
Qed.

Lemma coherent_ext C C' l : (forall c, C' c = C c) -> coherent C l -> coherent C' l.
Proof. intros E [H1 H2 H3]. split; [done|intros c Hc; rewrite E; by apply H2|intros c; by rewrite E]. Qed.

(** A run takes the channels [held] to [held'], whatever else is held by others. *)
Definition chan_moves (held : list chan) (evs : list event) (held' : list chan) : Prop :=
  forall C rest, coherent C (held ++ rest) -> fresh C evs -> coherent (after C evs) (held' ++ rest).

(** No socket is lost: what was held or opened is closed or held. *)
Definition sock_moves (held : list Z) (evs : list event) (held' : list Z) : Prop :=
  held ++ opened evs ≡ₚ closed evs ++ held'.

Lemma chan_moves_refl l : chan_moves l [] l.
Proof. intros C rest H _. exact H. Qed.

Lemma chan_moves_trans l1 l2 l3 e1 e2 :
  chan_moves l1 e1 l2 -> chan_moves l2 e2 l3 -> chan_moves l1 (e1 ++ e2) l3.
Proof.
  intros H1 H2 C rest Hc Hf. apply fresh_app in Hf as [F1 F2].
  eapply coherent_ext; [intros c; apply after_app|]. eauto.
Qed.

#[export] Instance chan_moves_proper :
  Proper ((≡ₚ) ==> (=) ==> (≡ₚ) ==> iff) chan_moves.
Proof.
  intros l1 l1' E1 ev ? <- l2 l2' E2.
  split; intros H C rest Hc Hf; (eapply coherent_perm; [|apply H; [|done]]).
  - by rewrite E2.
  - eapply coherent_perm; [|exact Hc]. by rewrite E1.
  - by rewrite <- E2.
  - eapply coherent_perm; [|exact Hc]. by rewrite E1.
Qed.

Lemma chan_moves_frame l evs l' k : chan_moves l evs l' -> chan_moves (l ++ k) evs (l' ++ k).
Proof. intros H C rest Hc Hf. rewrite <- app_assoc in *. by apply H. Qed.

Lemma chan_moves_drop l l' : l' ⊆+ l -> chan_moves l [] l'.
Proof.
  intros [k E]%submseteq_Permutation C rest [H1 H2 H3] _. split; [|intros c Hc; apply H2|done].
  - rewrite E in H1. apply list.NoDup_app in H1 as (H1 & Hd & Hr). apply list.NoDup_app in H1 as (H1 & _ & _).
    apply list.NoDup_app. split_and!; [done|set_solver|done].
  - rewrite E. apply elem_of_app in Hc as [?|?]; set_solver.
Qed.

(** Calls that concern no channel at all, and the end of a session, are the
    two ways in which every handle is treated alike. *)
Definition calm (ev : event) : bool :=
  match ev_call ev with
  | ForwardAccept _ | SessionFree _ => false
  | cl => match call_chan cl with Some _ => false | None => true end
  end.

Lemma calm_concerns c ev : calm ev = true -> concerns c ev = false.
Proof. destruct ev as [[] r]; done. Qed.

Lemma after_calm C evs c : Forall (fun ev => calm ev = true) evs -> after C evs c = C c.
Proof.
  intros H. apply life_unconcerned.
  eapply Forall_impl; [|exact H]. intros ev. apply calm_concerns.
Qed.

Lemma chan_moves_unconcerned l evs :
  (forall c, Forall (fun ev => concerns c ev = false) evs) -> chan_moves l evs l.
Proof. intros H C rest Hc _. eapply coherent_ext; [|exact Hc]. intros c. by apply life_unconcerned. Qed.

Lemma chan_moves_calm l evs : Forall (fun ev => calm ev = true) evs -> chan_moves l evs l.
Proof.
  intros H. apply chan_moves_unconcerned. intros c. eapply Forall_impl; [|exact H].
  intros ev. apply calm_concerns.
Qed.

(** Uses of a held channel. *)
Definition uses (c : chan) (ev : event) : bool :=
  match ev_call ev with
  | ForwardAccept _ | SessionFree _ | ChannelFree _ => false
  | cl => bool_decide (call_chan cl = None \/ call_chan cl = Some c)
  end.

Lemma uses_other c c' ev : uses c ev = true -> c' <> c -> concerns c' ev = false.
Proof.
  destruct ev as [cl r]. unfold uses. intros H Hne.
  destruct cl; cbn in *; try done; apply bool_decide_eq_true in H; apply bool_decide_eq_false; intuition congruence.
Qed.

Lemma uses_alive c evs : Forall (fun ev => uses c ev = true) evs -> life_run c Alive evs = Alive.
Proof.
  intros H. induction H as [|[cl r] evs Hev _ IH]; [done|].
  change (life_run c Alive (Event cl r :: evs)) with (life_run c (life_step c Alive (Event cl r)) evs).
  assert (life_step c Alive (Event cl r) = Alive) as ->; [|done].
  unfold uses in Hev. destruct cl; cbn in *; try done; by repeat case_match.
Qed.

Lemma chan_moves_use c l evs : Forall (fun ev => uses c ev = true) evs -> chan_moves (c :: l) evs (c :: l).
Proof.
  intros Hu C rest [H1 H2 H3] _.
  assert (forall d, after C evs d = C d) as E.
  { intros d. destruct (decide (d = c)) as [->|Hne].
    - unfold after. rewrite (H2 c) by set_solver. by apply uses_alive.
    - apply life_unconcerned. eapply Forall_impl; [|exact Hu]. intros ev Hev. exact (uses_other c d ev Hev Hne). }
  split; [done|intros d Hd; rewrite E; by apply H2|intros d; by rewrite E].
Qed.

(** Freeing a held channel: it is gone, or at worst lost when the library asked
    to try again. *)
Lemma chan_moves_free c l rc : chan_moves (c :: l) [Event (ChannelFree c) rc] l.
Proof.
  intros C rest [H1 H2 H3] _. change ((c :: l) ++ rest) with (c :: (l ++ rest)) in *.
  apply list.NoDup_cons in H1 as [Hn H1].
  assert (forall d, d <> c -> after C [Event (ChannelFree c) rc] d = C d) as E.
  { intros d Hne. unfold after, life_run. cbn. destruct (C d); cbn; (done || by rewrite (proj2 (Z.eqb_neq c d)) by congruence). }
  split; [done| |].
  - intros d Hd. rewrite E; [apply H2; by right|]. by intros ->.
  - intros d. destruct (decide (d = c)) as [->|Hne]; [|by rewrite E].
    unfold after. rewrite (H2 c) by by left. cbn. rewrite Z.eqb_refl.
    destruct (rc =? _); auto.
Qed.

Lemma chan_moves_retry c l rc : (rc =? LIBSSH2_ERROR_EAGAIN) = true ->
  chan_moves (c :: l) [Event (ChannelFree c) rc] (c :: l).
Proof.
  intros Hrc C rest [H1 H2 H3] _.
  assert (forall d, after C [Event (ChannelFree c) rc] d = C d) as E.
  { intros d. unfold after. destruct (decide (d = c)) as [->|Hne].
    - rewrite (H2 c) by by left. cbn. by rewrite Z.eqb_refl, Hrc.
    - apply life_unconcerned. constructor; [|constructor]. apply bool_decide_eq_false. cbn. congruence. }
  split; [done|intros d Hd; rewrite E; by apply H2|intros d; by rewrite E].
Qed.

(** Receiving a channel. *)
Lemma chan_moves_accept h c l : chan_moves l [Event (ForwardAccept h) (Some c)] (c :: l).
Proof.
  intros C rest [H1 H2 H3] Hf. set (evs := [_]) in *.
  assert (C c = Dead) as Hd.
  { specialize (Hf c). destruct (H3 c) as [|E]; [done|]. exfalso. apply Hf. unfold after, evs.
    rewrite E. unfold life_run. cbn. by rewrite bool_decide_eq_true_2. }
  assert (after C evs c = Alive) as Ec.
  { unfold after, evs. rewrite Hd. unfold life_run. cbn. by rewrite bool_decide_eq_true_2. }
  assert (forall d, d <> c -> after C evs d = C d) as E.
  { intros d Hne. apply life_unconcerned. constructor; [|constructor]. apply bool_decide_eq_false. congruence. }
  assert (c ∉ l ++ rest) as Hn by (intros Hin; rewrite (H2 c Hin) in Hd; discriminate).
  split; [by apply list.NoDup_cons| |].
  - intros d [->|Hin]%elem_of_cons; [done|]. rewrite E; [by apply H2|]. by intros ->.
  - intros d. destruct (decide (d = c)) as [->|]; [by right|]. by rewrite E.
Qed.

(** Polling for channels: no use of any, and the session stays. *)
Definition gentle (ev : event) : bool :=
  match ev_call ev with
  | SessionFree _ => false
  | cl => match call_chan cl with Some _ => false | None => true end
  end.

Definition ev_accepted (ev : event) : list chan :=
  match ev with
  | Event cl r =>
      match cl return ret_of cl -> list chan with
      | ForwardAccept _ => fun o => option_list o
      | _ => fun _ => []
      end r
  end.
Definition accepted (evs : list event) : list chan := evs ≫= ev_accepted.

Lemma accepted_app e1 e2 : accepted (e1 ++ e2) = accepted e1 ++ accepted e2.
Proof. apply bind_app. Qed.

Lemma calm_accepted evs : Forall (fun ev => calm ev = true) evs -> accepted evs = [].
Proof.
  induction 1 as [|[cl r] evs Hev _ IH]; [done|]. unfold accepted in *. rewrite bind_cons, IH. by destruct cl.
Qed.

Lemma uses_accepted c evs : Forall (fun ev => uses c ev = true) evs -> accepted evs = [].
Proof.
  induction 1 as [|[cl r] evs Hev _ IH]; [done|]. unfold accepted in *. rewrite bind_cons, IH. by destruct cl.
Qed.

Lemma chan_moves_gentle l evs : forallb gentle evs = true -> chan_moves l evs (accepted evs ++ l).
Proof.
  revert l. induction evs as [|[cl r] evs IH]; intros l H; [apply chan_moves_refl|].
  cbn [forallb] in H. apply andb_true_iff in H as [Hg H]. change (Event cl r :: evs) with ([Event cl r] ++ evs).
  rewrite accepted_app. eapply chan_moves_trans; [|rewrite <- app_assoc, Permutation_app_swap_app; by apply IH].
  destruct (decide (ev_accepted (Event cl r) = [])) as [E|E].
  - unfold accepted. cbn [mbind list_bind]. rewrite E. apply chan_moves_unconcerned. intros c.
    constructor; [|constructor]. destruct cl; try done. by destruct r.
  - destruct cl; try done. destruct r as [c|]; [|done]. apply chan_moves_accept.
Qed.

(** A library that never hands out the same handle twice is well behaved. *)
Lemma life_step_reused c l ev : life_step c l ev = Reused ->
  l = Reused \/ (l = Alive /\ c ∈ ev_accepted ev).
Proof.
  destruct l, ev as [[] r]; cbn; intros H; repeat case_match; try discriminate; try (by left); try (by right);
    right; (split; [done|]); apply bool_decide_eq_true in H0; subst; by left.
Qed.

Lemma life_step_alive c l ev : life_step c l ev = Alive -> l = Alive \/ (l = Dead /\ c ∈ ev_accepted ev).
Proof.
  destruct l, ev as [[] r]; cbn; intros H; repeat case_match; try discriminate; try (by left); try (by right);
    right; (split; [done|]); apply bool_decide_eq_true in H0; subst; by left.
Qed.

Lemma accepted_once evs : NoDup (accepted evs) -> fresh (fun _ => Dead) evs.
Proof.
  intros Hn c. unfold after. assert (forall l, l <> Reused -> (l = Alive -> c ∉ accepted evs) -> life_run c l evs <> Reused) as H.
  { induction evs as [|ev evs IH]; intros l Hl Ha; [done|].
    change (ev :: evs) with ([ev] ++ evs) in *. rewrite accepted_app in *.
    assert (accepted [ev] = ev_accepted ev) as E by (unfold accepted; cbn; by rewrite app_nil_r).
    rewrite E in *. apply list.NoDup_app in Hn as (N1 & N2 & N3).
    change (life_run c l ([ev] ++ evs)) with (life_run c (life_step c l ev) evs). apply IH; [done| |].
    - intros [->|[-> Hc]]%life_step_reused; [done|]. apply (Ha eq_refl). apply elem_of_app. by left.
    - intros [->|[-> Hc]]%life_step_alive; [|by apply N2]. intros Hc. apply (Ha eq_refl). apply elem_of_app. by right. }
  by apply H.
Qed.

(** The end of the session ends every channel. *)
Definition is_session_free (ev : event) : bool :=
  match ev_call ev with SessionFree _ => true | _ => false end.
Definition session_freed (evs : list event) : bool := existsb is_session_free evs.

Lemma session_freed_app e1 e2 : session_freed (e1 ++ e2) = session_freed e1 || session_freed e2.
Proof. apply existsb_app. Qed.

(** Runs that neither accept nor use a channel. *)
Definition no_channel (ev : event) : bool :=
  match ev_call ev with
  | ForwardAccept _ => false
  | cl => match call_chan cl with Some _ => false | None => true end
  end.

Lemma after_no_channel C evs c :
  Forall (fun ev => no_channel ev = true) evs -> C c = Dead \/ C c = Alive ->
  after C evs c = if session_freed evs then Dead else C c.
Proof.
  intros H. unfold after. generalize (C c). induction H as [|[cl r] evs Hev _ IH]; intros l Hl; [done|].
  change (life_run c l (Event cl r :: evs)) with (life_run c (life_step c l (Event cl r)) evs).
  change (session_freed (Event cl r :: evs)) with (is_session_free (Event cl r) || session_freed evs).
  assert (life_step c l (Event cl r) = if is_session_free (Event cl r) then Dead else l) as ->.
  { destruct cl; try discriminate Hev; by destruct Hl as [->| ->]. }
  destruct (is_session_free _); cbn [orb]; rewrite IH by auto; [by destruct (session_freed evs)|done].
Qed.

End Life.

(** ** Assets *)

Section Assets.
Context {T : Target}.

Record assets := Assets { a_chans : list chan; a_fds : list Z }.

(** A run that accepts no channel. *)
Record moves (a : assets) (evs : list event) (a' : assets) : Prop := {
  mv_chans : chan_moves (a_chans a) evs (a_chans a');
  mv_socks : sock_moves (a_fds a) evs (a_fds a');
  mv_accepted : accepted evs = [];
}.

Definition aequiv (a b : assets) : Prop := a_chans a ≡ₚ a_chans b /\ a_fds a ≡ₚ a_fds b.

#[export] Instance aequiv_equivalence : Equivalence aequiv.
Proof.
  split; unfold aequiv; [done|intros a b [H1 H2]; by split|].
  intros a b c [H1 H2] [H3 H4]. split; by etrans.
Qed.

#[export] Instance sock_moves_proper : Proper ((≡ₚ) ==> (=) ==> (≡ₚ) ==> iff) sock_moves.
Proof. intros a a' E1 e ? <- b b' E2. unfold sock_moves. by rewrite E1, E2. Qed.

#[export] Instance moves_proper : Proper (aequiv ==> (=) ==> aequiv ==> iff) moves.
Proof.
  intros a a' [E1 E2] e ? <- b b' [E3 E4].
  split; intros [H1 H2 H3]; (split; [..|done]); [by rewrite <- E1, <- E3|by rewrite <- E2, <- E4|
    by rewrite E1, E3|by rewrite E2, E4].
Qed.

Lemma moves_refl a : moves a [] a.
Proof. split; [apply chan_moves_refl| |done]. unfold sock_moves. by rewrite app_nil_r. Qed.

Lemma sock_moves_trans l1 l2 l3 e1 e2 :
  sock_moves l1 e1 l2 -> sock_moves l2 e2 l3 -> sock_moves l1 (e1 ++ e2) l3.
Proof.
  unfold sock_moves. intros H1 H2. rewrite opened_app, closed_app, app_assoc, H1, <- !app_assoc. by rewrite H2.
Qed.

Lemma moves_trans a b c e1 e2 : moves a e1 b -> moves b e2 c -> moves a (e1 ++ e2) c.
Proof.
  intros [H1 H2 A1] [H3 H4 A2].
  split; [by eapply chan_moves_trans|by eapply sock_moves_trans|by rewrite accepted_app, A1].
Qed.

(** Owning [k] besides. *)
Definition also (k a : assets) : assets := Assets (a_chans a ++ a_chans k) (a_fds a ++ a_fds k).

#[export] Instance also_proper : Proper (aequiv ==> aequiv ==> aequiv) also.
Proof. intros k k' [H1 H2] a a' [H3 H4]. split; cbn; [by rewrite H1, H3|by rewrite H2, H4]. Qed.

Lemma moves_frame k a evs b : moves a evs b -> moves (also k a) evs (also k b).
Proof.
  intros [H1 H2 H3]. split; [by apply chan_moves_frame| |done]. unfold sock_moves in *. cbn.
  rewrite <- app_assoc, (Permutation_app_comm (a_fds k)), app_assoc, H2. by rewrite <- app_assoc.
Qed.

(** Calls that touch neither channels nor the set of open sockets. *)
Lemma moves_silent a evs :
  Forall (fun ev => calm ev = true) evs -> opened evs = [] -> closed evs = [] -> moves a evs a.
Proof.
  intros H1 H2 H3. split; [by apply chan_moves_calm| |by apply calm_accepted].
  unfold sock_moves. by rewrite H2, H3, app_nil_r.
Qed.

(** Without a channel accepted, what was dead stays dead, and nothing comes to
    be owned from nothing. *)
Lemma dead_stays C evs c : accepted evs = [] -> C c = Dead ->
  after C evs c = Dead \/ after C evs c = Misused.
Proof.
  unfold after. intros Ha Hc. rewrite Hc. clear Hc. revert Ha. induction evs as [|[cl r] evs IH]; intros Ha; [by left|].
  change (Event cl r :: evs) with ([Event cl r] ++ evs) in Ha. rewrite accepted_app in Ha.
  apply app_eq_nil in Ha as [Ha1 Ha2].
  change (life_run c Dead (Event cl r :: evs)) with (life_run c (life_step c Dead (Event cl r)) evs).
  assert (life_step c Dead (Event cl r) = Dead \/ life_step c Dead (Event cl r) = Misused) as [->| ->].
  { destruct cl; cbn; try (case_match; auto; fail); auto. destruct r as [d|]; [discriminate Ha1|by left]. }
  - by apply IH.
  - right. apply life_stuck. by right.
Qed.

Lemma moves_dead C evs a a' : moves a evs a' -> a_chans a = [] -> (forall c, C c = Dead) ->
  (forall c, after C evs c = Dead) /\ a_chans a' = [].
Proof.
  intros [H1 _ Ha] Hn HC.
  assert (coherent C []) as Hc by (split; [constructor|by intros c Hc%elem_of_nil|auto]).
  assert (fresh C evs) as Hf.
  { intros c E. destruct (dead_stays C evs c Ha (HC c)); congruence. }
  rewrite Hn in H1. specialize (H1 C [] Hc Hf). rewrite app_nil_r in H1. destruct H1 as [_ H2 H3].
  assert (forall c, after C evs c = Dead) as Hd.
  { intros c. destruct (dead_stays C evs c Ha (HC c)) as [|E]; [done|]. destruct (H3 c); congruence. }
  split; [done|]. destruct (a_chans a') as [|c l]; [done|]. exfalso.
  specialize (Hd c). rewrite (H2 c) in Hd by by left. discriminate.
Qed.

End Assets.
