(* ===== verification/Policies.v ===== *)
(** * The header-only decision procedures

    One Module per header of src/src that holds pure decision logic: slot
    choice (channel_slot_alloc.h), inactivity (channel_timeout.h), the heap
    admission guard (channel_memory_guard.h), the retry progress of a channel
    teardown (channel_close_progress.h), the classification of accept errors
    (forward_accept_error.h) and the accept statistics (forward_accept_diag.h).
    All arithmetic is on 32-bit words. *)

From S2P Require Import Prelude.

(** ** channel_slot_alloc.h *)
Module SlotAlloc.

Definition FINALIZE_COOLDOWN_MS : Z := 50.

(** The two fields the template asks of a slot type. *)
Class SlotLike (Slot : Type) := {
  slot_active : Slot -> bool;
  slot_lastFinalizeMs : Slot -> Z;
}.

Section FindFreeSlot.
Context {Slot : Type} {SL : SlotLike Slot}.

(** The loop body's two [continue] tests. *)
Definition allocatable (now cooldown_ms : Z) (s : Slot) : bool :=
  if slot_active s then false
  else if negb (slot_lastFinalizeMs s =? 0) &&
          (u32_sub now (slot_lastFinalizeMs s) <? cooldown_ms) then false
  else true.

Fixpoint findFreeSlot_from (i : Z) (slots : list Slot) (now cooldown_ms : Z) : Z :=
  match slots with
  | [] => -1
  | s :: slots' =>
      if allocatable now cooldown_ms s then i
      else findFreeSlot_from (i + 1) slots' now cooldown_ms
  end.

(** [slots] is [None] for a null array. *)
Definition findFreeSlot (slots : option (list Slot)) (now cooldown_ms : Z) : Z :=
  match slots with
  | None => -1
  | Some l => findFreeSlot_from 0 l now cooldown_ms
  end.

Lemma findFreeSlot_from_spec i slots now cd :
  0 <= i ->
  let r := findFreeSlot_from i slots now cd in
  (r = -1 /\ Forall (fun s => allocatable now cd s = false) slots) \/
  (exists k s, r = i + Z.of_nat k /\ slots !! k = Some s /\ allocatable now cd s = true /\
     Forall (fun s => allocatable now cd s = false) (take k slots)).
Proof.
  revert i. induction slots as [|s slots IH]; intros i Hi; simpl; [by left|].
  destruct (allocatable now cd s) eqn:E.
  { right. exists 0%nat, s. split_and!; try done. lia. }
  destruct (IH (i + 1)) as [[-> H]|(k & s' & -> & Hk & Ha & Hf)]; [lia| |].
  { left. split; [done|]. by constructor. }
  right. exists (S k), s'. split_and!; try done; [lia|]. simpl. by constructor.
Qed.

End FindFreeSlot.
End SlotAlloc.

(** ** channel_timeout.h *)
Module Timeout.

Definition expired (now lastActivity timeoutMs : Z) : bool :=
  (0 <? timeoutMs) && (0 <? lastActivity) && (timeoutMs <? u32_sub now lastActivity).

End Timeout.

(** ** channel_memory_guard.h *)
Module MemoryGuard.

Record Requirements := mkRequirements { totalBytes : Z; largestBlockBytes : Z }.

Definition RESERVE_BYTES : Z := 8192.

Definition requirements (ringBufferBytes prependBufferBytes reserveBytes : Z) : Requirements :=
  mkRequirements
    (u32 (ringBufferBytes * 2 + prependBufferBytes * 2 + reserveBytes))
    (if prependBufferBytes <? ringBufferBytes then ringBufferBytes else prependBufferBytes).

Definition hasCapacity (totalFreeBytes largestFreeBlockBytes : Z) (r : Requirements) : bool :=
  (totalBytes r <=? totalFreeBytes) && (largestBlockBytes r <=? largestFreeBlockBytes).

Definition hasContiguousCapacity (largestFreeBlockBytes : Z) (r : Requirements) : bool :=
  totalBytes r <=? largestFreeBlockBytes.

End MemoryGuard.

(** ** channel_close_progress.h *)
Module CloseProgress.

Record Progress := mkProgress { closeComplete : bool; freeComplete : bool }.
#[export] Instance Progress_eta : Eta Progress := fun p =>
  mkProgress (closeComplete p) (freeComplete p).

Definition fresh_progress : Progress := mkProgress false false.

Definition recordCloseResult (p : Progress) (rc eagainCode : Z) : bool * Progress :=
  if rc =? eagainCode then (false, p) else (true, p <| closeComplete := true |>).

Definition readyForFree (p : Progress) : bool := closeComplete p.

Definition recordFreeResult (p : Progress) (rc eagainCode : Z) : bool * Progress :=
  if rc =? eagainCode then (false, p) else (true, p <| freeComplete := true |>).

Definition readyForFinalize (p : Progress) : bool := closeComplete p && freeComplete p.

End CloseProgress.

(** ** forward_accept_error.h *)
Module AcceptError.

Definition isBenignNoChannel (err eagainCode : Z) : bool := (err =? 0) || (err =? eagainCode).

Definition isFatal (err eagainCode channelUnknownCode channelClosedCode socketSendCode
    socketDisconnectCode : Z) : bool :=
  if isBenignNoChannel err eagainCode then false
  else (err =? channelUnknownCode) || (err =? channelClosedCode) ||
       (err =? socketSendCode) || (err =? socketDisconnectCode).

Definition shouldReconnectAfterConsecutiveErrors (consecutiveFatalErrors err eagainCode
    channelUnknownCode channelClosedCode socketSendCode socketDisconnectCode : Z) : bool :=
  (3 <=? consecutiveFatalErrors) &&
  isFatal err eagainCode channelUnknownCode channelClosedCode socketSendCode
    socketDisconnectCode.

End AcceptError.

(** ** forward_accept_diag.h *)
Module AcceptDiag.

Record Snapshot := mkSnapshot {
  s_pollsSinceAccept : Z;
  s_eagainSinceAccept : Z;
  s_errorsSinceAccept : Z;
  s_lockMissesSinceAccept : Z;
  s_totalPolls : Z;
  s_totalAccepts : Z;
  s_idleMs : Z;
  s_lastErr : Z;
}.

Record Tracker := mkTracker {
  totalPolls_ : Z;
  totalAccepts_ : Z;
  pollsSinceAccept_ : Z;
  eagainSinceAccept_ : Z;
  errorsSinceAccept_ : Z;
  lockMissesSinceAccept_ : Z;
  idleStartMs_ : Z;
  lastSummaryMs_ : Z;
  lastErr_ : Z;
}.
#[export] Instance Tracker_eta : Eta Tracker := fun t =>
  mkTracker (totalPolls_ t) (totalAccepts_ t) (pollsSinceAccept_ t) (eagainSinceAccept_ t)
    (errorsSinceAccept_ t) (lockMissesSinceAccept_ t) (idleStartMs_ t) (lastSummaryMs_ t)
    (lastErr_ t).

Definition reset : Tracker := mkTracker 0 0 0 0 0 0 0 0 0.

Definition elapsed (nowMs thenMs : Z) : Z := u32_sub nowMs thenMs.

Definition recordPoll (nowMs : Z) (t : Tracker) : Tracker :=
  let t1 := if idleStartMs_ t =? 0 then t <| idleStartMs_ := nowMs |> else t in
  t1 <| totalPolls_ := u32 (totalPolls_ t1 + 1) |>
     <| pollsSinceAccept_ := u32 (pollsSinceAccept_ t1 + 1) |>.

Definition recordNoChannel (err : Z) (isEagain : bool) (t : Tracker) : Tracker :=
  let t1 := t <| lastErr_ := err |> in
  if isEagain then t1 <| eagainSinceAccept_ := u32 (eagainSinceAccept_ t1 + 1) |>
  else if negb (err =? 0) then t1 <| errorsSinceAccept_ := u32 (errorsSinceAccept_ t1 + 1) |>
  else t1.

Definition recordLockUnavailable (nowMs : Z) (t : Tracker) : Tracker :=
  let t1 := if idleStartMs_ t =? 0 then t <| idleStartMs_ := nowMs |> else t in
  t1 <| lockMissesSinceAccept_ := u32 (lockMissesSinceAccept_ t1 + 1) |>.

Definition idleSummaryDue (nowMs intervalMs : Z) (t : Tracker) : bool :=
  if (pollsSinceAccept_ t =? 0) && (lockMissesSinceAccept_ t =? 0) then false
  else
    let last := if negb (lastSummaryMs_ t =? 0) then lastSummaryMs_ t else idleStartMs_ t in
    negb (last =? 0) && (intervalMs <=? elapsed nowMs last).

Definition markIdleSummary (nowMs : Z) (t : Tracker) : Tracker :=
  t <| lastSummaryMs_ := nowMs |>.

Definition snapshot (nowMs : Z) (t : Tracker) : Snapshot :=
  mkSnapshot (pollsSinceAccept_ t) (eagainSinceAccept_ t) (errorsSinceAccept_ t)
    (lockMissesSinceAccept_ t) (totalPolls_ t) (totalAccepts_ t)
    (if negb (idleStartMs_ t =? 0) then elapsed nowMs (idleStartMs_ t) else 0) (lastErr_ t).

Definition recordAccept (nowMs : Z) (t : Tracker) : Snapshot * Tracker :=
  let out := snapshot nowMs t in
  let accepts := u32 (totalAccepts_ t + 1) in
  (mkSnapshot (s_pollsSinceAccept out) (s_eagainSinceAccept out) (s_errorsSinceAccept out)
     (s_lockMissesSinceAccept out) (s_totalPolls out) accepts (s_idleMs out) (s_lastErr out),
   mkTracker (totalPolls_ t) accepts 0 0 0 0 0 0 0).

End AcceptDiag.
