(* ===== verification/Prepend.v ===== *)
(** * prepend_buffer.h: bytes put back in front of the main ring

    [PrependBuffer] does not own its storage: [buf_] is the bound storage, a
    block of [cap_] bytes, or [None] for a null pointer.  The pending bytes are
    those between [off_] and [len_].  The specification is a bounded byte
    string, [content]: [writeToFront] prepends to it when everything fits and
    refuses otherwise, [read] removes a prefix. *)

From S2P Require Import Prelude.

Record PrependBuffer := mkPrependBuffer {
  buf_ : option (list byte);
  cap_ : Z;
  len_ : Z;
  off_ : Z;
}.
#[export] Instance PrependBuffer_eta : Eta PrependBuffer := fun b =>
  mkPrependBuffer (buf_ b) (cap_ b) (len_ b) (off_ b).

(** [PrependBuffer() = default]. *)
Definition unbound : PrependBuffer := mkPrependBuffer None 0 0 0.

(** [memcpy(buf + at_, bs, n)] and [memmove(buf + dst, buf + src, n)] on a block. *)
Definition blit (at_ : Z) (bs st : list byte) : list byte :=
  ztake at_ st ++ bs ++ zdrop (at_ + zlen bs) st.

Definition memmove (dst src n : Z) (st : list byte) : list byte :=
  blit dst (ztake n (zdrop src st)) st.

Definition reset (storage : option (list byte)) (capacity : Z) (b : PrependBuffer)
  : PrependBuffer :=
  b <| buf_ := storage |> <| cap_ := capacity |> <| len_ := 0 |> <| off_ := 0 |>.

Definition empty (b : PrependBuffer) : bool := len_ b <=? off_ b.

Definition pending (b : PrependBuffer) : Z :=
  if off_ b <? len_ b then u32_sub (len_ b) (off_ b) else 0.

Definition isBound (b : PrependBuffer) : bool :=
  match buf_ b with Some _ => true | None => false end.

Definition clear (b : PrependBuffer) : PrependBuffer :=
  b <| len_ := 0 |> <| off_ := 0 |>.

(** [data] is [None] for a null pointer; the [len] argument is its length. *)
Definition writeToFront (data : option (list byte)) (b : PrependBuffer)
  : Z * PrependBuffer :=
  match buf_ b, data with
  | Some st, Some bs =>
      let len := zlen bs in
      if len =? 0 then (0, b) else
      let pendingLen := pending b in
      if u32_sub (cap_ b) pendingLen <? len then (0, b) else
      let st1 := if 0 <? pendingLen then memmove len (off_ b) pendingLen st else st in
      let st2 := blit 0 bs st1 in
      (len, b <| buf_ := Some st2 |> <| len_ := u32 (len + pendingLen) |> <| off_ := 0 |>)
  | _, _ => (0, b)
  end.

(** [out] tells whether the destination pointer is non-null; the answer is the
    count and the bytes copied to it. *)
Definition read (out : bool) (len : Z) (b : PrependBuffer)
  : Z * list byte * PrependBuffer :=
  match buf_ b with
  | Some st =>
      if negb out || (len =? 0) || (len_ b <=? off_ b) then (0, [], b) else
      let avail := u32_sub (len_ b) (off_ b) in
      let copy := if avail <? len then avail else len in
      let bs := ztake copy (zdrop (off_ b) st) in
      let off' := u32 (off_ b + copy) in
      let b' := b <| off_ := off' |> in
      (copy, bs, if len_ b' <=? off_ b' then b' <| len_ := 0 |> <| off_ := 0 |> else b')
  | None => (0, [], b)
  end.

(** ** Invariant and specification *)

(** The storage has [cap_] bytes and the indices are ordered inside it. *)
Definition inv (b : PrependBuffer) : Prop :=
  0 <= cap_ b < 2 ^ 32 /\ 0 <= off_ b <= len_ b /\ len_ b <= cap_ b /\
  match buf_ b with Some st => zlen st = cap_ b | None => len_ b = 0 end.

Definition content (b : PrependBuffer) : list byte :=
  match buf_ b with
  | Some st => ztake (len_ b - off_ b) (zdrop (off_ b) st)
  | None => []
  end.

Lemma blit_length at_ bs st :
  0 <= at_ -> at_ + zlen bs <= zlen st -> zlen (blit at_ bs st) = zlen st.
Proof. intros. unfold blit. zlia. Qed.

Lemma pending_content b : inv b -> pending b = zlen (content b).
Proof.
  intros (Hc & Ho & Hl & Hs). unfold pending, content, u32_sub.
  destruct (Z.ltb_spec (off_ b) (len_ b)).
  - rewrite u32_small by lia. destruct (buf_ b); zlia.
  - destruct (buf_ b); zlia.
Qed.

Lemma content_length_le b : inv b -> zlen (content b) <= cap_ b.
Proof.
  intros (Hc & Ho & Hl & Hs). unfold content. destruct (buf_ b); zlia.
Qed.

Lemma unbound_content b : isBound b = false -> content b = [].
Proof. unfold isBound, content. by destruct (buf_ b). Qed.

Lemma empty_content b : inv b -> empty b = bool_decide (content b = []).
Proof.
  intros Hi. pose proof (pending_content b Hi) as Hp. unfold pending, u32_sub, empty in *.
  destruct Hi as (Hc & Ho & Hl & Hs).
  destruct (Z.leb_spec (len_ b) (off_ b)); destruct (Z.ltb_spec (off_ b) (len_ b)); try lia.
  - symmetry. apply bool_decide_eq_true. by apply zlen_0.
  - rewrite u32_small in Hp by lia. symmetry. apply bool_decide_eq_false.
    intros E%zlen_0. lia.
Qed.

Lemma reset_spec st b :
  0 <= zlen st < 2 ^ 32 ->
  inv (reset (Some st) (zlen st) b) /\ content (reset (Some st) (zlen st) b) = [].
Proof. intros. split; [unfold inv; simpl; lia | by apply ztake_nonpos]. Qed.

Lemma unbound_spec : inv unbound /\ content unbound = [].
Proof. split; [unfold inv; simpl; lia | done]. Qed.

Lemma clear_spec b : inv b -> inv (clear b) /\ content (clear b) = [].
Proof.
  intros (Hc & Ho & Hl & Hs). split.
  - unfold inv, clear. simpl. destruct (buf_ b); lia.
  - unfold content, clear. simpl. destruct (buf_ b); [by apply ztake_nonpos|done].
Qed.

(** The block after [writeToFront]: the new bytes, then the pending ones. *)
Lemma put_in_front_of_pending bs off n st :
  0 <= off -> 0 <= n -> off + n <= zlen st -> zlen bs + n <= zlen st ->
  let st1 := if 0 <? n then memmove (zlen bs) off n st else st in
  let st2 := blit 0 bs st1 in
  zlen st2 = zlen st /\ ztake (zlen bs + n) st2 = bs ++ ztake n (zdrop off st).
Proof.
  intros Hoff Hn Hsrc Hdst. set (p := ztake n (zdrop off st)).
  assert (zlen p = n) as Hp by (unfold p; zlia).
  assert (forall st1, zlen st1 = zlen st -> ztake n (zdrop (zlen bs) st1) = p ->
    zlen (blit 0 bs st1) = zlen st /\ ztake (zlen bs + n) (blit 0 bs st1) = bs ++ p) as Hgen.
  { intros st1 H1 H2. split; [rewrite blit_length; lia|].
    unfold blit. rewrite (ztake_nonpos 0) by lia. simpl. rewrite Z.add_0_l.
    rewrite <- (ztake_zdrop n (zdrop (zlen bs) st1)), H2, app_assoc.
    apply ztake_app_exact. zlia. }
  destruct (Z.ltb_spec 0 n) as [Hpos|Hz]; apply Hgen.
  - unfold memmove. fold p. rewrite blit_length; lia.
  - unfold memmove. fold p. unfold blit. rewrite zdrop_app_exact by zlia.
    by apply ztake_app_exact.
  - done.
  - assert (n = 0) by lia. assert (p = []) as -> by (apply zlen_0; lia).
    by apply ztake_nonpos; lia.
Qed.

(** Both outcomes of [writeToFront] at once. *)
Lemma prepend_writeToFront_ok bs b :
  inv b -> zlen bs < 2 ^ 32 ->
  let '(r, b') := writeToFront (Some bs) b in
  inv b' /\ cap_ b' = cap_ b /\ isBound b' = isBound b /\
  if isBound b && (0 <? zlen bs) && (zlen bs + zlen (content b) <=? cap_ b)
  then r = zlen bs /\ content b' = bs ++ content b
  else r = 0 /\ b' = b.
Proof.
  intros Hi Hlen. pose proof (pending_content b Hi) as Hp.
  pose proof (content_length_le b Hi) as Hle. pose proof Hi as (Hc & Ho & Hl & Hs).
  unfold writeToFront, isBound. destruct (buf_ b) as [st|] eqn:Hb; [|by rewrite Hb].
  destruct (Z.eqb_spec (zlen bs) 0) as [Hz|Hz].
  { replace (0 <? zlen bs) with false by (symmetry; lia). by rewrite Hb. }
  replace (0 <? zlen bs) with true by (symmetry; lia). rewrite Hp.
  unfold u32_sub. rewrite u32_small by lia. simpl.
  destruct (Z.ltb_spec (cap_ b - zlen (content b)) (zlen bs)) as [Hbig|Hfit].
  { replace (_ <=? _) with false by (symmetry; lia). by rewrite Hb. }
  replace (_ <=? _) with true by (symmetry; lia).
  rewrite u32_small by lia.
  assert (content b = ztake (len_ b - off_ b) (zdrop (off_ b) st)) as Hcont
    by (unfold content; by rewrite Hb).
  assert (zlen (content b) = len_ b - off_ b) as Hlc by (rewrite Hcont; zlia).
  destruct (put_in_front_of_pending bs (off_ b) (zlen (content b)) st) as [H1 H2]; [lia..|].
  split; [|split; [done|split; [done|split; [done|]]]].
  - unfold inv. simpl. lia.
  - unfold content at 1. simpl. rewrite Z.sub_0_r, zdrop_nonpos by lia.
    rewrite H2, Hlc, <- Hcont. done.
Qed.

Lemma prepend_read_ok len b :
  inv b -> 0 <= len < 2 ^ 32 ->
  let '(r, bs, b') := read true len b in
  inv b' /\ cap_ b' = cap_ b /\ isBound b' = isBound b /\
  r = Z.min len (zlen (content b)) /\
  bs = ztake len (content b) /\ content b' = zdrop len (content b).
Proof.
  intros Hi Hlen. pose proof Hi as (Hc & Ho & Hl & Hs). unfold read, isBound, content.
  destruct (buf_ b) as [st|] eqn:Hb; simpl.
  2:{ rewrite Hb. unfold ztake, zdrop. rewrite take_nil, drop_nil. simpl. split_and!; done || lia. }
  destruct (Z.eqb_spec len 0) as [->|Hz]; simpl.
  { rewrite Hb. rewrite !(ztake_nonpos 0), !(zdrop_nonpos 0) by lia. split_and!; done || zlia. }
  destruct (Z.leb_spec (len_ b) (off_ b)) as [Hemp|Hne]; simpl.
  { rewrite Hb. rewrite !(ztake_nonpos (len_ b - off_ b)) by lia.
    unfold ztake, zdrop. rewrite take_nil, drop_nil. split_and!; done || (simpl; lia). }
  unfold u32_sub. rewrite (u32_small (len_ b - off_ b)) by lia.
  set (copy := if _ <? len then _ else len).
  assert (copy = Z.min len (len_ b - off_ b)) as Hcopy.
  { unfold copy. destruct (Z.ltb_spec (len_ b - off_ b) len); lia. }
  clearbody copy. rewrite (u32_small (off_ b + copy)) by lia.
  set (c := ztake (len_ b - off_ b) (zdrop (off_ b) st)).
  assert (zlen c = len_ b - off_ b) as Hlc by (unfold c; zlia).
  assert (ztake copy (zdrop (off_ b) st) = ztake len c) as ->.
  { unfold c, ztake. rewrite take_take. f_equal. lia. }
  assert (ztake (len_ b - (off_ b + copy)) (zdrop (off_ b + copy) st) = zdrop len c) as Hrest.
  { unfold c, ztake, zdrop. rewrite skipn_firstn_comm, drop_drop.
    destruct (decide (len <= len_ b - off_ b)).
    - f_equal; [lia|]. f_equal. lia.
    - by replace (_ - _)%nat with 0%nat by lia; replace (Z.to_nat _) with 0%nat by lia. }
  destruct (Z.leb_spec (len_ b) (off_ b + copy)); simpl; rewrite ?Hb.
  - rewrite ztake_nonpos in Hrest by lia. split_and!; simpl; try done; try lia.
    unfold inv. simpl. rewrite Hb. lia.
  - split_and!; try done; try lia.
    unfold inv. simpl. rewrite Hb. lia.
Qed.
