(* ===== verification/Ring.v ===== *)
(** * ring_buffer.h: [DataRingBuffer]

    A FIFO of raw bytes on top of a FreeRTOS byte ring ([RINGBUF_TYPE_BYTEBUF])
    with a [PrependBuffer] in front of it.  The FreeRTOS ring is not part of the
    repository: [ByteRing] lists the operations the class uses and
    [ByteRingLaws] what FreeRTOS documents about them.  The specification of a
    [DataRingBuffer] is its [content], one byte string. *)

From S2P Require Import Prelude Platform Prepend.

(** ** The FreeRTOS ring buffer *)

(** [xRingbufferReceiveUpTo] hands out an item that stays in the ring until
    [vRingbufferReturnItem]; the sources always return it at once. *)
Class ByteRing (R : Type) := {
  xRingbufferCreateStatic : Z -> R;
  xRingbufferGetCurFreeSize : R -> Z;
  xRingbufferSend : list byte -> R -> bool * R;
  xRingbufferReceiveUpTo : Z -> R -> option (list byte) * R;
  vRingbufferReturnItem : list byte -> R -> R;
}.

(** Documented behaviour.  A byte ring created with size [n] holds up to [n]
    bytes; a send that fits appends; a receive on a non-empty ring yields a
    non-empty prefix of at most the requested length, possibly shorter than
    what is stored because of wrap-around. *)
Class ByteRingLaws (R : Type) {BR : ByteRing R} := {
  ring_size : R -> Z;
  ring_bytes : R -> list byte;
  ring_free : forall r, xRingbufferGetCurFreeSize r = ring_size r - zlen (ring_bytes r);
  ring_fits : forall r, zlen (ring_bytes r) <= ring_size r;
  ring_create : forall n, 0 < n ->
    ring_size (xRingbufferCreateStatic n) = n /\
    ring_bytes (xRingbufferCreateStatic n) = [];
  ring_send : forall bs r, zlen bs <= xRingbufferGetCurFreeSize r ->
    let '(ok, r') := xRingbufferSend bs r in
    ok = true /\ ring_size r' = ring_size r /\ ring_bytes r' = ring_bytes r ++ bs;
  ring_receive_empty : forall n r, ring_bytes r = [] ->
    xRingbufferReceiveUpTo n r = (None, r);
  ring_receive : forall n r, ring_bytes r <> [] -> 0 < n ->
    exists p q r', xRingbufferReceiveUpTo n r = (Some p, r') /\
      p <> [] /\ zlen p <= n /\ ring_bytes r = p ++ q /\
      ring_bytes (vRingbufferReturnItem p r') = q /\
      ring_size (vRingbufferReturnItem p r') = ring_size r;
}.

(** A model of FreeRTOS's circular storage: [wr_pos] is the read index, and a
    receive stops at the physical end of the storage. *)
Record wrap_ring := WrapRing { wr_size : Z; wr_pos : Z; wr_data : list byte }.

#[export] Instance wrap_ring_ops : ByteRing wrap_ring := {|
  xRingbufferCreateStatic n := WrapRing n 0 [];
  xRingbufferGetCurFreeSize r := Z.max (zlen (wr_data r)) (wr_size r) - zlen (wr_data r);
  xRingbufferSend bs r :=
    if zlen bs <=? Z.max (zlen (wr_data r)) (wr_size r) - zlen (wr_data r)
    then (true, WrapRing (wr_size r) (wr_pos r) (wr_data r ++ bs)) else (false, r);
  xRingbufferReceiveUpTo n r :=
    match wr_data r with
    | [] => (None, r)
    | _ => (Some (ztake (Z.min n (Z.max 1 (wr_size r - wr_pos r))) (wr_data r)), r)
    end;
  vRingbufferReturnItem p r :=
    let pos := wr_pos r + zlen p in
    WrapRing (Z.max (zlen (wr_data r)) (wr_size r))
      (if wr_size r <=? pos then 0 else pos) (zdrop (zlen p) (wr_data r));
|}.

#[export] Program Instance wrap_ring_laws : ByteRingLaws wrap_ring := {|
  ring_size r := Z.max (zlen (wr_data r)) (wr_size r);
  ring_bytes r := wr_data r;
|}.
Next Obligation. done. Qed.
Next Obligation. intros r. lia. Qed.
Next Obligation. intros n Hn. simpl. split; [lia|done]. Qed.
Next Obligation.
  intros bs r H. simpl in *. destruct (Z.leb_spec (zlen bs) (Z.max (zlen (wr_data r)) (wr_size r) - zlen (wr_data r))); [|lia].
  simpl. split_and!; try done. zlia.
Qed.
Next Obligation. intros n r H. simpl. by rewrite H. Qed.
Next Obligation.
  intros n r Hne Hn. simpl. destruct (wr_data r) as [|b l] eqn:E; [done|].
  set (k := Z.min n _). assert (0 < k <= n) by lia.
  exists (ztake k (b :: l)), (zdrop k (b :: l)), r.
  split; [done|]. rewrite E. split_and!.
  - intros Hz%zlen_0. zlia.
  - zlia.
  - by rewrite ztake_zdrop.
  - rewrite zlen_ztake. destruct (decide (k <= zlen (b :: l))).
    + f_equal. lia.
    + rewrite !zdrop_all; [done|lia|lia].
  - zlia.
Qed.

(** ** The class *)

Record DataRingBuffer (R : Type) := mkDataRingBuffer {
  handle : option R;
  capacity : Z;
  prepend_ : PrependBuffer;
}.
Arguments mkDataRingBuffer {R} _ _ _.
Arguments handle {R} _.
Arguments capacity {R} _.
Arguments prepend_ {R} _.
#[export] Instance DataRingBuffer_eta R : Eta (DataRingBuffer R) := fun b =>
  mkDataRingBuffer (handle b) (capacity b) (prepend_ b).

Section Operations.
Context {R : Type} {BR : ByteRing R}.
Implicit Types b : DataRingBuffer R.

Section Construct.
Context {Env S : Type} {P : Platform Env} {HW : HasWorld Env S} {T : Target}.

(** PSRAM first, then the general heap. *)
Definition psramAlloc (size : Z) : M S bool :=
  ptr <- sys (HeapCapsMallocPsram size);;
  if ptr then ret true else sys (Malloc size).

(** What the constructor builds from the outcome of its three allocations.
    All memory is released again when one of them fails; the object then has no
    [handle] and an unbound prepend buffer, but keeps its [capacity]. *)
Definition assemble (ringStorage ringStruct prependStorage : bool) (size : Z)
  : DataRingBuffer R :=
  let h := if ringStorage && ringStruct then Some (xRingbufferCreateStatic size) else None in
  match h with
  | Some r =>
      if prependStorage then
        mkDataRingBuffer (Some r) size
          (Prepend.reset (Some (replicate (Z.to_nat SSH_TUNNEL_PREPEND_CAPACITY) x00))
             SSH_TUNNEL_PREPEND_CAPACITY Prepend.unbound)
      else mkDataRingBuffer None size Prepend.unbound
  | None => mkDataRingBuffer None size Prepend.unbound
  end.

(** The constructor. *)
Definition construct (size : Z) : M S (DataRingBuffer R) :=
  ringStorage <- psramAlloc size;;
  ringStruct <- psramAlloc sizeof_StaticRingbuffer;;
  prependStorage <- psramAlloc SSH_TUNNEL_PREPEND_CAPACITY;;
  ret (assemble ringStorage ringStruct prependStorage size).

End Construct.

(** The [while] loop of [write]; [fuel] bounds the number of rounds. *)
Fixpoint write_loop (fuel : nat) (data : list byte) (written : Z) (r : R) : Z * R :=
  match fuel with
  | O => (written, r)
  | S fuel' =>
      if written <? zlen data then
        let freeSpace := xRingbufferGetCurFreeSize r in
        if freeSpace =? 0 then (written, r) else
        let chunk0 := zlen data - written in
        let chunk := if freeSpace <? chunk0 then freeSpace else chunk0 in
        if chunk =? 0 then (written, r) else
        let '(ok, r') := xRingbufferSend (ztake chunk (zdrop written data)) r in
        if ok then write_loop fuel' data (written + chunk) r' else (written, r')
      else (written, r)
  end.

(** Append at the end.  Each round of the loop stores at least one byte, so
    [length data] rounds are enough. *)
Definition write (data : list byte) b : Z * DataRingBuffer R :=
  match handle b with
  | None => (0, b)
  | Some r =>
      if zlen data =? 0 then (0, b) else
      let '(written, r') := write_loop (length data) data 0 r in
      (written, b <| handle := Some r' |>)
  end.

(** Put bytes back at the front. *)
Definition writeToFront (data : list byte) b : Z * DataRingBuffer R :=
  let '(n, p) := Prepend.writeToFront (Some data) (prepend_ b) in
  (n, b <| prepend_ := p |>).

(** Second half of [read]: one item of the FreeRTOS ring. *)
Definition read_ring (remaining : Z) b : list byte * DataRingBuffer R :=
  match handle b with
  | None => ([], b)
  | Some r =>
      match xRingbufferReceiveUpTo remaining r with
      | (None, r') => ([], b <| handle := Some r' |>)
      | (Some item, r') =>
          let itemSize := zlen item in
          let toCopy := if remaining <? itemSize then remaining else itemSize in
          (ztake toCopy item, b <| handle := Some (vRingbufferReturnItem item r') |>)
      end
  end.

(** Read at most [len] bytes: the prepend buffer first, then the ring.  The
    answer is the bytes copied out; their number is the source's [total]. *)
Definition read (len : Z) b : list byte * DataRingBuffer R :=
  if len =? 0 then ([], b) else
  if negb (Prepend.empty (prepend_ b)) then
    let '(total, bs, p) := Prepend.read true len (prepend_ b) in
    let b1 := b <| prepend_ := p |> in
    if len <=? total then (bs, b1) else
    let '(bs', b2) := read_ring (len - total) b1 in (bs ++ bs', b2)
  else read_ring len b.

Fixpoint clear_loop (fuel : nat) (cap : Z) (r : R) : R :=
  match fuel with
  | O => r
  | S fuel' =>
      match xRingbufferReceiveUpTo cap r with
      | (None, r') => r'
      | (Some item, r') => clear_loop fuel' cap (vRingbufferReturnItem item r')
      end
  end.

(** Every item taken out is at least one byte long and a ring of size
    [capacity] holds at most [capacity] of them. *)
Definition clear b : DataRingBuffer R :=
  let b1 := b <| prepend_ := Prepend.clear (prepend_ b) |> in
  match handle b1 with
  | None => b1
  | Some r => b1 <| handle := Some (clear_loop (S (Z.to_nat (capacity b))) (capacity b) r) |>
  end.

Definition size b : Z :=
  let prependRemain := Prepend.pending (prepend_ b) in
  match handle b with
  | None => prependRemain
  | Some r =>
      let freeSpace := xRingbufferGetCurFreeSize r in
      let ringUsed := if capacity b <? freeSpace then 0 else capacity b - freeSpace in
      u32 (prependRemain + ringUsed)
  end.

Definition available b : Z :=
  match handle b with None => 0 | Some r => xRingbufferGetCurFreeSize r end.

Definition empty b : bool := size b =? 0.
Definition full b : bool := available b =? 0.
Definition capacityBytes b : Z := capacity b.

End Operations.

(** ** Invariant and specification *)

Section Specification.
Context {R : Type} {BR : ByteRing R} {BL : ByteRingLaws R} {T : Target}.
Implicit Types b : DataRingBuffer R.

Definition ring_content b : list byte :=
  match handle b with Some r => ring_bytes r | None => [] end.

(** The bytes in the order they will be read. *)
Definition content b : list byte := Prepend.content (prepend_ b) ++ ring_content b.

(** Well-formed buffers: [size] cannot wrap, and a usable buffer (one with a
    ring) has its prepend buffer bound to [PREPEND_CAP] bytes. *)
Definition inv b : Prop :=
  Prepend.inv (prepend_ b) /\
  0 < capacity b /\ capacity b + SSH_TUNNEL_PREPEND_CAPACITY < 2 ^ 32 /\
  match handle b with
  | Some r => ring_size r = capacity b /\ Prepend.isBound (prepend_ b) = true /\
      cap_ (prepend_ b) = SSH_TUNNEL_PREPEND_CAPACITY
  | None => Prepend.isBound (prepend_ b) = false
  end.

(** Same object: capacity and usability do not change. *)
Definition same_ring b b' : Prop :=
  capacity b' = capacity b /\ (is_Some (handle b') <-> is_Some (handle b)).

#[export] Instance same_ring_preorder : PreOrder same_ring.
Proof.
  split; [by intros b | intros b1 b2 b3 [H1 H2] [H3 H4]].
  split; [congruence | by rewrite H4].
Qed.

Lemma inv_usable_content b : inv b -> content b <> [] -> is_Some (handle b).
Proof.
  intros (Hp & Hc & Hw & Hh) Hne. unfold content, ring_content in *.
  destruct (handle b); [eauto|]. by rewrite unbound_content in Hne.
Qed.

Lemma prepend_content_le b r : inv b -> handle b = Some r ->
  zlen (Prepend.content (prepend_ b)) <= SSH_TUNNEL_PREPEND_CAPACITY.
Proof.
  intros (Hp & Hc & Hw & Hh) E. rewrite E in Hh. destruct Hh as (_ & _ & <-).
  by apply content_length_le.
Qed.

Lemma available_range b : inv b -> 0 <= available b <= capacity b.
Proof.
  intros (Hp & Hc & Hw & Hh). unfold available. destruct (handle b) as [r|]; [|lia].
  rewrite ring_free. pose proof (ring_fits r). destruct Hh. lia.
Qed.

Lemma size_ok b : inv b -> size b = zlen (content b).
Proof.
  intros Hi. pose proof Hi as (Hp & Hc & Hw & Hh). unfold size, content, ring_content.
  rewrite pending_content by done. destruct (handle b) as [r|] eqn:E; [|zlia].
  pose proof (prepend_content_le b r Hi E). pose proof (ring_fits r). pose proof (ring_free r).
  destruct Hh as (Hs & _). destruct (Z.ltb_spec (capacity b) (xRingbufferGetCurFreeSize r)); [lia|].
  rewrite u32_small; zlia.
Qed.

Lemma size_bound b : inv b -> size b <= SSH_TUNNEL_PREPEND_CAPACITY + capacity b.
Proof.
  intros Hi. rewrite size_ok by done. unfold content, ring_content.
  pose proof Hi as (Hp & Hc & Hw & Hh). pose proof prepend_capacity_range.
  destruct (handle b) as [r|] eqn:E.
  - pose proof (prepend_content_le b r Hi E). pose proof (ring_fits r). destruct Hh. zlia.
  - rewrite unbound_content by done. simpl. lia.
Qed.

Lemma empty_ok b : inv b -> empty b = bool_decide (content b = []).
Proof.
  intros Hi. unfold empty. rewrite size_ok by done.
  destruct (Z.eqb_spec (zlen (content b)) 0) as [E|E]; symmetry.
  - by apply bool_decide_eq_true, zlen_0.
  - apply bool_decide_eq_false. intros ?%zlen_0. lia.
Qed.

(** The loop of [write] stores the longest prefix that fits. *)
Lemma write_loop_ok fuel data written r :
  0 <= written <= zlen data -> zlen data - written <= Z.of_nat fuel ->
  let '(n, r') := write_loop fuel data written r in
  n = Z.min (zlen data) (written + xRingbufferGetCurFreeSize r) /\
  ring_size r' = ring_size r /\
  ring_bytes r' = ring_bytes r ++ ztake (n - written) (zdrop written data).
Proof.
  revert written r. induction fuel as [|fuel IH]; intros written r Hw Hf; simpl;
    pose proof (ring_free r); pose proof (ring_fits r).
  { split_and!; [lia|done|]. rewrite ztake_nonpos by lia. by rewrite app_nil_r. }
  destruct (Z.ltb_spec written (zlen data)).
  2:{ split_and!; [lia|done|]. rewrite ztake_nonpos by lia. by rewrite app_nil_r. }
  destruct (Z.eqb_spec (xRingbufferGetCurFreeSize r) 0) as [|Hnz].
  { split_and!; [lia|done|]. rewrite ztake_nonpos by lia. by rewrite app_nil_r. }
  set (chunk := if xRingbufferGetCurFreeSize r <? _ then _ else _).
  assert (chunk = Z.min (xRingbufferGetCurFreeSize r) (zlen data - written)) as Hchunk
    by (unfold chunk; destruct (Z.ltb_spec (xRingbufferGetCurFreeSize r) (zlen data - written)); lia).
  clearbody chunk. destruct (Z.eqb_spec chunk 0); [lia|].
  pose proof (ring_send (ztake chunk (zdrop written data)) r) as Hsend.
  destruct (xRingbufferSend _ r) as [ok r'].
  destruct Hsend as (-> & Hsz & Hby); [zlia|].
  specialize (IH (written + chunk) r'). destruct (write_loop fuel data (written + chunk) r') as [k r''].
  destruct IH as (Hk & Hsz' & Hby'); [lia|lia|].
  pose proof (ring_free r'). rewrite Hby in *. zlen_simpl.
  split_and!; [lia|congruence|]. rewrite Hby', <- app_assoc. f_equal.
  rewrite <- zdrop_zdrop by lia.
  rewrite <- (ztake_zdrop chunk (zdrop written data)) at 3.
  unfold ztake, zdrop. rewrite take_app, length_take, length_drop, take_take.
  f_equal; f_equal; lia.
Qed.

Lemma write_ok data b :
  inv b -> zlen data < 2 ^ 32 ->
  let '(n, b') := write data b in
  inv b' /\ same_ring b b' /\ n = Z.min (zlen data) (available b) /\
  content b' = content b ++ ztake n data /\
  Prepend.content (prepend_ b') = Prepend.content (prepend_ b).
Proof.
  intros Hi Hd. pose proof (available_range b Hi). pose proof Hi as (Hp & Hc & Hw & Hh).
  unfold write, available, same_ring, content, ring_content in *.
  destruct (handle b) as [r|] eqn:E.
  2:{ rewrite E. split_and!; try done; [lia|by rewrite ztake_nonpos, !app_nil_r]. }
  destruct (Z.eqb_spec (zlen data) 0) as [Hz|Hz].
  { rewrite E. split_and!; try done; [lia|by rewrite ztake_nonpos, !app_nil_r by lia]. }
  pose proof (write_loop_ok (length data) data 0 r) as Hl.
  destruct (write_loop _ data 0 r) as [n r']. destruct Hl as (Hn & Hsz & Hby); [lia|lia|].
  rewrite Z.sub_0_r, zdrop_nonpos in Hby by lia.
  split_and!; simpl; try done; [|by rewrite Hby, app_assoc].
  unfold inv. simpl. destruct Hh as (? & ? & ?). split_and!; try done; congruence.
Qed.

Lemma writeToFront_ok data b :
  inv b -> zlen data < 2 ^ 32 ->
  let '(n, b') := writeToFront data b in
  inv b' /\ same_ring b b' /\
  if bool_decide (is_Some (handle b)) && (0 <? zlen data) &&
     (zlen data + zlen (Prepend.content (prepend_ b)) <=? SSH_TUNNEL_PREPEND_CAPACITY)
  then n = zlen data /\ content b' = data ++ content b
  else n = 0 /\ content b' = content b.
Proof.
  intros Hi Hd. pose proof Hi as (Hp & Hc & Hw & Hh). unfold writeToFront.
  pose proof (prepend_writeToFront_ok data (prepend_ b) Hp Hd) as Hf.
  destruct (Prepend.writeToFront (Some data) (prepend_ b)) as [n p].
  destruct Hf as (Hp' & Hcap & Hbnd & Hf). destruct (handle b) as [r|] eqn:E.
  - destruct Hh as (Hs & Hb & Hcp). rewrite Hb, Hcp in Hf. simpl in *.
    split; [|split; [by unfold same_ring; simpl; rewrite E|]].
    + unfold inv. simpl. rewrite E. split_and!; try done; congruence.
    + unfold content, ring_content. simpl. rewrite E.
      destruct (_ && _); destruct Hf as [-> ->]; [by rewrite app_assoc|done].
  - rewrite Hh in Hf. simpl in *. destruct Hf as [-> ->].
    by split_and!.
Qed.

Lemma read_ring_ok len b :
  inv b -> 0 < len ->
  let '(bs, b') := read_ring len b in
  inv b' /\ same_ring b b' /\ prepend_ b' = prepend_ b /\
  ring_content b = bs ++ ring_content b' /\ zlen bs <= len /\
  (ring_content b <> [] -> bs <> []).
Proof.
  intros Hi Hlen. pose proof Hi as (Hp & Hc & Hw & Hh).
  unfold read_ring, same_ring, ring_content, inv in *.
  destruct (handle b) as [r|] eqn:E; [|rewrite E; split_and!; done || (simpl; lia)].
  destruct (decide (ring_bytes r = [])) as [Hemp|Hne].
  - rewrite ring_receive_empty by done. simpl. rewrite Hemp. destruct Hh as (?&?&?). split_and!; done || lia.
  - destruct (ring_receive len r Hne Hlen) as (p & q & r' & -> & Hpne & Hpl & Hpq & Hq & Hs).
    assert ((if len <? zlen p then len else zlen p) = zlen p) as ->
      by (destruct (Z.ltb_spec len (zlen p)); lia).
    rewrite ztake_all by lia. simpl. rewrite Hq, Hs. destruct Hh as (?&?&?). by split_and!.
Qed.

(** [read] takes a prefix, is never empty-handed on a non-empty buffer, and
    leaves room in the prepend buffer for what it took. *)
Lemma read_ok len b :
  inv b -> 0 <= len < 2 ^ 32 ->
  let '(bs, b') := read len b in
  inv b' /\ same_ring b b' /\ content b = bs ++ content b' /\ zlen bs <= len /\
  (content b <> [] -> 0 < len -> bs <> []) /\
  (len <= SSH_TUNNEL_PREPEND_CAPACITY ->
   zlen bs + zlen (Prepend.content (prepend_ b')) <= SSH_TUNNEL_PREPEND_CAPACITY).
Proof.
  intros Hi Hlen. pose proof Hi as (Hp & Hc & Hw & Hh). unfold read.
  destruct (Z.eqb_spec len 0) as [->|Hz].
  { split_and!; try done; try lia. intros _. simpl.
    pose proof prepend_capacity_range. destruct (handle b) eqn:E.
    - by eapply prepend_content_le.
    - rewrite unbound_content by done. simpl. lia. }
  rewrite Prepend.empty_content by done. case_bool_decide as Hemp; simpl.
  - pose proof (read_ring_ok len b Hi) as Hr. destruct (read_ring len b) as [bs b'].
    destruct Hr as (Hi' & Hsr & Hpp & Hcnt & Hl & Hne); [lia|].
    unfold content. rewrite Hpp, Hemp. simpl. split_and!; try done; [by auto|lia].
  - pose proof (prepend_read_ok len (prepend_ b) Hp Hlen) as Hr.
    destruct (Prepend.read true len (prepend_ b)) as [[n bs] p].
    destruct Hr as (Hpi & Hcap & Hbd & Hn & Hbs & Hcp).
    set (c := Prepend.content (prepend_ b)) in *. set (b1 := b <| prepend_ := p |>).
    assert (inv b1) as Hi1.
    { unfold inv, b1. simpl. destruct (handle b); [|by rewrite Hbd].
      rewrite Hcap, Hbd. done. }
    assert (same_ring b b1) as Hs1 by done.
    assert (ring_content b1 = ring_content b) as Hrc by done.
    assert (bs <> []) as Hbne.
    { rewrite <- zlen_0 in Hemp |- *. rewrite Hbs. zlia. }
    assert (content b = bs ++ Prepend.content p ++ ring_content b) as Hcont
      by (unfold content; subst bs; rewrite Hcp, app_assoc, ztake_zdrop; done).
    destruct (Z.leb_spec len n) as [Hge|Hlt].
    + split_and!; try done.
      * subst bs. zlia.
      * intros _. simpl. subst bs. rewrite Hcp. destruct (handle b) eqn:E.
        -- pose proof (prepend_content_le b _ Hi E). subst c. zlia.
        -- by destruct Hemp; apply unbound_content.
    + assert (Prepend.content p = []) as Hpe by (rewrite Hcp; apply zdrop_all; lia).
      pose proof (read_ring_ok (len - n) b1 Hi1) as Hr.
      destruct (read_ring (len - n) b1) as [bs' b'].
      destruct Hr as (Hi' & Hsr & Hpp & Hcnt & Hl & _); [lia|].
      rewrite Hpe in *. simpl in *.
      assert (zlen bs = n) as Hbn by (subst bs; zlia).
      assert (content b' = ring_content b') as Hcb
        by (unfold content; by rewrite Hpp; simpl; rewrite Hpe).
      split_and!; try done.
      * by rewrite Hcont, Hcb, <- Hrc, Hcnt, app_assoc.
      * zlia.
      * intros _ _ []%app_eq_nil. done.
      * intros ?. rewrite Hpp. simpl. rewrite Hpe. zlia.
Qed.

Lemma clear_loop_ok fuel cap r :
  0 < cap -> zlen (ring_bytes r) < Z.of_nat fuel ->
  ring_bytes (clear_loop fuel cap r) = [] /\ ring_size (clear_loop fuel cap r) = ring_size r.
Proof.
  intros Hc. revert r. induction fuel as [|fuel IH]; intros r Hf; [lia|]. simpl.
  destruct (decide (ring_bytes r = [])) as [He|Hne].
  { by rewrite ring_receive_empty. }
  destruct (ring_receive cap r Hne Hc) as (p & q & r' & -> & Hpne & Hpl & Hpq & Hq & Hs).
  destruct (IH (vRingbufferReturnItem p r')) as [H1 H2]; [|by rewrite H2].
  rewrite Hq. apply (f_equal length) in Hpq. rewrite length_app in Hpq.
  assert (length p <> 0%nat) by (by destruct p). lia.
Qed.

Lemma clear_ok b : inv b -> inv (clear b) /\ same_ring b (clear b) /\ content (clear b) = [].
Proof.
  intros Hi. pose proof Hi as (Hp & Hc & Hw & Hh).
  destruct (Prepend.clear_spec _ Hp) as [Hpi Hpc].
  unfold clear, inv, same_ring, content, ring_content.
  change (handle (b <| prepend_ := _ |>)) with (handle b).
  destruct (handle b) as [r|] eqn:E.
  - pose proof (ring_fits r). destruct Hh as (Hs & Hb & Hcap).
    destruct (clear_loop_ok (S (Z.to_nat (capacity b))) (capacity b) r) as [H1 H2]; [lia..|].
    set (r' := clear_loop _ _ r) in *. clearbody r'.
    simpl. rewrite H1, H2, Hpc. by split_and!.
  - simpl. rewrite E, Hpc. by split_and!.
Qed.

(** [writeToFront] of part of what [read] has just returned always fits. *)
Lemma read_writeToFront len n b :
  inv b -> 0 <= len <= SSH_TUNNEL_PREPEND_CAPACITY ->
  let '(bs, b1) := read len b in
  0 <= n < zlen bs ->
  let '(k, b2) := writeToFront (zdrop n bs) b1 in
  k = zlen (zdrop n bs) /\ inv b2 /\ same_ring b b2 /\ content b = ztake n bs ++ content b2.
Proof.
  intros Hi Hlen. pose proof prepend_capacity_range.
  pose proof (read_ok len b Hi) as Hr. destruct (read len b) as [bs b1].
  destruct Hr as (Hi1 & Hs1 & Hc1 & Hl1 & _ & Hroom); [lia|]. intros Hn.
  pose proof (writeToFront_ok (zdrop n bs) b1 Hi1) as Hw.
  destruct (writeToFront _ b1) as [k b2]. destruct Hw as (Hi2 & Hs2 & Hw); [zlia|].
  assert (is_Some (handle b1)) as Hsome.
  { apply Hs1, inv_usable_content; [done|]. rewrite Hc1, <- zlen_0. zlia. }
  rewrite bool_decide_eq_true_2 in Hw by done.
  rewrite (proj2 (Z.ltb_lt 0 _)), (proj2 (Z.leb_le _ _)) in Hw by zlia.
  simpl in Hw. destruct Hw as [-> Hc2].
  split_and!; [done|done|by transitivity b1|].
  by rewrite Hc2, app_assoc, ztake_zdrop.
Qed.

(** A constructed buffer is well formed and empty, usable or not. *)
Lemma assemble_ok x y z n :
  0 < n -> n + SSH_TUNNEL_PREPEND_CAPACITY < 2 ^ 32 ->
  inv (assemble x y z n) /\ content (assemble x y z n) = [] /\
  capacity (assemble x y z n) = n /\
  (is_Some (handle (assemble x y z n)) <-> x && y && z = true).
Proof.
  intros Hn Hw. pose proof prepend_capacity_range. destruct (ring_create n Hn) as [H1 H2].
  destruct (reset_spec (replicate (Z.to_nat SSH_TUNNEL_PREPEND_CAPACITY) x00) unbound)
    as [Hri Hrc]; [rewrite length_replicate; lia|].
  rewrite length_replicate, Z2Nat.id in * by lia.
  pose proof unbound_spec as [Hui Huc]. unfold assemble, inv, content, ring_content.
  destruct x, y, z; simpl; rewrite ?Hrc, ?H2, ?Huc; split_and!; try done;
    split; intros []; done || eauto.
Qed.

Lemma construct_ok {Env S} {P : Platform Env} {HW : HasWorld Env S} n (s : S) :
  0 < n -> n + SSH_TUNNEL_PREPEND_CAPACITY < 2 ^ 32 ->
  wp (construct n) (fun b _ => inv b /\ content b = [] /\ capacity b = n) s.
Proof.
  intros Hn Hw. unfold construct, psramAlloc.
  wp_go; edestruct assemble_ok as (? & ? & ? & _); eauto.
Qed.

(** ** Abstract specification: a bounded queue with a put-back area

    A usable buffer of capacity [C] is a pair of byte strings: [front], the
    bytes put back (at most [SSH_TUNNEL_PREPEND_CAPACITY]), and [back], the
    bytes appended (at most [C]).  Reading takes from [front ++ back]; a read
    that reaches the ring may stop early, at a non-empty prefix. *)
Record queue := Queue { front : list byte; back : list byte }.

Inductive op := OpWrite (data : list byte) | OpPutBack (data : list byte) | OpRead (len : Z)
  | OpClear | OpSize | OpAvailable.
Inductive reply := RCount (n : Z) | RBytes (bs : list byte) | RUnit.

Definition run_op (o : op) b : reply * DataRingBuffer R :=
  match o with
  | OpWrite data => let '(n, b') := write data b in (RCount n, b')
  | OpPutBack data => let '(n, b') := writeToFront data b in (RCount n, b')
  | OpRead len => let '(bs, b') := read len b in (RBytes bs, b')
  | OpClear => (RUnit, clear b)
  | OpSize => (RCount (size b), b)
  | OpAvailable => (RCount (available b), b)
  end.

Fixpoint run_ops (os : list op) b : list reply * DataRingBuffer R :=
  match os with
  | [] => ([], b)
  | o :: os' => let '(r, b1) := run_op o b in let '(rs, b2) := run_ops os' b1 in (r :: rs, b2)
  end.

(** Arguments are [size_t] values. *)
Definition op_ok (o : op) : Prop :=
  match o with
  | OpWrite data | OpPutBack data => zlen data < 2 ^ 32
  | OpRead len => 0 <= len < 2 ^ 32
  | _ => True
  end.

Inductive queue_step (C : Z) : op -> queue -> reply -> queue -> Prop :=
  | q_write data f k n : n = Z.min (zlen data) (C - zlen k) ->
      queue_step C (OpWrite data) (Queue f k) (RCount n) (Queue f (k ++ ztake n data))
  | q_put_back data f k : 0 < zlen data -> zlen data + zlen f <= SSH_TUNNEL_PREPEND_CAPACITY ->
      queue_step C (OpPutBack data) (Queue f k) (RCount (zlen data)) (Queue (data ++ f) k)
  | q_put_back_refused data f k :
      zlen data = 0 \/ SSH_TUNNEL_PREPEND_CAPACITY < zlen data + zlen f ->
      queue_step C (OpPutBack data) (Queue f k) (RCount 0) (Queue f k)
  | q_read_front len f k : len <= zlen f ->
      queue_step C (OpRead len) (Queue f k) (RBytes (ztake len f)) (Queue (zdrop len f) k)
  | q_read_through len f p k : zlen f < len -> zlen p <= len - zlen f ->
      (p = [] -> k = []) ->
      queue_step C (OpRead len) (Queue f (p ++ k)) (RBytes (f ++ p)) (Queue [] k)
  | q_clear q : queue_step C OpClear q RUnit (Queue [] [])
  | q_size f k : queue_step C OpSize (Queue f k) (RCount (zlen f + zlen k)) (Queue f k)
  | q_available f k : queue_step C OpAvailable (Queue f k) (RCount (C - zlen k)) (Queue f k).

Inductive queue_run (C : Z) : list op -> queue -> list reply -> queue -> Prop :=
  | qr_nil q : queue_run C [] q [] q
  | qr_cons o os q r q1 rs q2 : queue_step C o q r q1 -> queue_run C os q1 rs q2 ->
      queue_run C (o :: os) q (r :: rs) q2.

Definition abstract_queue b : queue := Queue (Prepend.content (prepend_ b)) (ring_content b).

(** What the prepend buffer's laws say of a usable buffer. *)
Lemma read_queue len b : inv b -> 0 <= len < 2 ^ 32 ->
  let '(bs, b') := read len b in
  queue_step (capacity b) (OpRead len) (abstract_queue b) (RBytes bs) (abstract_queue b').
Proof.
  intros Hi Hlen. pose proof Hi as (Hp & _). unfold read, abstract_queue.
  pose proof (prepend_read_ok len (prepend_ b) Hp Hlen) as Hr.
  destruct (Z.eqb_spec len 0) as [->|Hz].
  { pose proof (q_read_front (capacity b) 0 (Prepend.content (prepend_ b)) (ring_content b)) as H.
    rewrite ztake_nonpos, zdrop_nonpos in H by lia. apply H. lia. }
  assert (forall pre n b1 bs b2, inv b1 -> ring_content b1 = ring_content b ->
    Prepend.content (prepend_ b1) = [] -> pre = Prepend.content (prepend_ b) ->
    n = zlen pre -> n < len -> read_ring (len - n) b1 = (bs, b2) ->
    queue_step (capacity b) (OpRead len)
      (Queue (Prepend.content (prepend_ b)) (ring_content b)) (RBytes (pre ++ bs))
      (Queue (Prepend.content (prepend_ b2)) (ring_content b2))) as Hring.
  { intros pre n b1 bs b2 Hi1 Hrc Hc0 -> -> Hn E.
    pose proof (read_ring_ok (len - zlen (Prepend.content (prepend_ b))) b1 Hi1) as H.
    rewrite E in H. destruct H as (_ & _ & Hpp & Hcnt & Hl & Hne); [lia|].
    rewrite <- Hrc, Hpp, Hc0, Hcnt in *. apply q_read_through; [lia|lia|].
    intros ->. destruct (ring_content b2); [done|]. by destruct Hne. }
  rewrite Prepend.empty_content by done. case_bool_decide as Hemp; simpl.
  - destruct (read_ring len b) as [bs b2] eqn:E.
    apply (Hring [] 0 b bs b2); rewrite ?Z.sub_0_r; done || lia.
  - destruct (Prepend.read true len (prepend_ b)) as [[n bs] p].
    destruct Hr as (Hpi & Hcap & Hbd & Hn & Hbs & Hcp).
    destruct (Z.leb_spec len n) as [Hge|Hlt].
    + simpl. rewrite Hbs, Hcp. apply q_read_front. lia.
    + destruct (read_ring (len - n) _) as [bs' b2] eqn:E.
      rewrite ztake_all in Hbs by lia.
      assert (Prepend.content p = []) as Hpe by (rewrite Hcp; apply zdrop_all; lia).
      apply (Hring bs n (b <| prepend_ := p |>)); [|done|done|done|subst bs; lia|done|exact E].
      destruct Hi as (_ & Hc & Hw & Hh). unfold inv. simpl.
      destruct (handle b); [|by rewrite Hbd]. by rewrite Hcap, Hbd.
Qed.

Lemma run_op_ok o b : inv b -> is_Some (handle b) -> op_ok o ->
  let '(r, b') := run_op o b in
  inv b' /\ same_ring b b' /\
  queue_step (capacity b) o (abstract_queue b) r (abstract_queue b').
Proof.
  intros Hi [r Hr] Ho. unfold run_op. destruct o as [data|data|len| | |]; simpl in Ho.
  - pose proof (write_ok data b Hi Ho) as H. destruct (write data b) as [n b'].
    destruct H as (Hi' & Hs & Hn & Hc & Hf). split_and!; [done..|].
    unfold content in Hc. rewrite Hf, <- app_assoc in Hc. apply app_inv_head in Hc.
    unfold abstract_queue. rewrite Hf, Hc. constructor.
    unfold available, ring_content in *. rewrite Hr, ring_free in *.
    destruct Hi as (_ & _ & _ & Hh). rewrite Hr in Hh. destruct Hh as [<- _]. done.
  - pose proof (writeToFront_ok data b Hi Ho) as H. unfold writeToFront in *.
    pose proof (prepend_writeToFront_ok data (prepend_ b) (proj1 Hi) Ho) as Hp.
    destruct (Prepend.writeToFront (Some data) (prepend_ b)) as [n p].
    destruct H as (Hi' & Hs & _). destruct Hp as (_ & _ & _ & Hp). split_and!; [done..|].
    unfold abstract_queue. simpl. change (ring_content (b <| prepend_ := p |>)) with (ring_content b).
    destruct Hi as (_ & _ & _ & Hh). rewrite Hr in Hh. destruct Hh as (_ & Hb & Hcap).
    rewrite Hb, Hcap in Hp. simpl in Hp.
    destruct (Z.ltb_spec 0 (zlen data)); [destruct (Z.leb_spec (zlen data + zlen (Prepend.content (prepend_ b))) SSH_TUNNEL_PREPEND_CAPACITY)|];
      simpl in Hp; destruct Hp as [-> Hp]; [rewrite Hp; by constructor|subst p; constructor; lia..].
  - pose proof (read_queue len b Hi Ho) as H. pose proof (read_ok len b Hi Ho) as H2.
    destruct (read len b). destruct H2 as (? & ? & _). by split_and!.
  - destruct (clear_ok b Hi) as (Hi' & Hs & Hc). split_and!; [done..|].
    unfold content in Hc. apply app_eq_nil in Hc as [H1 H2].
    unfold abstract_queue at 2. rewrite H1, H2. constructor.
  - split_and!; [done..|]. rewrite size_ok by done. unfold content, abstract_queue.
    rewrite length_app, Nat2Z.inj_add. constructor.
  - split_and!; [done..|]. unfold available, abstract_queue, ring_content in *.
    rewrite Hr, ring_free in *. destruct Hi as (_ & _ & _ & Hh). rewrite Hr in Hh.
    destruct Hh as [<- _]. constructor.
Qed.

(** C33: every sequence of operations on a usable, well-formed [DataRingBuffer]
    answers exactly what the bounded queue with a put-back area answers, and
    leaves the buffer well formed and representing that queue's state: bytes
    come out in the order they were written, put-back bytes first, none is
    lost, invented or reordered, and partial writes accept the longest prefix
    that fits. *)
Theorem ring_refines_queue os b :
  inv b -> is_Some (handle b) -> Forall op_ok os ->
  let '(rs, b') := run_ops os b in
  inv b' /\ same_ring b b' /\
  queue_run (capacity b) os (abstract_queue b) rs (abstract_queue b').
Proof.
  intros Hi Hu Hos. revert b Hi Hu. induction Hos as [|o os Ho Hos IH]; intros b Hi Hu; simpl.
  { split_and!; [done..|constructor]. }
  pose proof (run_op_ok o b Hi Hu Ho) as H. destruct (run_op o b) as [r b1].
  destruct H as (Hi1 & Hs1 & Hq1). specialize (IH b1 Hi1 (proj2 (proj2 Hs1) Hu)).
  destruct (run_ops os b1) as [rs b2]. destruct IH as (Hi2 & Hs2 & Hq2).
  split_and!; [done|by transitivity b1|]. econstructor; [done|].
  by rewrite <- (proj1 Hs1).
Qed.

(** Putting back the unsent tail of what was just read restores the queue
    exactly.  If [read] of at most [SSH_TUNNEL_PREPEND_CAPACITY] bytes answered
    [bs] and only the first [n] of them were consumed, [writeToFront] of the
    rest stores all of it, and the buffer then holds the original bytes minus
    those [n]. *)
Theorem ring_put_back_exact len n b :
  inv b -> 0 <= len <= SSH_TUNNEL_PREPEND_CAPACITY ->
  let '(bs, b1) := read len b in
  0 <= n < zlen bs ->
  let '(k, b2) := writeToFront (zdrop n bs) b1 in
  k = zlen bs - n /\ inv b2 /\ content b = ztake n bs ++ content b2.
Proof.
  intros Hi Hlen. pose proof (read_writeToFront len n b Hi Hlen) as H.
  destruct (read len b) as [bs b1]. intros Hn. specialize (H Hn).
  destruct (writeToFront _ b1) as [k b2]. destruct H as (-> & Hi2 & _ & Hc).
  split_and!; [zlia|done|done].
Qed.

(** Whatever the outcome of its three allocations, the constructor builds a
    well-formed empty buffer that remembers its capacity, usable exactly when
    all three succeeded; an unusable buffer refuses every write and every put
    back and reads nothing. *)
Theorem ring_construct_total x y z n :
  0 < n -> n + SSH_TUNNEL_PREPEND_CAPACITY < 2 ^ 32 ->
  let b := assemble x y z n in
  inv b /\ content b = [] /\ capacityBytes b = n /\
  (is_Some (handle b) <-> x && y && z = true) /\
  (x && y && z = false -> forall data len,
     fst (write data b) = 0 /\ fst (writeToFront data b) = 0 /\ fst (read len b) = [] /\
     available b = 0).
Proof.
  intros Hn Hw. destruct (assemble_ok x y z n Hn Hw) as (Hi & Hc & Hcap & Hu).
  split_and!; [done..|]. intros Hf data len.
  unfold assemble. destruct x, y, z; try done; simpl; unfold write, writeToFront, read, read_ring;
    simpl; by destruct (len =? 0).
Qed.

End Specification.

(** ** Witnesses *)
Section Witnesses.
#[local] Existing Instance esp32_target.

Definition example_ring : DataRingBuffer wrap_ring := assemble true true true 4.

Lemma example_ring_inv : inv example_ring.
Proof. by apply assemble_ok. Qed.

(** Write six bytes (four fit), read two, put one back, read again. *)
Definition example_ops : list op :=
  [OpWrite [x01; x02; x03; x04; x05; x06]; OpRead 2; OpPutBack [x02]; OpSize; OpRead 3; OpClear].

Lemma ring_refines_queue_witness :
  fst (run_ops example_ops example_ring) =
    [RCount 4; RBytes [x01; x02]; RCount 1; RCount 3; RBytes [x02; x03; x04]; RUnit] /\
  queue_run 4 example_ops (abstract_queue example_ring)
    (fst (run_ops example_ops example_ring))
    (abstract_queue (snd (run_ops example_ops example_ring))).
Proof.
  split; [by vm_compute|].
  pose proof (ring_refines_queue example_ops example_ring example_ring_inv) as H.
  destruct (run_ops example_ops example_ring) as [rs b']. apply H.
  - by eexists.
  - unfold example_ops. repeat constructor; simpl; lia.
Defined.

Lemma ring_put_back_exact_witness :
  let b := snd (write [x01; x02; x03] example_ring) in
  let bs := fst (read 3 b) in
  bs = [x01; x02; x03] /\
  content b = ztake 1 bs ++ content (snd (writeToFront (zdrop 1 bs) (snd (read 3 b)))).
Proof.
  set (b := snd (write [x01; x02; x03] example_ring)).
  assert (inv b) as Hb.
  { pose proof (write_ok [x01; x02; x03] example_ring example_ring_inv) as H. unfold b.
    destruct (write _ example_ring) as [n b']. by apply H. }
  assert (fst (read 3 b) = [x01; x02; x03]) as E by (by vm_compute).
  cbv zeta. split; [exact E|].
  pose proof (ring_put_back_exact 3 1 b Hb) as H.
  destruct (read 3 b) as [bs b1]. simpl in *. subst bs.
  destruct (writeToFront _ b1) as [k b2]. apply H; simpl; lia.
Defined.

Lemma ring_construct_total_witness :
  inv (assemble (R := wrap_ring) true true false 4) /\
  fst (write [x01] (assemble (R := wrap_ring) true true false 4)) = 0.
Proof.
  destruct (ring_construct_total (R := wrap_ring) true true false 4) as (H & _ & _ & _ & H2);
    [done|done|].
  split; [exact H|]. by apply (H2 eq_refl [x01] 0).
Defined.

End Witnesses.
