(* ===== verification/Breaker.v ===== *)
(** * circuit_breaker.h: per-mapping back-off

    A table of [MAX_MAPPING_HEALTH] entries keyed by remote bind port.  A
    pointer to an entry is its index.  [unsigned long] values (the clock, the
    back-off deadlines and the trip counter) are 32-bit words and wrap;
    [consecutiveFails] is a [uint16_t] that the code keeps at or below 100. *)

From stdpp Require Import gmap.
From S2P Require Import Prelude.

Definition MAX_MAPPING_HEALTH : nat := 8.
Definition FAIL_THRESHOLD : Z := 3.
Definition BACKOFF_BASE_MS : Z := 1000.
Definition BACKOFF_CAP_MS : Z := 60000.

Record MappingHealth := mkMappingHealth {
  remoteBindPort : Z;      (* 0 = entry unused *)
  consecutiveFails : Z;
  backoffUntilMs : Z;
}.
#[export] Instance MappingHealth_eta : Eta MappingHealth := fun h =>
  mkMappingHealth (remoteBindPort h) (consecutiveFails h) (backoffUntilMs h).
#[export] Instance MappingHealth_eq_dec : EqDecision MappingHealth.
Proof. solve_decision. Defined.

Definition unused_entry : MappingHealth := mkMappingHealth 0 0 0.

Record CircuitBreaker := mkCircuitBreaker {
  health_ : list MappingHealth;
  totalTrips_ : Z;
}.
#[export] Instance CircuitBreaker_eta : Eta CircuitBreaker := fun cb =>
  mkCircuitBreaker (health_ cb) (totalTrips_ cb).

Definition new_breaker : CircuitBreaker :=
  mkCircuitBreaker (replicate MAX_MAPPING_HEALTH unused_entry) 0.

(** First entry with the given port, as both search loops do it. *)
Fixpoint index_of_port (port : Z) (l : list MappingHealth) : option nat :=
  match l with
  | [] => None
  | h :: l' => if remoteBindPort h =? port then Some O else S <$> index_of_port port l'
  end.

Definition find (port : Z) (cb : CircuitBreaker) : option nat :=
  if port =? 0 then None else index_of_port port (health_ cb).

Definition peek (port : Z) (cb : CircuitBreaker) : option MappingHealth :=
  find port cb ≫= fun i => health_ cb !! i.

Definition findOrAlloc (port : Z) (cb : CircuitBreaker) : option nat * CircuitBreaker :=
  match index_of_port port (health_ cb) with
  | Some i => (Some i, cb)
  | None =>
      match index_of_port 0 (health_ cb) with
      | Some i => (Some i, cb <| health_ := <[i := mkMappingHealth port 0 0]> (health_ cb) |>)
      | None => (None, cb)
      end
  end.

(** [until != 0 && (long)(now - until) < 0]. *)
Definition entry_open (h : MappingHealth) (now : Z) : bool :=
  negb (backoffUntilMs h =? 0) && (s32 (now - backoffUntilMs h) <? 0).

Definition isBackedOff (port now : Z) (cb : CircuitBreaker) : bool :=
  match peek port cb with
  | None => false
  | Some h => if backoffUntilMs h =? 0 then false else s32 (now - backoffUntilMs h) <? 0
  end.

(** The delay computed for a failure count at or above the threshold. *)
Definition backoff_delay (fails : Z) : Z :=
  let exp0 := fails - FAIL_THRESHOLD in
  let exp := if 16 <? exp0 then 16 else exp0 in
  let delay := u32 (Z.shiftl BACKOFF_BASE_MS exp) in
  if BACKOFF_CAP_MS <? delay then BACKOFF_CAP_MS else delay.

(** The update of one entry by [recordFailure], and whether it trips. *)
Definition fail_entry (h : MappingHealth) (now : Z) : bool * MappingHealth :=
  let wasOpen := entry_open h now in
  let h1 := if consecutiveFails h <? 100
            then h <| consecutiveFails := consecutiveFails h + 1 |> else h in
  if FAIL_THRESHOLD <=? consecutiveFails h1 then
    (negb wasOpen, h1 <| backoffUntilMs := u32 (now + backoff_delay (consecutiveFails h1)) |>)
  else (false, h1).

Definition recordFailure (port now : Z) (cb : CircuitBreaker) : bool * CircuitBreaker :=
  if port =? 0 then (false, cb) else
  match findOrAlloc port cb with
  | (None, cb1) => (false, cb1)
  | (Some i, cb1) =>
      match health_ cb1 !! i with
      | None => (false, cb1)
      | Some h =>
          let '(tripped, h') := fail_entry h now in
          let cb2 := cb1 <| health_ := <[i := h']> (health_ cb1) |> in
          (tripped, if tripped then cb2 <| totalTrips_ := u32 (totalTrips_ cb2 + 1) |> else cb2)
      end
  end.

Definition recordSuccess (port : Z) (cb : CircuitBreaker) : CircuitBreaker :=
  if port =? 0 then cb else
  match findOrAlloc port cb with
  | (None, cb1) => cb1
  | (Some i, cb1) =>
      match health_ cb1 !! i with
      | None => cb1
      | Some h =>
          cb1 <| health_ := <[i := h <| consecutiveFails := 0 |> <| backoffUntilMs := 0 |>]>
                              (health_ cb1) |>
      end
  end.

(** ** Invariant *)

(** Eight entries, no port in two of them, counts and deadlines in range. *)
Definition entry_inv (h : MappingHealth) : Prop :=
  0 <= consecutiveFails h <= 100 /\ u32_range (backoffUntilMs h).

Definition inv (cb : CircuitBreaker) : Prop :=
  length (health_ cb) = MAX_MAPPING_HEALTH /\
  Forall entry_inv (health_ cb) /\
  (forall i j h1 h2, health_ cb !! i = Some h1 -> health_ cb !! j = Some h2 ->
     remoteBindPort h1 = remoteBindPort h2 -> remoteBindPort h1 <> 0 -> i = j) /\
  u32_range (totalTrips_ cb).

(** There is an entry for [port], or one to spare. *)
Definition has_room (port : Z) (cb : CircuitBreaker) : Prop :=
  is_Some (index_of_port port (health_ cb)) \/ is_Some (index_of_port 0 (health_ cb)).

Definition entry_of (port : Z) (cb : CircuitBreaker) : MappingHealth :=
  default (mkMappingHealth port 0 0) (peek port cb).

Lemma index_of_port_Some port l i :
  index_of_port port l = Some i -> exists h, l !! i = Some h /\ remoteBindPort h = port.
Proof.
  revert i. induction l as [|h l IH]; intros i; simpl; [done|].
  destruct (Z.eqb_spec (remoteBindPort h) port) as [E|E]; intros H.
  - injection H as <-. eauto.
  - destruct (index_of_port port l) as [k|]; [|done]. injection H as <-. by apply IH.
Qed.

Lemma index_of_port_None port l :
  index_of_port port l = None -> Forall (fun h => remoteBindPort h <> port) l.
Proof.
  induction l as [|h l IH]; simpl; [by constructor|].
  destruct (Z.eqb_spec (remoteBindPort h) port); [done|].
  destruct (index_of_port port l); [done|]. auto.
Qed.

Lemma peek_entry port cb h :
  inv cb -> peek port cb = Some h <->
  port <> 0 /\ exists i, health_ cb !! i = Some h /\ remoteBindPort h = port.
Proof.
  intros (_ & _ & Hu & _). unfold peek, find. destruct (Z.eqb_spec port 0) as [->|Hp].
  { split; [done|by intros []]. }
  split.
  - intros H. split; [done|]. destruct (index_of_port port (health_ cb)) as [i|] eqn:E; [|done].
    simpl in H. destruct (index_of_port_Some _ _ _ E) as (h' & Hh & Hport). naive_solver.
  - intros (_ & i & Hi & Hport). destruct (index_of_port port (health_ cb)) as [j|] eqn:E; simpl.
    + destruct (index_of_port_Some _ _ _ E) as (h' & Hh & Hport').
      assert (i = j) as -> by (eapply Hu; eauto; congruence). done.
    + apply index_of_port_None in E. by destruct (Forall_lookup_1 _ _ _ _ E Hi).
Qed.

(** The entry an operation on [port] works on, when the table has room: at some
    index, with the value [entry_of], in a table that differs from the old one
    at most in that (previously unused) entry. *)
Lemma findOrAlloc_ok port cb :
  inv cb -> port <> 0 -> has_room port cb ->
  exists i cb1, findOrAlloc port cb = (Some i, cb1) /\ inv cb1 /\
    health_ cb1 !! i = Some (entry_of port cb) /\ remoteBindPort (entry_of port cb) = port /\
    entry_inv (entry_of port cb) /\ totalTrips_ cb1 = totalTrips_ cb /\
    (forall q, q <> port -> peek q cb1 = peek q cb).
Proof.
  intros Hi Hp Hroom. pose proof Hi as (Hl & Hf & Hu & Ht).
  assert (entry_of port cb = default (mkMappingHealth port 0 0)
    (index_of_port port (health_ cb) ≫= fun i => health_ cb !! i)) as ->
    by (unfold entry_of, peek, find; by destruct (Z.eqb_spec port 0)).
  unfold findOrAlloc. destruct (index_of_port port (health_ cb)) as [i|] eqn:E; simpl.
  { destruct (index_of_port_Some _ _ _ E) as (h & Hh & Hport). rewrite Hh. simpl.
    exists i, cb. split_and!; try done. by eapply Forall_lookup_1 in Hf. }
  destruct (index_of_port 0 (health_ cb)) as [i|] eqn:E0; [|destruct Hroom as [Hr|Hr]; rewrite ?E, ?E0 in Hr; by destruct Hr].
  destruct (index_of_port_Some _ _ _ E0) as (h & Hh & Hport).
  apply index_of_port_None in E. pose proof (lookup_lt_Some _ _ _ Hh) as Hlt.
  set (cb1 := cb <| health_ := _ |>). assert (inv cb1) as Hi1.
  { unfold inv, cb1. simpl. rewrite length_insert. split_and!; try done.
    - apply Forall_insert; [done|]. split; simpl; unfold u32_range; lia.
    - intros j k h1 h2 Hj Hk Heq Hne.
      apply list_lookup_insert_Some in Hj as [(<- & <- & _)|[Hij Hj]];
        apply list_lookup_insert_Some in Hk as [(<- & <- & _)|[Hik Hk]]; simpl in *.
      + done.
      + by destruct (Forall_lookup_1 _ _ _ _ E Hk).
      + by destruct (Forall_lookup_1 _ _ _ _ E Hj).
      + by eapply Hu. }
  exists i, cb1. split_and!; try done.
  - simpl. by apply list_lookup_insert_eq.
  - intros q Hq. apply option_eq. intros h'. rewrite !peek_entry by done.
    split; intros (Hq0 & j & Hj & Hjq); split; try done; exists j; split; try done; simpl in *.
    + apply list_lookup_insert_Some in Hj as [(<- & <- & _)|[Hij Hj]]; [by simpl in Hjq|done].
    + rewrite list_lookup_insert_ne; [done|]. intros <-. congruence.
Qed.

(** Overwriting the entry of [port] by another entry of [port]. *)
Lemma update_entry_ok i cb h h' :
  inv cb -> health_ cb !! i = Some h -> remoteBindPort h' = remoteBindPort h ->
  remoteBindPort h <> 0 -> entry_inv h' ->
  let cb' := cb <| health_ := <[i := h']> (health_ cb) |> in
  inv cb' /\ peek (remoteBindPort h) cb' = Some h' /\
  (forall q, q <> remoteBindPort h -> peek q cb' = peek q cb).
Proof.
  intros Hi Hh Hport Hne He cb'. pose proof Hi as (Hl & Hf & Hu & Ht).
  pose proof (lookup_lt_Some _ _ _ Hh) as Hlt.
  assert (inv cb') as Hi'.
  { unfold inv, cb'. simpl. rewrite length_insert. split_and!; try done.
    - by apply Forall_insert.
    - intros j k h1 h2 Hj Hk Heq Hn0.
      apply list_lookup_insert_Some in Hj as [(<- & <- & _)|[Hij Hj]];
        apply list_lookup_insert_Some in Hk as [(<- & <- & _)|[Hik Hk]].
      + done.
      + eapply Hu; eauto; congruence.
      + symmetry. eapply Hu; eauto; congruence.
      + by eapply Hu. }
  split_and!; [done| |].
  - apply peek_entry; [done|]. split; [done|]. exists i. split; [|done].
    by apply list_lookup_insert_eq.
  - intros q Hq. apply option_eq. intros h2. rewrite !peek_entry by done.
    split; intros (Hq0 & j & Hj & Hjq); split; try done; exists j; split; try done; simpl in *.
    + apply list_lookup_insert_Some in Hj as [(<- & <- & _)|[Hij Hj]]; [congruence|done].
    + rewrite list_lookup_insert_ne; [done|]. intros <-. congruence.
Qed.

Lemma backoff_delay_range f : 3 <= f -> 1000 <= backoff_delay f <= 60000.
Proof.
  intros Hf. unfold backoff_delay, BACKOFF_BASE_MS, BACKOFF_CAP_MS, FAIL_THRESHOLD.
  set (e := if 16 <? f - 3 then 16 else f - 3).
  assert (0 <= e <= 16) as He by (unfold e; destruct (Z.ltb_spec 16 (f - 3)); lia).
  clearbody e. rewrite Z.shiftl_mul_pow2 by lia.
  assert (1 <= 2 ^ e <= 2 ^ 16) by (split; [apply (Z.pow_le_mono_r 2 0)|apply Z.pow_le_mono_r]; lia).
  rewrite u32_small by lia. destruct (Z.ltb_spec 60000 (1000 * 2 ^ e)); lia.
Qed.

Lemma fail_entry_inv h now :
  entry_inv h -> entry_inv (snd (fail_entry h now)) /\
  remoteBindPort (snd (fail_entry h now)) = remoteBindPort h /\
  consecutiveFails (snd (fail_entry h now)) = Z.min 100 (consecutiveFails h + 1).
Proof.
  intros [Hc Hb]. unfold fail_entry, FAIL_THRESHOLD.
  destruct (Z.ltb_spec (consecutiveFails h) 100); simpl;
  match goal with |- context [3 <=? ?x] => destruct (Z.leb_spec 3 x) end; simpl;
    split_and!; try done; try (simpl; lia); try apply u32_bound; unfold entry_inv; simpl;
    split; try lia; try apply u32_bound; done.
Qed.

(** [recordFailure] and [recordSuccess] when the table has room for the port. *)
Lemma recordFailure_ok port now cb :
  inv cb -> port <> 0 -> has_room port cb ->
  let '(tripped, cb') := recordFailure port now cb in
  let h := entry_of port cb in
  inv cb' /\ tripped = fst (fail_entry h now) /\ peek port cb' = Some (snd (fail_entry h now)) /\
  (forall q, q <> port -> peek q cb' = peek q cb) /\
  totalTrips_ cb' = (if tripped then u32 (totalTrips_ cb + 1) else totalTrips_ cb).
Proof.
  intros Hi Hp Hroom. unfold recordFailure. destruct (Z.eqb_spec port 0); [done|].
  destruct (findOrAlloc_ok port cb Hi Hp Hroom) as (i & cb1 & -> & Hi1 & Hh & Hport & He & Ht & Hq).
  rewrite Hh. destruct (fail_entry_inv _ now He) as (He' & Hport' & _).
  destruct (fail_entry (entry_of port cb) now) as [tripped h'] eqn:Ef. simpl in *.
  destruct (update_entry_ok i cb1 _ h' Hi1 Hh) as (Hi2 & Hpk & Hq2); [congruence|congruence|done|].
  rewrite Hport in *.
  destruct tripped; simpl; split_and!; try done; try congruence;
    try (intros q Hne; by rewrite <- Hq, <- Hq2 by done).
  destruct Hi2 as (? & ? & ? & ?). unfold inv. simpl. split_and!; try done. apply u32_bound.
Qed.

Lemma recordSuccess_ok port cb :
  inv cb -> port <> 0 -> has_room port cb ->
  let cb' := recordSuccess port cb in
  inv cb' /\ peek port cb' = Some (mkMappingHealth port 0 0) /\
  (forall q, q <> port -> peek q cb' = peek q cb) /\ totalTrips_ cb' = totalTrips_ cb.
Proof.
  intros Hi Hp Hroom. unfold recordSuccess. destruct (Z.eqb_spec port 0); [done|].
  destruct (findOrAlloc_ok port cb Hi Hp Hroom) as (i & cb1 & -> & Hi1 & Hh & Hport & He & Ht & Hq).
  rewrite Hh.
  assert ((entry_of port cb) <| consecutiveFails := 0 |> <| backoffUntilMs := 0 |> =
    mkMappingHealth port 0 0) as ->
    by (destruct (entry_of port cb); simpl in *; by subst).
  destruct (update_entry_ok i cb1 _ (mkMappingHealth port 0 0) Hi1 Hh) as (Hi2 & Hpk & Hq2);
    [by rewrite Hport|by rewrite Hport|split; simpl; [lia|unfold u32_range; lia]|].
  rewrite Hport in *. split_and!; try done. intros q Hne. by rewrite <- Hq, <- Hq2 by done.
Qed.

(** The table cannot be full for a port of a set of at most eight ports that
    contains every port in the table. *)
Lemma room_for_few_ports (ports : gset Z) port cb :
  inv cb -> (size ports <= MAX_MAPPING_HEALTH)%nat -> port ∈ ports ->
  (forall q, is_Some (peek q cb) -> q ∈ ports) -> has_room port cb.
Proof.
  intros Hi Hsz Hp Hsub. pose proof Hi as (Hl & _ & Hu & _). unfold has_room.
  destruct (index_of_port port (health_ cb)) eqn:E; [by left|].
  destruct (index_of_port 0 (health_ cb)) eqn:E0; [by right|]. exfalso.
  apply index_of_port_None in E, E0.
  assert (NoDup (port :: (remoteBindPort <$> health_ cb))) as Hnd.
  { constructor.
    - intros (h & -> & Hh)%list_elem_of_fmap. apply list_elem_of_lookup in Hh as [i Hi'].
      by apply (Forall_lookup_1 _ _ _ _ E Hi').
    - apply NoDup_alt. intros i j p Hi1 Hj1.
      apply list_lookup_fmap_Some in Hi1 as (h1 & -> & H1), Hj1 as (h2 & Eq & H2).
      eapply Hu; eauto. by apply (Forall_lookup_1 _ _ _ _ E0 H1). }
  assert ((list_to_set (port :: (remoteBindPort <$> health_ cb)) : gset Z) ⊆ ports) as Hsub'.
  { intros q. rewrite elem_of_list_to_set, elem_of_cons. intros [->|Hq]; [done|].
    apply list_elem_of_fmap in Hq as (h & -> & Hh). apply list_elem_of_lookup in Hh as [i Hh].
    apply Hsub. exists h. apply peek_entry; [done|]. split; [|eauto].
    by apply (Forall_lookup_1 _ _ _ _ E0 Hh). }
  apply subseteq_size in Hsub'. rewrite size_list_to_set in Hsub' by done.
  simpl in Hsub'. rewrite length_fmap, Hl in Hsub'. lia.
Qed.

Lemma full_table_skips port now cb :
  ~ has_room port cb -> recordFailure port now cb = (false, cb) /\ recordSuccess port cb = cb.
Proof.
  intros Hn. unfold recordFailure, recordSuccess, findOrAlloc, has_room in *.
  destruct (index_of_port port (health_ cb)) as [i|]; [destruct Hn; eauto|].
  destruct (index_of_port 0 (health_ cb)) as [i|]; [destruct Hn; eauto|].
  by destruct (port =? 0).
Qed.

Lemma has_room_or_full port cb : has_room port cb \/ ~ has_room port cb.
Proof.
  unfold has_room. destruct (index_of_port port _); [left; eauto|].
  destruct (index_of_port 0 _); [left; eauto|]. right. by intros [[]|[]].
Qed.

(** Both operations preserve the invariant, whatever the port and the table. *)
Lemma recordFailure_inv port now cb : inv cb -> inv (snd (recordFailure port now cb)).
Proof.
  intros Hi. destruct (decide (port = 0)) as [->|Hp]; [done|].
  destruct (has_room_or_full port cb) as [Hr|Hr].
  - pose proof (recordFailure_ok port now cb Hi Hp Hr) as H.
    destruct (recordFailure port now cb). by destruct H.
  - by destruct (full_table_skips port now cb Hr) as [-> _].
Qed.

Lemma recordSuccess_inv port cb : inv cb -> inv (recordSuccess port cb).
Proof.
  intros Hi. destruct (decide (port = 0)) as [->|Hp]; [done|].
  destruct (has_room_or_full port cb) as [Hr|Hr].
  - by destruct (recordSuccess_ok port cb Hi Hp Hr).
  - by destruct (full_table_skips port 0 cb Hr) as [_ ->].
Qed.

Lemma new_breaker_inv : inv new_breaker.
Proof.
  unfold inv, new_breaker. simpl. split_and!; [done| | |unfold u32_range; lia].
  - repeat constructor; simpl; unfold u32_range; lia.
  - intros i j h1 h2 H1 H2 _ Hne.
    change (replicate MAX_MAPPING_HEALTH unused_entry !! i = Some h1) in H1.
    apply lookup_replicate in H1 as [-> _]. done.
Qed.

Lemma backoff_delay_formula f :
  FAIL_THRESHOLD <= f -> backoff_delay f = Z.min BACKOFF_CAP_MS (BACKOFF_BASE_MS * 2 ^ (f - FAIL_THRESHOLD)).
Proof.
  intros Hf. unfold backoff_delay, BACKOFF_BASE_MS, BACKOFF_CAP_MS, FAIL_THRESHOLD in *.
  destruct (Z.ltb_spec 16 (f - 3)).
  - assert (2 ^ 6 <= 2 ^ (f - 3)) by (apply Z.pow_le_mono_r; lia).
    rewrite Z.min_l by lia. done.
  - rewrite Z.shiftl_mul_pow2 by lia.
    assert (1 <= 2 ^ (f - 3) <= 2 ^ 16) by (split; [apply (Z.pow_le_mono_r 2 0)|apply Z.pow_le_mono_r]; lia).
    rewrite u32_small by lia. destruct (Z.ltb_spec 60000 (1000 * 2 ^ (f - 3))); lia.
Qed.

(** The signed comparison of the deadline [now + d] with the clock at [t]. *)
Lemma deadline_in_future now d t :
  0 <= d < 2 ^ 31 ->
  (s32 (t - u32 (now + d)) <? 0) =
  ((u32 (t - now) <? d) || (d + 2 ^ 31 <=? u32 (t - now))).
Proof.
  intros Hd. unfold s32.
  assert (u32 (t - u32 (now + d)) = u32 (u32 (t - now) - d)) as ->.
  { unfold u32. rewrite Zminus_mod_idemp_r, Zminus_mod_idemp_l. f_equal. lia. }
  pose proof (u32_bound (t - now)) as He. set (e := u32 (t - now)) in *. clearbody e.
  unfold u32_range in He.
  destruct (Z.ltb_spec e d).
  - assert (u32 (e - d) = e - d + 2 ^ 32) as ->.
    { unfold u32. symmetry. apply (Z.mod_unique_pos _ _ (-1)); lia. }
    destruct (Z.ltb_spec (e - d + 2 ^ 32) (2 ^ 31)); simpl; lia.
  - rewrite u32_small by lia. destruct (Z.ltb_spec (e - d) (2 ^ 31)), (Z.leb_spec (d + 2 ^ 31) e);
      simpl; lia.
Qed.

Lemma isBackedOff_entry port now cb h :
  peek port cb = Some h -> isBackedOff port now cb = entry_open h now.
Proof.
  intros H. unfold isBackedOff, entry_open. rewrite H. by destruct (backoffUntilMs h =? 0).
Qed.

(** ** Histories *)

Inductive outcome := Failed (port now : Z) | Succeeded (port : Z).
Definition outcome_port (o : outcome) : Z :=
  match o with Failed p _ => p | Succeeded p => p end.

Definition record (o : outcome) (cb : CircuitBreaker) : CircuitBreaker :=
  match o with
  | Failed p now => snd (recordFailure p now cb)
  | Succeeded p => recordSuccess p cb
  end.

Definition record_all (os : list outcome) (cb : CircuitBreaker) : CircuitBreaker :=
  fold_left (fun cb o => record o cb) os cb.

(** Reference: the failures of one port since its last success, capped at 100,
    and the deadline set by the last failure at or above the threshold. *)
Definition ref_step (port : Z) (h : MappingHealth) (o : outcome) : MappingHealth :=
  if outcome_port o =? port then
    match o with
    | Succeeded _ => mkMappingHealth port 0 0
    | Failed _ now =>
        let f := Z.min 100 (consecutiveFails h + 1) in
        mkMappingHealth port f
          (if f <? 3 then backoffUntilMs h
           else u32 (now + Z.min 60000 (1000 * 2 ^ (f - 3))))
    end
  else h.

Definition ref_entry (port : Z) (os : list outcome) : MappingHealth :=
  fold_left (ref_step port) os (mkMappingHealth port 0 0).

Definition ports_of (os : list outcome) : gset Z := list_to_set (outcome_port <$> os).

Lemma fail_entry_ref port h now :
  entry_inv h -> remoteBindPort h = port ->
  snd (fail_entry h now) = ref_step port h (Failed port now).
Proof.
  intros [Hc _] Hp. unfold ref_step, fail_entry. simpl. rewrite Z.eqb_refl.
  assert ((if consecutiveFails h <? 100 then h <| consecutiveFails := consecutiveFails h + 1 |> else h)
    = mkMappingHealth port (Z.min 100 (consecutiveFails h + 1)) (backoffUntilMs h)) as ->.
  { destruct (Z.ltb_spec (consecutiveFails h) 100); destruct h; unfold upd; simpl in *; subst; f_equal; lia. }
  simpl. destruct (Z.leb_spec FAIL_THRESHOLD (Z.min 100 (consecutiveFails h + 1))) as [H|H];
    unfold FAIL_THRESHOLD in *.
  - rewrite (proj2 (Z.ltb_ge _ 3)) by lia. simpl. f_equal. by rewrite backoff_delay_formula.
  - rewrite (proj2 (Z.ltb_lt _ 3)) by lia. done.
Qed.

Lemma entry_of_inv port cb : inv cb -> port <> 0 ->
  entry_inv (entry_of port cb) /\ remoteBindPort (entry_of port cb) = port.
Proof.
  intros Hi Hp. unfold entry_of. destruct (peek port cb) as [h|] eqn:E; simpl.
  - apply peek_entry in E as (_ & i & Hh & Hport); [|done]. split; [|done].
    eapply Forall_lookup_1; [apply Hi|exact Hh].
  - split; [|done]. split; simpl; unfold u32_range; lia.
Qed.

Lemma record_step o cb :
  inv cb -> outcome_port o <> 0 -> has_room (outcome_port o) cb ->
  inv (record o cb) /\ (forall q, entry_of q (record o cb) = ref_step q (entry_of q cb) o) /\
  (forall q, is_Some (peek q (record o cb)) -> q = outcome_port o \/ is_Some (peek q cb)).
Proof.
  intros Hi Hp Hroom. destruct (entry_of_inv _ cb Hi Hp) as [He Hport].
  assert (exists h', inv (record o cb) /\ peek (outcome_port o) (record o cb) = Some h' /\
    h' = ref_step (outcome_port o) (entry_of (outcome_port o) cb) o /\
    forall q, q <> outcome_port o -> peek q (record o cb) = peek q cb) as (h' & H1 & H2 & H3 & H4).
  { destruct o as [p now|p]; simpl in *.
    - pose proof (recordFailure_ok p now cb Hi Hp Hroom) as H.
      destruct (recordFailure p now cb) as [t cb']. destruct H as (H1 & _ & H2 & H3 & _).
      eexists. split_and!; [done|exact H2|by apply fail_entry_ref|done].
    - destruct (recordSuccess_ok p cb Hi Hp Hroom) as (H1 & H2 & H3 & _).
      eexists. split_and!; [done|exact H2| |done]. unfold ref_step. simpl. by rewrite Z.eqb_refl. }
  split; [done|]. split.
  - intros q. destruct (decide (q = outcome_port o)) as [->|Hq].
    + unfold entry_of at 1. rewrite H2. done.
    + unfold entry_of at 1. rewrite H4 by done. fold (entry_of q cb).
      unfold ref_step. destruct (Z.eqb_spec (outcome_port o) q); [by subst|done].
  - intros q Hs. destruct (decide (q = outcome_port o)); [by left|]. right. by rewrite <- H4.
Qed.

Lemma record_all_ref (ports : gset Z) os : forall cb,
  (size ports <= MAX_MAPPING_HEALTH)%nat -> 0 ∉ ports -> ports_of os ⊆ ports ->
  inv cb -> (forall q, is_Some (peek q cb) -> q ∈ ports) ->
  inv (record_all os cb) /\
  forall q, entry_of q (record_all os cb) = fold_left (ref_step q) os (entry_of q cb).
Proof.
  induction os as [|o os IH]; intros cb Hsz H0 Hps Hi Hsub; [done|]. simpl.
  assert (outcome_port o ∈ ports) as Ho by (apply Hps; unfold ports_of; set_solver).
  destruct (record_step o cb) as (Hi1 & He1 & Hs1); [done|by intros ?; congruence|by eapply room_for_few_ports|].
  destruct (IH (record o cb)) as [Hi2 He2]; [done|done|unfold ports_of in *; set_solver|done| |].
  - intros q [->|H]%Hs1; auto.
  - split; [done|]. intros q. by rewrite He2, He1.
Qed.

Lemma history_ok os port :
  (size (ports_of os) <= MAX_MAPPING_HEALTH)%nat -> 0 ∉ ports_of os ->
  inv (record_all os new_breaker) /\
  entry_of port (record_all os new_breaker) = ref_entry port os.
Proof.
  intros Hsz H0.
  assert (forall q, peek q new_breaker = None) as Hnew.
  { intros q. unfold peek, find. destruct (Z.eqb_spec q 0); [done|].
    destruct (index_of_port q (health_ new_breaker)) as [i|] eqn:E; [|done].
    apply index_of_port_Some in E as (h & Hh & Hq).
    change (replicate MAX_MAPPING_HEALTH unused_entry !! i = Some h) in Hh.
    apply lookup_replicate in Hh as [-> _]. by destruct n. }
  destruct (record_all_ref (ports_of os) os new_breaker) as [Hi He]; [done..|apply new_breaker_inv| |].
  - intros q [h Hh]. by rewrite Hnew in Hh.
  - split; [done|]. rewrite He. unfold entry_of. by rewrite Hnew.
Qed.

(** C35: for any history of connect failures and successes that involves at most
    [MAX_MAPPING_HEALTH] distinct ports, the breaker keeps its table invariant
    and knows, for every port, exactly what a per-port reference computes from
    the history: the failures since the last success capped at 100, and as
    deadline the clock of the last failure at or above the threshold plus
    min(60000, 1000 * 2^(fails - 3)) ms; other ports never interfere. *)
Theorem breaker_history os port :
  (size (ports_of os) <= MAX_MAPPING_HEALTH)%nat -> 0 ∉ ports_of os ->
  inv (record_all os new_breaker) /\
  entry_of port (record_all os new_breaker) = ref_entry port os.
Proof. apply history_ok. Qed.

(** A failure that brings the count to the threshold or above closes the
    port for exactly [d] = min(60000, 1000 * 2^(fails - 3)) ms, on the 32-bit
    clock across its wrap, and counts one trip when the port was not backed off
    already; below the threshold the back-off state is unchanged.  Two limits
    of the code are part of the statement: a deadline that wraps to 0 disables
    the back-off, and an entry untouched for [d + 2^31] ms is backed off again. *)
Theorem breaker_window port now t cb :
  inv cb -> port <> 0 -> has_room port cb ->
  let fails := Z.min 100 (consecutiveFails (entry_of port cb) + 1) in
  let d := Z.min BACKOFF_CAP_MS (BACKOFF_BASE_MS * 2 ^ (fails - FAIL_THRESHOLD)) in
  let elapsed := u32 (t - now) in
  let '(tripped, cb') := recordFailure port now cb in
  if fails <? FAIL_THRESHOLD
  then isBackedOff port t cb' = isBackedOff port t cb /\ tripped = false
  else
    isBackedOff port t cb' =
      negb (u32 (now + d) =? 0) && ((elapsed <? d) || (d + 2 ^ 31 <=? elapsed)) /\
    tripped = negb (isBackedOff port now cb) /\
    totalTrips_ cb' = (if tripped then u32 (totalTrips_ cb + 1) else totalTrips_ cb).
Proof.
  intros Hi Hp Hroom fails d el. destruct (entry_of_inv port cb Hi Hp) as [He Hport].
  pose proof (recordFailure_ok port now cb Hi Hp Hroom) as H.
  destruct (recordFailure port now cb) as [tr cb']. destruct H as (Hi' & Htr & Hpk & _ & Htrips).
  rewrite (isBackedOff_entry _ _ _ _ Hpk), (fail_entry_ref port) by done.
  assert (forall t', isBackedOff port t' cb = entry_open (entry_of port cb) t') as Hold.
  { intros t'. unfold isBackedOff, entry_of, entry_open. destruct (peek port cb) as [h|]; simpl; [|done].
    by destruct (backoffUntilMs h =? 0). }
  rewrite !Hold. unfold ref_step, entry_open. simpl. rewrite Z.eqb_refl. simpl. fold fails.
  unfold fail_entry in Htr. fold (entry_open (entry_of port cb) now).
  assert (consecutiveFails (if consecutiveFails (entry_of port cb) <? 100
    then (entry_of port cb) <| consecutiveFails := consecutiveFails (entry_of port cb) + 1 |>
    else entry_of port cb) = fails) as Hf.
  { unfold fails. destruct He as [He _].
    destruct (Z.ltb_spec (consecutiveFails (entry_of port cb)) 100); simpl; lia. }
  rewrite Hf in Htr. unfold FAIL_THRESHOLD in *.
  rewrite (Z.leb_antisym fails 3) in Htr. destruct (Z.ltb_spec fails 3); simpl in *; [done|].
  split_and!; [|done|done].
  unfold el. rewrite <- deadline_in_future; [done|].
  unfold d, BACKOFF_CAP_MS, BACKOFF_BASE_MS. 
  assert (1 <= 2 ^ (fails - 3)) by (apply (Z.pow_le_mono_r 2 0); lia). lia.
Qed.

(** A success closes the breaker for its port at every later instant, and
    changes neither any other port nor the trip count; when the table is full
    both operations leave it untouched. *)
Theorem breaker_success_closes port t cb :
  inv cb -> port <> 0 ->
  let cb' := recordSuccess port cb in
  inv cb' /\ totalTrips_ cb' = totalTrips_ cb /\
  (forall q, q <> port -> isBackedOff q t cb' = isBackedOff q t cb) /\
  (has_room port cb -> isBackedOff port t cb' = false) /\
  (~ has_room port cb -> cb' = cb /\ forall now, recordFailure port now cb = (false, cb)).
Proof.
  intros Hi Hp cb'.
  destruct (has_room_or_full port cb) as [Hr|Hr].
  - destruct (recordSuccess_ok port cb Hi Hp Hr) as (H1 & H2 & H3 & H4).
    fold cb' in H1, H2, H3, H4. split_and!; [done|done| | |done].
    + intros q Hq. unfold isBackedOff. by rewrite H3.
    + intros _. by rewrite (isBackedOff_entry _ _ _ _ H2).
  - destruct (full_table_skips port 0 cb Hr) as [_ H2]. unfold cb'. rewrite H2.
    split_and!; try done. intros _. split; [done|]. intros now. by apply full_table_skips.
Qed.

(** ** Witnesses *)

Definition example_history : list outcome :=
  [Failed 80 10; Failed 443 11; Failed 80 12; Failed 80 13; Failed 80 1500; Succeeded 443].

Lemma breaker_history_witness :
  ref_entry 80 example_history = mkMappingHealth 80 4 3500 /\
  entry_of 80 (record_all example_history new_breaker) = ref_entry 80 example_history.
Proof.
  split; [by vm_compute|]. apply breaker_history; vm_compute; [lia|set_solver].
Defined.

Lemma breaker_window_witness :
  let cb := record_all (take 3 example_history) new_breaker in
  fst (recordFailure 80 (2 ^ 32 - 500) cb) = true /\
  isBackedOff 80 499 (snd (recordFailure 80 (2 ^ 32 - 500) cb)) = true /\
  isBackedOff 80 500 (snd (recordFailure 80 (2 ^ 32 - 500) cb)) = false.
Proof.
  intros cb.
  assert (inv cb) as Hi by (apply (history_ok (take 3 example_history) 80); vm_compute; [lia|set_solver]).
  assert (has_room 80 cb) as Hr by (left; by exists 0%nat).
  pose proof (breaker_window 80 (2 ^ 32 - 500) 499 cb Hi) as H1.
  pose proof (breaker_window 80 (2 ^ 32 - 500) 500 cb Hi) as H2.
  specialize (H1 ltac:(done) Hr). specialize (H2 ltac:(done) Hr).
  destruct (recordFailure 80 (2 ^ 32 - 500) cb) as [tr cb'].
  destruct H1 as (H1 & Ht & _). destruct H2 as (H2 & _).
  cbn [fst snd]. rewrite Ht, H1, H2. by vm_compute.
Defined.

Lemma breaker_success_closes_witness :
  let cb := record_all (take 4 example_history) new_breaker in
  isBackedOff 80 100 cb = true /\ isBackedOff 80 100 (recordSuccess 80 cb) = false.
Proof.
  intros cb.
  split; [by vm_compute|].
  apply (breaker_success_closes 80 100 cb); [|done|left; by exists 0%nat].
  apply (history_ok (take 4 example_history) 80); vm_compute; [lia|set_solver].
Defined.
