(* ===== verification/Config.v ===== *)
(** * ssh_config.h, ssh_config.cpp, ssh_config_validators.h: the configuration

    [SSHConfiguration] holds the four configuration structures and a mutex.
    Every setter takes the mutex for ever ([portMAX_DELAY]), changes fields and
    gives it back; the validators and [getTunnelConfig] read without it.
    Arduino [String]s are [string]s.  Function pointers of the host-key mismatch
    callback are opaque handles.  Log output is not modelled, so [diagnoseSSHKeys]
    and [printConfiguration], which only log, are reduced to their locking. *)

From S2P Require Import Prelude Platform.

(** ** Data *)

Inductive LogLevel := LOG_ERROR | LOG_WARN | LOG_INFO | LOG_DEBUG.

Definition String := string.

Record SSHServerConfig := mkSSHServerConfig {
  host : String;
  port : Z;
  username : String;
  password : String;
  useSSHKey : bool;
  privateKeyData : String;
  publicKeyData : String;
  verifyHostKey : bool;
  expectedHostKeyFingerprint : String;
  hostKeyType : String;
  onHostKeyMismatch : option Z;
  hostKeyMismatchContext : option Z;
}.
#[export] Instance SSHServerConfig_eta : Eta SSHServerConfig := fun c =>
  mkSSHServerConfig (host c) (port c) (username c) (password c) (useSSHKey c)
    (privateKeyData c) (publicKeyData c) (verifyHostKey c) (expectedHostKeyFingerprint c)
    (hostKeyType c) (onHostKeyMismatch c) (hostKeyMismatchContext c).

Definition default_server : SSHServerConfig :=
  mkSSHServerConfig "" 22 "" "" false "" "" false "" "" None None.

Record TunnelConfig := mkTunnelConfig {
  remoteBindHost : String;
  remoteBindPort : Z;
  localHost : String;
  localPort : Z;
}.
#[export] Instance TunnelConfig_eq_dec : EqDecision TunnelConfig.
Proof. solve_decision. Defined.

Definition default_mapping : TunnelConfig := mkTunnelConfig "" 0 "" 0.

Record ConnectionConfig := mkConnectionConfig {
  keepAliveIntervalSec : Z;
  reconnectDelayMs : Z;
  maxReconnectAttempts : Z;
  connectionTimeoutSec : Z;
  bufferSize : Z;
  maxChannels : Z;
  channelTimeoutMs : Z;
  libssh2KeepAliveEnabled : bool;
  libssh2KeepAliveIntervalSec : Z;
  tunnelRingBufferSize : Z;
  maxReverseListeners : Z;
}.
#[export] Instance ConnectionConfig_eta : Eta ConnectionConfig := fun c =>
  mkConnectionConfig (keepAliveIntervalSec c) (reconnectDelayMs c) (maxReconnectAttempts c)
    (connectionTimeoutSec c) (bufferSize c) (maxChannels c) (channelTimeoutMs c)
    (libssh2KeepAliveEnabled c) (libssh2KeepAliveIntervalSec c) (tunnelRingBufferSize c)
    (maxReverseListeners c).

Definition default_connection : ConnectionConfig :=
  mkConnectionConfig 10 5000 5 30 8192 10 30000 true 30 (64 * 1024) 1.

Record DebugConfig := mkDebugConfig {
  debugEnabled : bool;
  serialBaudRate : Z;
  minLogLevel : LogLevel;
}.
#[export] Instance DebugConfig_eta : Eta DebugConfig := fun c =>
  mkDebugConfig (debugEnabled c) (serialBaudRate c) (minLogLevel c).

Definition default_debug : DebugConfig := mkDebugConfig true 115200 LOG_INFO.

Record SSHConfiguration := mkSSHConfiguration {
  sshConfig : SSHServerConfig;
  tunnelMappings : list TunnelConfig;
  connectionConfig : ConnectionConfig;
  debugConfig : DebugConfig;
  configMutex : bool;                     (* false = NULL *)
}.
#[export] Instance SSHConfiguration_eta : Eta SSHConfiguration := fun c =>
  mkSSHConfiguration (sshConfig c) (tunnelMappings c) (connectionConfig c) (debugConfig c)
    (configMutex c).

(** ** ssh_config_validators.h *)

Definition isValidPort (port : Z) : bool := (1 <=? port) && (port <=? 65535).
Definition isValidHostname (host : String) : bool := negb (bool_decide (host = ""%string)).
Definition isValidKeepAlive (seconds : Z) : bool := 0 <? seconds.
Definition isValidBufferSize (bytes : Z) : bool := 0 <? bytes.
Definition isValidReconnectDelay (ms : Z) : bool := 0 <? ms.
Definition isValidMaxChannels (n : Z) : bool := 0 <? n.
Definition isValidConnectionTimeout (seconds : Z) : bool := 0 <? seconds.
Definition isValidMaxReconnectAttempts (n : Z) : bool := 0 <? n.

(** ** Validation (ssh_config.cpp) *)

(** [c_str()] stops at the first NUL. *)
Fixpoint c_str (s : String) : String :=
  match s with
  | EmptyString => EmptyString
  | String.String a s' =>
      if Ascii.eqb a Ascii.zero then EmptyString else String.String a (c_str s')
  end.

Definition str_len (s : String) : Z := Z.of_nat (String.length s).

Definition validateSSHConfig (c : SSHConfiguration) : bool :=
  let s := sshConfig c in
  if negb (isValidHostname (c_str (host s))) then false
  else if negb (isValidPort (port s)) then false
  else if negb (isValidHostname (c_str (username s))) then false
  else if negb (useSSHKey s) && (str_len (password s) =? 0) then false
  else if useSSHKey s && (str_len (privateKeyData s) =? 0) then false
  else true.

Fixpoint validateMappings (l : list TunnelConfig) : bool :=
  match l with
  | [] => true
  | mapping :: l' =>
      if negb (isValidHostname (c_str (remoteBindHost mapping))) then false
      else if negb (isValidPort (remoteBindPort mapping)) then false
      else if negb (isValidHostname (c_str (localHost mapping))) then false
      else if negb (isValidPort (localPort mapping)) then false
      else validateMappings l'
  end.

Definition validateTunnelConfig (c : SSHConfiguration) : bool :=
  match tunnelMappings c with
  | [] => false
  | l => validateMappings l
  end.

Definition validateConnectionConfig (c : SSHConfiguration) : bool :=
  let k := connectionConfig c in
  if negb (isValidKeepAlive (keepAliveIntervalSec k)) then false
  else if negb (isValidReconnectDelay (reconnectDelayMs k)) then false
  else if negb (isValidMaxReconnectAttempts (maxReconnectAttempts k)) then false
  else if negb (isValidConnectionTimeout (connectionTimeoutSec k)) then false
  else if negb (isValidBufferSize (bufferSize k)) then false
  else if negb (isValidMaxChannels (maxChannels k)) then false
  else if libssh2KeepAliveEnabled k && (libssh2KeepAliveIntervalSec k <=? 0) then false
  else if tunnelRingBufferSize k =? 0 then false
  else if maxReverseListeners k <=? 0 then false
  else true.

Definition validateConfiguration (c : SSHConfiguration) : bool :=
  validateSSHConfig c && validateTunnelConfig c && validateConnectionConfig c.

Definition getTunnelConfig (index : Z) (c : SSHConfiguration) : TunnelConfig :=
  match tunnelMappings c with
  | [] => default_mapping
  | first :: _ =>
      if zlen (tunnelMappings c) <=? index then first
      else default default_mapping (tunnelMappings c !! Z.to_nat index)
  end.

Definition getTunnelMappingCount (c : SSHConfiguration) : Z := zlen (tunnelMappings c).

(** ** Locked operations *)

Section Operations.
Context {Env : Type} {P : Platform Env} {T : Target}.
Abbreviation CM A := (M (SSHConfiguration * world Env) A).

(** The constructor: default values and a fresh mutex. *)
Definition construct : M (world Env) SSHConfiguration :=
  m <- sys (SemCreate ConfigMutex);;
  ret (mkSSHConfiguration default_server [] default_connection default_debug m).

Definition lockConfig : CM bool :=
  m <- get configMutex;;
  if m then sys (SemTake ConfigMutex portMAX_DELAY) else ret false.

Definition unlockConfig : CM unit :=
  m <- get configMutex;;
  when m (sys (SemGive ConfigMutex)).

(** [if (lockConfig()) { <assignments>; unlockConfig(); }], the body every
    setter has. *)
Definition locked (f : SSHConfiguration -> SSHConfiguration) : CM unit :=
  ok <- lockConfig;;
  when ok (put f;; unlockConfig).

Definition setSSHServer (h : String) (p : Z) (user pass : String) : CM unit :=
  locked (fun c => c <| sshConfig := (sshConfig c)
    <| host := h |> <| port := p |> <| username := user |> <| password := pass |>
    <| useSSHKey := false |> |>).

Definition setSSHKeyAuthFromMemory (h : String) (p : Z) (user priv pub passphrase : String)
  : CM unit :=
  locked (fun c => c <| sshConfig := (sshConfig c)
    <| host := h |> <| port := p |> <| username := user |> <| privateKeyData := priv |>
    <| publicKeyData := pub |> <| password := passphrase |> <| useSSHKey := true |> |>).

(** [indexOf] answers -1 when absent. *)
Definition indexOf (needle s : String) : Z :=
  match String.index 0 needle s with Some n => Z.of_nat n | None => -1 end.

Definition keys_valid (s : SSHServerConfig) : bool :=
  let privateOk :=
    if str_len (privateKeyData s) =? 0 then false
    else negb (indexOf "-----BEGIN" (privateKeyData s) =? -1) &&
         negb (indexOf "-----END" (privateKeyData s) =? -1) in
  let publicOk :=
    if 0 <? str_len (publicKeyData s) then
      negb (negb (indexOf "ssh-" (publicKeyData s) =? 0) &&
            negb (indexOf "ecdsa-" (publicKeyData s) =? 0))
    else true in
  privateOk && publicOk.

Definition validateSSHKeys : CM bool :=
  ok <- lockConfig;;
  if negb ok then ret false else
  valid <- get (fun c => keys_valid (sshConfig c));;
  unlockConfig;;
  ret valid.

Definition diagnoseSSHKeys : CM unit :=
  ok <- lockConfig;;
  if negb ok then ret tt else unlockConfig.

Definition setHostKeyVerification (enable : bool) : CM unit :=
  locked (fun c => c <| sshConfig := (sshConfig c) <| verifyHostKey := enable |> |>).

Definition setExpectedHostKey (fingerprint keyType : String) : CM unit :=
  locked (fun c => c <| sshConfig := (sshConfig c)
    <| expectedHostKeyFingerprint := fingerprint |> <| hostKeyType := keyType |> |>).

(** The overload with a fingerprint. *)
Definition setHostKeyVerificationFull (fingerprint keyType : String) (enable : bool) : CM unit :=
  locked (fun c => c <| sshConfig := (sshConfig c) <| verifyHostKey := enable |>
    <| expectedHostKeyFingerprint := fingerprint |> <| hostKeyType := keyType |> |>).

Definition setHostKeyMismatchCallback (callback context : option Z) : CM unit :=
  locked (fun c => c <| sshConfig := (sshConfig c)
    <| onHostKeyMismatch := callback |> <| hostKeyMismatchContext := context |> |>).

Definition setTunnelConfig (rh : String) (rp : Z) (lh : String) (lp : Z) : CM unit :=
  let mapping := mkTunnelConfig rh rp lh lp in
  locked (fun c => c <| tunnelMappings := [mapping] |>).

(** Both overloads of [addTunnelMapping]. *)
Definition addTunnelMapping (mapping : TunnelConfig) : CM unit :=
  locked (fun c => c <| tunnelMappings := tunnelMappings c ++ [mapping] |>).

Definition addTunnelMapping4 (rh : String) (rp : Z) (lh : String) (lp : Z) : CM unit :=
  addTunnelMapping (mkTunnelConfig rh rp lh lp).

Definition removeTunnelMapping (index : Z) : CM bool :=
  ok <- lockConfig;;
  if ok then
    size <- get getTunnelMappingCount;;
    let removed := index <? size in
    when removed (put (fun c => c <| tunnelMappings :=
      take (Z.to_nat index) (tunnelMappings c) ++ drop (S (Z.to_nat index)) (tunnelMappings c) |>));;
    unlockConfig;;
    ret removed
  else ret false.

Definition clearTunnelMappings : CM unit := locked (fun c => c <| tunnelMappings := [] |>).

Definition setConnectionConfig (keepAliveInterval reconnectDelay maxAttempts connectionTimeout : Z)
  : CM unit :=
  locked (fun c => c <| connectionConfig := (connectionConfig c)
    <| keepAliveIntervalSec := keepAliveInterval |>
    <| libssh2KeepAliveIntervalSec := keepAliveInterval |>
    <| reconnectDelayMs := reconnectDelay |> <| maxReconnectAttempts := maxAttempts |>
    <| connectionTimeoutSec := connectionTimeout |> |>).

Definition setBufferConfig (size channels channelTimeout ringSize : Z) : CM unit :=
  let timeoutMs := if 0 <? channelTimeout then channelTimeout else 0 in
  locked (fun c => c <| connectionConfig := (connectionConfig c)
    <| bufferSize := size |> <| maxChannels := channels |> <| channelTimeoutMs := timeoutMs |>
    <| tunnelRingBufferSize := ringSize |> |>).

Definition setMaxReverseListeners (maxListeners : Z) : CM unit :=
  if maxListeners <=? 0 then ret tt else
  locked (fun c => c <| connectionConfig := (connectionConfig c)
    <| maxReverseListeners := maxListeners |> |>).

Definition setKeepAliveOptions (enableLibssh2 : bool) (intervalSeconds : Z) : CM unit :=
  fallback <- get (fun c => keepAliveIntervalSec (connectionConfig c));;
  let interval := if intervalSeconds <=? 0 then fallback else intervalSeconds in
  locked (fun c => c <| connectionConfig := (connectionConfig c)
    <| libssh2KeepAliveEnabled := enableLibssh2 |>
    <| libssh2KeepAliveIntervalSec := interval |> |>).

Definition setDebugConfig (enabled : bool) (baudRate : Z) : CM unit :=
  locked (fun c => c <| debugConfig := (debugConfig c) <| debugEnabled := enabled |>
    <| serialBaudRate := baudRate |>
    <| minLogLevel := if enabled then LOG_DEBUG else LOG_WARN |> |>).

Definition setLogLevel (level : LogLevel) : CM unit :=
  locked (fun c => c <| debugConfig := (debugConfig c) <| minLogLevel := level |> |>).

Definition printConfiguration : CM unit := locked (fun c => c).

End Operations.

(** ** Specification *)

Record mapping_ok (m : TunnelConfig) : Prop := {
  mok_remote_host : c_str (remoteBindHost m) <> ""%string;
  mok_remote_port : 1 <= remoteBindPort m <= 65535;
  mok_local_host : c_str (localHost m) <> ""%string;
  mok_local_port : 1 <= localPort m <= 65535;
}.

Record server_ok (s : SSHServerConfig) : Prop := {
  sok_host : c_str (host s) <> ""%string;
  sok_port : 1 <= port s <= 65535;
  sok_user : c_str (username s) <> ""%string;
  sok_secret : if useSSHKey s then privateKeyData s <> ""%string else password s <> ""%string;
}.

Record connection_ok (k : ConnectionConfig) : Prop := {
  cok_keepalive : 0 < keepAliveIntervalSec k;
  cok_delay : 0 < reconnectDelayMs k;
  cok_attempts : 0 < maxReconnectAttempts k;
  cok_timeout : 0 < connectionTimeoutSec k;
  cok_buffer : 0 < bufferSize k;
  cok_channels : 0 < maxChannels k;
  cok_libssh2 : libssh2KeepAliveEnabled k = true -> 0 < libssh2KeepAliveIntervalSec k;
  cok_ring : tunnelRingBufferSize k <> 0;
  cok_listeners : 0 < maxReverseListeners k;
}.

Record config_ok (c : SSHConfiguration) : Prop := {
  ok_server : server_ok (sshConfig c);
  ok_some_mapping : tunnelMappings c <> [];
  ok_mappings : Forall mapping_ok (tunnelMappings c);
  ok_connection : connection_ok (connectionConfig c);
}.

(** Turn the boolean tests of a validator into propositions. *)
Ltac bools :=
  repeat match goal with
  | H : context [isValidHostname ?h] |- _ => unfold isValidHostname in H
  | H : _ && _ = true |- _ => apply andb_true_iff in H as [? ?]
  | H : negb _ = true |- _ => apply negb_true_iff in H
  | H : bool_decide _ = false |- _ => apply bool_decide_eq_false in H
  | H : (_ <? _) = true |- _ => apply Z.ltb_lt in H
  | H : (_ <=? _) = true |- _ => apply Z.leb_le in H
  | H : (_ <=? _) = false |- _ => apply Z.leb_gt in H
  | H : (_ =? _) = false |- _ => apply Z.eqb_neq in H
  end.

Lemma isValidPort_iff p : isValidPort p = true <-> 1 <= p <= 65535.
Proof. unfold isValidPort. rewrite andb_true_iff, !Z.leb_le. done. Qed.

Lemma isValidHostname_iff h : isValidHostname h = true <-> h <> ""%string.
Proof. unfold isValidHostname. by rewrite negb_true_iff, bool_decide_eq_false. Qed.

Lemma str_len_0 s : str_len s = 0 <-> s = ""%string.
Proof. unfold str_len. destruct s; simpl; split; intros; done || lia. Qed.

(** A chain of early returns [if negb g then false else k] is a conjunction. *)
Lemma guard_true (g k : bool) : (if negb g then false else k) = true <-> g = true /\ k = true.
Proof. by destruct g, k; intuition. Qed.

Lemma guard_false (g k : bool) : (if g then false else k) = true <-> g = false /\ k = true.
Proof. by destruct g, k; intuition. Qed.

Lemma validateSSHConfig_iff c : validateSSHConfig c = true <-> server_ok (sshConfig c).
Proof.
  unfold validateSSHConfig. rewrite !guard_true, !guard_false, !isValidHostname_iff, isValidPort_iff.
  rewrite !andb_false_iff, negb_false_iff, !Z.eqb_neq, !str_len_0.
  split.
  - intros (? & ? & ? & Hp & Hk & _). split; try done.
    destruct (useSSHKey (sshConfig c)); [destruct Hk | destruct Hp]; done.
  - intros [? ? ? Hs]. split_and!; try lia; try done; destruct (useSSHKey (sshConfig c)); auto.
Qed.

Lemma validateMappings_iff l : validateMappings l = true <-> Forall mapping_ok l.
Proof.
  induction l as [|m l IH]; simpl; [by split|].
  rewrite !guard_true, !isValidHostname_iff, !isValidPort_iff, IH, Forall_cons_iff.
  split; [intros (? & ? & ? & ? & ?) | intros [[? ? ? ?] ?]]; done.
Qed.

Lemma validateTunnelConfig_iff c :
  validateTunnelConfig c = true <-> tunnelMappings c <> [] /\ Forall mapping_ok (tunnelMappings c).
Proof.
  unfold validateTunnelConfig. destruct (tunnelMappings c); [by split; [|intros []]|].
  rewrite validateMappings_iff. naive_solver.
Qed.

Lemma validateConnectionConfig_iff c :
  validateConnectionConfig c = true <-> connection_ok (connectionConfig c).
Proof.
  unfold validateConnectionConfig, isValidKeepAlive, isValidReconnectDelay,
    isValidMaxReconnectAttempts, isValidConnectionTimeout, isValidBufferSize, isValidMaxChannels.
  rewrite !guard_true, !guard_false, !Z.ltb_lt, Z.eqb_neq, andb_false_iff, !Z.leb_gt.
  split.
  - intros (? & ? & ? & ? & ? & ? & Hl & ? & ? & _). split; try done.
    intros E. rewrite E in Hl. by destruct Hl.
  - intros []. split_and!; try done. destruct (libssh2KeepAliveEnabled _); auto.
Qed.

(** [validateConfiguration] accepts exactly the well-formed configurations:
    a server with a host, a user, a port in 1..65535 and the secret its
    authentication method needs, at least one mapping, every mapping with both
    hosts and ports in range, and positive connection parameters. *)
Theorem validateConfiguration_iff c : validateConfiguration c = true <-> config_ok c.
Proof.
  unfold validateConfiguration.
  rewrite !andb_true_iff, validateSSHConfig_iff, validateTunnelConfig_iff,
    validateConnectionConfig_iff.
  split; [intros [[? []] ?] | intros []]; done.
Qed.

(** ** Setters are atomic and preserve well-formedness *)

Inductive config_op :=
  | OpSSHServer (h : String) (p : Z) (user pass : String)
  | OpSSHKey (h : String) (p : Z) (user priv pub passphrase : String)
  | OpHostKeyVerification (enable : bool)
  | OpExpectedHostKey (fingerprint keyType : String)
  | OpHostKeyFull (fingerprint keyType : String) (enable : bool)
  | OpMismatchCallback (callback context : option Z)
  | OpTunnelConfig (rh : String) (rp : Z) (lh : String) (lp : Z)
  | OpAddMapping (m : TunnelConfig)
  | OpRemoveMapping (index : Z)
  | OpClearMappings
  | OpConnection (keepAlive delay attempts timeout : Z)
  | OpBuffer (size channels timeout ringSize : Z)
  | OpMaxListeners (n : Z)
  | OpKeepAlive (enable : bool) (interval : Z)
  | OpDebug (enabled : bool) (baud : Z)
  | OpLogLevel (level : LogLevel).

(** The arguments that keep a valid configuration valid. *)
Definition op_args_ok (c : SSHConfiguration) (o : config_op) : Prop :=
  match o with
  | OpSSHServer h p user pass =>
      c_str h <> ""%string /\ 1 <= p <= 65535 /\ c_str user <> ""%string /\ pass <> ""%string
  | OpSSHKey h p user priv _ _ =>
      c_str h <> ""%string /\ 1 <= p <= 65535 /\ c_str user <> ""%string /\ priv <> ""%string
  | OpTunnelConfig rh rp lh lp => mapping_ok (mkTunnelConfig rh rp lh lp)
  | OpAddMapping m => mapping_ok m
  | OpRemoveMapping index => 0 <= index /\ (length (tunnelMappings c) > 1)%nat
  | OpClearMappings => False
  | OpConnection k d a t => 0 < k /\ 0 < d /\ 0 < a /\ 0 < t
  | OpBuffer size channels _ ring => 0 < size /\ 0 < channels /\ ring <> 0
  | _ => True
  end.

Section Setters.
Context {Env : Type} {P : Platform Env} {T : Target}.

Definition run_config (o : config_op) : M (SSHConfiguration * world Env) unit :=
  match o with
  | OpSSHServer h p user pass => setSSHServer h p user pass
  | OpSSHKey h p user priv pub pp => setSSHKeyAuthFromMemory h p user priv pub pp
  | OpHostKeyVerification e => setHostKeyVerification e
  | OpExpectedHostKey f k => setExpectedHostKey f k
  | OpHostKeyFull f k e => setHostKeyVerificationFull f k e
  | OpMismatchCallback cb ctx => setHostKeyMismatchCallback cb ctx
  | OpTunnelConfig rh rp lh lp => setTunnelConfig rh rp lh lp
  | OpAddMapping m => addTunnelMapping m
  | OpRemoveMapping i => _ <- removeTunnelMapping i;; ret tt
  | OpClearMappings => clearTunnelMappings
  | OpConnection k d a t => setConnectionConfig k d a t
  | OpBuffer s ch t r => setBufferConfig s ch t r
  | OpMaxListeners n => setMaxReverseListeners n
  | OpKeepAlive e i => setKeepAliveOptions e i
  | OpDebug e b => setDebugConfig e b
  | OpLogLevel l => setLogLevel l
  end.

(** The events of one setter: nothing, a refused lock, or a lock that is taken
    and given back. *)
Definition bracketed (evs : list event) : Prop :=
  evs = [] \/ evs = [Event (SemTake ConfigMutex portMAX_DELAY) false] \/
  evs = [Event (SemTake ConfigMutex portMAX_DELAY) true; Event (SemGive ConfigMutex) tt].

Definition lock_taken (evs : list event) : bool := (1 <? length evs)%nat.

(** A run that changes the configuration to [f c], under the lock, or not at all. *)
Definition atomic_update (f : SSHConfiguration -> SSHConfiguration)
    (s s' : SSHConfiguration * world Env) : Prop :=
  exists evs, w_trace s'.2 = w_trace s.2 ++ evs /\ bracketed evs /\
    s'.1 = (if lock_taken evs then f s.1 else s.1).

Lemma locked_ok f s :
  (forall c, configMutex (f c) = configMutex c) ->
  wp (locked f) (fun _ s' => atomic_update f s s') s.
Proof.
  intros Hf. unfold locked, lockConfig, unlockConfig, atomic_update, bracketed.
  specialize (Hf s.1). wp_go; simpl in *; try congruence; subst.
  - eexists [_; _]. split; [by rewrite <- app_assoc|]. destruct r0.
    split; [by right; right|done].
  - eexists [_]. split; [done|]. by split; [right; left|].
  - exists []. rewrite app_nil_r. split; [done|]. by split; [left|].
Qed.

Lemma atomic_id f s : atomic_update f s s.
Proof. exists []. rewrite app_nil_r. split; [done|]. by split; [left|]. Qed.

Lemma removeTunnelMapping_ok i s :
  wp (_ <- removeTunnelMapping i;; ret tt) (fun _ s' => exists f, atomic_update f s s' /\
    (config_ok s.1 -> op_args_ok s.1 (OpRemoveMapping i) -> config_ok (f s.1))) s.
Proof.
  unfold removeTunnelMapping, lockConfig, unlockConfig, atomic_update, bracketed.
  wp_go; simpl in *; try congruence; subst.
  - eexists. split.
    + eexists [_; _]. split; [by rewrite <- app_assoc|]. destruct r0.
      split; [by right; right|]. reflexivity.
    + intros [? ? Hm ?] [Hi Hlen]. split; simpl; try done.
      * intros E%(f_equal length). rewrite length_app, length_take, length_drop in E.
        simpl in E. lia.
      * apply Forall_app. split; [by apply Forall_take|by apply Forall_drop].
  - exists (fun c => c). split; [|done]. eexists [_; _].
    split; [by rewrite <- app_assoc|]. destruct r0. split; [by right; right|done].
  - exists (fun c => c). split; [|done]. eexists [_]. split; [done|]. by split; [right; left|].
  - exists (fun c => c). split; [exact (atomic_id (fun c => c) s)|done].
Qed.

Lemma setter_atomic_ok o s :
  wp (run_config o) (fun _ s' => exists f, atomic_update f s s' /\
    (config_ok s.1 -> op_args_ok s.1 o -> config_ok (f s.1))) s.
Proof.
  assert (forall f, (forall c, configMutex (f c) = configMutex c) ->
    (config_ok s.1 -> op_args_ok s.1 o -> config_ok (f s.1)) ->
    wp (locked f) (fun _ s' => exists f, atomic_update f s s' /\
      (config_ok s.1 -> op_args_ok s.1 o -> config_ok (f s.1))) s) as Hl.
  { intros f H1 H2. eapply wp_conseq; [by apply locked_ok|]. intros u s' Hs. exists f. by split. }
  destruct o; simpl; try (apply Hl; [done|]; intros [[? ? ? ?] ? ? []]; simpl; intros Ha;
    repeat split; simpl; intuition (try done; try lia)).
  - by apply Forall_singleton.
  - by destruct (tunnelMappings s.1).
  - apply Forall_app. split; [done|]. by apply Forall_singleton.
  - by apply removeTunnelMapping_ok.
  - unfold setMaxReverseListeners. destruct (Z.leb_spec n 0).
    + exists (fun c => c). split; [exact (atomic_id (fun c => c) s)|done].
    + apply Hl; [done|]. intros [? ? ? []] _. split; [done..|]. by split.
  - destruct (Z.leb_spec interval 0); lia.
Qed.

(** Every setter is one atomic, well-bracketed update.  It takes the
    configuration mutex at most once and gives it back exactly when it was
    taken; the configuration changes only while it is held; and with arguments
    in range it turns a valid configuration into a valid one. *)
Theorem setter_atomic o s :
  let '(_, s') := run_config o s in
  exists evs, w_trace s'.2 = w_trace s.2 ++ evs /\ bracketed evs /\
    (lock_taken evs = false -> s'.1 = s.1) /\
    (config_ok s.1 -> op_args_ok s.1 o -> config_ok s'.1).
Proof.
  pose proof (setter_atomic_ok o s) as H. unfold wp in H.
  destruct (run_config o s) as [[] s']. destruct H as (f & (evs & Ht & Hb & Hs) & Hok).
  exists evs. split_and!; [done|done| |]; cbn [fst snd] in Hs |- *; rewrite Hs; by destruct (lock_taken evs).
Qed.

(** Reads of the mapping list, in range and out of range. *)
Lemma getTunnelConfig_in k c : 0 <= k < zlen (tunnelMappings c) ->
  Some (getTunnelConfig k c) = tunnelMappings c !! Z.to_nat k.
Proof.
  intros Hk. unfold getTunnelConfig. destruct (tunnelMappings c) as [|a l] eqn:E; [simpl in Hk; lia|].
  rewrite (proj2 (Z.leb_gt _ _)) by lia.
  destruct ((a :: l) !! Z.to_nat k) eqn:Ek; [done|]. apply lookup_ge_None in Ek. lia.
Qed.

Lemma getTunnelConfig_out k c : zlen (tunnelMappings c) <= k ->
  getTunnelConfig k c = default default_mapping (head (tunnelMappings c)).
Proof.
  intros Hk. unfold getTunnelConfig. destruct (tunnelMappings c) as [|a l]; [done|].
  by rewrite (proj2 (Z.leb_le _ _)).
Qed.

Definition lock_always (e : Env) : Prop :=
  fst (answer (SemTake ConfigMutex portMAX_DELAY) e) = true.

Lemma locked_run f s :
  configMutex s.1 = true -> lock_always (w_env s.2) ->
  (forall c, configMutex (f c) = configMutex c) -> (snd (locked f s)).1 = f s.1.
Proof.
  intros Hm Hl Hf. destruct s as [c w]. unfold lock_always in Hl. simpl in *.
  unfold locked, lockConfig, unlockConfig, when, bind, get, gets, put, modify, sys. simpl.
  rewrite Hm. simpl. destruct (answer _ (w_env w)) as [r e]. simpl in *. subst r. simpl.
  rewrite Hf, Hm. simpl.
  by destruct (answer (SemGive ConfigMutex) e).
Qed.

Lemma removeTunnelMapping_run i s :
  configMutex s.1 = true -> lock_always (w_env s.2) ->
  let '(removed, s') := removeTunnelMapping i s in
  removed = (i <? zlen (tunnelMappings s.1)) /\
  tunnelMappings s'.1 = if removed then
    take (Z.to_nat i) (tunnelMappings s.1) ++ drop (S (Z.to_nat i)) (tunnelMappings s.1)
    else tunnelMappings s.1.
Proof.
  intros Hm Hl. destruct s as [c w]. unfold lock_always in Hl. simpl in *.
  unfold removeTunnelMapping, lockConfig, unlockConfig, when, bind, get, gets, put, modify, sys.
  simpl. rewrite Hm. simpl. destruct (answer _ (w_env w)) as [r e]. simpl in *. subst r. simpl.
  unfold getTunnelMappingCount.
  destruct (i <? zlen (tunnelMappings c)) eqn:E; simpl; rewrite ?E, ?Hm; simpl;
    by destruct (answer (SemGive ConfigMutex) e).
Qed.

(** With the mutex available, mappings behave as a list: adding appends, and
    the new mapping is the one found at the last index; removing index [i]
    answers whether it existed, drops exactly that entry, and the entries behind
    it move up by one; an index out of range reads the first mapping. *)
Theorem mapping_list_ops m i s :
  configMutex s.1 = true -> lock_always (w_env s.2) -> 0 <= i ->
  let old := tunnelMappings s.1 in
  let added := (snd (addTunnelMapping m s)).1 in
  let removed := fst (removeTunnelMapping i s) in
  let rest := (snd (removeTunnelMapping i s)).1 in
  getTunnelConfig (zlen old) added = m /\
  (forall k, 0 <= k < zlen old -> getTunnelConfig k added = getTunnelConfig k s.1) /\
  removed = (i <? zlen old) /\
  zlen (tunnelMappings rest) = (if removed then zlen old - 1 else zlen old) /\
  (forall k, 0 <= k < zlen (tunnelMappings rest) ->
     getTunnelConfig k rest = getTunnelConfig (if k <? i then k else k + 1) s.1) /\
  (forall k, zlen old <= k -> getTunnelConfig k s.1 = default default_mapping (head old)).
Proof.
  intros Hm Hl Hi old added removed rest.
  assert (tunnelMappings added = old ++ [m]) as Hadd.
  { unfold added, addTunnelMapping. by rewrite locked_run. }
  pose proof (removeTunnelMapping_run i s Hm Hl) as Hrem. unfold removed, rest. clear removed rest.
  destruct (removeTunnelMapping i s) as [removed [rest w]]. cbn [fst snd].
  destruct Hrem as [-> Hrest]. cbn [fst] in Hrest. fold old in Hrest |- *.
  assert (zlen (tunnelMappings rest) = if i <? zlen old then zlen old - 1 else zlen old) as Hlen.
  { rewrite Hrest. destruct (Z.ltb_spec i (zlen old)); [|done].
    rewrite length_app, length_take, length_drop. lia. }
  split_and!; [| |done|done| |by intros; apply getTunnelConfig_out].
  - apply (inj Some). rewrite getTunnelConfig_in, Hadd by (rewrite Hadd; zlia).
    rewrite Nat2Z.id. by apply list_lookup_middle.
  - intros k Hk. apply (inj Some). rewrite (getTunnelConfig_in _ added), (getTunnelConfig_in _ s.1), Hadd
      by (rewrite ?Hadd; fold old; zlia).
    rewrite lookup_app_l; [done|]. lia.
  - intros k Hk. rewrite Hlen in Hk.
    apply (inj Some). rewrite (getTunnelConfig_in _ rest), (getTunnelConfig_in _ s.1), Hrest.
    2:{ destruct (Z.ltb_spec i (zlen old)), (Z.ltb_spec k i); unfold old in *; lia. }
    2:{ by rewrite Hlen. }
    fold old. destruct (Z.ltb_spec i (zlen old)); destruct (Z.ltb_spec k i).
    + rewrite lookup_app_l by (rewrite length_take; lia). apply lookup_take_lt. lia.
    + rewrite lookup_app_r by (rewrite length_take; lia).
      rewrite length_take, lookup_drop. f_equal. lia.
    + done.
    + lia.
Qed.

End Setters.

(** ** Witnesses *)
Section Witnesses.
#[local] Existing Instance esp32_target.

Definition example_mapping (p : Z) : TunnelConfig := mkTunnelConfig "0.0.0.0" p "192.168.1.2" 80.

Definition example_config : SSHConfiguration :=
  mkSSHConfiguration
    (mkSSHServerConfig "host" 22 "user" "secret" false "" "" false "" "" None None)
    [example_mapping 8080; example_mapping 8081] default_connection default_debug true.

Definition example_state : SSHConfiguration * world script :=
  (example_config, World idle_script []).

Lemma setter_atomic_witness :
  validateConfiguration (snd (run_config (OpBuffer 4096 4 0 8192) example_state)).1 = true /\
  config_ok (snd (run_config (OpBuffer 4096 4 0 8192) example_state)).1.
Proof.
  split; [by vm_compute|].
  pose proof (setter_atomic (OpBuffer 4096 4 0 8192) example_state) as H.
  destruct (run_config (OpBuffer 4096 4 0 8192) example_state) as [u s'].
  destruct H as (evs & _ & _ & _ & Hok). apply Hok; [|simpl; lia].
  repeat split; simpl; try done; try lia. repeat constructor; done.
Defined.

Lemma mapping_list_ops_witness :
  getTunnelConfig 0 (snd (removeTunnelMapping 0 example_state)).1 = example_mapping 8081.
Proof.
  destruct (mapping_list_ops (example_mapping 9000) 0 example_state) as (_ & _ & _ & _ & H & _);
    [done|by vm_compute|done|].
  rewrite (H 0); [by vm_compute|]. by vm_compute.
Defined.

End Witnesses.
