(* ===== verification/Net.v ===== *)
(** * network_optimizations.h and the local-endpoint connect

    [optimizeSocket] and [optimizeSSHSocket] set socket options and count the
    ones that were applied (every option of the header is defined on lwIP, so
    all [#ifdef] branches are present); errors are only logged.
    [connectToLocalEndpoint] (ssh_channel.cpp) opens the local TCP connection of
    a channel: non-blocking, with a 200 ms wait for completion. *)

From S2P Require Import Prelude Platform Config.

Section Net.
Context {Env S : Type} {P : Platform Env} {HW : HasWorld Env S} {T : Target}.

(** Set one option; 1 when it was applied. *)
Definition try_option (fd : Z) (o : sockopt) (v : Z) : M S Z :=
  rc <- sys (SetSockOpt fd o v);;
  ret (if rc =? 0 then 1 else 0).

Definition optimizeSocket (fd rcvbuf_override : Z) : M S bool :=
  a1 <- try_option fd TCP_NODELAY 1;;
  let rcvbuf := if 0 <? rcvbuf_override then rcvbuf_override else 65536 in
  let sndbuf := 65536 in
  a2 <- try_option fd SO_RCVBUF rcvbuf;;
  a3 <- try_option fd SO_SNDBUF sndbuf;;
  let timeout := 300 in
  a4 <- try_option fd SO_RCVTIMEO timeout;;
  a5 <- try_option fd SO_SNDTIMEO timeout;;
  a6 <- try_option fd SO_KEEPALIVE 1;;
  let applied := a1 + a2 + a3 + a4 + a5 + a6 in
  let attempted := 6 in
  ret ((0 <? applied) || (attempted =? 0)).

Definition optimizeSSHSocket (fd : Z) : M S bool :=
  success <- optimizeSocket fd 0;;
  r1 <- sys (SetSockOpt fd TCP_KEEPIDLE 60);;
  r2 <- sys (SetSockOpt fd TCP_KEEPINTVL 10);;
  r3 <- sys (SetSockOpt fd TCP_KEEPCNT 6);;
  ret (success && negb (r1 <? 0) && negb (r2 <? 0) && negb (r3 <? 0)).

(** [close(fd); return -1;] *)
Definition close_and_fail (fd : Z) : M S Z :=
  _ <- sys (CloseFd fd);; ret (-1).

(** The wait for a connect in progress; false on error or timeout. *)
Definition await_connect (fd : Z) : M S bool :=
  let* (sel, isset) := sys (SelectWritable fd 200000) in
  if sel <? 0 then ret false
  else if (sel =? 0) || negb isset then ret false
  else
    let* (rc, sockErr) := sys (GetSockOptError fd) in
    if negb (rc =? 0) then ret false
    else if negb (sockErr =? 0) then ret false
    else ret true.

Definition connectToLocalEndpoint (mapping : TunnelConfig) : M S Z :=
  fd <- sys Socket;;
  if fd <? 0 then ret (-1) else
  ok <- sys (InetPton (c_str (localHost mapping)));;
  if negb ok then close_and_fail fd else
  flags <- sys (FcntlGetfl fd);;
  if flags <? 0 then close_and_fail fd else
  rc <- sys (FcntlSetfl fd (Z.lor flags O_NONBLOCK));;
  if rc <? 0 then close_and_fail fd else
  (* [htons] keeps the low 16 bits of the port *)
  let* (connectResult, errno) :=
    sys (Connect fd (c_str (localHost mapping)) (localPort mapping mod 2 ^ 16)) in
  if (connectResult <? 0) && negb (errno =? EINPROGRESS) then close_and_fail fd else
  connected <- (if negb (connectResult =? 0) then await_connect fd else ret true);;
  if negb connected then close_and_fail fd else
  _ <- optimizeSocket fd 0;;
  ret fd.

End Net.

(** ** Results *)

Section NetResults.
Context {Env U : Type} {P : Platform Env} {T : Target}.

Lemma optimizeSocket_ok fd n (q : U * world Env) :
  wp (optimizeSocket fd n) (fun _ q' => q'.1 = q.1 /\ exists evs, ran q evs q' /\
    Forall (fun ev => exists o v, ev_call ev = SetSockOpt fd o v) evs) q.
Proof.
  unfold optimizeSocket, try_option. wp_go. split; [done|].
  eexists. split; [ran_done|]. repeat (apply Forall_cons_2; [by eexists _, _|]). apply Forall_nil_2.
Qed.

Lemma optimizeSSHSocket_ok fd (q : U * world Env) :
  wp (optimizeSSHSocket fd) (fun _ q' => q'.1 = q.1 /\ exists evs, ran q evs q' /\
    Forall (fun ev => exists o v, ev_call ev = SetSockOpt fd o v) evs) q.
Proof.
  unfold optimizeSSHSocket. apply wp_bind. eapply wp_conseq; [apply optimizeSocket_ok|].
  intros ok q1 [H1 (evs & Hr & Hf)]. wp_go. split; [done|].
  eexists. split; [eapply ran_app; [exact Hr|ran_done]|].
  apply Forall_app. split; [done|].
  repeat (apply Forall_cons_2; [by eexists _, _|]). apply Forall_nil_2.
Qed.

Lemma setsockopt_sockets fd evs :
  Forall (fun ev => exists o v, ev_call ev = SetSockOpt fd o v) evs ->
  opened evs = [] /\ closed evs = [] /\
  Forall (fun ev => call_chan (ev_call ev) = None /\ is_libssh2 (ev_call ev) = false) evs.
Proof.
  induction 1 as [|[cl r] evs (o & v & Hq) _ (IH1 & IH2 & IH3)]; [done|].
  unfold opened, closed in *. simpl in Hq. subst cl.
  rewrite !bind_cons, IH1, IH2. split_and!; try done. by apply Forall_cons_2.
Qed.

(** The local connect never leaks a socket: on failure everything it opened is
    closed again, on success exactly the returned socket is left open. *)
Lemma connectToLocalEndpoint_ok mapping (q : U * world Env) :
  wp (connectToLocalEndpoint mapping) (fun fd q' => q'.1 = q.1 /\ exists evs, ran q evs q' /\
    Forall (fun ev => call_chan (ev_call ev) = None /\ is_libssh2 (ev_call ev) = false) evs /\
    if fd <? 0 then opened evs = closed evs else opened evs = [fd] /\ closed evs = []) q.
Proof.
  unfold connectToLocalEndpoint, close_and_fail, await_connect.
  wp_go;
  try (split; [done|]; eexists; split; [ran_done|]; split; [by events|];
    unfold opened, closed, ev_opened, ev_closed; simpl;
    repeat match goal with H : (?x <? 0) = _ |- context [?x <? 0] => rewrite H end; done);
  (eapply wp_conseq; [apply optimizeSocket_ok|];
   intros ok q1 (Hs & oevs & Hr & Hf); apply setsockopt_sockets in Hf as (Ho & Hcl & Hq);
   apply wp_ret; split; [done|]; eexists; split; [eapply ran_app; [|exact Hr]; ran_done|];
   split; [apply Forall_app; split; [by events|done]|]; rewrite opened_app, closed_app, Ho, Hcl;
   unfold opened, closed; simpl;
   repeat match goal with H : (?x <? 0) = _ |- context [?x <? 0] => rewrite H end; done).
Qed.
End NetResults.
