(* ===== verification/Channel.v ===== *)
(** * ssh_channel.h, ssh_channel.cpp: channel slots and their manager

    A [ChannelSlot] ties an SSH channel to a local socket and two ring buffers;
    the [ChannelManager] owns a fixed array of slots, the byte totals of
    finished channels and the circuit breaker.  Operations on one slot run on
    the slot and the world ([SM]); operations of the manager on the manager and
    the world ([CM]), through [on_slot].  Fields that exist only for
    diagnostics builds ([TUNNEL_DIAG_LOG_ONLY]) and log output are left out. *)

From stdpp Require Import list_numbers.
From S2P Require Import Prelude Platform Handles Policies Ring Breaker Config Net.

(** ** Data *)

Inductive ChannelCloseReason := Unknown | RemoteClosed | LocalClosed | Error | CloseTimeout | Manual.

Definition SSH_TUNNEL_ENDPOINT_HOST_MAX : Z := 64.

Record ChannelEndpointInfo := mkEndpoint {
  e_remoteHost : String;
  e_remotePort : Z;
  e_localHost : String;
  e_localPort : Z;
}.
Definition no_endpoint : ChannelEndpointInfo := mkEndpoint "" 0 "" 0.

Inductive State := Open | Draining | Closed.
#[export] Instance State_eq_dec : EqDecision State.
Proof. solve_decision. Defined.

Record ChannelSlot (R : Type) := mkChannelSlot {
  sshChannel : option chan;
  localSocket : Z;
  active : bool;
  endpoint : ChannelEndpointInfo;
  toLocal : option (DataRingBuffer R);
  toRemote : option (DataRingBuffer R);
  state : State;
  localEof : bool;
  remoteEof : bool;
  localShutdownSent : bool;
  closeStartMs : Z;
  eofSentMs : Z;
  closeReason : ChannelCloseReason;
  sshCloseProgress : CloseProgress.Progress;
  localReadPaused : bool;
  sshReadPaused : bool;
  totalBytesReceived : Z;
  totalBytesSent : Z;
  totalBytesDropped : Z;
  lastActivity : Z;
  lastSuccessfulWrite : Z;
  lastSuccessfulRead : Z;
  consecutiveErrors : Z;
  eagainCount : Z;
  firstEagainMs : Z;
  firstLocalSendEagainMs : Z;
  lastFinalizeMs : Z;
}.
Arguments mkChannelSlot {R}.
Arguments sshChannel {R} _.
Arguments localSocket {R} _.
Arguments active {R} _.
Arguments endpoint {R} _.
Arguments toLocal {R} _.
Arguments toRemote {R} _.
Arguments state {R} _.
Arguments localEof {R} _.
Arguments remoteEof {R} _.
Arguments localShutdownSent {R} _.
Arguments closeStartMs {R} _.
Arguments eofSentMs {R} _.
Arguments closeReason {R} _.
Arguments sshCloseProgress {R} _.
Arguments localReadPaused {R} _.
Arguments sshReadPaused {R} _.
Arguments totalBytesReceived {R} _.
Arguments totalBytesSent {R} _.
Arguments totalBytesDropped {R} _.
Arguments lastActivity {R} _.
Arguments lastSuccessfulWrite {R} _.
Arguments lastSuccessfulRead {R} _.
Arguments consecutiveErrors {R} _.
Arguments eagainCount {R} _.
Arguments firstEagainMs {R} _.
Arguments firstLocalSendEagainMs {R} _.
Arguments lastFinalizeMs {R} _.
#[export] Instance ChannelSlot_eta R : Eta (ChannelSlot R) := fun s =>
  mkChannelSlot (sshChannel s) (localSocket s) (active s) (endpoint s) (toLocal s) (toRemote s)
    (state s) (localEof s) (remoteEof s) (localShutdownSent s) (closeStartMs s) (eofSentMs s)
    (closeReason s) (sshCloseProgress s) (localReadPaused s) (sshReadPaused s)
    (totalBytesReceived s) (totalBytesSent s) (totalBytesDropped s) (lastActivity s)
    (lastSuccessfulWrite s) (lastSuccessfulRead s) (consecutiveErrors s) (eagainCount s)
    (firstEagainMs s) (firstLocalSendEagainMs s) (lastFinalizeMs s).

(** A freshly constructed slot. *)
Definition fresh_slot {R} : ChannelSlot R :=
  mkChannelSlot None (-1) false no_endpoint None None Closed false false false 0 0 Unknown
    CloseProgress.fresh_progress false false 0 0 0 0 0 0 0 0 0 0 0.

#[export] Instance ChannelSlot_SlotLike R : SlotAlloc.SlotLike (ChannelSlot R) := {|
  SlotAlloc.slot_active := active;
  SlotAlloc.slot_lastFinalizeMs := lastFinalizeMs;
|}.

Record ChannelManager (R : Type) := mkChannelManager {
  slots_ : option (list (ChannelSlot R));
  maxSlots_ : Z;
  activeCount_ : Z;
  ringBufferSize_ : Z;
  channelTimeoutMs_ : Z;
  completedBytesReceived_ : Z;
  completedBytesSent_ : Z;
  completedBytesDropped_ : Z;
  breaker_ : CircuitBreaker;
}.
Arguments mkChannelManager {R}.
Arguments slots_ {R} _.
Arguments maxSlots_ {R} _.
Arguments activeCount_ {R} _.
Arguments ringBufferSize_ {R} _.
Arguments channelTimeoutMs_ {R} _.
Arguments completedBytesReceived_ {R} _.
Arguments completedBytesSent_ {R} _.
Arguments completedBytesDropped_ {R} _.
Arguments breaker_ {R} _.
#[export] Instance ChannelManager_eta R : Eta (ChannelManager R) := fun m =>
  mkChannelManager (slots_ m) (maxSlots_ m) (activeCount_ m) (ringBufferSize_ m)
    (channelTimeoutMs_ m) (completedBytesReceived_ m) (completedBytesSent_ m)
    (completedBytesDropped_ m) (breaker_ m).

Definition new_manager {R} : ChannelManager R :=
  mkChannelManager None 0 0 (32 * 1024) 30000 0 0 0 new_breaker.

(** Every field except [lastFinalizeMs] goes back to its initial value. *)
Definition reset_fields {R} (s : ChannelSlot R) : ChannelSlot R :=
  fresh_slot <| lastFinalizeMs := lastFinalizeMs s |>.

Definition slot_list {R} (m : ChannelManager R) : list (ChannelSlot R) := default [] (slots_ m).

(** [slots_[i]]; every use is guarded by [0 <= i < maxSlots_]. *)
Definition getSlot {R} (i : Z) (m : ChannelManager R) : ChannelSlot R :=
  default fresh_slot (slot_list m !! Z.to_nat i).

Definition setSlot {R} (i : Z) (s : ChannelSlot R) (m : ChannelManager R) : ChannelManager R :=
  m <| slots_ := (fun l => <[Z.to_nat i := s]> l) <$> slots_ m |>.

Definition out_of_range {R} (i : Z) (m : ChannelManager R) : bool :=
  (i <? 0) || (maxSlots_ m <=? i).

Section Operations.
Context {R : Type} {BR : ByteRing R} {Env : Type} {P : Platform Env} {T : Target}.
Abbreviation SM A := (M (ChannelSlot R * world Env) A).
Abbreviation CM A := (M (ChannelManager R * world Env) A).
Abbreviation slot_t := (ChannelSlot R).

Definition on_slot {A} (i : Z) (p : SM A) : CM A := focus (getSlot i) (setSlot i) p.

(** [r ? r->size() : 0] and [!r || r->empty()]. *)
Definition ring_used (r : option (DataRingBuffer R)) : Z :=
  match r with Some b => Ring.size b | None => 0 end.
Definition ring_drained (r : option (DataRingBuffer R)) : bool :=
  match r with Some b => Ring.empty b | None => true end.

(** ** Lifecycle of the array *)

Definition destroy : CM unit :=
  have <- get slots_;;
  match have with
  | None => ret tt
  | Some _ =>
      n <- get maxSlots_;;
      for_each (seqZ 0 n) (fun i =>
        s <- get (getSlot i);;
        when (active s) (
          when (0 <=? localSocket s) (_ <- sys (CloseFd (localSocket s));; ret tt);;
          put (setSlot i (s <| localSocket := if 0 <=? localSocket s then -1 else localSocket s |>
            <| toLocal := None |> <| toRemote := None |> <| active := false |>))));;
      put (fun m => m <| slots_ := None |> <| maxSlots_ := 0 |> <| activeCount_ := 0 |>)
  end.

Definition init (maxChannels ringBufferSize channelTimeoutMs : Z) : CM bool :=
  have <- get slots_;;
  (match have with Some _ => destroy | None => ret tt end);;
  put (fun m => m <| maxSlots_ := maxChannels |> <| ringBufferSize_ := ringBufferSize |>
    <| channelTimeoutMs_ := channelTimeoutMs |> <| activeCount_ := 0 |>
    <| completedBytesReceived_ := 0 |> <| completedBytesSent_ := 0 |>
    <| completedBytesDropped_ := 0 |>);;
  ok <- sys (Malloc (u32 (sizeof_ChannelSlot * maxChannels)));;
  if negb ok then
    put (fun m => m <| slots_ := None |> <| maxSlots_ := 0 |>);; ret false
  else
    put (fun m => m <| slots_ := Some (replicate (Z.to_nat maxChannels) fresh_slot) |>);;
    ret true.

(** ** Closing *)

(** [beginClose] on a slot. *)
Definition slot_beginClose (reason : ChannelCloseReason) : SM unit :=
  s <- get id;;
  if negb (active s) || bool_decide (state s = Draining) || bool_decide (state s = Closed)
  then ret tt
  else
    put (fun s => s <| state := Draining |>);;
    now <- millis;;
    put (fun s => s <| closeStartMs := now |> <| closeReason := reason |>).

Definition beginClose (i : Z) (reason : ChannelCloseReason) : CM unit :=
  bad <- get (out_of_range i);;
  if bad then ret tt else on_slot i (slot_beginClose reason).

(** First half of [finalizeClose]: close and free the SSH channel, resuming
    where an earlier attempt got [LIBSSH2_ERROR_EAGAIN]. *)
Definition slot_closeStep (c : chan) : SM bool :=
  p <- get sshCloseProgress;;
  if CloseProgress.closeComplete p then ret true else
  closeRc <- sys (ChannelClose c);;
  let '(ok, p') := CloseProgress.recordCloseResult p closeRc LIBSSH2_ERROR_EAGAIN in
  put (fun s => s <| sshCloseProgress := p' |>);;
  ret ok.

Definition slot_freeStep (c : chan) : SM bool :=
  p <- get sshCloseProgress;;
  if CloseProgress.readyForFree p then
    freeRc <- sys (ChannelFree c);;
    let '(ok, p') := CloseProgress.recordFreeResult p freeRc LIBSSH2_ERROR_EAGAIN in
    put (fun s => s <| sshCloseProgress := p' |>);;
    ret ok
  else ret true.

Definition slot_freeChannel : SM bool :=
  oc <- get sshChannel;;
  match oc with
  | None => ret true
  | Some c =>
      ok <- slot_closeStep c;;
      if negb ok then ret false else
      ok <- slot_freeStep c;;
      if negb ok then ret false else
      p <- get sshCloseProgress;;
      if negb (CloseProgress.readyForFinalize p) then ret false else
      put (fun s => s <| sshChannel := None |>);;
      ret true
  end.

(** Close the local socket, count what the rings still hold, free them. *)
Definition slot_closeSocket : SM unit :=
  fd <- get localSocket;;
  when (0 <=? fd) (_ <- sys (CloseFd fd);; put (fun s => s <| localSocket := -1 |>)).

Definition count_ring_drop (s : slot_t) : slot_t :=
  s <| totalBytesDropped :=
    u32 (totalBytesDropped s + u32 (ring_used (toLocal s) + ring_used (toRemote s))) |>.

Definition free_rings (s : slot_t) : slot_t := s <| toLocal := None |> <| toRemote := None |>.

Definition archiveSlotStats (s : slot_t) (m : ChannelManager R) : ChannelManager R :=
  m <| completedBytesReceived_ := u32 (completedBytesReceived_ m + totalBytesReceived s) |>
    <| completedBytesSent_ := u32 (completedBytesSent_ m + totalBytesSent s) |>
    <| completedBytesDropped_ := u32 (completedBytesDropped_ m + totalBytesDropped s) |>.

Definition finalizeClose (i : Z) : CM bool :=
  bad <- get (out_of_range i);;
  if bad then ret true else
  s <- get (getSlot i);;
  if negb (active s) then ret true else
  freed <- on_slot i slot_freeChannel;;
  if negb freed then ret false else
  on_slot i slot_closeSocket;;
  on_slot i (put count_ring_drop;; put free_rings);;
  put (fun m => archiveSlotStats (getSlot i m) m);;
  on_slot i (
    put (fun s => s <| active := false |> <| state := Closed |>);;
    now <- millis;;
    put (fun s => s <| lastFinalizeMs := now |>));;
  put (fun m => m <| activeCount_ := activeCount_ m - 1 |>);;
  ret true.

Definition resetSlot (i : Z) (m : ChannelManager R) : ChannelManager R :=
  if out_of_range i m then m else setSlot i (reset_fields (getSlot i m)) m.

Definition abandonSlot (i : Z) (reason : ChannelCloseReason) : CM unit :=
  bad <- get (out_of_range i);;
  if bad then ret tt else
  s <- get (getSlot i);;
  if negb (active s) then ret tt else
  on_slot i (put count_ring_drop);;
  on_slot i slot_closeSocket;;
  on_slot i (put free_rings);;
  on_slot i (put (fun s => s <| sshChannel := None |>));;
  put (fun m => archiveSlotStats (getSlot i m) m);;
  put (fun m => if 0 <? activeCount_ m then m <| activeCount_ := activeCount_ m - 1 |> else m);;
  put (resetSlot i).

(** ** Allocation and binding *)

(** The second pass of [allocateSlot]: the first active slot whose inactivity
    timeout has expired starts closing. *)
Fixpoint find_stale (now timeoutMs : Z) (i : Z) (l : list slot_t) : option Z :=
  match l with
  | [] => None
  | s :: l' =>
      if active s && Timeout.expired now (lastActivity s) timeoutMs then Some i
      else find_stale now timeoutMs (i + 1) l'
  end.

Definition allocateSlot : CM Z :=
  have <- get slots_;;
  match have with
  | None => ret (-1)
  | Some l =>
      now <- millis;;
      let idx := SlotAlloc.findFreeSlot (Some l) now SlotAlloc.FINALIZE_COOLDOWN_MS in
      if 0 <=? idx then ret idx else
      timeoutMs <- get channelTimeoutMs_;;
      match find_stale now timeoutMs 0 l with
      | Some i => beginClose i CloseTimeout;; ret (-1)
      | None => ret (-1)
      end
  end.

(** [snprintf(buf, SSH_TUNNEL_ENDPOINT_HOST_MAX, "%s", host)]. *)
Definition snprintf_host (h : String) : String :=
  String.substring 0 (Z.to_nat (SSH_TUNNEL_ENDPOINT_HOST_MAX - 1)) (c_str h).

Definition snapshotEndpoint (mapping : TunnelConfig) (s : slot_t) : slot_t :=
  s <| endpoint := mkEndpoint (snprintf_host (remoteBindHost mapping)) (remoteBindPort mapping)
    (snprintf_host (localHost mapping)) (localPort mapping) |>.

(** The heap guard of [bindChannel]. *)
Definition memory_ok (ringSize : Z) : CM bool :=
  let required := MemoryGuard.requirements ringSize SSH_TUNNEL_PREPEND_CAPACITY
    MemoryGuard.RESERVE_BYTES in
  totalPsram <- sys PsramFreeSize;;
  largestPsram <- sys PsramLargestBlock;;
  if 0 <? totalPsram then ret (MemoryGuard.hasContiguousCapacity largestPsram required)
  else
    totalInternal <- sys HeapFreeSize;;
    largestInternal <- sys HeapLargestBlock;;
    ret (MemoryGuard.hasCapacity totalInternal largestInternal required).

(** The assignments that initialise a bound slot. *)
Definition bind_fields (c : chan) (fd : Z) (l r : DataRingBuffer R) (s : slot_t) : slot_t :=
  s <| sshChannel := Some c |> <| localSocket := fd |> <| active := true |>
    <| state := Open |> <| toLocal := Some l |> <| toRemote := Some r |>.

Definition stamp_activity (now : Z) (s : slot_t) : slot_t :=
  s <| lastActivity := now |> <| lastSuccessfulWrite := now |> <| lastSuccessfulRead := now |>.

Definition slot_bind (c : chan) (fd : Z) (l r : DataRingBuffer R) (mapping : TunnelConfig)
  : SM unit :=
  put (bind_fields c fd l r);;
  now <- millis;;
  put (stamp_activity now);;
  put (snapshotEndpoint mapping);;
  sys (ChannelSetBlocking c 0).

Definition bindChannel (i : Z) (c : chan) (mapping : TunnelConfig) : CM bool :=
  bad <- get (out_of_range i);;
  if bad then ret false else
  s <- get (getSlot i);;
  if active s then ret false else
  fd <- connectToLocalEndpoint mapping;;
  if fd <? 0 then
    now <- millis;;
    put (fun m => m <| breaker_ := snd (recordFailure (remoteBindPort mapping) now (breaker_ m)) |>);;
    ret false
  else
  put (fun m => m <| breaker_ := recordSuccess (remoteBindPort mapping) (breaker_ m) |>);;
  ringSize <- get ringBufferSize_;;
  ok <- memory_ok ringSize;;
  if negb ok then _ <- sys (CloseFd fd);; ret false else
  l <- Ring.construct ringSize;;
  r <- Ring.construct ringSize;;
  if (Ring.capacityBytes l =? 0) || (Ring.capacityBytes r =? 0) then
    _ <- sys (CloseFd fd);; ret false
  else
  put (resetSlot i);;
  on_slot i (slot_bind c fd l r mapping);;
  put (fun m => m <| activeCount_ := activeCount_ m + 1 |>);;
  ret true.

(** ** Queries *)

Definition shouldAcceptNew (m : ChannelManager R) : bool :=
  if maxSlots_ m <=? activeCount_ m then false
  else if activeCount_ m <=? maxSlots_ m - 2 then true
  else forallb (fun s => negb (active s && (5 <? consecutiveErrors s))) (slot_list m).

Definition sum_active (f : slot_t -> Z) (acc : Z) (l : list slot_t) : Z :=
  fold_left (fun total s => if active s then u32 (total + f s) else total) l acc.

Definition getTotalBytesReceived (m : ChannelManager R) : Z :=
  sum_active totalBytesReceived (completedBytesReceived_ m) (slot_list m).
Definition getTotalBytesSent (m : ChannelManager R) : Z :=
  sum_active totalBytesSent (completedBytesSent_ m) (slot_list m).
Definition getTotalBytesDropped (m : ChannelManager R) : Z :=
  sum_active totalBytesDropped (completedBytesDropped_ m) (slot_list m).

Definition isMappingBackedOff (port now : Z) (m : ChannelManager R) : bool :=
  isBackedOff port now (breaker_ m).
Definition getBreakerTrips (m : ChannelManager R) : Z := totalTrips_ (breaker_ m).

(** Indices of the active slots, in the order [iterateActive] visits them. *)
Definition active_indices (m : ChannelManager R) : list Z :=
  filter (fun i => active (getSlot i m) = true) (seqZ 0 (maxSlots_ m)).

End Operations.

(** ** Sums over slots *)

Definition lsum {A} (g : A -> Z) (l : list A) : Z := foldr (fun s z => g s + z) 0 l.

Lemma lsum_insert {A} (g : A -> Z) l k s s' :
  l !! k = Some s -> lsum g (<[k := s']> l) = lsum g l - g s + g s'.
Proof.
  revert k. induction l as [|a l IH]; intros [|k] H; simplify_eq/=; [lia|].
  rewrite (IH k H). lia.
Qed.

Lemma lsum_zero {A} (g : A -> Z) l : Forall (fun s => g s = 0) l -> lsum g l = 0.
Proof. induction 1; simpl; lia. Qed.

Lemma lsum_ge {A} (g : A -> Z) l k s :
  (forall s, 0 <= g s) -> l !! k = Some s -> g s <= lsum g l.
Proof.
  intros Hg. assert (forall l, 0 <= lsum g l) as H0.
  { intros l'. induction l' as [|a l' IH]; simpl; [lia|]. specialize (Hg a). lia. }
  revert k. induction l as [|a l IH]; intros [|k] H; simplify_eq/=.
  - specialize (H0 l). lia.
  - specialize (Hg a). specialize (IH k H). lia.
Qed.

Lemma lsum_bound {A} (g : A -> Z) l : (forall s, 0 <= g s <= 1) -> 0 <= lsum g l <= zlen l.
Proof. intros Hg. induction l as [|s l IH]; simpl; [lia|]. specialize (Hg s). lia. Qed.

Lemma lsum_full {A} (g : A -> Z) l :
  (forall s, 0 <= g s <= 1) -> lsum g l = zlen l -> Forall (fun s => g s = 1) l.
Proof.
  intros Hg. induction l as [|s l IH]; intros H; [constructor|].
  simpl in H. pose proof (Hg s). pose proof (lsum_bound g l Hg).
  constructor; [lia|]. apply IH. lia.
Qed.

Section Invariant.
Context {R : Type} {BR : ByteRing R} {BL : ByteRingLaws R} {T : Target}.
Implicit Types s : ChannelSlot R.
Implicit Types m : ChannelManager R.

Definition ring_ok (r : option (DataRingBuffer R)) : Prop :=
  exists b, r = Some b /\ Ring.inv b.

Record slot_active_inv s : Prop := {
  sa_chan : is_Some (sshChannel s);
  sa_sock : 0 <= localSocket s;
  sa_state : state s <> Closed;
  sa_progress : CloseProgress.freeComplete (sshCloseProgress s) = false;
  sa_toLocal : ring_ok (toLocal s);
  sa_toRemote : ring_ok (toRemote s);
}.

Record slot_inactive_inv s : Prop := {
  si_chan : sshChannel s = None;
  si_sock : localSocket s = -1;
  si_state : state s = Closed;
  si_toLocal : toLocal s = None;
  si_toRemote : toRemote s = None;
}.

Definition activity s : Z := Z.b2z (active s).

Lemma activity_nonneg s : 0 <= activity s.
Proof. unfold activity. destruct (active s); simpl; lia. Qed.

Definition slot_inv s : Prop := if active s then slot_active_inv s else slot_inactive_inv s.

(** The manager's invariant: the array has [maxSlots_] slots, each well formed;
    [activeCount_] counts the active ones; totals and breaker are in range. *)
Record mgr_inv m : Prop := {
  mi_slots : match slots_ m with
             | Some l => maxSlots_ m = zlen l
             | None => maxSlots_ m = 0
             end;
  mi_each : Forall slot_inv (slot_list m);
  mi_count : activeCount_ m = lsum activity (slot_list m);
  mi_ring : 0 < ringBufferSize_ m /\ ringBufferSize_ m + SSH_TUNNEL_PREPEND_CAPACITY < 2 ^ 32;
  mi_breaker : Breaker.inv (breaker_ m);
  mi_totals : u32_range (completedBytesReceived_ m) /\ u32_range (completedBytesSent_ m) /\
    u32_range (completedBytesDropped_ m);
}.

Lemma mgr_inv_len m : mgr_inv m -> maxSlots_ m = zlen (slot_list m).
Proof. intros []. unfold slot_list. by destruct (slots_ m). Qed.

Lemma in_range_lookup i m :
  mgr_inv m -> out_of_range i m = false ->
  0 <= i < maxSlots_ m /\ slot_list m !! Z.to_nat i = Some (getSlot i m).
Proof.
  intros Hi Hr. unfold out_of_range in Hr. apply orb_false_iff in Hr as [H1 H2].
  apply Z.ltb_ge in H1. apply Z.leb_gt in H2. split; [lia|].
  rewrite (mgr_inv_len m Hi) in H2. unfold getSlot.
  destruct (lookup_lt_is_Some_2 (slot_list m) (Z.to_nat i)) as [s Hs]; [lia|]. by rewrite Hs.
Qed.

Lemma slot_list_setSlot i s m : slot_list (setSlot i s m) = <[Z.to_nat i := s]> (slot_list m).
Proof. unfold slot_list, setSlot. simpl. destruct (slots_ m); simpl; [done|]. by destruct (Z.to_nat i). Qed.

Lemma getSlot_eq i s m s0 :
  slot_list m !! Z.to_nat i = Some s0 -> getSlot i (setSlot i s m) = s.
Proof.
  intros H. unfold getSlot. rewrite slot_list_setSlot, list_lookup_insert_eq; [done|].
  by eapply lookup_lt_Some.
Qed.

Lemma getSlot_ne i j s m : 0 <= i -> 0 <= j -> i <> j -> getSlot j (setSlot i s m) = getSlot j m.
Proof.
  intros. unfold getSlot. rewrite slot_list_setSlot, list_lookup_insert_ne; [done|]. lia.
Qed.

Lemma setSlot_twice i s1 s2 m : setSlot i s2 (setSlot i s1 m) = setSlot i s2 m.
Proof.
  destruct m as [[l|]]; unfold setSlot, upd; simpl; [|done]. by rewrite list_insert_insert_eq.
Qed.

Lemma setSlot_archive i s s1 m :
  setSlot i s (archiveSlotStats s1 m) = archiveSlotStats s1 (setSlot i s m).
Proof. done. Qed.

Lemma getSlot_archive i s1 m : getSlot i (archiveSlotStats s1 m) = getSlot i m.
Proof. done. Qed.

Lemma getSlot_setSlot i s m :
  mgr_inv m -> out_of_range i m = false -> getSlot i (setSlot i s m) = s.
Proof. intros Hi Hr. eapply getSlot_eq. by apply in_range_lookup. Qed.

Lemma mgr_inv_slot i m : mgr_inv m -> out_of_range i m = false -> slot_inv (getSlot i m).
Proof.
  intros Hi Hr. destruct (in_range_lookup i m Hi Hr) as [_ Hl].
  eapply Forall_lookup_1; [apply (mi_each m Hi)|exact Hl].
Qed.

(** Replacing slot [i] by a well-formed slot keeps the invariant, up to the
    change of [activeCount_]. *)
Lemma mgr_inv_setSlot i s m k :
  mgr_inv m -> out_of_range i m = false -> slot_inv s ->
  k = activeCount_ m - activity (getSlot i m) + activity s ->
  mgr_inv ((setSlot i s m) <| activeCount_ := k |>).
Proof.
  intros Hi Hr Hs ->. destruct (in_range_lookup i m Hi Hr) as [Hrange Hl].
  destruct Hi as [H1 H2 H3 H4 H5 H6]. split; try done.
  - unfold setSlot. simpl. destruct (slots_ m); simpl; [by rewrite length_insert|done].
  - change (slot_list ((setSlot i s m) <| activeCount_ := _ |>)) with (slot_list (setSlot i s m)).
    rewrite slot_list_setSlot. by apply Forall_insert.
  - change (slot_list ((setSlot i s m) <| activeCount_ := _ |>)) with (slot_list (setSlot i s m)).
    rewrite slot_list_setSlot, (lsum_insert _ _ _ (getSlot i m)) by done. simpl. lia.
Qed.

Lemma mgr_inv_setSlot_same i s m :
  mgr_inv m -> out_of_range i m = false -> slot_inv s -> active s = active (getSlot i m) ->
  mgr_inv (setSlot i s m).
Proof.
  intros Hi Hr Hs Ha.
  pose proof (mgr_inv_setSlot i s m (activeCount_ m) Hi Hr Hs) as H.
  destruct m. apply H. unfold activity. rewrite Ha. simpl. lia.
Qed.

(** Totals are sums modulo [2^32]. *)
Definition contribution (f : ChannelSlot R -> Z) s : Z := if active s then f s else 0.

Lemma sum_active_lsum f acc l :
  u32_range acc -> sum_active f acc l = u32 (acc + lsum (contribution f) l).
Proof.
  revert acc. induction l as [|s l IH]; intros acc Ha; simpl.
  { by rewrite Z.add_0_r, u32_small. }
  unfold sum_active in *. simpl.
  assert (contribution f s = if active s then f s else 0) as -> by done.
  destruct (active s); [|by rewrite IH].
  rewrite IH by apply u32_bound. rewrite u32_add_l. f_equal. lia.
Qed.

(** Archiving a slot that becomes inactive moves its bytes from the slot to the
    completed total. *)
Lemma sum_active_archive f i (s s' : ChannelSlot R) l c :
  l !! i = Some s -> active s = true -> active s' = false -> u32_range c ->
  sum_active f (u32 (c + f s)) (<[i := s']> l) = sum_active f c l.
Proof.
  intros Hl Ha Ha' Hc. rewrite !sum_active_lsum by (done || apply u32_bound).
  rewrite (lsum_insert _ _ _ s), u32_add_l by done.
  assert (contribution f s = f s) as -> by (unfold contribution; by rewrite Ha).
  assert (contribution f s' = 0) as -> by (unfold contribution; by rewrite Ha').
  f_equal. lia.
Qed.

End Invariant.

(** ** Teardown of an SSH channel

    The automaton of one libssh2 channel: it is closed once ([EAGAIN] means the
    attempt has to be repeated), then freed once, and never used again. *)
Inductive teardown := TdOpen | TdClosed | TdFreed.

Section Teardown.
Context {T : Target}.

Definition td_step (c : chan) (st : teardown) (ev : event) : option teardown :=
  match ev with
  | Event cl r =>
      match cl return ret_of cl -> option teardown with
      | ChannelClose c' => fun rc =>
          if c' =? c then
            match st with
            | TdOpen => Some (if rc =? LIBSSH2_ERROR_EAGAIN then TdOpen else TdClosed)
            | _ => None
            end
          else Some st
      | ChannelFree c' => fun rc =>
          if c' =? c then
            match st with
            | TdClosed => Some (if rc =? LIBSSH2_ERROR_EAGAIN then TdClosed else TdFreed)
            | _ => None
            end
          else Some st
      | cl' => fun _ =>
          if bool_decide (call_chan cl' = Some c) then
            match st with TdFreed => None | _ => Some st end
          else Some st
      end r
  end.

Fixpoint td_run (c : chan) (st : teardown) (evs : list event) : option teardown :=
  match evs with
  | [] => Some st
  | ev :: evs' => st' ← td_step c st ev; td_run c st' evs'
  end.

Lemma td_run_app c st l1 l2 : td_run c st (l1 ++ l2) = st' ← td_run c st l1; td_run c st' l2.
Proof.
  revert st. induction l1 as [|ev l1 IH]; intros st; [done|].
  simpl. destruct (td_step c st ev); simpl; auto.
Qed.

(** Events about other channels do not move the automaton. *)
Lemma td_run_other c st evs :
  Forall (fun ev => call_chan (ev_call ev) <> Some c) evs -> td_run c st evs = Some st.
Proof.
  induction 1 as [|[cl r] evs Hev _ IH]; [done|]. cbn [td_run].
  assert (td_step c st (Event cl r) = Some st) as E; [|by rewrite E].
  destruct cl; simpl in *; try done; try (case_bool_decide; congruence);
    match goal with |- context [?x =? c] => destruct (Z.eqb_spec x c) end; congruence.
Qed.

End Teardown.

(** ** Operations on one slot *)

Section SlotOperations.
Context {R : Type} {BR : ByteRing R} {BL : ByteRingLaws R} {Env : Type} {P : Platform Env} {T : Target}.
Implicit Types s : ChannelSlot R.
Implicit Types t : ChannelSlot R * world Env.
Implicit Types q : ChannelManager R * world Env.

(** The calls of the teardown itself. *)
Definition teardown_event (c : chan) (ev : event) : Prop :=
  match ev_call ev with ChannelClose c' | ChannelFree c' => c' = c | _ => False end.

(** The state of the automaton a slot has reached for its channel. *)
Definition td_of s : teardown :=
  match sshChannel s with
  | None => TdFreed
  | Some _ => if CloseProgress.closeComplete (sshCloseProgress s) then TdClosed else TdOpen
  end.

(** What [beginClose] makes of an open slot. *)
Definition begun (reason : ChannelCloseReason) (now : Z) s : ChannelSlot R :=
  s <| state := Draining |> <| closeStartMs := now |> <| closeReason := reason |>.

Definition closable s : bool := active s && bool_decide (state s = Open).

Lemma slot_beginClose_ok reason t :
  wp (slot_beginClose reason) (fun _ t' =>
    if closable t.1 then
      exists now, u32_range now /\ t'.1 = begun reason now t.1 /\
        w_trace t'.2 = w_trace t.2 ++ [Event Millis now]
    else t' = t) t.
Proof.
  unfold slot_beginClose, closable. apply wp_bind, wp_get. cbv beta. unfold id.
  destruct (active t.1); simpl; [|by apply wp_ret].
  destruct (state t.1) eqn:E; simpl; [|by apply wp_ret..].
  wp_go. exists r. by split_and!.
Qed.

(** The teardown of the SSH channel: the calls made are accepted by the
    automaton, progress is recorded, and success means closed and freed. *)
Lemma slot_freeChannel_ok c t :
  sshChannel t.1 = Some c -> CloseProgress.freeComplete (sshCloseProgress t.1) = false ->
  wp slot_freeChannel (fun ok t' => exists evs p',
    w_trace t'.2 = w_trace t.2 ++ evs /\
    Forall (teardown_event c) evs /\
    Forall (fun ev => is_libssh2 (ev_call ev) = true) evs /\
    td_run c (td_of t.1) evs = Some (td_of t'.1) /\
    t'.1 = t.1 <| sshCloseProgress := p' |> <| sshChannel := if ok then None else Some c |> /\
    (ok = false -> CloseProgress.freeComplete p' = false)) t.
Proof.
  intros Hc Hf. destruct t as [s w]. simpl in *.
  unfold slot_freeChannel, slot_closeStep, slot_freeStep, CloseProgress.recordCloseResult,
    CloseProgress.recordFreeResult, CloseProgress.readyForFree, CloseProgress.readyForFinalize.
  apply wp_bind, wp_get. cbv beta. simpl. rewrite Hc.
  unfold td_of at 1. rewrite Hc.
  destruct (sshCloseProgress s) as [cc fc] eqn:Ep. simpl in Hf. subst fc.
  destruct cc; wp_go; simpl in *; rewrite ?Ep in *; simpl in *; simplify_eq;
    repeat match goal with
    | H : context [if ?x =? ?y then _ else _] |- _ => destruct (x =? y) eqn:?; simplify_eq/=
    end;
    (eexists _, _; split_and!; [rewrite <- ?app_assoc; reflexivity|by events|
      by events| |unfold upd; simpl; rewrite ?Hc; reflexivity|done]);
    simpl; rewrite ?Z.eqb_refl; simpl;
    repeat match goal with H : (_ =? _) = _ |- _ => rewrite H; clear H end;
    simpl; rewrite ?Z.eqb_refl; unfold td_of; simpl; rewrite ?Hc, ?Ep; done.
Qed.

(** The slot [finalizeClose] leaves behind when it succeeds. *)
Definition finalized (p : CloseProgress.Progress) (now : Z) s : ChannelSlot R :=
  (count_ring_drop s) <| sshCloseProgress := p |> <| sshChannel := None |> <| localSocket := -1 |>
    <| toLocal := None |> <| toRemote := None |> <| active := false |> <| state := Closed |>
    <| lastFinalizeMs := now |>.

Lemma slot_closeSocket_ok t :
  0 <= localSocket t.1 ->
  wp slot_closeSocket (fun _ t' => exists rc,
    t'.1 = t.1 <| localSocket := -1 |> /\
    w_trace t'.2 = w_trace t.2 ++ [Event (CloseFd (localSocket t.1)) rc]) t.
Proof.
  intros H. unfold slot_closeSocket. wp_go; [|by apply Z.leb_gt in H0; lia].
  eexists. by split.
Qed.

Lemma finalizeClose_ok i q :
  mgr_inv q.1 -> out_of_range i q.1 = false -> active (getSlot i q.1) = true ->
  wp (finalizeClose i) (fun ok q' => exists c evs p',
    let s := getSlot i q.1 in
    sshChannel s = Some c /\
    Forall (teardown_event c) evs /\
    Forall (fun ev => is_libssh2 (ev_call ev) = true) evs /\
    if ok then exists rc now, u32_range now /\
      td_run c (td_of s) evs = Some TdFreed /\
      w_trace q'.2 = w_trace q.2 ++ evs ++ [Event (CloseFd (localSocket s)) rc; Event Millis now] /\
      q'.1 = archiveSlotStats (count_ring_drop s) (setSlot i (finalized p' now s) q.1)
        <| activeCount_ := activeCount_ q.1 - 1 |>
    else
      CloseProgress.freeComplete p' = false /\
      td_run c (td_of s) evs = Some (td_of (s <| sshCloseProgress := p' |>)) /\
      w_trace q'.2 = w_trace q.2 ++ evs /\
      q'.1 = setSlot i (s <| sshCloseProgress := p' |>) q.1) q.
Proof.
  intros Hi Hr Ha. pose proof (mgr_inv_slot i q.1 Hi Hr) as Hs. unfold slot_inv in Hs.
  rewrite Ha in Hs. destruct Hs as [[c Hc] Hfd Hst Hpr _ _].
  unfold finalizeClose, on_slot. apply wp_bind, wp_get. rewrite Hr.
  apply wp_bind, wp_get. rewrite Ha. simpl. apply wp_bind, wp_focus.
  eapply wp_conseq; [by apply (slot_freeChannel_ok c)|].
  intros ok [s1 w1] (evs & p' & Ht & Hab & Hlib & Htd & Hs1 & Hfc). simpl in *.
  destruct ok; simpl; subst s1.
  2:{ apply wp_ret. exists c, evs, p'.
      assert ((getSlot i q.1) <| sshCloseProgress := p' |> <| sshChannel := Some c |> =
        (getSlot i q.1) <| sshCloseProgress := p' |>) as E by (unfold upd; simpl; by rewrite Hc).
      rewrite E in *. split_and!; try done. by apply Hfc. }
  apply wp_bind, wp_focus. eapply wp_conseq; [apply slot_closeSocket_ok|].
  { cbn [fst snd]. rewrite getSlot_setSlot by done. done. }
  cbn [fst snd]. rewrite getSlot_setSlot by done.
  intros u t2 (rc & Hs2 & Ht2). rewrite setSlot_twice.
  wp_go. cbn [fst snd] in *.
  exists c, evs, p'. split_and!; try done. exists rc, r. split_and!; try done.
  - simpl. rewrite Ht2, Ht, <- !app_assoc. done.
  - cbn [fst snd push_event put_world pair_has_world].
    rewrite !setSlot_twice, !getSlot_archive, !setSlot_archive, !setSlot_twice,
      !getSlot_setSlot, Hs2 by done. done.
Qed.

(** The manager after slot [i] was given up with statistics archived, by
    [finalizeClose] or [abandonSlot]. *)
Definition given_up (i : Z) (s' : ChannelSlot R) (m : ChannelManager R) : ChannelManager R :=
  (archiveSlotStats (count_ring_drop (getSlot i m)) (setSlot i s' m))
    <| activeCount_ := activeCount_ m - 1 |>.

Lemma given_up_ok i s' m :
  mgr_inv m -> out_of_range i m = false -> active (getSlot i m) = true ->
  active s' = false -> slot_inactive_inv s' ->
  let s := getSlot i m in
  let m' := given_up i s' m in
  mgr_inv m' /\ activeCount_ m' = activeCount_ m - 1 /\
  (forall j, 0 <= j -> j <> i -> getSlot j m' = getSlot j m) /\ getSlot i m' = s' /\
  getTotalBytesReceived m' = getTotalBytesReceived m /\
  getTotalBytesSent m' = getTotalBytesSent m /\
  getTotalBytesDropped m' =
    u32 (getTotalBytesDropped m + ring_used (toLocal s) + ring_used (toRemote s)).
Proof.
  intros Hi Hr Ha Ha' Hs' s m'. destruct (in_range_lookup i m Hi Hr) as [Hrange Hl].
  assert (slot_list m' = <[Z.to_nat i := s']> (slot_list m)) as Hlist by apply slot_list_setSlot.
  pose proof (mi_totals m Hi) as (H1 & H2 & H3).
  assert (mgr_inv m') as Hm'.
  { pose proof (mgr_inv_setSlot i s' m (activeCount_ m - 1) Hi Hr) as H.
    destruct H as [A1 A2 A3 A4 A5 _].
    - unfold slot_inv. by rewrite Ha'.
    - unfold activity. rewrite Ha, Ha'. simpl. lia.
    - split; try done. simpl. split_and!; apply u32_bound. }
  split_and!; try done.
  - intros j Hj Hne. by apply (getSlot_ne i j s' m); [lia|done|].
  - by apply (getSlot_setSlot i s' m).
  - unfold getTotalBytesReceived. rewrite Hlist. by apply (sum_active_archive _ _ s).
  - unfold getTotalBytesSent. rewrite Hlist. by apply (sum_active_archive _ _ s).
  - unfold getTotalBytesDropped. rewrite Hlist, !sum_active_lsum by (done || apply u32_bound).
    change (completedBytesDropped_ m') with (u32 (completedBytesDropped_ m +
      u32 (totalBytesDropped s + u32 (ring_used (toLocal s) + ring_used (toRemote s))))).
    rewrite (lsum_insert _ _ _ s), u32_add_l by done.
    assert (contribution totalBytesDropped s = totalBytesDropped s) as ->
      by (unfold contribution; fold s in Ha; by rewrite Ha).
    assert (contribution totalBytesDropped s' = 0) as -> by (unfold contribution; by rewrite Ha').
    rewrite <- (Z.add_assoc (u32 _)), u32_add_l.
    set (d := totalBytesDropped s). set (z := ring_used (toLocal s) + ring_used (toRemote s)).
    set (c := completedBytesDropped_ m). set (y := lsum _ _).
    replace (c + u32 (d + u32 z) + (y - d + 0)) with (c + y - d + u32 (d + u32 z)) by lia.
    rewrite u32_add_r. replace (c + y - d + (d + u32 z)) with (c + y + u32 z) by lia.
    by rewrite u32_add_r.
Qed.

Lemma abandonSlot_ok i reason q :
  mgr_inv q.1 -> out_of_range i q.1 = false -> active (getSlot i q.1) = true ->
  wp (abandonSlot i reason) (fun _ q' => exists rc,
    q'.1 = given_up i (reset_fields (getSlot i q.1)) q.1 /\
    w_trace q'.2 = w_trace q.2 ++ [Event (CloseFd (localSocket (getSlot i q.1))) rc]) q.
Proof.
  intros Hi Hr Ha. pose proof (mgr_inv_slot i q.1 Hi Hr) as Hs. unfold slot_inv in Hs.
  rewrite Ha in Hs. destruct Hs as [_ Hfd _ _ _ _].
  destruct (in_range_lookup i q.1 Hi Hr) as [_ Hl].
  assert (0 < activeCount_ q.1) as Hpos.
  { rewrite (mi_count q.1 Hi). pose proof (lsum_ge activity (slot_list q.1) _ _
      activity_nonneg Hl) as H. unfold activity at 1 in H. rewrite Ha in H. simpl in H. lia. }
  unfold abandonSlot, on_slot. apply wp_bind, wp_get. rewrite Hr.
  apply wp_bind, wp_get. rewrite Ha. simpl. apply wp_bind, wp_focus, wp_put.
  apply wp_bind, wp_focus. eapply wp_conseq; [apply slot_closeSocket_ok|].
  { cbn [fst snd]. rewrite getSlot_setSlot by done. exact Hfd. }
  cbn [fst snd]. rewrite getSlot_setSlot by done.
  intros u t2 (rc & Hs2 & Ht2). rewrite setSlot_twice. wp_go. cbn [fst snd] in *.
  exists rc. split; [|by rewrite Ht2].
  rewrite !setSlot_twice, !getSlot_setSlot, Hs2 by done.
  change (activeCount_ (archiveSlotStats _ _)) with (activeCount_ q.1).
  rewrite (proj2 (Z.ltb_lt _ _) Hpos). 
  set (s1 := (free_rings ((count_ring_drop (getSlot i q.1)) <| localSocket := -1 |>))
    <| sshChannel := None |>).
  assert (getSlot i (setSlot i s1 q.1) = s1) as Hs1 by by apply getSlot_setSlot.
  unfold resetSlot. set (m2 := upd _ _).
  assert (out_of_range i m2 = false) as -> by exact Hr.
  change (getSlot i m2) with (getSlot i (setSlot i s1 q.1)). rewrite Hs1.
  unfold given_up. 
  rewrite <- (setSlot_twice i s1 (reset_fields (getSlot i q.1)) q.1). reflexivity.
Qed.

(** ** Allocation, binding, closing on the manager *)

Lemma setSlot_id i m : mgr_inv m -> out_of_range i m = false -> setSlot i (getSlot i m) m = m.
Proof.
  intros Hi Hr. destruct (in_range_lookup i m Hi Hr) as [_ Hl].
  unfold setSlot, slot_list in *. destruct m as [[l|]]; simpl in *; [|done].
  unfold upd. simpl. by rewrite list_insert_id.
Qed.

Lemma beginClose_ok i reason q :
  mgr_inv q.1 ->
  wp (beginClose i reason) (fun _ q' =>
    if negb (out_of_range i q.1) && closable (getSlot i q.1) then
      exists now, u32_range now /\ q'.1 = setSlot i (begun reason now (getSlot i q.1)) q.1 /\
        ran q [Event Millis now] q'
    else q' = q) q.
Proof.
  intros Hi. unfold beginClose, on_slot. apply wp_bind, wp_get.
  destruct (out_of_range i q.1) eqn:Hr; simpl; [by apply wp_ret|].
  apply wp_focus. eapply wp_conseq; [apply slot_beginClose_ok|].
  intros u [s w]. simpl. destruct (closable (getSlot i q.1)); simpl.
  - intros (now & Hn & -> & Ht). by exists now.
  - intros [= -> ->]. rewrite setSlot_id by done. by destruct q.
Qed.

Lemma begun_active reason now s : closable s = true -> slot_inv s ->
  slot_inv (begun reason now s) /\ active (begun reason now s) = active s.
Proof.
  unfold closable, slot_inv. simpl. destruct (active s) eqn:Ha; [|done]. simpl.
  intros _ []. by split.
Qed.

Lemma construct_ran n (q : ChannelManager R * world Env) :
  0 < n -> n + SSH_TUNNEL_PREPEND_CAPACITY < 2 ^ 32 ->
  wp (Ring.construct n) (fun b q' => q'.1 = q.1 /\
    (Ring.inv b /\ Ring.content b = [] /\ Ring.capacity b = n) /\
    exists evs, ran q evs q' /\ Forall quiet evs) q.
Proof.
  intros Hn Hw. unfold Ring.construct, Ring.psramAlloc.
  wp_go; (split; [done|]); (split; [edestruct Ring.assemble_ok as (? & ? & ? & _); eauto|]);
    (eexists; split; [ran_done|by events]).
Qed.

Lemma memory_ok_ran n (q : ChannelManager R * world Env) :
  wp (memory_ok n) (fun _ q' => q'.1 = q.1 /\ exists evs, ran q evs q' /\ Forall quiet evs) q.
Proof.
  unfold memory_ok. wp_go; (split; [done|]); (eexists; split; [ran_done|by events]).
Qed.

(** A bound slot: open, on the given channel and socket, with empty well-formed
    rings, nothing counted yet. *)
Definition bound_slot (c : chan) (fd now : Z) (l r : DataRingBuffer R) (mapping : TunnelConfig) s
  : ChannelSlot R :=
  snapshotEndpoint mapping (stamp_activity now (bind_fields c fd l r (reset_fields s))).

Lemma slot_bind_ok c fd l r mapping s t :
  t.1 = reset_fields s ->
  wp (slot_bind c fd l r mapping) (fun _ t' => exists now x, u32_range now /\
    t'.1 = bound_slot c fd now l r mapping s /\
    ran t [Event Millis now; Event (ChannelSetBlocking c 0) x] t') t.
Proof.
  intros E. unfold slot_bind. wp_go. exists r0, r1. split; [done|]. split; [|ran_done].
  cbn [fst snd push_event put_world get_world pair_has_world]. rewrite E. unfold bound_slot. reflexivity.
Qed.

Definition with_breaker (cb : CircuitBreaker) m : ChannelManager R := m <| breaker_ := cb |>.

Lemma bind_shape i cb s m :
  (setSlot i s (with_breaker cb m))
    <| activeCount_ := activeCount_ (setSlot i s (with_breaker cb m)) + 1 |> =
  (with_breaker cb (setSlot i s m)) <| activeCount_ := activeCount_ m + 1 |>.
Proof. done. Qed.

Lemma with_breaker_count cb m k :
  (with_breaker cb m) <| activeCount_ := k |> = with_breaker cb (m <| activeCount_ := k |>).
Proof. done. Qed.

Lemma with_breaker_ok cb m i :
  mgr_inv m -> Breaker.inv cb ->
  mgr_inv (with_breaker cb m) /\ getSlot i (with_breaker cb m) = getSlot i m /\
  out_of_range i (with_breaker cb m) = out_of_range i m.
Proof. intros [] Hcb. by split_and!. Qed.

(** The last steps of [bindChannel], once socket and rings exist. *)
Lemma bind_tail_ok i c fd l r mapping q :
  mgr_inv q.1 -> out_of_range i q.1 = false ->
  wp (put (resetSlot i);; on_slot i (slot_bind c fd l r mapping);;
      put (fun m => m <| activeCount_ := activeCount_ m + 1 |>);; ret true)
    (fun ok q' => ok = true /\ exists now x, u32_range now /\
      ran q [Event Millis now; Event (ChannelSetBlocking c 0) x] q' /\
      q'.1 = (setSlot i (bound_slot c fd now l r mapping (getSlot i q.1)) q.1)
               <| activeCount_ := activeCount_ q.1 + 1 |>) q.
Proof.
  intros Hi Hr.
  assert (resetSlot i q.1 = setSlot i (reset_fields (getSlot i q.1)) q.1) as Er
    by (unfold resetSlot; by rewrite Hr).
  assert (getSlot i (resetSlot i q.1) = reset_fields (getSlot i q.1)) as Eg.
  { rewrite Er. by apply getSlot_setSlot. }
  unfold on_slot. apply wp_bind, wp_put, wp_bind, wp_focus.
  eapply wp_conseq; [apply (slot_bind_ok c fd l r mapping (getSlot i q.1)); exact Eg|].
  intros u [s5 w5] (now & x & Hnow & Hs5 & R5). cbn [fst snd] in *. subst s5.
  apply wp_bind, wp_put, wp_ret. cbn [fst snd]. split; [done|].
  exists now, x. split; [done|]. split; [exact R5|]. by rewrite Er, setSlot_twice.
Qed.

(** What [bindChannel] does to manager and sockets, on every path. *)
Definition bind_result (i : Z) (c : chan) (mapping : TunnelConfig) (ok : bool) q q'
  (evs : list event) : Prop :=
  Forall (fun ev => uses c ev = true) evs /\
  if ok then
    out_of_range i q.1 = false /\ active (getSlot i q.1) = false /\
    exists fd now l r, 0 <= fd /\ u32_range now /\
      Ring.inv l /\ Ring.content l = [] /\ Ring.inv r /\ Ring.content r = [] /\
      opened evs = [fd] /\ closed evs = [] /\
      q'.1 = (with_breaker (recordSuccess (remoteBindPort mapping) (breaker_ q.1))
                (setSlot i (bound_slot c fd now l r mapping (getSlot i q.1)) q.1))
             <| activeCount_ := activeCount_ q.1 + 1 |>
  else
    opened evs = closed evs /\
    (q'.1 = q.1 \/
     (exists now, q'.1 = with_breaker (snd (recordFailure (remoteBindPort mapping) now (breaker_ q.1))) q.1) \/
     q'.1 = with_breaker (recordSuccess (remoteBindPort mapping) (breaker_ q.1)) q.1).

(** Heap calls, clock readings and socket set-up use no channel. *)
Lemma quiet_uses c evs : Forall quiet evs -> Forall (fun ev => uses c ev = true) evs.
Proof. intros H. eapply Forall_impl; [|exact H]. intros [[] r]; done. Qed.

Lemma outside_uses c evs :
  Forall (fun ev => call_chan (ev_call ev) = None /\ is_libssh2 (ev_call ev) = false) evs ->
  Forall (fun ev => uses c ev = true) evs.
Proof. intros H. eapply Forall_impl; [|exact H]. intros [[] r] []; done. Qed.

Lemma bindChannel_ok i c mapping q :
  mgr_inv q.1 ->
  wp (bindChannel i c mapping) (fun ok q' => exists evs, ran q evs q' /\
    bind_result i c mapping ok q q' evs) q.
Proof.
  intros Hi. unfold bindChannel. apply wp_bind, wp_get. unfold bind_result.
  destruct (out_of_range i q.1) eqn:Hr.
  { apply wp_ret. exists []. destruct q. split; [apply ran_nil|]. split; [constructor|]. split; [done|by left]. }
  apply wp_bind, wp_get. destruct (active (getSlot i q.1)) eqn:Ha.
  { apply wp_ret. exists []. destruct q. split; [apply ran_nil|]. split; [constructor|]. split; [done|by left]. }
  apply wp_bind. eapply wp_conseq; [apply connectToLocalEndpoint_ok|].
  intros fd q1 (H1 & e1 & R1 & U1%(outside_uses c) & Hsock). destruct (Z.ltb_spec fd 0).
  { wp_go. exists (e1 ++ [Event Millis r]). split; [eapply ran_app; [exact R1|ran_done]|].
    split; [apply Forall_app_2; [done|by events]|].
    rewrite opened_app, closed_app, Hsock. split; [done|]. right. left. exists r. simpl. by rewrite H1. }
  apply wp_bind, wp_put, wp_bind, wp_get, wp_bind. rewrite H1. cbn [fst snd].
  eapply wp_conseq; [apply memory_ok_ran|]. intros ok q2 (H2 & e2 & R2 & Q2). cbn [fst] in H2.
  destruct Hsock as [So Sc]. destruct (quiet_sockets _ Q2) as [O2 C2]. pose proof (quiet_uses c _ Q2) as U2.
  destruct ok; simpl.
  2:{ wp_go. exists (e1 ++ e2 ++ [Event (CloseFd fd) r]).
      split; [eapply ran_app; [exact R1|eapply ran_app; [exact R2|ran_done]]|].
      split; [repeat apply Forall_app_2; (done || by events)|].
      rewrite !opened_app, !closed_app, So, Sc, O2, C2. split; [done|]. right. right. done. }
  destruct (mi_ring q.1 Hi) as [G1 G2].
  apply wp_bind. eapply wp_conseq; [by apply construct_ran|].
  intros l q3 (H3 & (Il & Cl & Kl) & e3 & R3 & Q3).
  apply wp_bind. eapply wp_conseq; [by apply construct_ran|].
  intros r q4 (H4 & (Ir & Cr & Kr) & e4 & R4 & Q4).
  destruct (quiet_sockets _ Q3) as [O3 C3]. destruct (quiet_sockets _ Q4) as [O4 C4].
  pose proof (quiet_uses c _ Q3) as U3. pose proof (quiet_uses c _ Q4) as U4.
  unfold Ring.capacityBytes. rewrite Kl, Kr. change (ringBufferSize_ (upd _ _)) with (ringBufferSize_ q.1).
  destruct (Z.eqb_spec (ringBufferSize_ q.1) 0); [lia|]. simpl.
  assert (q4.1 = with_breaker (recordSuccess (remoteBindPort mapping) (breaker_ q.1)) q.1) as E4
    by (by rewrite H4, H3, H2).
  destruct (with_breaker_ok (recordSuccess (remoteBindPort mapping) (breaker_ q.1)) q.1 i Hi
    (recordSuccess_inv _ _ (mi_breaker _ Hi))) as (Ib & Gb & Rb).
  eapply wp_conseq; [apply bind_tail_ok; rewrite E4; [exact Ib|by rewrite Rb]|].
  intros ok q5 [-> (now & x & Hnow & R5 & Hq5)].
  exists (e1 ++ e2 ++ e3 ++ e4 ++ [Event Millis now; Event (ChannelSetBlocking c 0) x]).
  split; [repeat (eapply ran_app; [eassumption|]); exact R5|]. split.
  { repeat apply Forall_app_2; try done. constructor; [done|]. constructor; [|constructor].
    apply bool_decide_eq_true. by right. }
  split_and!; [done|done|].
  exists fd, now, l, r.
  rewrite !opened_app, !closed_app, So, Sc, O2, C2, O3, C3, O4, C4.
  split_and!; try done. rewrite Hq5, E4, Gb. apply bind_shape.
Qed.

Lemma find_stale_spec now timeoutMs i l :
  match find_stale now timeoutMs i l with
  | Some k => exists n s, k = i + Z.of_nat n /\ l !! n = Some s /\ active s = true /\
      Timeout.expired now (lastActivity s) timeoutMs = true
  | None => Forall (fun s => active s && Timeout.expired now (lastActivity s) timeoutMs = false) l
  end.
Proof.
  revert i. induction l as [|s l IH]; intros i; simpl; [constructor|].
  destruct (active s && _) eqn:E.
  { apply andb_true_iff in E as [? ?]. exists 0%nat, s. split_and!; try done. lia. }
  specialize (IH (i + 1)). destruct (find_stale _ _ _ l).
  - destruct IH as (n & s' & -> & ? & ? & ?). exists (S n), s'. split_and!; try done. lia.
  - by apply Forall_cons_2.
Qed.

(** Both passes of [allocateSlot]. *)
Definition allocate_result (r : Z) q q' (now : Z) : Prop :=
  let ok := SlotAlloc.allocatable now SlotAlloc.FINALIZE_COOLDOWN_MS in
  if 0 <=? r then
    q'.1 = q.1 /\ out_of_range r q.1 = false /\ ok (getSlot r q.1) = true /\
    (forall j, 0 <= j < r -> ok (getSlot j q.1) = false)
  else
    r = -1 /\ (forall j, 0 <= j < maxSlots_ q.1 -> ok (getSlot j q.1) = false) /\
    (q'.1 = q.1 \/ exists i now', out_of_range i q.1 = false /\ closable (getSlot i q.1) = true /\
       Timeout.expired now (lastActivity (getSlot i q.1)) (channelTimeoutMs_ q.1) = true /\
       q'.1 = setSlot i (begun CloseTimeout now' (getSlot i q.1)) q.1).

Lemma allocateSlot_ok q :
  mgr_inv q.1 ->
  wp allocateSlot (fun r q' => exists now, u32_range now /\ allocate_result r q q' now /\
    exists evs, ran q evs q' /\ Forall quiet evs) q.
Proof.
  intros Hi. destruct q as [m w]. cbn [fst] in Hi. unfold allocateSlot, allocate_result.
  pose proof (mi_slots m Hi) as Hlen. wp_step. wp_step.
  destruct (slots_ m) as [l|] eqn:El.
  2:{ apply wp_ret. exists 0. split; [unfold u32_range; lia|]. simpl. split.
      - split; [done|]. split; [|by left]. intros. lia.
      - exists []. split; [apply ran_nil|constructor]. }
  wp_step. wp_step. wp_step. cbn [fst].
  assert (slot_list m = l) as Esl by (unfold slot_list; by rewrite El).
  pose proof (SlotAlloc.findFreeSlot_from_spec 0 l r SlotAlloc.FINALIZE_COOLDOWN_MS) as Hspec.
  unfold SlotAlloc.findFreeSlot. set (idx := SlotAlloc.findFreeSlot_from _ _ _ _) in *.
  destruct Hspec as [[-> Hf]|(k & s & Eidx & Hk & Hok' & Hf)]; [lia| |].
  2:{ rewrite Eidx, Z.add_0_l, (proj2 (Z.leb_le 0 _)) by lia. apply wp_ret. exists r. split; [done|].
      rewrite (proj2 (Z.leb_le 0 _)) by lia. apply lookup_lt_Some in Hk as Hlt. split.
      - split_and!; try done.
        + unfold out_of_range. apply orb_false_iff. rewrite Z.ltb_ge, Z.leb_gt. lia.
        + unfold getSlot. rewrite Esl, Nat2Z.id, Hk. done.
        + intros j Hj. unfold getSlot. rewrite Esl.
          destruct (lookup_lt_is_Some_2 l (Z.to_nat j)) as [s' Hs']; [lia|]. rewrite Hs'. simpl.
          apply (Forall_lookup_1 _ _ (Z.to_nat j) _ Hf). by rewrite lookup_take_lt by lia.
      - eexists. split; [ran_done|by events]. }
  simpl.
  assert (forall j, 0 <= j < maxSlots_ m ->
    SlotAlloc.allocatable r SlotAlloc.FINALIZE_COOLDOWN_MS (getSlot j m) = false) as Hnone.
  { intros j Hj. unfold getSlot. rewrite Esl.
    destruct (lookup_lt_is_Some_2 l (Z.to_nat j)) as [s' Hs']; [lia|]. rewrite Hs'.
    exact (Forall_lookup_1 _ _ _ _ Hf Hs'). }
  wp_step. wp_step. pose proof (find_stale_spec r (channelTimeoutMs_ m) 0 l) as Hst.
  destruct (find_stale r (channelTimeoutMs_ m) 0 l) as [i|].
  2:{ apply wp_ret. exists r. split; [done|]. simpl. split; [by split_and!; [|..|left]|].
      eexists. split; [ran_done|by events]. }
  destruct Hst as (n & s & Ei & Hn & Hact & Hexp). rewrite Z.add_0_l in Ei. subst i. apply lookup_lt_Some in Hn as Hlt.
  assert (getSlot (Z.of_nat n) m = s) as Egs.
  { unfold getSlot. rewrite Esl, Nat2Z.id, Hn. done. }
  assert (out_of_range (Z.of_nat n) m = false) as Hrange.
  { unfold out_of_range. apply orb_false_iff. rewrite Z.ltb_ge, Z.leb_gt. lia. }
  wp_step. eapply wp_conseq; [by apply beginClose_ok|]. cbn [fst]. rewrite Hrange, Egs. simpl.
  intros u q2. destruct (closable s) eqn:Ec.
  - intros (now' & Hn' & Hq2 & R2). apply wp_ret. exists r. split; [done|]. simpl. split.
    + split_and!; try done. right. exists (Z.of_nat n), now'. by rewrite Egs.
    + eexists. split; [eapply ran_app; [|exact R2]; ran_done|by events].
  - intros ->. apply wp_ret. exists r. split; [done|]. simpl. split; [by split_and!; [|..|left]|].
    eexists. split; [ran_done|by events].
Qed.

(** The parts of the manager that closing every slot leaves alone. *)
Definition same_outside_slots (m m' : ChannelManager R) : Prop :=
  ringBufferSize_ m' = ringBufferSize_ m /\ channelTimeoutMs_ m' = channelTimeoutMs_ m /\
  completedBytesReceived_ m' = completedBytesReceived_ m /\
  completedBytesSent_ m' = completedBytesSent_ m /\
  completedBytesDropped_ m' = completedBytesDropped_ m /\ breaker_ m' = breaker_ m.

#[local] Instance same_outside_preorder :
  PreOrder (fun q q' : ChannelManager R * world Env => same_outside_slots q.1 q'.1).
Proof.
  split; [intros q; done|]. unfold same_outside_slots. intros q1 q2 q3. intuition congruence.
Qed.

Lemma destroy_ok q :
  mgr_inv q.1 ->
  wp destroy (fun _ q' => mgr_inv q'.1 /\ slots_ q'.1 = None /\
    breaker_ q'.1 = breaker_ q.1 /\ ringBufferSize_ q'.1 = ringBufferSize_ q.1) q.
Proof.
  intros Hi. destruct q as [m w]. unfold destroy. cbn [fst] in *. wp_step. wp_step.
  pose proof Hi as [Hs He Hc Hr Hb Ht].
  destruct (slots_ m) as [l|] eqn:El.
  2:{ apply wp_ret. by split_and!. }
  wp_step. wp_step. wp_step.
  eapply wp_conseq;
    [apply (wp_for_each (fun q q' => same_outside_slots q.1 q'.1))|].
  - intros i [m1 w1] _. wp_go; done.
  - intros u [m2 w2] (H1 & H2 & H3 & H4 & H5 & H6). cbn [fst] in *. wp_step. cbn [fst].
    split; [|done]. split; simpl; try done; rewrite ?H1, ?H3, ?H4, ?H5, ?H6; done.
Qed.

Lemma init_ok n size timeoutMs q :
  mgr_inv q.1 -> 0 <= n -> 0 < size -> size + SSH_TUNNEL_PREPEND_CAPACITY < 2 ^ 32 ->
  wp (init n size timeoutMs) (fun ok q' => mgr_inv q'.1 /\
    (if ok then maxSlots_ q'.1 = n else slots_ q'.1 = None) /\
    activeCount_ q'.1 = 0 /\ breaker_ q'.1 = breaker_ q.1) q.
Proof.
  intros Hi Hn Hsz Hw. unfold init. apply wp_bind, wp_get, wp_bind.
  eapply (wp_conseq _ (fun _ q' => mgr_inv q'.1 /\ breaker_ q'.1 = breaker_ q.1)).
  { destruct (slots_ q.1); [|by apply wp_ret].
    eapply wp_conseq; [by apply destroy_ok|]. by intros u q' (? & _ & ? & _). }
  intros u [m w] [Hm Hb]. cbn [fst] in *. pose proof Hm as [_ _ _ _ Hbi _].
  wp_go; cbn [fst]; (split; [split; try done|]); simpl; unfold u32_range; try lia; try done.
  - simpl. unfold slot_list. simpl. rewrite length_replicate. lia.
  - unfold slot_list. simpl. by apply Forall_replicate.
  - unfold slot_list. simpl. rewrite lsum_zero; [done|]. by apply Forall_replicate.
Qed.

Lemma bound_slot_inv c fd now l r mapping s :
  0 <= fd -> Ring.inv l -> Ring.inv r -> slot_inv (bound_slot c fd now l r mapping s).
Proof. intros. unfold slot_inv. simpl. split; try done; by eexists. Qed.

Lemma bind_result_ok i c mapping ok q q' evs :
  mgr_inv q.1 -> bind_result i c mapping ok q q' evs -> mgr_inv q'.1.
Proof.
  intros Hi [_ H]. revert H. destruct ok.
  - intros (Hr & Ha & fd & now & l & r & Hfd & Hnow & Il & Cl & Ir & Cr & _ & _ & ->).
    assert (mgr_inv ((setSlot i (bound_slot c fd now l r mapping (getSlot i q.1)) q.1)
      <| activeCount_ := activeCount_ q.1 + 1 |>)) as H.
    { apply mgr_inv_setSlot; try done.
      - by apply bound_slot_inv.
      - unfold activity. rewrite Ha. simpl. lia. }
    destruct (with_breaker_ok (recordSuccess (remoteBindPort mapping) (breaker_ q.1)) _ i H
      (recordSuccess_inv _ _ (mi_breaker _ Hi))) as [G _].
    rewrite with_breaker_count. exact G.
  - intros [_ [->|[[now ->]| ->]]]; [done| |]; apply (with_breaker_ok _ q.1 i Hi);
      [apply recordFailure_inv|apply recordSuccess_inv]; apply Hi.
Qed.

Lemma finalized_inactive p now s : slot_inactive_inv (finalized p now s).
Proof. by split. Qed.

Lemma reset_inactive s : slot_inactive_inv (reset_fields s).
Proof. by split. Qed.

(** [finalizeClose] and [abandonSlot] keep the invariant on every path. *)
Lemma finalizeClose_inv i q :
  mgr_inv q.1 -> wp (finalizeClose i) (fun _ q' => mgr_inv q'.1) q.
Proof.
  intros Hi. destruct (out_of_range i q.1) eqn:Hr.
  { unfold finalizeClose. apply wp_bind, wp_get. rewrite Hr. by apply wp_ret. }
  destruct (active (getSlot i q.1)) eqn:Ha.
  2:{ unfold finalizeClose. apply wp_bind, wp_get. rewrite Hr. apply wp_bind, wp_get.
      rewrite Ha. by apply wp_ret. }
  eapply wp_conseq; [by apply finalizeClose_ok|].
  intros ok q' (c & evs & p' & Hc & _ & _ & Hq). destruct ok.
  - destruct Hq as (rc & now & _ & _ & _ & ->).
    by destruct (given_up_ok i (finalized p' now (getSlot i q.1)) q.1 Hi Hr Ha eq_refl
      (finalized_inactive _ _ _)) as [H _].
  - destruct Hq as (Hp & _ & _ & ->). apply mgr_inv_setSlot_same; try done.
    pose proof (mgr_inv_slot i q.1 Hi Hr) as Hs. unfold slot_inv in *. simpl. rewrite Ha in *.
    destruct Hs. by split.
Qed.

Lemma abandonSlot_inv i reason q :
  mgr_inv q.1 -> wp (abandonSlot i reason) (fun _ q' => mgr_inv q'.1) q.
Proof.
  intros Hi. destruct (out_of_range i q.1) eqn:Hr.
  { unfold abandonSlot. apply wp_bind, wp_get. rewrite Hr. by apply wp_ret. }
  destruct (active (getSlot i q.1)) eqn:Ha.
  2:{ unfold abandonSlot. apply wp_bind, wp_get. rewrite Hr. apply wp_bind, wp_get.
      rewrite Ha. by apply wp_ret. }
  eapply wp_conseq; [by apply abandonSlot_ok|]. intros u q' (rc & -> & _).
  by destruct (given_up_ok i (reset_fields (getSlot i q.1)) q.1 Hi Hr Ha eq_refl
    (reset_inactive _)) as [H _].
Qed.

Lemma beginClose_inv i reason q :
  mgr_inv q.1 -> wp (beginClose i reason) (fun _ q' => mgr_inv q'.1) q.
Proof.
  intros Hi. eapply wp_conseq; [by apply beginClose_ok|]. intros u q'.
  destruct (out_of_range i q.1) eqn:Hr; simpl; [by intros ->|].
  destruct (closable (getSlot i q.1)) eqn:Hc; [|by intros ->].
  intros (now & _ & -> & _).
  destruct (begun_active reason now _ Hc (mgr_inv_slot i q.1 Hi Hr)) as [H1 H2].
  by apply mgr_inv_setSlot_same.
Qed.

Lemma allocateSlot_inv q : mgr_inv q.1 -> wp allocateSlot (fun _ q' => mgr_inv q'.1) q.
Proof.
  intros Hi. eapply wp_conseq; [by apply allocateSlot_ok|].
  intros r q' (now & _ & Ha & _). unfold allocate_result in Ha. destruct (0 <=? r).
  { by destruct Ha as [-> _]. }
  destruct Ha as (_ & _ & [->|(i & now' & Hr & Hc & _ & ->)]); [done|].
  destruct (begun_active CloseTimeout now' _ Hc (mgr_inv_slot i q.1 Hi Hr)) as [H1 H2].
  by apply mgr_inv_setSlot_same.
Qed.

(** ** Operations of the manager as data *)

Inductive mgr_op :=
  | MInit (n size timeoutMs : Z)
  | MDestroy
  | MAllocate
  | MBind (i : Z) (c : chan) (mapping : TunnelConfig)
  | MBeginClose (i : Z) (reason : ChannelCloseReason)
  | MFinalize (i : Z)
  | MAbandon (i : Z) (reason : ChannelCloseReason).

Definition run_mgr (o : mgr_op) : M (ChannelManager R * world Env) unit :=
  match o with
  | MInit n size t => _ <- init n size t;; ret tt
  | MDestroy => destroy
  | MAllocate => _ <- allocateSlot;; ret tt
  | MBind i c mapping => _ <- bindChannel i c mapping;; ret tt
  | MBeginClose i reason => beginClose i reason
  | MFinalize i => _ <- finalizeClose i;; ret tt
  | MAbandon i reason => abandonSlot i reason
  end.

Definition mgr_op_ok (o : mgr_op) : Prop :=
  match o with
  | MInit n size _ => 0 <= n /\ 0 < size /\ size + SSH_TUNNEL_PREPEND_CAPACITY < 2 ^ 32
  | _ => True
  end.

Lemma run_mgr_inv o q :
  mgr_inv q.1 -> mgr_op_ok o -> wp (run_mgr o) (fun _ q' => mgr_inv q'.1) q.
Proof.
  intros Hi Ho. destruct o; cbn [run_mgr mgr_op_ok] in *.
  - destruct Ho as (? & ? & ?). apply wp_bind.
    eapply wp_conseq; [by apply init_ok|]. by intros r q' [? _].
  - eapply wp_conseq; [by apply destroy_ok|]. by intros u q' [? _].
  - apply wp_bind. by apply allocateSlot_inv.
  - apply wp_bind. eapply wp_conseq; [by apply bindChannel_ok|].
    intros ok q' (evs & _ & Hb). by apply bind_result_ok in Hb.
  - by apply beginClose_inv.
  - apply wp_bind. by apply finalizeClose_inv.
  - by apply abandonSlot_inv.
Qed.

Definition run_all (os : list mgr_op) : M (ChannelManager R * world Env) unit :=
  for_each os run_mgr.

Lemma run_all_inv os q :
  mgr_inv q.1 -> Forall mgr_op_ok os -> mgr_inv (snd (run_all os q)).1.
Proof.
  intros Hi Hos. revert q Hi. induction Hos as [|o os Ho Hos IH]; intros q Hi; [done|].
  unfold run_all. cbn [for_each]. unfold bind.
  pose proof (run_mgr_inv o q Hi Ho) as H. unfold wp in H.
  destruct (run_mgr o q) as [u q1]. by apply IH.
Qed.

(** Repeated attempts to finalise one slot. *)
Definition attempts (n : nat) (i : Z) : M (ChannelManager R * world Env) unit :=
  for_each (replicate n i) (fun i => _ <- finalizeClose i;; ret tt).

Lemma finalize_step i q :
  mgr_inv q.1 -> out_of_range i q.1 = false ->
  let q' := snd (finalizeClose i q) in
  mgr_inv q'.1 /\ out_of_range i q'.1 = false /\
  (active (getSlot i q.1) = false -> q' = q) /\
  (active (getSlot i q.1) = true -> exists c evs, sshChannel (getSlot i q.1) = Some c /\
     ran q evs q' /\ td_run c (td_of (getSlot i q.1)) evs = Some (td_of (getSlot i q'.1)) /\
     (active (getSlot i q'.1) = true -> sshChannel (getSlot i q'.1) = Some c) /\
     (active (getSlot i q'.1) = false -> sshChannel (getSlot i q'.1) = None)).
Proof.
  intros Hi Hr q'. assert (mgr_inv q'.1) as Hi' by apply (finalizeClose_inv i q Hi).
  destruct (active (getSlot i q.1)) eqn:Ha.
  2:{ assert (q' = q) as Hq.
      { unfold q', finalizeClose, bind, get, gets. by rewrite Hr, Ha. }
      rewrite Hq. by split_and!. }
  pose proof (finalizeClose_ok i q Hi Hr Ha) as H. unfold wp in H. fold q' in H.
  destruct H as (c & evs & p' & Hc & Hab & Hlib & H). destruct (fst (finalizeClose i q)).
  - destruct H as (rc & now & _ & Htd & Hran & Hq').
    destruct (given_up_ok i (finalized p' now (getSlot i q.1)) q.1 Hi Hr Ha eq_refl
      (finalized_inactive _ _ _)) as (_ & _ & _ & Hs & _).
    assert (getSlot i q'.1 = finalized p' now (getSlot i q.1)) as Hs' by (rewrite Hq'; exact Hs).
    split_and!; [done|by rewrite Hq'|done|]. intros _. exists c. eexists. split_and!; [done|exact Hran| | |].
    + rewrite td_run_app, Htd, Hs'. simpl. done.
    + by rewrite Hs'.
    + by rewrite Hs'.
  - destruct H as (_ & Htd & Hran & Hq').
    assert (getSlot i q'.1 = (getSlot i q.1) <| sshCloseProgress := p' |>) as Hs'.
    { rewrite Hq'. by apply getSlot_setSlot. }
    split_and!; [done|by rewrite Hq'|done|]. intros _. exists c, evs.
    split_and!; [done|exact Hran|by rewrite Hs'|by rewrite Hs'|]. rewrite Hs'. simpl. congruence.
Qed.

(** ** Properties *)

(** C36: the manager invariant holds after any sequence of operations, whatever
    the environment answers: one well-formed slot per index, active slots with
    a channel, a socket and two well-formed rings, inactive ones with nothing,
    [activeCount_] equal to the number of active slots, the breaker in order. *)
Theorem manager_invariant os q :
  mgr_inv q.1 -> Forall mgr_op_ok os ->
  let m := (snd (run_all os q)).1 in
  mgr_inv m /\ 0 <= activeCount_ m <= maxSlots_ m.
Proof.
  intros Hi Hos m. pose proof (run_all_inv os q Hi Hos) as Hm. split; [done|].
  rewrite (mi_count m Hm), (mgr_inv_len m Hm). apply lsum_bound.
  intros s. unfold activity. destruct (active s); simpl; lia.
Qed.

(** Giving a channel up never loses bytes from the statistics: neither
    [finalizeClose] (whether it completes or has to be retried) nor
    [abandonSlot] changes the received and sent totals, and the dropped total
    grows by exactly the bytes still in the two rings when the slot is freed. *)
Theorem totals_conserved i reason q :
  mgr_inv q.1 -> out_of_range i q.1 = false -> active (getSlot i q.1) = true ->
  let s := getSlot i q.1 in
  let pending := ring_used (toLocal s) + ring_used (toRemote s) in
  let '(ok, f) := finalizeClose i q in
  let '(_, a) := abandonSlot i reason q in
  getTotalBytesReceived f.1 = getTotalBytesReceived q.1 /\
  getTotalBytesSent f.1 = getTotalBytesSent q.1 /\
  getTotalBytesDropped f.1 =
    (if ok then u32 (getTotalBytesDropped q.1 + pending) else getTotalBytesDropped q.1) /\
  getTotalBytesReceived a.1 = getTotalBytesReceived q.1 /\
  getTotalBytesSent a.1 = getTotalBytesSent q.1 /\
  getTotalBytesDropped a.1 = u32 (getTotalBytesDropped q.1 + pending).
Proof.
  intros Hi Hr Ha s pending. destruct (in_range_lookup i q.1 Hi Hr) as [_ Hl].
  pose proof (finalizeClose_ok i q Hi Hr Ha) as Hf. pose proof (abandonSlot_ok i reason q Hi Hr Ha) as Hb.
  unfold wp in Hf, Hb. destruct (finalizeClose i q) as [ok f]. destruct (abandonSlot i reason q) as [u a].
  destruct Hb as (rc & Hqa & _). cbn [fst snd] in Hqa. rewrite Hqa.
  destruct (given_up_ok i (reset_fields s) q.1 Hi Hr Ha eq_refl (reset_inactive _))
    as (_ & _ & _ & _ & Ra & Sa & Da).
  destruct Hf as (c & evs & p' & _ & _ & _ & Hf). cbn [fst snd] in Hf. destruct ok.
  - destruct Hf as (rc' & now & _ & _ & _ & Hqf). rewrite Hqf.
    destruct (given_up_ok i (finalized p' now s) q.1 Hi Hr Ha eq_refl (finalized_inactive _ _ _))
      as (_ & _ & _ & _ & Rf & Sf & Df).
    unfold pending. rewrite !Z.add_assoc. by split_and!.
  - destruct Hf as (_ & _ & _ & Hqf). rewrite Hqf.
    assert (forall f c, u32_range c -> sum_active f c (slot_list (setSlot i (s <| sshCloseProgress := p' |>) q.1)) =
      sum_active f c (slot_list q.1) \/ f (s <| sshCloseProgress := p' |>) <> f s) as Hsum.
    { intros f' c' Hc'. destruct (decide (f' (s <| sshCloseProgress := p' |>) = f' s)) as [E|E]; [left|by right].
      rewrite slot_list_setSlot, !sum_active_lsum by done. f_equal. f_equal.
      rewrite (lsum_insert _ _ _ s) by done. unfold contribution at 2 3. simpl.
      rewrite E. destruct (active s); lia. }
    destruct (mi_totals _ Hi) as (T1 & T2 & T3).
    unfold pending. rewrite Z.add_assoc. split_and!; try done.
    + by destruct (Hsum totalBytesReceived _ T1) as [E|E].
    + by destruct (Hsum totalBytesSent _ T2) as [E|E].
    + by destruct (Hsum totalBytesDropped _ T3) as [E|E].
Qed.

(** C34: however often [finalizeClose] has to be retried because libssh2 answers
    [EAGAIN], the calls on the slot's channel follow the teardown protocol:
    closed once, then freed once, never touched after that; and the slot is
    released exactly when the channel has been freed. *)
Theorem finalize_teardown_protocol n i q c :
  mgr_inv q.1 -> out_of_range i q.1 = false ->
  active (getSlot i q.1) = true -> sshChannel (getSlot i q.1) = Some c ->
  let q' := snd (attempts n i q) in
  exists evs, ran q evs q' /\
    td_run c (td_of (getSlot i q.1)) evs = Some (td_of (getSlot i q'.1)) /\
    (td_of (getSlot i q'.1) = TdFreed <-> active (getSlot i q'.1) = false).
Proof.
  assert (forall n q, mgr_inv q.1 -> out_of_range i q.1 = false ->
    let q' := snd (attempts n i q) in
    mgr_inv q'.1 /\ out_of_range i q'.1 = false /\
    (active (getSlot i q.1) = false -> q' = q) /\
    (active (getSlot i q.1) = true -> sshChannel (getSlot i q.1) = Some c ->
      exists evs, ran q evs q' /\
        td_run c (td_of (getSlot i q.1)) evs = Some (td_of (getSlot i q'.1)))) as Hgen.
  { clear. intros n. induction n as [|n IH]; intros q Hi Hr; cbn zeta.
    - split_and!; try done. intros _ _. exists []. destruct q. split; [apply ran_nil|done].
    - destruct (finalize_step i q Hi Hr) as (Hi1 & Hr1 & Hin & Hact).
      assert (snd (attempts (S n) i q) = snd (attempts n i (snd (finalizeClose i q)))) as ->.
      { unfold attempts. cbn [replicate for_each]. unfold bind, ret. by destruct (finalizeClose i q). }
      set (q1 := snd (finalizeClose i q)) in *.
      destruct (IH q1 Hi1 Hr1) as (Hi2 & Hr2 & Hin2 & Hact2). split_and!; [done|done| |].
      + intros Ha. rewrite Hin2; [by apply Hin|]. by rewrite (Hin Ha).
      + intros Ha Hc. destruct (Hact Ha) as (c' & evs & Hc' & R1 & T1 & G1 & G2).
        rewrite Hc in Hc'. injection Hc' as <-.
        destruct (active (getSlot i q1.1)) eqn:Ha1.
        * destruct (Hact2 eq_refl (G1 eq_refl)) as (evs2 & R2 & T2).
          exists (evs ++ evs2). split; [by eapply ran_app|]. by rewrite td_run_app, T1.
        * rewrite (Hin2 eq_refl). by exists evs. }
  intros Hi Hr Ha Hc q'. destruct (Hgen n q Hi Hr) as (Hi' & Hr' & _ & H).
  destruct (H Ha Hc) as (evs & R1 & T1). exists evs. split_and!; [done|done|].
  pose proof (mgr_inv_slot i _ Hi' Hr') as Hs. fold q' in Hs. unfold slot_inv in Hs. unfold td_of.
  destruct (active (getSlot i q'.1)).
  - destruct Hs as [[c' ->] _ _ _ _ _]. by destruct (CloseProgress.closeComplete _).
  - destruct Hs as [-> _ _ _ _]. done.
Qed.

(** C37: [bindChannel] either binds a free slot or leaves the slots alone, and it
    never leaks a socket: on failure every descriptor it opened is closed again;
    on success exactly one stays open, it is the slot's, and the slot holds the
    channel, two empty rings, zeroed counters and the mapping's endpoint. *)
Theorem bind_outcome i c mapping q :
  mgr_inv q.1 ->
  let '(ok, q') := bindChannel i c mapping q in
  exists evs, ran q evs q' /\ bind_result i c mapping ok q q' evs /\ mgr_inv q'.1.
Proof.
  intros Hi. pose proof (bindChannel_ok i c mapping q Hi) as H. unfold wp in H.
  destruct (bindChannel i c mapping q) as [ok q']. destruct H as (evs & R1 & H). exists evs.
  split_and!; [done|done|]. by eapply bind_result_ok.
Qed.

(** [allocateSlot] returns the first slot that is free and past its
    cooldown; when there is none it returns -1, having at most asked one open,
    timed-out slot to close. *)
Theorem allocate_outcome q :
  mgr_inv q.1 ->
  let '(r, q') := allocateSlot q in
  mgr_inv q'.1 /\ exists now, u32_range now /\ allocate_result r q q' now /\
    exists evs, ran q evs q' /\ Forall quiet evs.
Proof.
  intros Hi. pose proof (allocateSlot_ok q Hi) as H. pose proof (allocateSlot_inv q Hi) as H'.
  unfold wp in H, H'. by destruct (allocateSlot q) as [r q'].
Qed.

(** when [shouldAcceptNew] says yes there is a free slot to bind, and if it
    is the last one no active channel is in trouble (more than five
    consecutive errors). *)
Theorem admission_sound (m : ChannelManager R) :
  mgr_inv m -> shouldAcceptNew m = true ->
  (exists k s, slot_list m !! k = Some s /\ active s = false) /\
  (activeCount_ m = maxSlots_ m - 1 ->
     Forall (fun s => active s = true -> consecutiveErrors s <= 5) (slot_list m)).
Proof.
  intros Hi. unfold shouldAcceptNew. pose proof (mgr_inv_len m Hi) as Hn.
  pose proof (mi_count m Hi) as Hc.
  destruct (Z.leb_spec (maxSlots_ m) (activeCount_ m)); [done|]. intros H1. split.
  - destruct (decide (Forall (fun s => active s = true) (slot_list m))) as [Hall|Hx].
    2:{ apply not_Forall_Exists, Exists_exists in Hx as (s & Hin & Hs); [|solve_decision].
      apply list_elem_of_In, list_elem_of_lookup in Hin as [k Hk].
      exists k, s. split; [done|]. by destruct (active s) eqn:Ha; [destruct Hs|]. }
    assert (lsum activity (slot_list m) = zlen (slot_list m)) as E; [|lia].
    clear -Hall. induction Hall as [|s l Hs Hl IH]; [done|].
    cbn [lsum foldr length]. fold (lsum activity l). unfold activity at 1. rewrite Hs. simpl. lia.
  - intros Hlast. destruct (Z.leb_spec (activeCount_ m) (maxSlots_ m - 2)); [lia|].
    apply Forall_forall. intros s Hs Ha. rewrite forallb_forall in H1.
    specialize (H1 s Hs). rewrite Ha in H1. simpl in H1.
    destruct (Z.ltb_spec 5 (consecutiveErrors s)); [done|lia].
Qed.
End SlotOperations.

(** ** A concrete run *)
Section Example.
#[local] Existing Instance esp32_target.

Definition example_mapping : TunnelConfig := mkTunnelConfig "0.0.0.0" 8080 "127.0.0.1" 80.

(** A manager of two slots on the idle environment, then channel 7 bound. *)
Definition example_start : ChannelManager wrap_ring * world script :=
  snd (init 2 1024 5000 (new_manager, World idle_script [])).
Definition example_bound : ChannelManager wrap_ring * world script :=
  snd (bindChannel 0 7 example_mapping example_start).

(** The same bind when every allocation fails. *)
Definition no_heap (c : call) : ret_of c :=
  match c with HeapCapsMallocPsram _ => false | Malloc _ => false | c' => all_succeed c' end.
Definition starved : world script := World (idle_script <| sc_other := no_heap |>) [].

Lemma new_manager_inv : mgr_inv (new_manager (R := wrap_ring)).
Proof.
  constructor; [done|constructor|done|vm_compute; intuition congruence|exact new_breaker_inv|].
  by vm_compute.
Qed.

Lemma example_start_inv : mgr_inv example_start.1.
Proof.
  pose proof (init_ok 2 1024 5000 (new_manager, World idle_script []) new_manager_inv) as H.
  unfold wp in H. fold example_start in H. apply H; [lia|lia|by vm_compute].
Qed.

Lemma example_bound_inv : mgr_inv example_bound.1.
Proof.
  pose proof (bindChannel_ok 0 7 example_mapping example_start example_start_inv) as H.
  unfold wp in H. destruct H as (evs & _ & H). exact (bind_result_ok _ _ _ _ _ _ _ example_start_inv H).
Qed.

Lemma manager_invariant_witness :
  let os := [MBind 0 7 example_mapping; MBeginClose 0 Manual; MFinalize 0; MAllocate] in
  mgr_inv (snd (run_all os example_start)).1.
Proof.
  intros os. apply (manager_invariant os example_start); [exact example_start_inv|].
  by repeat constructor.
Defined.

Lemma bind_outcome_witness :
  fst (bindChannel 0 7 example_mapping example_start) = true /\
  mgr_inv (snd (bindChannel 0 7 example_mapping example_start)).1.
Proof.
  split; [by vm_compute|].
  pose proof (bind_outcome 0 7 example_mapping example_start example_start_inv) as H.
  destruct (bindChannel 0 7 example_mapping example_start) as [ok q']. by destruct H as (evs & _ & _ & H).
Defined.

Lemma allocate_outcome_witness :
  fst (allocateSlot example_start) = 0 /\ fst (allocateSlot example_bound) = 1 /\
  mgr_inv (snd (allocateSlot example_bound)).1.
Proof.
  split; [by vm_compute|]. split; [by vm_compute|].
  pose proof (allocate_outcome example_bound example_bound_inv) as H.
  destruct (allocateSlot example_bound) as [r q']. apply H.
Defined.

Lemma admission_sound_witness :
  shouldAcceptNew example_bound.1 = true /\
  exists k s, slot_list example_bound.1 !! k = Some s /\ active s = false.
Proof.
  split; [by vm_compute|]. apply (admission_sound example_bound.1 example_bound_inv). by vm_compute.
Defined.

Lemma totals_conserved_witness :
  active (getSlot 0 example_bound.1) = true /\
  getTotalBytesDropped (snd (abandonSlot 0 Error example_bound)).1 = 0.
Proof.
  split; [by vm_compute|].
  pose proof (totals_conserved 0 Error example_bound example_bound_inv) as H.
  specialize (H ltac:(by vm_compute) ltac:(by vm_compute)).
  destruct (finalizeClose 0 example_bound) as [ok f]. destruct (abandonSlot 0 Error example_bound) as [u a].
  destruct H as (_ & _ & _ & _ & _ & H). cbn [snd]. rewrite H. by vm_compute.
Defined.

Lemma finalize_teardown_protocol_witness :
  exists evs, td_run 7 TdOpen evs = Some TdFreed /\ evs <> [].
Proof.
  pose proof (finalize_teardown_protocol 2 0 example_bound 7 example_bound_inv) as H.
  specialize (H ltac:(by vm_compute) ltac:(by vm_compute) ltac:(by vm_compute)).
  cbn zeta in H. destruct H as (evs & _ & H & _).
  replace (td_of (getSlot 0 example_bound.1)) with TdOpen in H by (by vm_compute).
  replace (td_of (getSlot 0 (snd (attempts 2 0 example_bound)).1)) with TdFreed in H by (by vm_compute).
  exists evs. split; [done|]. by intros ->.
Defined.

Definition starved_bind : bool * (ChannelManager wrap_ring * world script) :=
  bindChannel 0 7 example_mapping (example_start.1, starved).

(** The check [capacityBytes() == 0] of [bindChannel] is meant to reject
    rings that could not be allocated, but a ring reports the size it was asked
    for: with no heap at all the channel is bound, to two rings without storage. *)
Example bind_accepts_unusable_rings :
  fst starved_bind = true /\ active (getSlot 0 (snd starved_bind).1) = true /\
  (toLocal (getSlot 0 (snd starved_bind).1) ≫= Ring.handle) = None /\
  (toRemote (getSlot 0 (snd starved_bind).1) ≫= Ring.handle) = None.
Proof. repeat (split; [by vm_compute|]). by vm_compute. Qed.
End Example.
