(* ===== verification/Lock.v ===== *)
(** * SSHSession::lock and unlock (ssh_session.cpp)

    Every component that talks to libssh2 brackets its calls with the session
    mutex.  [mutex] says whether the mutex was created ([sessionMutex_] is not
    null).  A client whose relation meets the interface [LockDiscipline]
    proves its bracketed programs with [does_locked]: a body that keeps the
    discipline while the mutex is held keeps it as a whole when the mutex was
    free before. *)

From S2P Require Import Prelude Platform.

Section Lock.
Context {Env S : Type} {P : Platform Env} {HW : HasWorld Env S}.

Definition lock (mutex : bool) (ticks : Z) : M S bool :=
  if negb mutex then ret false else
  let waitTicks := if ticks =? 0 then 1 else ticks in
  sys (SemTake SessionMutex waitTicks).

Definition unlock (mutex : bool) : M S unit :=
  when mutex (sys (SemGive SessionMutex)).

End Lock.

(** Calls that have nothing to do with the session mutex. *)
Definition lock_free (ev : event) : bool :=
  match ev_call ev with
  | SemTake SessionMutex _ | SemGive SessionMutex => false
  | cl => negb (is_libssh2 cl)
  end.

Lemma lock_run_free h evs : Forall (fun ev => lock_free ev = true) evs -> lock_run h evs = Some h.
Proof.
  induction 1 as [|[cl r] evs Hev _ IH]; [done|]. cbn [lock_run].
  assert (lock_step h (Event cl r) = Some h) as ->; [|exact IH].
  unfold lock_free in Hev. destruct cl; try done; by destruct m.
Qed.

(** While the mutex is held, anything but the mutex itself is allowed. *)
Definition mutex_call (ev : event) : bool :=
  match ev_call ev with SemTake SessionMutex _ | SemGive SessionMutex => true | _ => false end.

Lemma lock_run_held evs : Forall (fun ev => mutex_call ev = false) evs -> lock_run true evs = Some true.
Proof.
  induction 1 as [|[cl r] evs Hev _ IH]; [done|]. cbn [lock_run].
  assert (lock_step true (Event cl r) = Some true) as ->; [|exact IH].
  unfold mutex_call in Hev. destruct cl; simpl in *; rewrite ?andb_false_r; try done; by destruct m.
Qed.

(** ** Traces relating states

    A relation between a state, the calls a run made and the state it reached.
    It is closed under doing nothing, on states of its domain, and under
    composition, and it stays in its domain. *)
Class TraceOrder {T : Type} (Dom : T -> Prop) (Rel : T -> list event -> T -> Prop) := {
  trace_refl : forall a, Dom a -> Rel a [] a;
  trace_trans : forall a b c e1 e2, Rel a e1 b -> Rel b e2 c -> Rel a (e1 ++ e2) c;
  trace_dom : forall a e b, Rel a e b -> Dom b;
}.

Section Does.
Context {Env T : Type} {P : Platform Env}.
Implicit Types q : T * world Env.

(** The program, run from [q], performs the relation, and answers within [Q]. *)
Definition does {A} (Rel : T -> list event -> T -> Prop) (Q : A -> T -> Prop)
    (m : M (T * world Env) A) q : Prop :=
  wp m (fun a q' => exists evs, ran q evs q' /\ Rel q.1 evs q'.1 /\ Q a q'.1) q.

Definition anything {A} (_ : A) (_ : T) : Prop := True.

Lemma does_conseq {A} Rel Rel' (Q Q' : A -> T -> Prop) (m : M (T * world Env) A) q :
  does Rel Q m q -> (forall a e b, Rel a e b -> Rel' a e b) -> (forall a t, Q a t -> Q' a t) ->
  does Rel' Q' m q.
Proof.
  intros H HR HQ. unfold does, wp in *. destruct H as (evs & Hr & Hrel & Ha).
  exists evs. split_and!; auto.
Qed.

Lemma does_any {A} Rel (Q : A -> T -> Prop) (m : M (T * world Env) A) q :
  does Rel Q m q -> does Rel anything m q.
Proof. intros H. by eapply does_conseq; [exact H|..]. Qed.

Lemma does_post {A} Rel (Q Q' : A -> T -> Prop) (m : M (T * world Env) A) q :
  does Rel Q m q -> (forall a x evs x', Rel x evs x' -> Q' a x') -> does Rel Q' m q.
Proof.
  intros H HQ. unfold does, wp in *. destruct H as (evs & Hr & Hrel & _).
  exists evs. split_and!; [done|done|]. by eapply HQ.
Qed.

Lemma does_wp {A} Rel (Q : A -> T -> Prop) (Q' : A -> T * world Env -> Prop) (m : M (T * world Env) A) q :
  does Rel Q m q -> (forall a q' evs, ran q evs q' -> Rel q.1 evs q'.1 -> Q a q'.1 -> Q' a q') -> wp m Q' q.
Proof. intros (evs & Hr & H & Ha) HQ. by eapply HQ. Qed.

(** The relation itself is known afterwards. *)
Lemma does_keep {A} Rel (Q : A -> T -> Prop) (m : M (T * world Env) A) q :
  does Rel Q m q -> does Rel (fun a t => Q a t /\ exists evs, Rel q.1 evs t) m q.
Proof. intros (evs & Hr & H & Ha). exists evs. split_and!; eauto. Qed.

Lemma does_get {A B} Rel (f : T -> A) (Q : B -> T -> Prop) (k : A -> M (T * world Env) B) q :
  does Rel Q (k (f q.1)) q -> does Rel Q (bind (get f) k) q.
Proof. intros H. by apply wp_bind, wp_get. Qed.

Lemma does_put Rel (f : T -> T) (Q : unit -> T -> Prop) q :
  Rel q.1 [] (f q.1) -> Q tt (f q.1) -> does Rel Q (put f) q.
Proof.
  intros H1 H2. apply wp_put. exists []. destruct q. split_and!; [apply ran_nil|done|done].
Qed.

Lemma does_sys Rel c (Q : ret_of c -> T -> Prop) q :
  (forall r, call_ok c r -> Rel q.1 [Event c r] q.1 /\ Q r q.1) -> does Rel Q (sys c) q.
Proof.
  intros H. destruct q as [a w]. apply wp_sys_pair. intros r e Hr.
  destruct (H r Hr). exists [Event c r]. by split_and!; [ran_done|..].
Qed.

Section Composition.
Context {Dom : T -> Prop} {Rel : T -> list event -> T -> Prop} {TO : TraceOrder Dom Rel}.

Lemma does_ret {A} (a : A) (Q : A -> T -> Prop) q : Dom q.1 -> Q a q.1 -> does Rel Q (ret a) q.
Proof.
  intros Hd H. apply wp_ret. exists []. destruct q.
  split_and!; [apply ran_nil|by apply trace_refl|done].
Qed.

Lemma does_bind {A B} (Q1 : A -> T -> Prop) (Q2 : B -> T -> Prop) m (k : A -> M (T * world Env) B) q :
  does Rel Q1 m q -> (forall a q', Dom q'.1 -> Q1 a q'.1 -> does Rel Q2 (k a) q') ->
  does Rel Q2 (bind m k) q.
Proof.
  intros Hm Hk. unfold does, wp, bind in *. destruct (m q) as [a q1]. cbn [fst snd] in *.
  destruct Hm as (e1 & R1 & H1 & Ha). specialize (Hk a q1 (trace_dom _ _ _ H1) Ha).
  destruct (k a q1) as [b q2]. destruct Hk as (e2 & R2 & H2 & Hb).
  exists (e1 ++ e2). split_and!; [by eapply ran_app|by eapply trace_trans|done].
Qed.

(** Continue after a stretch that was executed step by step. *)
Lemma does_from {A} (Q : A -> T -> Prop) (m : M (T * world Env) A) q q1 e1 :
  ran q e1 q1 -> Rel q.1 e1 q1.1 -> does Rel Q m q1 ->
  wp m (fun a q' => exists evs, ran q evs q' /\ Rel q.1 evs q'.1 /\ Q a q'.1) q1.
Proof.
  intros Hr H1 Hm. unfold does, wp in *. destruct Hm as (e2 & R2 & H2 & Ha).
  exists (e1 ++ e2). split_and!; [by eapply ran_app|by eapply trace_trans|done].
Qed.

(** Sequencing when the second part needs nothing from the first. *)
Lemma does_then {A B} m (k : A -> M (T * world Env) B) q :
  does Rel anything m q -> (forall a q', Dom q'.1 -> does Rel anything (k a) q') ->
  does Rel anything (bind m k) q.
Proof. intros Hm Hk. eapply does_bind; [exact Hm|]. intros a q' Hd _. by apply Hk. Qed.

Lemma does_when (b : bool) m q :
  Dom q.1 -> (b = true -> does Rel anything m q) -> does Rel anything (when b m) q.
Proof. destruct b; intros Hd H; [by apply H|by apply does_ret]. Qed.

Lemma does_loop n (body : M (T * world Env) bool) :
  (forall q, Dom q.1 -> does Rel anything body q) ->
  forall q, Dom q.1 -> does Rel anything (loop n body) q.
Proof.
  intros Hb. induction n as [|n IH]; intros q Hd; [by apply does_ret|].
  eapply does_then; [by apply Hb|]. intros [|] q' Hd'; [by apply IH|by apply does_ret].
Qed.

Lemma does_for_each {A} (l : list A) (body : A -> M (T * world Env) unit) :
  (forall x q, x ∈ l -> Dom q.1 -> does Rel anything (body x) q) ->
  forall q, Dom q.1 -> does Rel anything (for_each l body) q.
Proof.
  induction l as [|x l IH]; intros Hb q Hd; [by apply does_ret|].
  eapply does_then; [apply Hb; [left|done]|]. intros u q' Hd'. apply IH; [|done].
  intros y q1 Hy. apply Hb. by right.
Qed.

End Composition.
End Does.

(** ** The lock discipline as an interface

    What a client's relation must promise for [lock] ... [unlock] to be used
    under it: [Rel h] relates runs that start and end with the mutex in state
    [h].  A run under the mutex, bracketed by taking and giving it, is a run
    with the mutex free; a refused attempt changes nothing. *)
Class LockDiscipline {T : Type} (Dom : T -> Prop) (Rel : bool -> T -> list event -> T -> Prop) := {
  discipline_order :: forall h, TraceOrder Dom (Rel h);
  discipline_refused : forall x t, Dom x -> Rel false x [Event (SemTake SessionMutex t) false] x;
  discipline_bracket : forall x evs x' t r, Dom x -> Rel true x evs x' ->
    Rel false x ([Event (SemTake SessionMutex t) true] ++ evs ++ [Event (SemGive SessionMutex) r]) x';
}.

Section Locked.
Context {Env T : Type} {P : Platform Env} {Dom : T -> Prop} {Rel : bool -> T -> list event -> T -> Prop}.
Context {LD : LockDiscipline Dom Rel}.
Implicit Types q : T * world Env.

Lemma does_locked mx ticks (Post : T -> Prop) (body tail rest : M (T * world Env) unit) q :
  Dom q.1 ->
  (forall q', q'.1 = q.1 -> does (Rel true) (fun _ x => Post x) body q') ->
  (forall q', Post q'.1 -> tail q' = (unlock mx;; rest) q') ->
  (forall q', Dom q'.1 -> Post q'.1 -> does (Rel false) anything rest q') ->
  does (Rel false) anything (ok <- lock mx ticks;; when ok (body;; tail)) q.
Proof.
  intros Hd Hbody Htail Hrest. unfold lock. destruct mx; cbn [negb].
  2:{ apply wp_bind, wp_ret. exact (does_ret tt anything q Hd I). }
  destruct q as [x w]. set (ticks' := if ticks =? 0 then 1 else ticks).
  apply wp_bind, (wp_sys_pair (SemTake SessionMutex ticks')). intros ok e _. cbn [ret_of] in ok.
  set (w1 := log _ _ _ _). destruct ok; cbn [when].
  2:{ apply wp_ret. eexists. split_and!; [ran_done|by apply discipline_refused|done]. }
  specialize (Hbody (x, w1) eq_refl). unfold does, wp in Hbody.
  apply wp_bind. unfold wp at 1. destruct (body (x, w1)) as [u [x2 w2]]. cbn [fst snd] in *.
  destruct Hbody as (evs & R1 & C1 & Hp). unfold wp. rewrite (Htail (x2, w2) Hp).
  unfold unlock. cbn [when]. apply wp_bind, (wp_sys_pair (SemGive SessionMutex)). intros r e2 _.
  eapply (does_from anything _ (x, w) _
    ([Event (SemTake SessionMutex ticks') true] ++ evs ++ [Event (SemGive SessionMutex) r])).
  - eapply ran_app; [|eapply ran_app; [exact R1|ran_done]]. ran_done.
  - by apply discipline_bracket.
  - apply Hrest; [|done]. by eapply trace_dom.
Qed.

End Locked.
