(* ===== verification/Transport.v ===== *)
(** * ssh_transport.h, ssh_transport.cpp: the data pump

    [TransportPump] moves bytes between SSH channels and local sockets in four
    phases per call of [pumpAll].  Each phase visits the slots of the channel
    manager; what it does to one slot is a program on a [Cell]: that slot
    together with the pump's running byte count and the phase's
    [anyReadDone] flag.  [on_cell] runs such a program in place.

    [txBuf_] and [rxBuf_] are the same allocation.  Every use fills the buffer
    before it reads it, and nothing is kept in it across two uses, so its
    contents appear as the byte list of the call that filled it.  The
    TUNNEL_INSTRUMENT and TUNNEL_DIAG_LOG_ONLY variants, which only measure and
    log, are not modelled. *)

From S2P Require Import Prelude Platform Policies Prepend Ring Breaker Config Net Channel Lock.

(** ** Data *)

Definition MAX_CLOSE_EVENTS : Z := 32.
Definition BACKPRESSURE_HIGH_PCT : Z := 75.
Definition BACKPRESSURE_LOW_PCT : Z := 25.
Definition MAX_WRITE_PER_CHANNEL : Z := 16384.
Definition DRAIN_TIMEOUT_MS : Z := 15000.
Definition HARD_ABANDON_TIMEOUT_MS : Z := 30000.
Definition HALF_CLOSE_TIMEOUT_MS : Z := 5000.
Definition EAGAIN_STALL_TIMEOUT_MS : Z := 3000.
Definition LOCAL_SEND_STALL_TIMEOUT_MS : Z := 8000.
Definition EOF_GRACE_MS : Z := 200.

Record CloseEvent := mkCloseEvent { ce_slot : Z; ce_reason : ChannelCloseReason }.

(** Pointers are modelled by whether they are null. *)
Record TransportPump := mkTransportPump {
  session_ : bool;
  channels_ : bool;
  rxBuf_ : bool;
  txBuf_ : bool;
  bufSize_ : Z;
  channelTimeoutMs_ : Z;
  roundRobinOffset_ : Z;
  lastBytesMoved_ : Z;
  pendingCloseEvents_ : list CloseEvent;   (* its length is pendingCloseCount_ *)
  sessionDegraded_ : bool;
}.
#[export] Instance TransportPump_eta : Eta TransportPump := fun p =>
  mkTransportPump (session_ p) (channels_ p) (rxBuf_ p) (txBuf_ p) (bufSize_ p)
    (channelTimeoutMs_ p) (roundRobinOffset_ p) (lastBytesMoved_ p) (pendingCloseEvents_ p)
    (sessionDegraded_ p).

Definition new_pump : TransportPump :=
  mkTransportPump false false false false 0 30000 0 0 [] false.

(** The pump with the objects it points to: the channel manager, and whether
    the session's mutex exists; [anyReadDone] is local to phase 1. *)
Record Pump (R : Type) := mkPump {
  pump : TransportPump;
  manager : ChannelManager R;
  mutex : bool;
  anyReadDone : bool;
}.
Arguments mkPump {R}.
Arguments pump {R} _.
Arguments manager {R} _.
Arguments mutex {R} _.
Arguments anyReadDone {R} _.
#[export] Instance Pump_eta R : Eta (Pump R) := fun p =>
  mkPump (pump p) (manager p) (mutex p) (anyReadDone p).

Record Cell (R : Type) := mkCell { slot : ChannelSlot R; moved : Z; anyRead : bool }.
Arguments mkCell {R}.
Arguments slot {R} _.
Arguments moved {R} _.
Arguments anyRead {R} _.
#[export] Instance Cell_eta R : Eta (Cell R) := fun x =>
  mkCell (slot x) (moved x) (anyRead x).

Section Pumping.
Context {R : Type} {BR : ByteRing R} {Env : Type} {P : Platform Env} {T : Target}.
Abbreviation XM A := (M (Cell R * world Env) A).
Abbreviation PM A := (M (Pump R * world Env) A).
Abbreviation slot_t := (ChannelSlot R).
Abbreviation ring_t := (DataRingBuffer R).

Definition cell_of (i : Z) (p : Pump R) : Cell R :=
  mkCell (getSlot i (manager p)) (lastBytesMoved_ (pump p)) (anyReadDone p).
Definition put_cell (i : Z) (x : Cell R) (p : Pump R) : Pump R :=
  p <| manager := setSlot i (slot x) (manager p) |>
    <| pump := (pump p) <| lastBytesMoved_ := moved x |> |> <| anyReadDone := anyRead x |>.
Definition on_cell {A} (i : Z) (m : XM A) : PM A := focus (cell_of i) (put_cell i) m.
Definition on_manager {A} (m : M (ChannelManager R * world Env) A) : PM A :=
  focus manager (fun c p => p <| manager := c |>) m.

(** Assignments to the slot, [lastBytesMoved_ += n], [channels_->beginClose]. *)
Definition assign (f : slot_t -> slot_t) : XM unit := put (fun x => x <| slot := f (slot x) |>).
Definition add_moved (n : Z) : XM unit := put (fun x => x <| moved := u32 (moved x + n) |>).
Definition mark_read : XM unit := put (fun x => x <| anyRead := true |>).
Definition begin_close (reason : ChannelCloseReason) : XM unit :=
  focus slot (fun s x => x <| slot := s |>) (slot_beginClose reason).

(** [consecutiveErrors++], then close an open channel that has had more than
    three in a row. *)
Definition count_error : XM unit :=
  assign (fun s => s <| consecutiveErrors := s32 (consecutiveErrors s + 1) |>);;
  s <- get slot;;
  when ((3 <? consecutiveErrors s) && bool_decide (state s = Open)) (begin_close Error).

Definition percent (cap pct : Z) : Z := u32 (cap * pct) / 100.

(** ** restoreUnsent, accountRestoreDrop *)

Definition restoreUnsent (buffer : ring_t) (data : list byte) : Z * ring_t :=
  if zlen data =? 0 then (0, buffer) else
  let '(restored, buffer1) := writeToFront data buffer in
  if restored =? zlen data then (restored, buffer1) else Ring.write data buffer1.

Definition accountRestoreDrop (expected restored : Z) (s : slot_t) : slot_t :=
  if expected <=? restored then s
  else s <| totalBytesDropped := u32 (totalBytesDropped s + u32 (expected - restored)) |>.

(** Put unsent bytes back into the ring they came from. *)
Definition restore_local (data : list byte) (s : slot_t) : slot_t :=
  match toLocal s with
  | None => accountRestoreDrop (zlen data) 0 s
  | Some b => let '(n, b') := restoreUnsent b data in
              accountRestoreDrop (zlen data) n (s <| toLocal := Some b' |>)
  end.
Definition restore_remote (data : list byte) (s : slot_t) : slot_t :=
  match toRemote s with
  | None => accountRestoreDrop (zlen data) 0 s
  | Some b => let '(n, b') := restoreUnsent b data in
              accountRestoreDrop (zlen data) n (s <| toRemote := Some b' |>)
  end.

(** ** Phase 1: SSH -> toLocal *)

(** Bytes [rxBuf_[0..rc)] arrived from the channel. *)
Definition store_rx (rc : Z) (bs : list byte) (s : slot_t) : Z * slot_t :=
  match toLocal s with
  | None => (0, s)
  | Some b =>
      let '(written, b') := Ring.write bs b in
      (written, s <| toLocal := Some b' |>
        <| totalBytesReceived := u32 (totalBytesReceived s + written) |>
        <| totalBytesDropped := u32 (totalBytesDropped s + u32 (rc - written)) |>)
  end.

Definition note_read (now : Z) (s : slot_t) : slot_t :=
  s <| lastSuccessfulRead := now |> <| lastActivity := now |> <| eagainCount := 0 |>
    <| firstEagainMs := 0 |> <| consecutiveErrors := 0 |>.

Definition accept_rx (rc : Z) (bs : list byte) : XM unit :=
  written <- get (fun x => fst (store_rx rc bs (slot x)));;
  assign (fun s => snd (store_rx rc bs s));;
  add_moved written;;
  now <- millis;;
  assign (note_read now).

(** A paused channel: resume below the low mark, otherwise pump the transport
    with one small read.  Answers whether to go on to the full reads. *)
Definition paused_read (c : chan) : XM bool :=
  s <- get slot;;
  match toLocal s with
  | None => ret false
  | Some b =>
      if Ring.size b <? percent (Ring.capacityBytes b) BACKPRESSURE_LOW_PCT then
        assign (fun s => s <| sshReadPaused := false |>);; ret true
      else if 0 <? Ring.available b then
        let pumpSize := if Ring.available b <? 64 then Ring.available b else 64 in
        let* (rc, bs) := sys (ChannelRead c pumpSize) in
        mark_read;;
        (if 0 <? rc then accept_rx rc bs
         else if rc =? 0 then assign (fun s => s <| remoteEof := true |>)
         else when (negb (rc =? LIBSSH2_ERROR_EAGAIN)) count_error);;
        ret false
      else ret false
  end.

(** One of the up to four reads of a cycle; answers whether to go on. *)
Definition read_chunk (bufSize : Z) (c : chan) : XM bool :=
  s <- get slot;;
  match toLocal s with
  | None => ret false
  | Some b =>
      let freeSpace := Ring.available b in
      if freeSpace =? 0 then assign (fun s => s <| sshReadPaused := true |>);; ret false else
      let readSize := if freeSpace <? bufSize then freeSpace else bufSize in
      let* (rc, bs) := sys (ChannelRead c readSize) in
      mark_read;;
      if 0 <? rc then
        accept_rx rc bs;;
        s <- get slot;;
        let high := match toLocal s with
          | Some b => percent (Ring.capacityBytes b) BACKPRESSURE_HIGH_PCT <? Ring.size b
          | None => false end in
        if high then assign (fun s => s <| sshReadPaused := true |>);; ret false else ret true
      else if rc =? LIBSSH2_ERROR_EAGAIN then ret false
      else if rc =? 0 then assign (fun s => s <| remoteEof := true |>);; ret false
      else count_error;; ret false
  end.

Definition eof_check (c : chan) : XM unit :=
  s <- get slot;;
  when (negb (remoteEof s)) (
    eof <- sys (ChannelEof c);;
    when eof (assign (fun s => s <| remoteEof := true |>))).

(** The loop body of [pumpSshTransport]. *)
Definition pump_slot (bufSize : Z) : XM unit :=
  s <- get slot;;
  if negb (active s) then ret tt else
  match sshChannel s with
  | None => ret tt
  | Some c =>
      if remoteEof s then _ <- sys (ChannelRead c 64);; mark_read else
      go <- (if sshReadPaused s then paused_read c else ret true);;
      if negb go then ret tt else
      match toLocal s with
      | None => ret tt
      | Some _ =>
          loop 4 (read_chunk bufSize c);;
          eof_check c
      end
  end.

(** [(n + roundRobinOffset_) % maxSlots] for [n = 0, 1, ...]. *)
Definition rr_order (offset maxSlots : Z) : list Z :=
  (fun n => u32 (n + offset) mod maxSlots) <$> seqZ 0 maxSlots.

(** The first channel past its remote EOF gets a one-byte read. *)
Fixpoint pump_fallback (l : list Z) : PM unit :=
  match l with
  | [] => ret tt
  | i :: l' =>
      s <- get (fun p => getSlot i (manager p));;
      match sshChannel s with
      | Some c =>
          if active s && remoteEof s then _ <- sys (ChannelRead c 1);; ret tt
          else pump_fallback l'
      | None => pump_fallback l'
      end
  end.

Definition session_lock (ticks : Z) : PM bool := m <- get mutex;; lock m ticks.
Definition session_unlock : PM unit := m <- get mutex;; unlock m.

(** The part of [pumpSshTransport] that runs under the session lock. *)
Definition pump_channels : PM unit :=
  n <- get (fun p => maxSlots_ (manager p));;
  put (fun p => p <| anyReadDone := false |>);;
  offset <- get (fun p => roundRobinOffset_ (pump p));;
  bufSize <- get (fun p => bufSize_ (pump p));;
  for_each (rr_order offset n) (fun i => on_cell i (pump_slot bufSize));;
  any <- get anyReadDone;;
  when (negb any) (pump_fallback (seqZ 0 n)).

Definition pumpSshTransport : PM unit :=
  ok <- session_lock (pdMS_TO_TICKS 50);;
  when ok (pump_channels;; session_unlock).

(** ** Phase 2: toLocal -> local socket *)

(** One of the up to four sends of a cycle; answers whether to go on. *)
Definition send_chunk (bufSize : Z) : XM bool :=
  s <- get slot;;
  match toLocal s with
  | None => ret false
  | Some b =>
      if Ring.empty b then ret false else
      let available := Ring.size b in
      let toDrain := if available <? bufSize then available else bufSize in
      let '(bs, b1) := Ring.read toDrain b in
      assign (fun s => s <| toLocal := Some b1 |>);;
      if zlen bs =? 0 then ret false else
      let* (sent, err) := sys (Send (localSocket s) bs) in
      if 0 <? sent then
        add_moved sent;;
        now <- millis;;
        assign (fun s => s <| lastActivity := now |> <| firstLocalSendEagainMs := 0 |>);;
        if sent <? zlen bs then assign (restore_local (zdrop sent bs));; ret false
        else ret true
      else if (sent <? 0) && negb (err =? EAGAIN) && negb (err =? EWOULDBLOCK) then
        assign (fun s => s <| totalBytesDropped := u32 (totalBytesDropped s + zlen bs) |>
          <| localEof := true |>);;
        ret false
      else
        assign (restore_local bs);;
        s <- get slot;;
        when (firstLocalSendEagainMs s =? 0) (
          now <- millis;; assign (fun s => s <| firstLocalSendEagainMs := now |>));;
        ret false
  end.

(** Local-send stall detection. *)
Definition send_stall : XM unit :=
  s <- get slot;;
  let pending := match toLocal s with Some b => negb (Ring.empty b) | None => false end in
  when ((0 <? firstLocalSendEagainMs s) && pending) (
    now <- millis;;
    when (LOCAL_SEND_STALL_TIMEOUT_MS <? u32_sub now (firstLocalSendEagainMs s)) (
      when (bool_decide (state s = Open)) (begin_close Error);;
      now' <- millis;;
      assign (fun s => s <| firstLocalSendEagainMs := now' |>))).

Definition drain_slot_local (bufSize : Z) : XM unit :=
  s <- get slot;;
  match toLocal s with
  | Some _ =>
      if active s && (0 <=? localSocket s) then
        loop 4 (send_chunk bufSize);; send_stall
      else ret tt
  | None => ret tt
  end.

Definition drainSshToLocal : PM unit :=
  n <- get (fun p => maxSlots_ (manager p));;
  offset <- get (fun p => roundRobinOffset_ (pump p));;
  bufSize <- get (fun p => bufSize_ (pump p));;
  for_each (rr_order offset n) (fun i => on_cell i (drain_slot_local bufSize)).

(** ** Phase 3: local socket -> toRemote -> SSH *)

Definition note_write (written : Z) (s : slot_t) : slot_t :=
  s <| totalBytesSent := u32 (totalBytesSent s + written) |>.
Definition note_progress (now : Z) (s : slot_t) : slot_t :=
  s <| lastSuccessfulWrite := now |> <| lastActivity := now |> <| eagainCount := 0 |>
    <| firstEagainMs := 0 |> <| consecutiveErrors := 0 |>.

(** One round of the write loop; answers the budget left, 0 for [break]. *)
Definition write_chunk (bufSize budget : Z) (c : chan) : XM Z :=
  s <- get slot;;
  match toRemote s with
  | None => ret 0
  | Some b =>
      if Ring.empty b then ret 0 else
      let chunkSize := if budget <? bufSize then budget else bufSize in
      let '(bs, b1) := Ring.read chunkSize b in
      assign (fun s => s <| toRemote := Some b1 |>);;
      if zlen bs =? 0 then ret 0 else
      written <- sys (ChannelWrite c bs);;
      if 0 <? written then
        assign (note_write written);;
        add_moved written;;
        now <- millis;;
        assign (note_progress now);;
        if written <? zlen bs then assign (restore_remote (zdrop written bs));; ret 0
        else ret (budget - written)
      else if written =? LIBSSH2_ERROR_EAGAIN then
        assign (fun s => restore_remote bs s);;
        assign (fun s => s <| eagainCount := s32 (eagainCount s + 1) |>);;
        s <- get slot;;
        when (firstEagainMs s =? 0) (
          now <- millis;; assign (fun s => s <| firstEagainMs := now |>));;
        ret 0
      else
        assign (restore_remote bs);;
        count_error;;
        ret 0
  end.

(** [while (budget > 0 && ...)]; every round but the last spends budget. *)
Fixpoint write_rounds (fuel : nat) (bufSize budget : Z) (c : chan) : XM unit :=
  match fuel with
  | O => ret tt
  | Datatypes.S fuel' =>
      if 0 <? budget then
        budget' <- write_chunk bufSize budget c;;
        write_rounds fuel' bufSize budget' c
      else ret tt
  end.

(** SSH-write stall detection. *)
Definition write_stall : XM unit :=
  s <- get slot;;
  when (0 <? firstEagainMs s) (
    now <- millis;;
    when (EAGAIN_STALL_TIMEOUT_MS <? u32_sub now (firstEagainMs s)) (
      when (bool_decide (state s = Open)) (begin_close Error);;
      now' <- millis;;
      assign (fun s => s <| firstEagainMs := now' |>))).

Definition backpressure_check (s : slot_t) : slot_t :=
  match toRemote s with
  | None => s
  | Some b =>
      let used := Ring.size b in
      let cap := Ring.capacityBytes b in
      if localReadPaused s then
        if used <? percent cap BACKPRESSURE_LOW_PCT then s <| localReadPaused := false |> else s
      else if percent cap BACKPRESSURE_HIGH_PCT <? used then s <| localReadPaused := true |>
      else s
  end.

(** One of the up to three receives of a cycle; answers whether to go on. *)
Definition recv_chunk (bufSize : Z) : XM bool :=
  s <- get slot;;
  if localEof s || localReadPaused s then ret false else
  match toRemote s with
  | None => ret false
  | Some b =>
      let freeSpace := Ring.available b in
      if freeSpace =? 0 then assign (fun s => s <| localReadPaused := true |>);; ret false else
      let readSize := if freeSpace <? bufSize then freeSpace else bufSize in
      answer <- sys (Recv (localSocket s) readSize);;
      let '(recvd, err, bs) := answer in
      if 0 <? recvd then
        let '(written, b') := Ring.write bs b in
        assign (fun s => s <| toRemote := Some b' |>
          <| totalBytesDropped := u32 (totalBytesDropped s + u32 (recvd - written)) |>);;
        now <- millis;;
        assign (fun s => s <| lastActivity := now |>);;
        add_moved written;;
        ret true
      else if recvd =? 0 then assign (fun s => s <| localEof := true |>);; ret false
      else if negb (err =? EAGAIN) && negb (err =? EWOULDBLOCK) then
        assign (fun s => s <| localEof := true |>);; ret false
      else ret false
  end.

(** Step A: drain toRemote under the session lock. *)
Definition drain_remote (mx : bool) (bufSize : Z) (c : chan) : XM unit :=
  s <- get slot;;
  let pending := match toRemote s with Some b => negb (Ring.empty b) | None => false end in
  when pending (
    ok <- lock mx (pdMS_TO_TICKS 20);;
    when ok (
      write_rounds (S (Z.to_nat MAX_WRITE_PER_CHANNEL)) bufSize MAX_WRITE_PER_CHANNEL c;;
      unlock mx;;
      write_stall)).

(** Step B: read the local socket. *)
Definition fill_remote (bufSize : Z) : XM unit :=
  s <- get slot;;
  match toRemote s with
  | Some _ =>
      when (negb (localEof s) && negb (localReadPaused s) && (0 <=? localSocket s) &&
            (eofSentMs s =? 0)) (loop 3 (recv_chunk bufSize))
  | None => ret tt
  end.

(** The loop body of [drainLocalToSsh]. *)
Definition drain_slot_remote (mx : bool) (bufSize : Z) : XM unit :=
  s <- get slot;;
  if negb (active s) then ret tt else
  match sshChannel s with
  | None => ret tt
  | Some c =>
      if 0 <? eofSentMs s then ret tt else
      drain_remote mx bufSize c;;
      assign backpressure_check;;
      fill_remote bufSize
  end.

Definition drainLocalToSsh : PM unit :=
  n <- get (fun p => maxSlots_ (manager p));;
  if n =? 0 then ret tt else
  offset <- get (fun p => roundRobinOffset_ (pump p));;
  bufSize <- get (fun p => bufSize_ (pump p));;
  mx <- get mutex;;
  for_each (rr_order offset n) (fun i => on_cell i (drain_slot_remote mx bufSize));;
  put (fun p => p <| pump := (pump p) <| roundRobinOffset_ := u32 (roundRobinOffset_ (pump p) + 1) |> |>).

(** ** Phase 4: close transitions *)

(** Step 1 on one slot. *)
Definition open_step (now timeoutMs : Z) : XM unit :=
  s <- get slot;;
  if negb (active s) || negb (bool_decide (state s = Open)) then ret tt
  else if remoteEof s && localEof s then begin_close RemoteClosed
  else if localEof s && negb (remoteEof s) && ring_drained (toRemote s) then begin_close LocalClosed
  else if 5 <? consecutiveErrors s then begin_close Error
  else
    when (remoteEof s && negb (localShutdownSent s) && (0 <=? localSocket s) &&
          ring_drained (toRemote s)) (
      _ <- sys (ShutdownWr (localSocket s));;
      assign (fun s => s <| localShutdownSent := true |>));;
    if remoteEof s && negb (localEof s) && (0 <? lastActivity s) &&
       (HALF_CLOSE_TIMEOUT_MS <? u32_sub now (lastActivity s)) && ring_drained (toRemote s)
    then begin_close RemoteClosed
    else if Timeout.expired now (lastActivity s) timeoutMs then begin_close CloseTimeout
    else ret tt.

(** What step 2 decides for a draining slot. *)
Inductive verdict := Wait | SendEof | CloseNow | HardAbandon.

Definition drain_verdict (now : Z) (s : slot_t) : verdict :=
  let ringsEmpty := ring_drained (toLocal s) && ring_drained (toRemote s) in
  let age := u32_sub now (closeStartMs s) in
  if HARD_ABANDON_TIMEOUT_MS <? age then HardAbandon
  else if DRAIN_TIMEOUT_MS <? age then CloseNow
  else if 3 <? consecutiveErrors s then CloseNow
  else if ringsEmpty then
    if eofSentMs s =? 0 then SendEof
    else if EOF_GRACE_MS <=? u32_sub now (eofSentMs s) then CloseNow
    else Wait
  else Wait.

Definition push_bounded (arrSize i : Z) (l : list Z) : list Z :=
  if zlen l <? arrSize then l ++ [i] else l.

Definition push_event (i : Z) (reason : ChannelCloseReason) : PM unit :=
  put (fun p => p <| pump := (pump p) <| pendingCloseEvents_ :=
    if zlen (pendingCloseEvents_ (pump p)) <? MAX_CLOSE_EVENTS
    then pendingCloseEvents_ (pump p) ++ [mkCloseEvent i reason]
    else pendingCloseEvents_ (pump p) |> |>).

Definition hard_abandon (i : Z) : PM unit :=
  reason <- get (fun p => closeReason (getSlot i (manager p)));;
  on_manager (abandonSlot i reason);;
  put (fun p => p <| pump := (pump p) <| sessionDegraded_ := true |> |>);;
  push_event i reason.

(** Step 2: abandon what is stuck, collect what is due an EOF or a close. *)
Fixpoint drain_scan (now arrSize : Z) (l : list Z) (toSendEof toClose : list Z)
  : PM (list Z * list Z) :=
  match l with
  | [] => ret (toSendEof, toClose)
  | i :: l' =>
      s <- get (fun p => getSlot i (manager p));;
      if negb (active s) || negb (bool_decide (state s = Draining)) then
        drain_scan now arrSize l' toSendEof toClose
      else
        match drain_verdict now s with
        | HardAbandon => hard_abandon i;; drain_scan now arrSize l' toSendEof toClose
        | CloseNow => drain_scan now arrSize l' toSendEof (push_bounded arrSize i toClose)
        | SendEof => drain_scan now arrSize l' (push_bounded arrSize i toSendEof) toClose
        | Wait => drain_scan now arrSize l' toSendEof toClose
        end
  end.

(** Step 2a: one of the up to four reads that flush the transport. *)
Definition eof_pump (c : chan) : XM bool :=
  let* (pr, bs) := sys (ChannelRead c 512) in
  s <- get slot;;
  (match toLocal s with
   | Some b => when (0 <? pr) (assign (fun s => s <| toLocal := Some (snd (Ring.write bs b)) |>))
   | None => ret tt
   end);;
  ret (negb ((pr =? LIBSSH2_ERROR_EAGAIN) || (pr <=? 0))).

Definition send_eof_slot : XM unit :=
  s <- get slot;;
  match sshChannel s with
  | None => ret tt
  | Some c =>
      rc <- sys (ChannelSendEof c);;
      if rc =? LIBSSH2_ERROR_EAGAIN then ret tt else
      loop 4 (eof_pump c);;
      now <- millis;;
      assign (fun s => s <| eofSentMs := now |>)
  end.

(** Step 2b: finalise one slot and record the event. *)
Definition finalize_slot (i : Z) : PM unit :=
  reason <- get (fun p => closeReason (getSlot i (manager p)));;
  ok <- on_manager (finalizeClose i);;
  when ok (push_event i reason).

Definition checkCloses : PM unit :=
  n <- get (fun p => maxSlots_ (manager p));;
  now <- millis;;
  timeoutMs <- get (fun p => channelTimeoutMs_ (pump p));;
  for_each (seqZ 0 n) (fun i => on_cell i (open_step now timeoutMs));;
  now <- millis;;
  let arrSize := if n <? 32 then n else 32 in
  let* (toSendEof, toClose) := drain_scan now arrSize (seqZ 0 n) [] [] in
  when (0 <? zlen toSendEof) (
    ok <- session_lock (pdMS_TO_TICKS 100);;
    when ok (for_each toSendEof (fun i => on_cell i send_eof_slot);; session_unlock));;
  when (0 <? zlen toClose) (
    ok <- session_lock (pdMS_TO_TICKS 200);;
    when ok (for_each toClose finalize_slot;; session_unlock)).

(** ** The interface of the class *)

Definition init (bufferSize timeoutMs : Z) : PM bool :=
  put (fun p => p <| pump := (pump p) <| bufSize_ := bufferSize |> <| channelTimeoutMs_ := timeoutMs |> |>);;
  ok <- sys (Malloc bufferSize);;
  put (fun p => p <| pump := (pump p) <| rxBuf_ := ok |> <| txBuf_ := ok |> |>);;
  ret ok.

Definition attach (session channels : bool) : PM unit :=
  put (fun p => p <| pump := (pump p) <| session_ := session |> <| channels_ := channels |> |>).

Definition pumpAll : PM bool :=
  t <- get pump;;
  if negb (session_ t) || negb (channels_ t) || negb (rxBuf_ t) || negb (txBuf_ t) then ret false else
  put (fun p => p <| pump := (pump p) <| lastBytesMoved_ := 0 |> |>);;
  pumpSshTransport;;
  drainSshToLocal;;
  drainLocalToSsh;;
  checkCloses;;
  moved <- get (fun p => lastBytesMoved_ (pump p));;
  ret (0 <? moved).

Definition hasAnyBackpressure (p : Pump R) : bool :=
  channels_ (pump p) &&
  existsb (fun i => let s := getSlot i (manager p) in
    active s && (localReadPaused s || sshReadPaused s)) (seqZ 0 (maxSlots_ (manager p))).

(** The events handed out, and their number. *)
Definition consumeCloseEvents (maxEvents : Z) (t : TransportPump)
  : (list CloseEvent * Z) * TransportPump :=
  let pending := pendingCloseEvents_ t in
  let count := if zlen pending <? maxEvents then zlen pending else maxEvents in
  ((ztake count pending, count), t <| pendingCloseEvents_ := [] |>).

Definition sessionDegraded (t : TransportPump) : bool := sessionDegraded_ t.
Definition clearSessionDegraded (t : TransportPump) : TransportPump := t <| sessionDegraded_ := false |>.

End Pumping.
