(* ===== verification/Flow.v ===== *)
(** * What the pump may do to one slot

    The relation [srel] between a slot, the calls a run made and the slot
    afterwards, and the proof that every part of the four phases of
    Transport.v performs it.  [payload], [local_taken] and [local_lost] observe
    a trace; [crel] adds the lock discipline and restricts the calls to the
    slot's own channel and socket; one lemma per part of a phase follows.
    Cycle.v lifts the relation to whole pump cycles. *)

From S2P Require Import Prelude Platform Policies Prepend Ring Breaker Config Net Channel Lock Transport.

(** ** What a run does to one slot *)

(** The bytes a reader takes from channel [c]: reads after the end of the
    stream (a read that answered zero, or the EOF flag) are ignored. *)
Definition rx_step (c : chan) (eof : bool) (ev : event) : list byte * bool :=
  match ev with
  | Event cl r =>
      match cl return ret_of cl -> list byte * bool with
      | ChannelRead c' _ => fun '(rc, bs) =>
          if (c' =? c) && negb eof then
            if 0 <? rc then (bs, false) else ([], rc =? 0)
          else ([], eof)
      | ChannelEof c' => fun b => ([], eof || ((c' =? c) && b))
      | _ => fun _ => ([], eof)
      end r
  end.

Fixpoint payload (c : chan) (eof : bool) (evs : list event) : list byte :=
  match evs with
  | [] => []
  | ev :: evs' => fst (rx_step c eof ev) ++ payload c (snd (rx_step c eof ev)) evs'
  end.

Fixpoint eof_after (c : chan) (eof : bool) (evs : list event) : bool :=
  match evs with
  | [] => eof
  | ev :: evs' => eof_after c (snd (rx_step c eof ev)) evs'
  end.

Section Observations.
Context {T : Target}.

(** Bytes handed to [send] and lost because it failed for good. *)
Definition ev_lost (fd : Z) (ev : event) : list byte :=
  match ev with
  | Event cl r =>
      match cl return ret_of cl -> list byte with
      | Send fd' bs => fun '(rc, err) =>
          if (fd' =? fd) && (rc <? 0) && negb (err =? EAGAIN) && negb (err =? EWOULDBLOCK)
          then bs else []
      | _ => fun _ => []
      end r
  end.

(** Bytes a [send] on [fd] consumed: accepted or lost. *)
Definition local_lost (fd : Z) (evs : list event) : list byte := evs ≫= ev_lost fd.
Definition local_taken (fd : Z) (evs : list event) : list byte :=
  evs ≫= (fun ev => ev_local_out fd ev ++ ev_lost fd ev).

(** No EOF has been put on the channel by these calls. *)
Definition ev_eof_sent (c : chan) (ev : event) : bool :=
  match ev with
  | Event cl r =>
      match cl return ret_of cl -> bool with
      | ChannelSendEof c' => fun rc => (c' =? c) && negb (rc =? LIBSSH2_ERROR_EAGAIN)
      | _ => fun _ => false
      end r
  end.
Definition eof_unsent (c : chan) (evs : list event) : Prop :=
  Forall (fun ev => ev_eof_sent c ev = false) evs.

Lemma payload_app c eof l1 l2 :
  payload c eof (l1 ++ l2) = payload c eof l1 ++ payload c (eof_after c eof l1) l2.
Proof. revert eof. induction l1 as [|ev l1 IH]; intros eof; simpl; [done|]. by rewrite IH, app_assoc. Qed.

Lemma eof_after_app c eof l1 l2 : eof_after c eof (l1 ++ l2) = eof_after c (eof_after c eof l1) l2.
Proof. revert eof. induction l1 as [|ev l1 IH]; intros eof; simpl; [done|]. by rewrite IH. Qed.

Lemma local_lost_app fd l1 l2 : local_lost fd (l1 ++ l2) = local_lost fd l1 ++ local_lost fd l2.
Proof. apply bind_app. Qed.
Lemma local_taken_app fd l1 l2 : local_taken fd (l1 ++ l2) = local_taken fd l1 ++ local_taken fd l2.
Proof. apply bind_app. Qed.

(** Calls of the pump on behalf of channel [c] and socket [fd]. *)
Definition data_event (c : chan) (fd : Z) (ev : event) : Prop :=
  match ev_call ev with
  | Millis | SemTake SessionMutex _ | SemGive SessionMutex => True
  | ChannelRead c' _ | ChannelWrite c' _ | ChannelEof c' | ChannelSendEof c' => c' = c
  | Send fd' _ | Recv fd' _ | ShutdownWr fd' => fd' = fd
  | _ => False
  end.

Lemma data_event_about c fd evs :
  Forall (data_event c fd) evs -> Forall (only_about (Some c) fd) evs.
Proof.
  intros H. eapply Forall_impl; [|exact H]. intros [cl r] Hd. unfold only_about, data_event in *.
  destruct cl; simpl in *; try done; subst; auto.
Qed.

Lemma data_event_td c fd st evs :
  Forall (data_event c fd) evs -> st <> TdFreed -> td_run c st evs = Some st.
Proof.
  intros H Hst. induction H as [|[cl r] evs Hd _ IH]; [done|]. cbn [td_run].
  assert (td_step c st (Event cl r) = Some st) as E; [|by rewrite E].
  unfold data_event in Hd. destruct cl; simpl in *; try done; case_bool_decide; by destruct st.
Qed.

(** Calls that concern neither the channel nor the socket say nothing. *)
Definition foreign (c : chan) (fd : Z) (ev : event) : Prop :=
  call_chan (ev_call ev) <> Some c /\ call_fd (ev_call ev) <> Some fd.

Lemma foreign_silent c fd evs :
  Forall (foreign c fd) evs ->
  ssh_out c evs = [] /\ local_in fd evs = [] /\ local_taken fd evs = [] /\ local_lost fd evs = [] /\
  (forall eof, payload c eof evs = [] /\ eof_after c eof evs = eof) /\
  (forall st, td_run c st evs = Some st).
Proof.
  intros H. split_and!.
  6: { intros st. apply td_run_other. eapply Forall_impl; [|exact H]. by intros ev []. }
  5: { induction H as [|[cl r] evs [H1 H2] _ IH]; [done|]. intros eof. cbn [payload eof_after].
       assert (rx_step c eof (Event cl r) = ([], eof)) as ->; [|apply IH].
       destruct cl; try done; simpl in *; try destruct r;
         destruct (Z.eqb_spec c0 c); simpl; rewrite ?orb_false_r; congruence. }
  all: induction H as [|[cl r] evs [H1 H2] _ IH]; [done|].
  all: unfold ssh_out, local_in, local_taken, local_lost in *; rewrite bind_cons, IH.
  all: destruct cl; try done; simpl in *; repeat match goal with r : _ * _ |- _ => destruct r end;
    match goal with |- context [?x =? ?y] => destruct (Z.eqb_spec x y) end; done || congruence.
Qed.

End Observations.

(** ** The slot relation

    What any part of a pump cycle may do to an active slot with channel [c] and
    socket [fd], given the calls it made: both byte streams flow in order and
    without loss, the statistics count exactly those bytes, the state only
    moves forward, the channel stays within its teardown protocol. *)
Section SlotRelation.
Context {R : Type} {BR : ByteRing R} {BL : ByteRingLaws R} {T : Target}.
Implicit Types s : ChannelSlot R.

Definition bytes_of (r : option (DataRingBuffer R)) : list byte :=
  match r with Some b => Ring.content b | None => [] end.

Record ready (c : chan) (fd : Z) s : Prop := {
  rd_active : active s = true;
  rd_chan : sshChannel s = Some c;
  rd_sock : localSocket s = fd;
  rd_inv : slot_active_inv s;
}.

Record srel (c : chan) (fd : Z) s (evs : list event) s' : Prop := {
  sr_ready : ready c fd s';
  sr_state : state s' = state s \/ (state s = Open /\ state s' = Draining);
  sr_leof : localEof s = true -> localEof s' = true;
  sr_reof : remoteEof s = true -> remoteEof s' = true;
  sr_td : td_run c (td_of s) evs = Some (td_of s');
  sr_out : bytes_of (toRemote s) ++ local_in fd evs = ssh_out c evs ++ bytes_of (toRemote s');
  sr_sent : u32 (totalBytesSent s') = u32 (totalBytesSent s + zlen (ssh_out c evs));
  sr_in : eof_unsent c evs ->
    bytes_of (toLocal s) ++ payload c (remoteEof s) evs =
      local_taken fd evs ++ bytes_of (toLocal s') /\
    remoteEof s' = eof_after c (remoteEof s) evs /\
    u32 (totalBytesReceived s') =
      u32 (totalBytesReceived s + zlen (payload c (remoteEof s) evs)) /\
    u32 (totalBytesDropped s') = u32 (totalBytesDropped s + zlen (local_lost fd evs));
}.

Lemma u32_chain a b x y z : u32 b = u32 (a + x) -> u32 z = u32 (b + y) -> u32 z = u32 (a + (x + y)).
Proof. intros H1 ->. by rewrite <- u32_add_l, H1, u32_add_l, Z.add_assoc. Qed.

Lemma srel_refl c fd s : ready c fd s -> srel c fd s [] s.
Proof.
  intros Hr. split; try done; simpl; rewrite ?app_nil_r, ?Z.add_0_r; auto.
Qed.

Lemma srel_trans c fd s1 s2 s3 e1 e2 :
  srel c fd s1 e1 s2 -> srel c fd s2 e2 s3 -> srel c fd s1 (e1 ++ e2) s3.
Proof.
  intros [R1 S1 L1 E1 T1 O1 N1 I1] [R2 S2 L2 E2 T2 O2 N2 I2]. split; auto.
  - intuition congruence.
  - by rewrite td_run_app, T1.
  - by rewrite local_in_app, ssh_out_app, app_assoc, O1, <- app_assoc, O2, app_assoc.
  - rewrite ssh_out_app, length_app, Nat2Z.inj_add. by eapply u32_chain.
  - intros [He1 He2]%Forall_app. destruct (I1 He1) as (F1 & G1 & A1 & D1).
    destruct (I2 He2) as (F2 & G2 & A2 & D2).
    rewrite payload_app, eof_after_app, local_taken_app, local_lost_app, <- G1.
    rewrite !length_app, !Nat2Z.inj_add. split_and!; [|done|by eapply u32_chain|by eapply u32_chain].
    by rewrite app_assoc, F1, <- app_assoc, F2, app_assoc.
Qed.

(** The fields the relation looks at. *)
Definition key s :=
  (active s, sshChannel s, localSocket s, toLocal s, toRemote s,
   (state s, sshCloseProgress s, localEof s, remoteEof s),
   (totalBytesReceived s, totalBytesSent s, totalBytesDropped s)).

Lemma key_eq s s' : key s' = key s ->
  active s' = active s /\ sshChannel s' = sshChannel s /\ localSocket s' = localSocket s /\
  toLocal s' = toLocal s /\ toRemote s' = toRemote s /\ state s' = state s /\
  sshCloseProgress s' = sshCloseProgress s /\ localEof s' = localEof s /\ remoteEof s' = remoteEof s /\
  totalBytesReceived s' = totalBytesReceived s /\ totalBytesSent s' = totalBytesSent s /\
  totalBytesDropped s' = totalBytesDropped s.
Proof. unfold key. intros H. injection H. intros. by split_and!. Qed.

(** Calls that neither move bytes nor signal the end of a stream. *)
Definition control_event (ev : event) : bool :=
  match ev_call ev with
  | Millis | SemTake SessionMutex _ | SemGive SessionMutex | ShutdownWr _ => true
  | _ => false
  end.

Lemma control_silent c fd evs :
  Forall (fun ev => control_event ev = true) evs ->
  ssh_out c evs = [] /\ local_in fd evs = [] /\ local_taken fd evs = [] /\ local_lost fd evs = [] /\
  (forall eof, payload c eof evs = [] /\ eof_after c eof evs = eof) /\
  (forall st, td_run c st evs = Some st).
Proof.
  unfold ssh_out, local_in, local_taken, local_lost.
  intros H. induction H as [|[cl r] evs Hc _ (I1 & I2 & I3 & I4 & I5 & I6)]; [done|].
  rewrite !bind_cons, I1, I2, I3, I4. cbn [payload eof_after td_run].
  unfold control_event in Hc. destruct cl; try done; destruct m || idtac; try done.
Qed.

(** A run that moved no byte and changed no field of interest, except that it
    may have started the close. *)
Lemma srel_silent c fd s evs s' :
  ready c fd s -> key s' = key (s <| state := state s' |>) ->
  state s' = state s \/ (state s = Open /\ state s' = Draining) ->
  Forall (fun ev => control_event ev = true) evs -> srel c fd s evs s'.
Proof.
  intros Hr Hk Hst Hev. destruct (control_silent c fd evs Hev) as (I1 & I2 & I3 & I4 & I5 & I6).
  apply key_eq in Hk. simpl in Hk.
  destruct Hk as (K1 & K2 & K3 & K4 & K5 & _ & K6 & K7 & K8 & K9 & K10 & K11).
  destruct Hr as [R1 R2 R3 [A1 A2 A3 A4 A5 A6]].
  split; rewrite ?I1, ?I2, ?I3, ?I4, ?K4, ?K5, ?K7, ?K8, ?K9, ?K10, ?K11, ?app_nil_r, ?Z.add_0_r; try done.
  - split; [congruence..|]. split; rewrite ?K2, ?K3, ?K4, ?K5, ?K6; try done. intuition congruence.
  - rewrite I6. unfold td_of. by rewrite K2, K6.
  - intros _. destruct (I5 (remoteEof s)) as [-> ->]. rewrite app_nil_r. simpl. by rewrite Z.add_0_r.
Qed.

Lemma srel_key c fd s s' : ready c fd s -> key s' = key s -> srel c fd s [] s'.
Proof.
  intros Hr Hk. pose proof (key_eq _ _ Hk) as (_ & _ & _ & _ & _ & Hs & _).
  apply srel_silent; [done| |by left|constructor]. rewrite Hs, Hk. done.
Qed.

Lemma srel_control c fd s ev : ready c fd s -> control_event ev = true -> srel c fd s [ev] s.
Proof. intros Hr Hc. apply srel_silent; [done|by destruct s|by left|by constructor]. Qed.

(** One call, and what the slot looks like after the bytes have been handled. *)
Lemma srel_one c fd s ev s' :
  ready c fd s -> data_event c fd ev ->
  (active s', sshChannel s', localSocket s', state s', sshCloseProgress s') =
    (active s, sshChannel s, localSocket s, state s, sshCloseProgress s) ->
  ring_ok (toLocal s') -> ring_ok (toRemote s') ->
  (localEof s = true -> localEof s' = true) -> (remoteEof s = true -> remoteEof s' = true) ->
  bytes_of (toRemote s) ++ ev_local_in fd ev = ev_ssh_out c ev ++ bytes_of (toRemote s') ->
  u32 (totalBytesSent s') = u32 (totalBytesSent s + zlen (ev_ssh_out c ev)) ->
  (ev_eof_sent c ev = false ->
     bytes_of (toLocal s) ++ fst (rx_step c (remoteEof s) ev) =
       (ev_local_out fd ev ++ ev_lost fd ev) ++ bytes_of (toLocal s') /\
     remoteEof s' = snd (rx_step c (remoteEof s) ev) /\
     u32 (totalBytesReceived s') =
       u32 (totalBytesReceived s + zlen (fst (rx_step c (remoteEof s) ev))) /\
     u32 (totalBytesDropped s') = u32 (totalBytesDropped s + zlen (ev_lost fd ev))) ->
  srel c fd s [ev] s'.
Proof.
  intros [R1 R2 R3 [A1 A2 A3 A4 A5 A6]] Hd Hf Hl Hr HL HE Ho Hs Hi. simplify_eq Hf.
  intros F1 F2 F3 F4 F5.
  unfold ssh_out, local_in, local_taken, local_lost. split; try done; simpl; rewrite ?app_nil_r; auto.
  - split; [congruence..|]. split; rewrite ?F2, ?F3, ?F4, ?F5; done.
  - assert (td_of s' = td_of s) as -> by (unfold td_of; by rewrite F2, F5).
    pose proof (data_event_td c fd (td_of s) [ev]) as Ht. simpl in Ht. rewrite Ht; [done|by constructor|].
    unfold td_of. rewrite R2. by destruct (CloseProgress.closeComplete _).
  - intros He. apply Forall_cons_iff in He as [He _]. by apply Hi.
Qed.

(** Control calls and assignments to other fields may follow. *)
Lemma srel_finish c fd s ev s1 evs' s2 :
  srel c fd s [ev] s1 -> key s2 = key s1 -> Forall (fun ev => control_event ev = true) evs' ->
  srel c fd s (ev :: evs') s2.
Proof.
  intros H Hk Hc. change (ev :: evs') with ([ev] ++ evs'). eapply srel_trans; [exact H|]. pose proof (key_eq _ _ Hk) as (_ & _ & _ & _ & _ & Hs & _).
  apply srel_silent; [apply H| |by left|done]. rewrite Hs, Hk. done.
Qed.

(** Another slot's calls leave this one alone. *)
Lemma srel_foreign c fd s evs : ready c fd s -> Forall (foreign c fd) evs -> srel c fd s evs s.
Proof.
  intros Hr Hev. destruct (foreign_silent c fd evs Hev) as (I1 & I2 & I3 & I4 & I5 & I6).
  split; rewrite ?I1, ?I2, ?I3, ?I4, ?app_nil_r, ?Z.add_0_r; auto.
  intros _. destruct (I5 (remoteEof s)) as [-> ->]. rewrite app_nil_r. simpl. by rewrite Z.add_0_r.
Qed.

End SlotRelation.

(** ** Handling one answer *)
Section Handling.
Context {R : Type} {BR : ByteRing R} {BL : ByteRingLaws R} {T : Target}.
Implicit Types s : ChannelSlot R.
Implicit Types b : DataRingBuffer R.

Lemma ring_ok_Some b : Ring.inv b -> ring_ok (Some b).
Proof. intros H. by exists b. Qed.

Lemma ready_toLocal c fd s b : ready c fd s -> toLocal s = Some b -> Ring.inv b.
Proof. intros [_ _ _ []] E. destruct sa_toLocal as (b' & E' & H). by simplify_eq. Qed.
Lemma ready_toRemote c fd s b : ready c fd s -> toRemote s = Some b -> Ring.inv b.
Proof. intros [_ _ _ []] E. destruct sa_toRemote as (b' & E' & H). by simplify_eq. Qed.

(** What was read fits: everything is stored, nothing is counted as dropped. *)
Lemma write_all data b : Ring.inv b -> zlen data <= Ring.available b ->
  exists b', Ring.write data b = (zlen data, b') /\ Ring.inv b' /\
    Ring.content b' = Ring.content b ++ data.
Proof.
  intros Hi Hd. pose proof (available_range b Hi). pose proof Hi as (_ & _ & Hw & _).
  pose proof prepend_capacity_range. pose proof (write_ok data b Hi) as H'.
  destruct (Ring.write data b) as [n b']. destruct H' as (H1 & _ & -> & H2 & _); [lia|].
  exists b'. rewrite Z.min_l by lia. split_and!; [done|done|]. by rewrite H2, ztake_all by lia.
Qed.

(** Unsent bytes go back to where they were, and none is dropped. *)
Lemma restoreUnsent_ok len n b : Ring.inv b -> 0 <= len <= SSH_TUNNEL_PREPEND_CAPACITY ->
  let '(bs, b1) := Ring.read len b in
  0 <= n < zlen bs ->
  exists b2, restoreUnsent b1 (zdrop n bs) = (zlen (zdrop n bs), b2) /\ Ring.inv b2 /\
    Ring.content b = ztake n bs ++ Ring.content b2.
Proof.
  intros Hi Hl. pose proof (read_writeToFront len n b Hi Hl) as H.
  destruct (Ring.read len b) as [bs b1]. intros Hn. specialize (H Hn). unfold restoreUnsent.
  destruct (Z.eqb_spec (zlen (zdrop n bs)) 0); [zlia|].
  destruct (writeToFront _ b1) as [k b2]. destruct H as (-> & H2 & _ & H3).
  rewrite Z.eqb_refl. by exists b2.
Qed.

Lemma srel_rx c fd s b n rc bs :
  ready c fd s -> toLocal s = Some b -> remoteEof s = false ->
  0 < rc -> zlen bs = rc -> rc <= Ring.available b ->
  srel c fd s [Event (ChannelRead c n) (rc, bs)] (snd (store_rx rc bs s)).
Proof.
  intros Hr Hb He Hrc Hbs Hav. pose proof (ready_toLocal _ _ _ _ Hr Hb) as Hi.
  destruct (write_all bs b Hi) as (b' & Hw & Hi' & Hc); [lia|].
  unfold store_rx. rewrite Hb, Hw. cbn [snd].
  apply srel_one; try done; simpl; [by apply ring_ok_Some|apply Hr|by rewrite app_nil_r|
    by rewrite Z.add_0_r|]. intros _. rewrite He, Z.eqb_refl. simpl.
  rewrite (proj2 (Z.ltb_lt 0 rc)) by done. cbn [fst snd]. rewrite Hb, Hc, Hbs. simpl.
  rewrite Z.sub_diag. unfold u32. rewrite ?Z.mod_mod, ?Z.add_0_r by lia. done.
Qed.

Lemma srel_rx_eof c fd s n bs :
  ready c fd s -> remoteEof s = false ->
  srel c fd s [Event (ChannelRead c n) (0, bs)] (s <| remoteEof := true |>).
Proof.
  intros Hr He. apply srel_one; try done; simpl; try apply Hr; rewrite ?app_nil_r, ?Z.add_0_r; try done.
  intros _. rewrite He, Z.eqb_refl. simpl. by rewrite app_nil_r, !Z.add_0_r.
Qed.

Lemma srel_rx_error c fd s n rc bs :
  ready c fd s -> remoteEof s = false -> rc < 0 ->
  srel c fd s [Event (ChannelRead c n) (rc, bs)] s.
Proof.
  intros Hr He Hrc. apply srel_one; try done; simpl; try apply Hr; rewrite ?app_nil_r, ?Z.add_0_r; try done.
  intros _. rewrite He, Z.eqb_refl. simpl. rewrite (proj2 (Z.ltb_ge 0 rc)), (proj2 (Z.eqb_neq rc 0)) by lia.
  simpl. by rewrite app_nil_r, !Z.add_0_r.
Qed.

Lemma srel_rx_discard c fd s n r :
  ready c fd s -> remoteEof s = true -> srel c fd s [Event (ChannelRead c n) r] s.
Proof.
  intros Hr He. destruct r as [rc bs].
  apply srel_one; try done; simpl; try apply Hr; rewrite ?app_nil_r, ?Z.add_0_r; try done.
  intros _. rewrite He, andb_false_r. simpl. by rewrite app_nil_r, !Z.add_0_r.
Qed.

Lemma srel_eof_flag c fd s (b : bool) :
  ready c fd s -> remoteEof s = false ->
  srel c fd s [Event (ChannelEof c) b] (if b then s <| remoteEof := true |> else s).
Proof.
  intros Hr He. destruct b; (apply srel_one; try done; simpl; try apply Hr;
    rewrite ?app_nil_r, ?Z.add_0_r; try done); intros _; rewrite He, ?Z.eqb_refl; simpl;
    by rewrite ?app_nil_r, ?Z.add_0_r.
Qed.

(** A send that accepted a prefix; the ring now starts right after it. *)
Lemma srel_send c fd s b b2 bs rc err :
  ready c fd s -> toLocal s = Some b -> Ring.inv b2 -> 0 <= Z.max 0 rc ->
  (rc < 0 -> err = EAGAIN \/ err = EWOULDBLOCK) ->
  Ring.content b = ztake rc bs ++ Ring.content b2 ->
  srel c fd s [Event (Send fd bs) (rc, err)] (s <| toLocal := Some b2 |>).
Proof.
  intros Hr Hb Hi _ Herr Hc. apply srel_one; try done; simpl; try apply Hr; try by apply ring_ok_Some.
  - by rewrite app_nil_r.
  - by rewrite Z.add_0_r.
  - intros _. rewrite Z.eqb_refl, Hb. cbn [bytes_of]. rewrite Hc, app_nil_r, Z.add_0_r. simpl.
    destruct (Z.ltb_spec rc 0) as [Hn|Hn]; simpl; [|by rewrite app_nil_r, Z.add_0_r].
    destruct (Herr Hn) as [->| ->]; rewrite Z.eqb_refl, ?andb_false_r; simpl; by rewrite app_nil_r, Z.add_0_r.
Qed.

(** A send that failed for good: what had been taken is counted as dropped. *)
Lemma srel_send_failed c fd s b b1 bs rc err :
  ready c fd s -> toLocal s = Some b -> Ring.inv b1 -> rc < 0 ->
  err <> EAGAIN -> err <> EWOULDBLOCK -> Ring.content b = bs ++ Ring.content b1 ->
  srel c fd s [Event (Send fd bs) (rc, err)]
    (s <| toLocal := Some b1 |> <| totalBytesDropped := u32 (totalBytesDropped s + zlen bs) |>
       <| localEof := true |>).
Proof.
  intros Hr Hb Hi Hrc H1 H2 Hc. apply srel_one; try done; simpl; try apply Hr; try by apply ring_ok_Some.
  - by rewrite app_nil_r.
  - by rewrite Z.add_0_r.
  - intros _. rewrite Z.eqb_refl, Hb. cbn [bytes_of]. rewrite Hc, app_nil_r, ztake_nonpos by lia.
    rewrite (proj2 (Z.ltb_lt rc 0)), (proj2 (Z.eqb_neq _ _)), (proj2 (Z.eqb_neq _ _)) by done. simpl.
    rewrite Z.add_0_r. unfold u32. by rewrite Z.mod_mod by lia.
Qed.

(** A channel write that accepted a prefix. *)
Lemma srel_write c fd s b b2 bs rc :
  ready c fd s -> toRemote s = Some b -> Ring.inv b2 ->
  Ring.content b = ztake rc bs ++ Ring.content b2 -> rc <= zlen bs ->
  srel c fd s [Event (ChannelWrite c bs) rc]
    (s <| toRemote := Some b2 |> <| totalBytesSent := u32 (totalBytesSent s + Z.max 0 rc) |>).
Proof.
  intros Hr Hb Hi Hc Hle. apply srel_one; try done; simpl; try apply Hr; try by apply ring_ok_Some.
  - rewrite Z.eqb_refl, Hb. cbn [bytes_of]. by rewrite Hc, app_nil_r.
  - rewrite Z.eqb_refl, zlen_ztake. unfold u32. rewrite Z.mod_mod by lia. f_equal. lia.
  - intros _. by rewrite app_nil_r, !Z.add_0_r.
Qed.

Lemma srel_write_none c fd s b b2 bs rc :
  ready c fd s -> toRemote s = Some b -> Ring.inv b2 -> rc <= 0 ->
  Ring.content b2 = Ring.content b ->
  srel c fd s [Event (ChannelWrite c bs) rc] (s <| toRemote := Some b2 |>).
Proof.
  intros Hr Hb Hi Hrc Hc. apply srel_one; try done; simpl; try apply Hr; try by apply ring_ok_Some.
  - rewrite Z.eqb_refl, Hb. cbn [bytes_of]. by rewrite Hc, ztake_nonpos, app_nil_r.
  - rewrite Z.eqb_refl, ztake_nonpos by lia. simpl. by rewrite Z.add_0_r.
  - intros _. by rewrite app_nil_r, !Z.add_0_r.
Qed.

(** Bytes received from the local socket, all stored. *)
Lemma srel_recv c fd s b b' n rc err bs :
  ready c fd s -> toRemote s = Some b -> Ring.inv b' -> 0 < rc -> zlen bs = rc ->
  Ring.content b' = Ring.content b ++ bs ->
  srel c fd s [Event (Recv fd n) (rc, err, bs)]
    (s <| toRemote := Some b' |> <| totalBytesDropped := u32 (totalBytesDropped s + u32 (rc - rc)) |>).
Proof.
  intros Hr Hb Hi Hrc Hbs Hc. apply srel_one; try done; simpl; try apply Hr; try by apply ring_ok_Some.
  - rewrite Z.eqb_refl, (proj2 (Z.ltb_lt 0 rc)), Hb by done. cbn [bytes_of]. by rewrite Hc.
  - by rewrite Z.add_0_r.
  - intros _. rewrite Z.sub_diag. unfold u32. rewrite app_nil_r, !Z.add_0_r, ?Z.mod_mod by lia. done.
Qed.

Lemma srel_recv_none c fd s n rc err bs (eof : bool) :
  ready c fd s -> rc <= 0 ->
  srel c fd s [Event (Recv fd n) (rc, err, bs)] (if eof then s <| localEof := true |> else s).
Proof.
  intros Hr Hrc. destruct eof; (apply srel_one; try done; simpl; try apply Hr;
    [by rewrite Z.eqb_refl, (proj2 (Z.ltb_ge 0 rc)) by lia; rewrite app_nil_r|by rewrite Z.add_0_r|
     intros _; by rewrite app_nil_r, !Z.add_0_r]).
Qed.

(** A read that only flushes the transport while an EOF is being sent. *)
Lemma srel_send_eof c fd s evs s' :
  ready c fd s -> Forall (data_event c fd) evs -> ~ eof_unsent c evs ->
  ssh_out c evs = [] -> local_in fd evs = [] ->
  (active s', sshChannel s', localSocket s', state s', sshCloseProgress s') =
    (active s, sshChannel s, localSocket s, state s, sshCloseProgress s) ->
  toRemote s' = toRemote s -> ring_ok (toLocal s') -> localEof s' = localEof s ->
  remoteEof s' = remoteEof s -> totalBytesSent s' = totalBytesSent s ->
  srel c fd s evs s'.
Proof.
  intros [R1 R2 R3 [A1 A2 A3 A4 A5 A6]] Hd Hn Ho Hin Hf HR HL HE1 HE2 HS.
  injection Hf as F1 F2 F3 F4 F5.
  split; rewrite ?Ho, ?Hin, ?HR, ?HE1, ?HE2, ?HS, ?app_nil_r, ?Z.add_0_r; auto; try done.
  - split; [congruence..|]. split; rewrite ?F2, ?F3, ?F4, ?F5, ?HR; done.
  - assert (td_of s' = td_of s) as -> by (unfold td_of; by rewrite F2, F5).
    eapply data_event_td; [done|]. unfold td_of. rewrite R2. by destruct (CloseProgress.closeComplete _).
Qed.

End Handling.

(** ** The relation on cells, and the parts of the phases *)
Section CellRelation.
Context {R : Type} {BR : ByteRing R} {BL : ByteRingLaws R} {Env : Type} {P : Platform Env} {T : Target}.
Context (bufSize : Z) (Hbuf : 0 < bufSize <= SSH_TUNNEL_PREPEND_CAPACITY).
Implicit Types x : Cell R.
Implicit Types s : ChannelSlot R.
Implicit Types q : Cell R * world Env.

(** [h]: whether the session mutex is held, before and after. *)
Definition crel (h : bool) (c : chan) (fd : Z) x (evs : list event) x' : Prop :=
  srel c fd (slot x) evs (slot x') /\ Forall (data_event c fd) evs /\ lock_run h evs = Some h.

Definition cell_ready (c : chan) (fd : Z) x : Prop := ready c fd (slot x).

#[export] Instance crel_order h c fd : TraceOrder (cell_ready c fd) (crel h c fd).
Proof.
  split.
  - intros x Hr. split_and!; [by apply srel_refl|constructor|done].
  - intros x1 x2 x3 e1 e2 (S1 & D1 & L1) (S2 & D2 & L2). split_and!.
    + by eapply srel_trans.
    + by apply Forall_app_2.
    + by rewrite lock_run_app, L1.
  - intros x e x' (S & _). apply S.
Qed.

#[export] Instance crel_discipline c fd : LockDiscipline (cell_ready c fd) (fun h => crel h c fd).
Proof.
  split; [apply _| |].
  - intros x t Hr. split_and!; [by apply srel_control|by repeat constructor|done].
  - intros x evs x' t r Hr (S1 & D1 & L1). split_and!.
    + eapply (srel_trans _ _ _ (slot x)); [by apply srel_control|].
      eapply srel_trans; [exact S1|]. by apply srel_control; [apply S1|].
    + repeat apply Forall_app_2; [by repeat constructor|done|by repeat constructor].
    + rewrite lock_run_app. simpl. by rewrite lock_run_app, L1.
Qed.

Section Parts.
Context (h : bool) (c : chan) (fd : Z).
Abbreviation does_cell m q := (does (crel h c fd) anything m q).

Lemma does_assign f q :
  cell_ready c fd q.1 -> key (f (slot q.1)) = key (slot q.1) -> does_cell (assign f) q.
Proof.
  intros Hr Hk. apply does_put; [|done]. split_and!; [by apply srel_key|constructor|done].
Qed.

Lemma does_cell_put f q :
  cell_ready c fd q.1 -> slot (f q.1) = slot q.1 -> does_cell (put f) q.
Proof.
  intros Hr Hk. apply does_put; [|done]. unfold crel. rewrite Hk.
  split_and!; [by apply srel_refl|constructor|done].
Qed.

Lemma does_control {A} cl (k : ret_of cl -> M (Cell R * world Env) A) q :
  cell_ready c fd q.1 -> (forall r, control_event (Event cl r) = true) ->
  (forall r, data_event c fd (Event cl r)) -> (forall r, lock_run h [Event cl r] = Some h) ->
  (forall r q', cell_ready c fd q'.1 -> call_ok cl r -> does_cell (k r) q') ->
  does_cell (bind (sys cl) k) q.
Proof.
  intros Hr Hc Hd Hl Hk.
  apply (does_bind (fun r _ => call_ok cl r)).
  - apply does_sys. intros r Hok. split; [|done]. split_and!; [|by constructor|done].
    apply srel_silent; [done|by destruct (slot q.1)|by left|by constructor].
  - intros r q' Hr' Hok. by apply Hk.
Qed.

Lemma does_millis {A} (k : Z -> M (Cell R * world Env) A) q :
  cell_ready c fd q.1 -> (forall r q', cell_ready c fd q'.1 -> does_cell (k r) q') ->
  does_cell (bind millis k) q.
Proof. intros Hr Hk. apply (does_control Millis); try done. intros r q' Hq' _. by apply Hk. Qed.

Lemma does_begin_close reason q : cell_ready c fd q.1 -> does_cell (begin_close reason) q.
Proof.
  intros Hr. destruct q as [x w]. unfold begin_close, does. apply wp_focus_pair.
  pose proof (slot_beginClose_ok reason (slot x, w)) as H.
  eapply wp_conseq; [exact H|]. intros u [s' w'] H'. cbn [fst snd] in *.
  destruct (closable (slot x)) eqn:Ec.
  - destruct H' as (now & Hn & -> & Ht). exists [Event Millis now]. split_and!; [exact Ht| |done].
    split_and!; [|by repeat constructor|done].
    unfold closable in Ec. apply andb_true_iff in Ec as [_ Eo]. apply bool_decide_eq_true in Eo.
    apply srel_silent; [done|by destruct (slot x)|by right|by constructor].
  - simplify_eq. exists []. split_and!; [apply ran_nil| |done].
    split_and!; [by destruct x; apply srel_refl|constructor|done].
Qed.

Lemma does_count_error q : cell_ready c fd q.1 -> does_cell count_error q.
Proof.
  intros Hr. unfold count_error. eapply does_then; [by apply does_assign|]. intros _ q' Hr'.
  apply does_get, does_when; [done|]. intros _. by apply does_begin_close.
Qed.

(** The stream has not ended if the loop is to go on. *)
Definition still_open (go : bool) x : Prop := go = true -> remoteEof (slot x) = false.

Lemma still_open_stop x : still_open false x.
Proof. by intros ?. Qed.
Lemma still_open_go go x : remoteEof (slot x) = false -> still_open go x.
Proof. by intros ? ?. Qed.
#[local] Hint Resolve still_open_stop still_open_go : core.

(** A read answered; the trace so far relates the start to [x1]. *)
Lemma crel_intro x evs x1 :
  srel c fd (slot x) evs (slot x1) -> Forall (data_event c fd) evs -> lock_run h evs = Some h ->
  crel h c fd x evs x1.
Proof. done. Qed.

Lemma does_accept_rx_eof b n rc bs x1 w q :
  h = true -> cell_ready c fd q.1 -> remoteEof (slot q.1) = false -> toLocal (slot q.1) = Some b ->
  0 < rc -> zlen bs = rc -> rc <= Ring.available b ->
  slot x1 = slot q.1 -> ran q [Event (ChannelRead c n) (rc, bs)] (x1, w) ->
  wp (accept_rx rc bs) (fun _ q' => exists evs, ran q evs q' /\ crel h c fd q.1 evs q'.1 /\
    remoteEof (slot q'.1) = false) (x1, w).
Proof.
  intros Hh Hr He Hb Hrc Hbs Hav Hs Hran. unfold accept_rx, assign, add_moved. wp_go.
  eexists. split; [eapply ran_app; [exact Hran|ran_done]|]. cbn [fst].
  assert (remoteEof (snd (store_rx rc bs (slot q.1))) = remoteEof (slot q.1)) as E.
  { unfold store_rx. rewrite Hb. by destruct (Ring.write bs b). }
  split; [|simpl; by rewrite Hs, E, He].
  apply crel_intro; [|by repeat constructor|by rewrite Hh]. simpl. rewrite Hs.
  eapply srel_finish; [by eapply srel_rx|done|by repeat constructor].
Qed.

Lemma does_paused_read_eof q :
  h = true -> cell_ready c fd q.1 -> remoteEof (slot q.1) = false ->
  does (crel h c fd) still_open (paused_read c) q.
Proof.
  intros Hh Hr He. unfold paused_read. apply does_get. destruct q as [x w]. cbn [fst] in *.
  destruct (toLocal (slot x)) as [b|] eqn:Eb; [|by apply does_ret].
  pose proof (available_range b (ready_toLocal _ _ _ _ Hr Eb)) as Hav.
  destruct (Ring.size b <? _).
  { apply wp_bind, wp_put, wp_ret. exists []. split_and!; [apply ran_nil| |by apply still_open_go].
    apply crel_intro; [by apply srel_key|constructor|done]. }
  destruct (Z.ltb_spec 0 (Ring.available b)); [|by apply does_ret].
  set (n := if Ring.available b <? 64 then Ring.available b else 64).
  assert (0 <= n <= Ring.available b) as Hn by (unfold n; destruct (Z.ltb_spec (Ring.available b) 64); lia).
  apply wp_bind, (wp_sys_pair (ChannelRead c n)). intros [rc bs] e Hok. cbn [call_ok] in Hok.
  destruct Hok as [Hle Hlen]; [lia|]. unfold mark_read. wp_step. wp_step.
  set (x1 := upd _ x). set (w1 := log _ _ _ _).
  assert (ran (x, w) [Event (ChannelRead c n) (rc, bs)] (x1, w1)) as Hran by ran_done.
  destruct (Z.ltb_spec 0 rc).
  { apply wp_bind. eapply wp_conseq; [eapply (does_accept_rx_eof b n rc bs x1 w1 (x, w)); try done; [by apply Hlen|lia]|].
    intros u q' (evs & R1 & C1 & _). apply wp_ret. by exists evs. }
  destruct (Z.eqb_spec rc 0) as [->|].
  { unfold assign. wp_go. eexists. split_and!; [exact Hran| |done]. apply crel_intro; [|by repeat constructor|by rewrite Hh].
    by apply srel_rx_eof. }
  assert (crel h c fd x [Event (ChannelRead c n) (rc, bs)] x1) as C1.
  { apply crel_intro; [|by repeat constructor|by rewrite Hh]. apply srel_rx_error; [done|done|lia]. }
  eapply does_from; [exact Hran|exact C1|].
  eapply does_bind; [|intros; by apply does_ret].
  apply does_when; [by apply C1|]. intros _. apply does_count_error. by apply C1.
Qed.

Lemma does_read_chunk q :
  h = true -> cell_ready c fd q.1 -> remoteEof (slot q.1) = false ->
  does (crel h c fd) still_open (read_chunk bufSize c) q.
Proof.
  intros Hh Hr He. unfold read_chunk. apply does_get. destruct q as [x w]. cbn [fst] in *.
  destruct (toLocal (slot x)) as [b|] eqn:Eb; [|by apply does_ret].
  pose proof (available_range b (ready_toLocal _ _ _ _ Hr Eb)) as Hav.
  destruct (Z.eqb_spec (Ring.available b) 0) as [_|_].
  { eapply does_bind; [by eapply does_any, does_assign|]. intros. by apply does_ret. }
  set (n := if Ring.available b <? bufSize then Ring.available b else bufSize).
  assert (0 <= n <= Ring.available b) as Hn by (unfold n; destruct (Z.ltb_spec (Ring.available b) bufSize); lia).
  apply wp_bind, (wp_sys_pair (ChannelRead c n)). intros [rc bs] e Hok. cbn [call_ok] in Hok.
  destruct Hok as [Hle Hlen]; [lia|]. unfold mark_read. wp_step. wp_step.
  set (x1 := upd _ x). set (w1 := log _ _ _ _).
  assert (ran (x, w) [Event (ChannelRead c n) (rc, bs)] (x1, w1)) as Hran by ran_done.
  destruct (Z.ltb_spec 0 rc).
  { apply wp_bind. eapply wp_conseq;
      [eapply (does_accept_rx_eof b n rc bs x1 w1 (x, w)); try done; [by apply Hlen|lia]|].
    intros u q' (evs & R1 & C1 & He1). eapply does_from; [exact R1|exact C1|].
    apply does_get. destruct (match toLocal _ with Some _ => _ | None => _ end).
    - eapply does_bind; [eapply does_any, does_assign; [apply C1|done]|]. intros. by apply does_ret.
    - apply does_ret; [apply C1|by apply still_open_go]. }
  assert (rc < 0 -> crel h c fd x [Event (ChannelRead c n) (rc, bs)] x1) as C1.
  { intros Hneg. apply crel_intro; [|by repeat constructor|by rewrite Hh]. by apply srel_rx_error. }
  pose proof eagain_negative.
  destruct (Z.eqb_spec rc LIBSSH2_ERROR_EAGAIN) as [->|].
  { apply wp_ret. eexists. split_and!; [exact Hran|by apply C1|done]. }
  destruct (Z.eqb_spec rc 0) as [->|].
  { unfold assign. wp_go. eexists. split_and!; [exact Hran| |done].
    apply crel_intro; [|by repeat constructor|by rewrite Hh]. by apply srel_rx_eof. }
  eapply does_from; [exact Hran|apply C1; lia|].
  eapply does_bind; [by apply does_count_error|]. intros. by apply does_ret.
Qed.

Lemma does_eof_check q : h = true -> cell_ready c fd q.1 -> does_cell (eof_check c) q.
Proof.
  intros Hh Hr. unfold eof_check. apply does_get, does_when; [done|].
  intros He%negb_true_iff. destruct q as [x w]. unfold does, assign. wp_go;
    (eexists; split_and!; [ran_done| |done]; apply crel_intro; [|by repeat constructor|by rewrite Hh]).
  - subst r. by apply (srel_eof_flag c fd (slot x) true).
  - subst r. by apply (srel_eof_flag c fd (slot x) false).
Qed.

Lemma does_read_chunks n q :
  h = true -> cell_ready c fd q.1 -> remoteEof (slot q.1) = false ->
  does_cell (loop n (read_chunk bufSize c)) q.
Proof.
  intros Hh. revert q. induction n as [|n IH]; intros q Hr He; [by apply does_ret|].
  eapply does_bind; [by apply does_read_chunk|]. intros [|] q' Hr' He'; [by apply IH; auto|by apply does_ret].
Qed.

Lemma does_pump_slot q : h = true -> cell_ready c fd q.1 -> does_cell (pump_slot bufSize) q.
Proof.
  intros Hh Hr. unfold pump_slot. apply does_get. rewrite (rd_active _ _ _ Hr), (rd_chan _ _ _ Hr). cbn [negb].
  destruct (remoteEof (slot q.1)) eqn:He.
  { destruct q as [x w]. unfold does, mark_read. wp_go. eexists. split_and!; [ran_done| |done].
    apply crel_intro; [by apply srel_rx_discard|by repeat constructor|by rewrite Hh]. }
  eapply (does_bind still_open).
  { destruct (sshReadPaused _); [by apply does_paused_read_eof|].
    apply does_ret; [done|by apply still_open_go]. }
  intros [|] q' Hr' He'; cbn [negb]; [|by apply does_ret].
  destruct (toLocal (slot q.1)); [|by apply does_ret].
  eapply does_then; [apply does_read_chunks; auto|]. intros u q2 Hr2. by apply does_eof_check.
Qed.

(** A unit makes one call that moves bytes; clock readings and assignments to
    other fields may follow. *)
Lemma crel_after x ev :
  data_event c fd ev -> lock_run h [ev] = Some h ->
  forall evs s1 x', srel c fd (slot x) [ev] s1 -> key (slot x') = key s1 ->
  Forall (fun ev => ev_call ev = Millis) evs -> crel h c fd x (ev :: evs) x'.
Proof.
  intros Hd Hl evs s1 x' Hs Hk Hm. apply crel_intro.
  - eapply srel_finish; [exact Hs|exact Hk|]. eapply Forall_impl; [|exact Hm].
    intros ev' E. unfold control_event. by rewrite E.
  - constructor; [done|]. eapply Forall_impl; [|exact Hm]. intros ev' E. unfold data_event. by rewrite E.
  - change (ev :: evs) with ([ev] ++ evs). rewrite lock_run_app, Hl. simpl. apply lock_run_free.
    eapply Forall_impl; [|exact Hm]. intros ev' E. unfold lock_free. by rewrite E.
Qed.

(** Phase 2. *)

(** [restore_local] and [restore_remote] succeed after a bounded read. *)
Lemma restore_local_read s b len n :
  ready c fd s -> toLocal s = Some b -> 0 <= len <= bufSize ->
  let '(bs, b1) := Ring.read len b in
  0 <= n < zlen bs ->
  exists b2, Ring.inv b2 /\ Ring.content b = ztake n bs ++ Ring.content b2 /\
    forall s1, toLocal s1 = Some b1 -> restore_local (zdrop n bs) s1 = s1 <| toLocal := Some b2 |>.
Proof.
  intros Hr Hb Hl. pose proof (restoreUnsent_ok len n b (ready_toLocal _ _ _ _ Hr Hb)) as H.
  destruct (Ring.read len b) as [bs b1]. intros Hn. destruct H as (b2 & H1 & H2 & H3); [lia|done|].
  exists b2. split_and!; [done|done|]. intros s1 E. unfold restore_local. rewrite E, H1.
  unfold accountRestoreDrop. by rewrite (proj2 (Z.leb_le _ _)) by lia.
Qed.

Lemma restore_remote_read s b len n :
  ready c fd s -> toRemote s = Some b -> 0 <= len <= bufSize ->
  let '(bs, b1) := Ring.read len b in
  0 <= n < zlen bs ->
  exists b2, Ring.inv b2 /\ Ring.content b = ztake n bs ++ Ring.content b2 /\
    forall s1, toRemote s1 = Some b1 -> restore_remote (zdrop n bs) s1 = s1 <| toRemote := Some b2 |>.
Proof.
  intros Hr Hb Hl. pose proof (restoreUnsent_ok len n b (ready_toRemote _ _ _ _ Hr Hb)) as H.
  destruct (Ring.read len b) as [bs b1]. intros Hn. destruct H as (b2 & H1 & H2 & H3); [lia|done|].
  exists b2. split_and!; [done|done|]. intros s1 E. unfold restore_remote. rewrite E, H1.
  unfold accountRestoreDrop. by rewrite (proj2 (Z.leb_le _ _)) by lia.
Qed.

(** What a bounded read of a ring that is not empty takes. *)
Lemma read_some b len :
  Ring.inv b -> Ring.empty b = false -> 0 < len <= bufSize ->
  let '(bs, b1) := Ring.read len b in
  Ring.inv b1 /\ Ring.content b = bs ++ Ring.content b1 /\ 0 < zlen bs <= len.
Proof.
  intros Hi He Hl. rewrite empty_ok in He by done. apply bool_decide_eq_false in He.
  pose proof prepend_capacity_range. pose proof (read_ok len b Hi) as H'.
  destruct (Ring.read len b) as [bs b1]. destruct H' as (H1 & _ & H2 & H3 & H4 & _); [lia|].
  split_and!; try done. specialize (H4 He ltac:(lia)). rewrite <- zlen_0 in H4. lia.
Qed.

Lemma does_send_chunk q : cell_ready c fd q.1 -> does_cell (send_chunk bufSize) q.
Proof.
  intros Hr. unfold send_chunk. apply does_get. destruct q as [x w]. cbn [fst] in *.
  destruct (toLocal (slot x)) as [b|] eqn:Eb; [|by apply does_ret].
  destruct (Ring.empty b) eqn:Ee; [by apply does_ret|].
  pose proof (ready_toLocal _ _ _ _ Hr Eb) as Hi.
  set (len := if Ring.size b <? bufSize then Ring.size b else bufSize).
  assert (0 < len <= bufSize) as Hl.
  { unfold len. rewrite empty_ok in Ee by done. apply bool_decide_eq_false in Ee.
    rewrite <- zlen_0, <- size_ok in Ee by done. pose proof (size_ok b Hi).
    destruct (Z.ltb_spec (Ring.size b) bufSize); lia. }
  pose proof (read_some b len Hi Ee Hl) as Hread.
  pose proof (fun n => restore_local_read (slot x) b len n Hr Eb ltac:(lia)) as Hrest.
  destruct (Ring.read len b) as [bs b1]. destruct Hread as (Hi1 & Hc1 & Hlen).
  unfold assign at 1. apply wp_bind, wp_put_pair. destruct (Z.eqb_spec (zlen bs) 0) as [|_]; [lia|].
  rewrite (rd_sock _ _ _ Hr). apply wp_bind, (wp_sys_pair (Send fd bs)). intros [sent err] e Hok.
  cbn [call_ok] in Hok. set (w1 := log _ _ _ _).
  pose proof (crel_after x (Event (Send fd bs) (sent, err)) eq_refl ltac:(by apply lock_run_free; constructor)) as Hcrel.
  destruct (Z.ltb_spec 0 sent).
  - unfold add_moved, assign. wp_step. wp_step. wp_step. wp_step. wp_step. wp_step.
    destruct (Z.ltb_spec sent (zlen bs)).
    + destruct (Hrest sent ltac:(lia)) as (b2 & Hi2 & Hc2 & E2). wp_go.
      eexists. split_and!; [ran_done| |done]. simpl.
      eapply (Hcrel _ ((slot x) <| toLocal := Some b2 |>)); [|simpl; by rewrite E2|by repeat constructor].
      eapply srel_send; try done; lia.
    + wp_go. eexists. split_and!; [ran_done| |done]. simpl.
      eapply (Hcrel _ ((slot x) <| toLocal := Some b1 |>)); [|done|by repeat constructor].
      eapply srel_send; try done; [lia..|]. by rewrite ztake_all by lia.
  - destruct (_ && _) eqn:Efatal.
    + rewrite !andb_true_iff, !negb_true_iff, !Z.eqb_neq, Z.ltb_lt in Efatal.
      destruct Efatal as [[? ?] ?]. unfold assign. wp_go. eexists. split_and!; [ran_done| |done].
      simpl. eapply Hcrel; [by eapply srel_send_failed|done|constructor].
    + destruct (Hrest 0 ltac:(lia)) as (b2 & Hi2 & Hc2 & E2). rewrite zdrop_nonpos in E2 by lia.
      rewrite ztake_nonpos in Hc2 by lia.
      assert (srel c fd (slot x) [Event (Send fd bs) (sent, err)] ((slot x) <| toLocal := Some b2 |>)) as Hs.
      { eapply srel_send; try done; [lia| |by rewrite ztake_nonpos by lia]. intros Hneg.
        rewrite (proj2 (Z.ltb_lt _ _) Hneg) in Efatal. simpl in Efatal.
        destruct (Z.eqb_spec err EAGAIN); [by left|]. destruct (Z.eqb_spec err EWOULDBLOCK); [by right|done]. }
      unfold assign. wp_go; (eexists; split_and!; [ran_done| |done]; simpl;
        eapply Hcrel; [exact Hs|simpl; by rewrite E2|by repeat constructor]).
Qed.

Lemma does_send_stall q : cell_ready c fd q.1 -> does_cell send_stall q.
Proof.
  intros Hr. unfold send_stall. apply does_get, does_when; [done|]. intros _.
  apply does_millis; [done|]. intros now q1 Hr1. apply does_when; [done|]. intros _.
  eapply does_then; [apply does_when; [done|]; intros _; by apply does_begin_close|].
  intros u q2 Hr2. apply does_millis; [done|]. intros now' q3 Hr3. by apply does_assign.
Qed.

Lemma does_drain_slot_local q : cell_ready c fd q.1 -> does_cell (drain_slot_local bufSize) q.
Proof.
  intros Hr. unfold drain_slot_local. apply does_get. destruct (toLocal _); [|by apply does_ret].
  destruct (_ && _); [|by apply does_ret].
  eapply does_then; [apply does_loop; [|done]; apply does_send_chunk|]. intros. by apply does_send_stall.
Qed.

(** Phase 3. *)

Lemma does_write_chunk budget q :
  h = true -> 0 < budget -> cell_ready c fd q.1 -> does_cell (write_chunk bufSize budget c) q.
Proof.
  intros Hh Hbud Hr. unfold write_chunk. apply does_get. destruct q as [x w]. cbn [fst] in *.
  destruct (toRemote (slot x)) as [b|] eqn:Eb; [|by apply does_ret].
  destruct (Ring.empty b) eqn:Ee; [by apply does_ret|].
  pose proof (ready_toRemote _ _ _ _ Hr Eb) as Hi.
  set (len := if budget <? bufSize then budget else bufSize).
  assert (0 < len <= bufSize) as Hl by (unfold len; destruct (Z.ltb_spec budget bufSize); lia).
  pose proof (read_some b len Hi Ee Hl) as Hread.
  pose proof (fun n => restore_remote_read (slot x) b len n Hr Eb ltac:(lia)) as Hrest.
  destruct (Ring.read len b) as [bs b1]. destruct Hread as (Hi1 & Hc1 & Hlen).
  unfold assign at 1. apply wp_bind, wp_put_pair. destruct (Z.eqb_spec (zlen bs) 0) as [|_]; [lia|].
  apply wp_bind, (wp_sys_pair (ChannelWrite c bs)). intros rc e Hok. cbn [call_ok ret_of] in Hok, rc.
  set (w1 := log _ _ _ _).
  pose proof (crel_after x (Event (ChannelWrite c bs) rc) eq_refl ltac:(by rewrite Hh)) as Hcrel.
  destruct (Z.ltb_spec 0 rc).
  - unfold add_moved, assign. do 8 wp_step.
    destruct (Z.ltb_spec rc (zlen bs)).
    + destruct (Hrest rc ltac:(lia)) as (b2 & Hi2 & Hc2 & E2). wp_go.
      eexists. split_and!; [ran_done| |done]. simpl.
      eapply Hcrel; [by apply (srel_write c fd (slot x) b b2 bs rc)|simpl; rewrite E2 by done; by rewrite Z.max_r by lia|
        by repeat constructor].
    + wp_go. eexists. split_and!; [ran_done| |done]. simpl.
      eapply Hcrel; [apply (srel_write c fd (slot x) b b1 bs rc); try done; by rewrite ztake_all by lia|
        by rewrite Z.max_r by lia|by repeat constructor].
  - destruct (Hrest 0 ltac:(lia)) as (b2 & Hi2 & Hc2 & E2). rewrite zdrop_nonpos in E2 by lia.
    rewrite ztake_nonpos in Hc2 by lia. simpl in Hc2.
    assert (srel c fd (slot x) [Event (ChannelWrite c bs) rc] ((slot x) <| toRemote := Some b2 |>)) as Hs
      by (by eapply srel_write_none).
    destruct (Z.eqb_spec rc LIBSSH2_ERROR_EAGAIN).
    + unfold assign. wp_go; (eexists; split_and!; [ran_done| |done]; simpl;
        eapply Hcrel; [exact Hs|simpl; by rewrite E2|by repeat constructor]).
    + unfold assign. wp_step. wp_step.
      eapply (does_from anything _ (x, w) _ [Event (ChannelWrite c bs) rc]); [ran_done| |].
      * eapply Hcrel; [exact Hs|simpl; by rewrite E2|constructor].
      * assert (cell_ready c fd (x <| slot := restore_remote bs ((slot x) <| toRemote := Some b1 |>) |>)) as Hr'.
        { unfold cell_ready. simpl. rewrite E2 by done. apply Hs. }
        eapply does_then; [by apply does_count_error|]. intros. by apply does_ret.
Qed.

Lemma does_write_rounds fuel budget q :
  h = true -> cell_ready c fd q.1 -> does_cell (write_rounds fuel bufSize budget c) q.
Proof.
  intros Hh. revert budget q. induction fuel as [|fuel IH]; intros budget q Hr; [by apply does_ret|].
  simpl. destruct (Z.ltb_spec 0 budget); [|by apply does_ret].
  eapply does_then; [by apply does_write_chunk|]. intros. by apply IH.
Qed.

Lemma does_write_stall q : cell_ready c fd q.1 -> does_cell write_stall q.
Proof.
  intros Hr. unfold write_stall. apply does_get, does_when; [done|]. intros _.
  apply does_millis; [done|]. intros now q1 Hr1. apply does_when; [done|]. intros _.
  eapply does_then; [apply does_when; [done|]; intros _; by apply does_begin_close|].
  intros u q2 Hr2. apply does_millis; [done|]. intros now' q3 Hr3. by apply does_assign.
Qed.

Lemma backpressure_key s : key (backpressure_check s) = key s.
Proof.
  unfold backpressure_check. destruct (toRemote s); [|done].
  destruct (localReadPaused s), (_ <? _); done || destruct (_ <? _); done.
Qed.

Lemma does_recv_chunk q : cell_ready c fd q.1 -> does_cell (recv_chunk bufSize) q.
Proof.
  intros Hr. unfold recv_chunk. apply does_get. destruct q as [x w]. cbn [fst] in *.
  destruct (_ || _); [by apply does_ret|].
  destruct (toRemote (slot x)) as [b|] eqn:Eb; [|by apply does_ret].
  pose proof (available_range b (ready_toRemote _ _ _ _ Hr Eb)) as Hav.
  destruct (Z.eqb_spec (Ring.available b) 0) as [_|_].
  { eapply does_then; [by apply does_assign|]. intros. by apply does_ret. }
  set (n := if Ring.available b <? bufSize then Ring.available b else bufSize).
  assert (0 <= n <= Ring.available b) as Hn by (unfold n; destruct (Z.ltb_spec (Ring.available b) bufSize); lia).
  rewrite (rd_sock _ _ _ Hr). apply wp_bind, (wp_sys_pair (Recv fd n)).
  intros [[rc err] bs] e Hok. cbn [call_ok] in Hok. destruct Hok as [Hle Hlen]; [lia|].
  pose proof (crel_after x (Event (Recv fd n) (rc, err, bs)) eq_refl ltac:(by apply lock_run_free; constructor)) as Hcrel.
  destruct (Z.ltb_spec 0 rc).
  - destruct (write_all bs b (ready_toRemote _ _ _ _ Hr Eb)) as (b' & Hw & Hi' & Hc'); [rewrite Hlen; lia|].
    rewrite Hw, Hlen by done. unfold assign, add_moved. wp_go.
    eexists. split_and!; [ran_done| |done]. simpl.
    eapply Hcrel; [apply (srel_recv c fd (slot x) b b' n rc err bs); auto|done|by repeat constructor].
  - assert (forall eof : bool, srel c fd (slot x) [Event (Recv fd n) (rc, err, bs)]
      (if eof then (slot x) <| localEof := true |> else slot x)) as Hs
      by (intros; by apply srel_recv_none).
    destruct (Z.eqb_spec rc 0); [|destruct (_ && _)]; unfold assign; wp_go;
      (eexists; split_and!; [ran_done| |done]; simpl).
    + eapply Hcrel; [apply (Hs true)|done|constructor].
    + eapply Hcrel; [apply (Hs true)|done|constructor].
    + eapply Hcrel; [apply (Hs false)|done|constructor].
Qed.

Lemma does_fill_remote q : cell_ready c fd q.1 -> does_cell (fill_remote bufSize) q.
Proof.
  intros Hr. unfold fill_remote. apply does_get. destruct (toRemote _); [|by apply does_ret].
  apply does_when; [done|]. intros _. apply does_loop; [|done]. apply does_recv_chunk.
Qed.

(** Phase 4. *)

Lemma does_open_step now timeoutMs q : cell_ready c fd q.1 -> does_cell (open_step now timeoutMs) q.
Proof.
  intros Hr. unfold open_step. apply does_get.
  repeat match goal with |- does _ _ (if ?b then _ else _) _ => destruct b end;
    try by apply does_ret; try by apply does_begin_close.
  all: try (by apply does_begin_close).
  eapply does_then.
  - apply does_when; [done|]. intros _. rewrite (rd_sock _ _ _ Hr).
    apply (does_control (ShutdownWr fd)); try done. intros. by apply does_assign.
  - intros u q1 Hr1. destruct (_ && _); [by apply does_begin_close|].
    destruct (Timeout.expired _ _ _); [by apply does_begin_close|by apply does_ret].
Qed.

(** The flush reads after an EOF keep the ring well formed and touch nothing
    else the relation looks at except [toLocal]. *)
Definition flushed s s' : Prop :=
  s' = s \/ exists b, Ring.inv b /\ s' = s <| toLocal := Some b |>.

Lemma flushed_again s b s' : flushed (s <| toLocal := Some b |>) s' -> Ring.inv b -> flushed s s'.
Proof. intros [->|(b' & Hi & ->)] Hb; right; [by exists b|by exists b']. Qed.

Lemma eof_pump_ok n q :
  ring_ok (toLocal (slot q.1)) ->
  wp (loop n (eof_pump c)) (fun _ q' => flushed (slot q.1) (slot q'.1) /\
    exists evs, ran q evs q' /\ Forall (fun ev => exists r, ev = Event (ChannelRead c 512) r) evs) q.
Proof.
  revert q. induction n as [|n IH]; intros q Hb.
  { apply wp_ret. split; [by left|]. exists []. destruct q. split; [apply ran_nil|constructor]. }
  destruct q as [x w]. cbn [fst] in *. destruct Hb as (b & Eb & Hi).
  cbn [loop]. unfold eof_pump at 1. unfold assign. wp_step. wp_step. wp_step.
  destruct r as [pr bs]. wp_step. wp_step. wp_step. rewrite Eb.
  destruct Hok as [Hle Hlen]; [lia|].
  assert (0 < pr -> Ring.inv (snd (Ring.write bs b))) as Hw.
  { intros Hpos. pose proof (write_ok bs b Hi) as H. destruct (Ring.write bs b).
    apply H. rewrite Hlen; lia. }
  assert (forall x1 w1, ran (x, w) [Event (ChannelRead c 512) (pr, bs)] (x1, w1) ->
    flushed (slot x) (slot x1) -> ring_ok (toLocal (slot x1)) -> forall go : bool,
    wp (if go then loop n (eof_pump c) else ret tt) (fun _ q' => flushed (slot x) (slot q'.1) /\
      exists evs, ran (x, w) evs q' /\ Forall (fun ev => exists r, ev = Event (ChannelRead c 512) r) evs)
      (x1, w1)) as Hgo.
  { intros x1 w1 R1 F1 O1 [|]; [|apply wp_ret].
    - eapply wp_conseq; [by apply IH|]. intros u q' [F2 (evs & R2 & Hevs)]. cbn [fst] in *. split.
      + destruct F1 as [E1|(b1 & H1 & E1)]; rewrite E1 in F2; [done|]. by eapply flushed_again.
      + exists (Event (ChannelRead c 512) (pr, bs) :: evs). split; [by eapply (ran_app _ _ _ [_])|].
        constructor; [by eexists|done].
    - split; [done|]. eexists. split; [exact R1|]. constructor; [by eexists|constructor]. }
  wp_step.
  - wp_step. wp_step. assert (Ring.inv (snd (Ring.write bs b))) by (apply Hw; lia).
    apply Hgo; [ran_done|right; by eexists|by eexists].
  - wp_step. apply Hgo; [ran_done|by left|by exists b].
Qed.

Lemma flush_events_silent evs :
  Forall (fun ev => exists r, ev = Event (ChannelRead c 512) r) evs ->
  Forall (data_event c fd) evs /\ ssh_out c evs = [] /\ local_in fd evs = [] /\
  Forall (fun ev => mutex_call ev = false) evs.
Proof.
  intros H. induction H as [|ev evs [r ->] _ (I1 & I2 & I3 & I4)]; [done|].
  unfold ssh_out, local_in in *. rewrite !bind_cons, I2, I3. destruct r. split_and!; try done;
    by constructor.
Qed.

Lemma does_send_eof_slot q : h = true -> cell_ready c fd q.1 -> does_cell send_eof_slot q.
Proof.
  intros Hh Hr. unfold send_eof_slot. apply does_get. rewrite (rd_chan _ _ _ Hr).
  destruct q as [x w]. cbn [fst] in *. apply wp_bind, (wp_sys_pair (ChannelSendEof c)).
  intros rc e _. cbn [ret_of] in rc. set (w1 := log _ _ _ _).
  destruct (Z.eqb_spec rc LIBSSH2_ERROR_EAGAIN) as [Heq|Hne].
  { apply wp_ret. eexists. split_and!; [ran_done| |done]. apply crel_intro; [|by repeat constructor|by rewrite Hh].
    apply srel_one; try done; simpl; try apply Hr; rewrite ?app_nil_r, ?Z.add_0_r; done. }
  apply wp_bind. eapply wp_conseq; [apply (eof_pump_ok 4 (x, w1)); apply Hr|].
  intros u [x2 w2] (Hf & evs & R2 & Hevs). cbn [fst] in *.
  destruct (flush_events_silent evs Hevs) as (I1 & I2 & I3 & I4).
  unfold assign. wp_go. exists ([Event (ChannelSendEof c) rc] ++ evs ++ [Event Millis r]).
  split_and!; [eapply ran_app; [|eapply ran_app; [exact R2|ran_done]]; ran_done| |done].
  apply crel_intro; cbn [fst slot].
  - apply srel_send_eof; [done|constructor; [done|by apply Forall_app_2; [|repeat constructor]]| | | | | | | | |].
    + intros [Hn _]%Forall_cons_iff. simpl in Hn. rewrite Z.eqb_refl in Hn.
      by rewrite (proj2 (Z.eqb_neq _ _)) in Hn by done.
    + by rewrite !ssh_out_app, I2.
    + by rewrite !local_in_app, I3.
    + by destruct Hf as [->|(b & _ & ->)].
    + by destruct Hf as [->|(b & _ & ->)].
    + destruct Hf as [->|(b & Hi & ->)]; [apply Hr|by exists b].
    + by destruct Hf as [->|(b & _ & ->)].
    + by destruct Hf as [->|(b & _ & ->)].
    + by destruct Hf as [->|(b & _ & ->)].
  - constructor; [done|]. apply Forall_app_2; [done|by repeat constructor].
  - rewrite Hh. apply lock_run_held. constructor; [done|]. apply Forall_app_2; [done|by repeat constructor].
Qed.

End Parts.

(** Step A brackets its writes with the session mutex. *)
Lemma does_drain_remote mx c fd q :
  cell_ready c fd q.1 -> does (crel false c fd) anything (drain_remote mx bufSize c) q.
Proof.
  intros Hr. unfold drain_remote. apply does_get, does_when; [done|]. intros _.
  apply (does_locked (Rel := fun h => crel h c fd) _ _ (cell_ready c fd) _ _ write_stall); [done| |done|].
  - intros q' Hq. assert (cell_ready c fd q'.1) as Hr' by (by rewrite Hq).
    eapply does_post; [by apply does_write_rounds|]. intros u x evs x' Hx. exact (trace_dom _ _ _ Hx).
  - intros q' Hr' _. by apply does_write_stall.
Qed.

Lemma does_drain_slot_remote mx c fd q :
  cell_ready c fd q.1 -> does (crel false c fd) anything (drain_slot_remote mx bufSize) q.
Proof.
  intros Hr. unfold drain_slot_remote. apply does_get.
  rewrite (rd_active _ _ _ Hr), (rd_chan _ _ _ Hr). cbn [negb].
  destruct (0 <? _); [by apply does_ret|].
  eapply does_then; [by apply does_drain_remote|]. intros u q1 Hr1.
  eapply does_then; [apply does_assign; [done|apply backpressure_key]|]. intros u1 q2 Hr2.
  by apply does_fill_remote.
Qed.

End CellRelation.
