(* ===== verification/Cycle.v ===== *)
(** * Pump cycles

    The slot relation of Flow.v lifted to the channel manager ([grel]) and to
    the pump ([prel]); the four phases and [pumpAll] as runs of any relation
    that meets the interface [PumpRelation], of which [prel] is an instance;
    and the properties of any number of pump cycles: both byte streams of every
    channel are delivered in order and without loss, the session mutex
    brackets every libssh2 call, no call touches a channel or socket after the
    slot gave it up. *)

From S2P Require Import Prelude Platform Policies Prepend Ring Breaker Config Net Channel Lock Transport Flow.

Section ManagerRelation.
Context {R : Type} {BR : ByteRing R} {BL : ByteRingLaws R} {T : Target}.
Implicit Types s : ChannelSlot R.
Implicit Types m : ChannelManager R.

(** Slot [k] is in use, by channel [c], respectively with socket [fd]. *)
Definition holds (k : Z) m : Prop := out_of_range k m = false /\ active (getSlot k m) = true.

(** No two slots in use share a channel or a socket, as handles that are not
    yet released are distinct. *)
Definition distinct m : Prop :=
  forall i j, holds i m -> holds j m -> i <> j ->
    sshChannel (getSlot i m) <> sshChannel (getSlot j m) /\
    localSocket (getSlot i m) <> localSocket (getSlot j m).

Definition pump_ok m : Prop := mgr_inv m /\ distinct m.

(** A call concerns only channels and sockets of slots in use. *)
Definition owned m (ev : event) : Prop :=
  (forall c, call_chan (ev_call ev) = Some c ->
     exists k, holds k m /\ sshChannel (getSlot k m) = Some c) /\
  (forall fd, call_fd (ev_call ev) = Some fd ->
     exists k, holds k m /\ localSocket (getSlot k m) = fd).

(** A slot in use is worked on under [srel] until it is given up; in any case
    the calls on its channel obey the teardown protocol.  A free slot stays as
    it is. *)
Definition evolves s (evs : list event) s' : Prop :=
  if active s then
    forall c, sshChannel s = Some c ->
      (exists st, td_run c (td_of s) evs = Some st) /\
      (active s' = true -> srel c (localSocket s) s evs s')
  else s' = s.

Record grel (h : bool) m (evs : list event) m' : Prop := {
  gr_ok : pump_ok m';
  gr_max : maxSlots_ m' = maxSlots_ m;
  gr_owned : Forall (owned m) evs;
  gr_lock : lock_run h evs = Some h;
  gr_slot : forall j, out_of_range j m = false -> evolves (getSlot j m) evs (getSlot j m');
}.

Lemma holds_ready k m : mgr_inv m -> holds k m ->
  exists c, sshChannel (getSlot k m) = Some c /\ ready c (localSocket (getSlot k m)) (getSlot k m).
Proof.
  intros Hi [Hr Ha]. pose proof (mgr_inv_slot k m Hi Hr) as Hs. unfold slot_inv in Hs. rewrite Ha in Hs.
  destruct (sa_chan _ Hs) as [c Hc]. by exists c.
Qed.

Lemma range_eq j m m' : maxSlots_ m' = maxSlots_ m -> out_of_range j m' = out_of_range j m.
Proof. unfold out_of_range. by intros ->. Qed.

(** What is held afterwards was held before, by the same handles. *)
Lemma grel_held h m evs m' k : mgr_inv m -> grel h m evs m' -> holds k m' ->
  holds k m /\ sshChannel (getSlot k m') = sshChannel (getSlot k m) /\
  localSocket (getSlot k m') = localSocket (getSlot k m).
Proof.
  intros Hi [_ Hmax _ _ Hs] [Hr Ha]. rewrite (range_eq _ _ _ Hmax) in Hr. specialize (Hs k Hr).
  unfold evolves in Hs. destruct (active (getSlot k m)) eqn:Hk; [|by rewrite Hs, Hk in Ha].
  destruct (holds_ready k m Hi) as (c & Hc & _); [done|]. destruct (Hs c Hc) as [_ H].
  destruct (sr_ready _ _ _ _ _ (H Ha)) as [_ H1 H2 _]. by rewrite H1, Hc.
Qed.

Lemma owned_back h m evs m' ev : mgr_inv m -> grel h m evs m' -> owned m' ev -> owned m ev.
Proof.
  intros Hi Hg [H1 H2]. split; intros x Hx;
    [destruct (H1 x Hx) as (k & Hk & E)|destruct (H2 x Hx) as (k & Hk & E)];
    destruct (grel_held _ _ _ _ _ Hi Hg Hk) as (Hk' & E1 & E2); exists k; split; congruence || done.
Qed.

(** The calls that slots in use other than [j] make are foreign to [j]. *)
Lemma owned_foreign m evs j c : pump_ok m -> Forall (owned m) evs ->
  sshChannel (getSlot j m) = Some c ->
  (forall k, holds k m -> sshChannel (getSlot k m) <> Some c) ->
  Forall (fun ev => call_chan (ev_call ev) <> Some c) evs.
Proof.
  intros Hok Ho Hc Hne. eapply Forall_impl; [|exact Ho]. intros ev [H1 _] E.
  destruct (H1 c E) as (k & Hk & Ek). by apply (Hne k).
Qed.

Lemma grel_refl h m : pump_ok m -> grel h m [] m.
Proof.
  intros Hok. split; try done. intros j Hj. unfold evolves. destruct (active (getSlot j m)) eqn:Ha; [|done].
  destruct (holds_ready j m (proj1 Hok)) as (c & Hc & Hr); [done|]. intros c' Hc'. simplify_eq.
  split; [by eexists|]. intros _. by apply srel_refl.
Qed.

Lemma evolves_trans h j m1 m2 m3 e1 e2 :
  pump_ok m1 -> grel h m1 e1 m2 -> grel h m2 e2 m3 -> out_of_range j m1 = false ->
  evolves (getSlot j m1) (e1 ++ e2) (getSlot j m3).
Proof.
  intros Hok G1 G2 Hj. pose proof (gr_slot _ _ _ _ G1 j Hj) as E1.
  assert (out_of_range j m2 = false) as Hj2 by (by rewrite (range_eq _ _ _ (gr_max _ _ _ _ G1))).
  pose proof (gr_slot _ _ _ _ G2 j Hj2) as E2.
  unfold evolves in *. destruct (active (getSlot j m1)) eqn:Ha1; [|by rewrite E1, Ha1 in E2; congruence].
  intros c Hc. destruct (E1 c Hc) as [[st Ht] S1]. destruct (active (getSlot j m2)) eqn:Ha2.
  - specialize (S1 eq_refl). destruct (sr_ready _ _ _ _ _ S1) as [_ C2 F2 _].
    destruct (E2 c C2) as [[st' Ht'] S2]. rewrite F2 in S2. split.
    + exists st'. by rewrite td_run_app, (sr_td _ _ _ _ _ S1).
    + intros Ha3. eapply srel_trans; [exact S1|by apply S2].
  - split; [|by rewrite E2, Ha2]. exists st. rewrite td_run_app, Ht. simpl. apply td_run_other.
    eapply Forall_impl; [|exact (gr_owned _ _ _ _ G2)]. intros ev [Ho _] Hev.
    destruct (Ho c Hev) as (k & Hk & Ek).
    destruct (grel_held _ _ _ _ _ (proj1 Hok) G1 Hk) as (Hk1 & Ek1 & _).
    destruct (decide (k = j)) as [->|Hne]; [destruct Hk; congruence|].
    destruct (proj2 Hok k j Hk1) as [Hd _]; [done|done|]. congruence.
Qed.

Lemma grel_trans h m1 m2 m3 e1 e2 :
  pump_ok m1 -> grel h m1 e1 m2 -> grel h m2 e2 m3 -> grel h m1 (e1 ++ e2) m3.
Proof.
  intros Hok G1 G2. split.
  - apply G2.
  - rewrite (gr_max _ _ _ _ G2). apply G1.
  - apply Forall_app_2; [apply G1|]. eapply Forall_impl; [|apply G2]. intros ev.
    apply owned_back with h e1; [apply Hok|done].
  - by rewrite lock_run_app, (gr_lock _ _ _ _ G1); apply G2.
  - intros j Hj. by eapply evolves_trans.
Qed.

End ManagerRelation.

Section Lifting.
Context {R : Type} {BR : ByteRing R} {BL : ByteRingLaws R} {T : Target}.
Implicit Types s : ChannelSlot R.
Implicit Types m : ChannelManager R.

Lemma out_of_range_nonneg j m : out_of_range j m = false -> 0 <= j < maxSlots_ m.
Proof. unfold out_of_range. intros [?%Z.ltb_ge ?%Z.leb_gt]%orb_false_iff. lia. Qed.

Lemma owned_self i m c fd ev :
  holds i m -> sshChannel (getSlot i m) = Some c -> localSocket (getSlot i m) = fd ->
  only_about (Some c) fd ev -> owned m ev.
Proof.
  intros Hh Hc Hf [H1 H2]. split.
  - intros c' E. exists i. split; [done|]. destruct H1; congruence.
  - intros fd' E. exists i. split; [done|]. destruct H2; congruence.
Qed.

(** Calls about slot [i] are foreign to every other slot in use. *)
Lemma about_foreign i j m c c' fd evs :
  pump_ok m -> holds i m -> holds j m -> i <> j ->
  sshChannel (getSlot i m) = Some c -> localSocket (getSlot i m) = fd ->
  sshChannel (getSlot j m) = Some c' -> Forall (only_about (Some c) fd) evs ->
  Forall (foreign c' (localSocket (getSlot j m))) evs.
Proof.
  intros Hok Hi Hj Hne Hc Hf Hc' He. destruct (proj2 Hok i j Hi Hj Hne) as [D1 D2].
  eapply Forall_impl; [|exact He]. intros ev [H1 H2]. split.
  - destruct H1 as [->| ->]; congruence.
  - destruct H2 as [->| ->]; congruence.
Qed.

(** The general shape of a step on slot [i]: the other slots stay. *)
Lemma grel_slot h i c m evs m' :
  pump_ok m -> holds i m -> sshChannel (getSlot i m) = Some c ->
  Forall (only_about (Some c) (localSocket (getSlot i m))) evs -> lock_run h evs = Some h ->
  mgr_inv m' -> maxSlots_ m' = maxSlots_ m ->
  (forall j, 0 <= j -> j <> i -> getSlot j m' = getSlot j m) ->
  evolves (getSlot i m) evs (getSlot i m') -> grel h m evs m'.
Proof.
  intros Hok Hi Hc He Hl Hi' Hmax Ho Hev.
  assert (forall j, out_of_range j m = false -> evolves (getSlot j m) evs (getSlot j m')) as Hall.
  { intros j Hj. pose proof (out_of_range_nonneg j m Hj). destruct (decide (j = i)) as [->|Hne]; [done|].
    rewrite Ho by (done || lia). unfold evolves. destruct (active (getSlot j m)) eqn:Ha; [|done].
    assert (holds j m) as Hj' by done. destruct (holds_ready j m (proj1 Hok) Hj') as (c' & Hc' & Hr).
    intros c'' E. rewrite Hc' in E. injection E as <-.
    assert (Forall (foreign c' (localSocket (getSlot j m))) evs) as Hf
      by (eapply (about_foreign i); try done; congruence).
    split; [|intros _; by apply srel_foreign].
    destruct (foreign_silent _ _ _ Hf) as (_ & _ & _ & _ & _ & Ht). eexists. apply Ht. }
  assert (forall k, holds k m' -> holds k m /\ sshChannel (getSlot k m') = sshChannel (getSlot k m) /\
    localSocket (getSlot k m') = localSocket (getSlot k m)) as Hheld.
  { intros k [Hr Ha]. rewrite (range_eq _ _ _ Hmax) in Hr. specialize (Hall k Hr). unfold evolves in Hall.
    destruct (active (getSlot k m)) eqn:Hk; [|by rewrite Hall, Hk in Ha].
    destruct (holds_ready k m (proj1 Hok)) as (c' & Hc' & _); [done|]. destruct (Hall c' Hc') as [_ H].
    destruct (sr_ready _ _ _ _ _ (H Ha)) as [_ H1 H2 _]. by rewrite H1, Hc'. }
  split; try done.
  - split; [done|]. intros a b Ha Hb Hne.
    destruct (Hheld a Ha) as (Ha' & -> & ->). destruct (Hheld b Hb) as (Hb' & -> & ->).
    by apply (proj2 Hok).
  - eapply Forall_impl; [|exact He]. intros ev. by apply owned_self with i.
Qed.

Lemma grel_cell h i c m (x x' : Cell R) evs :
  pump_ok m -> holds i m -> sshChannel (getSlot i m) = Some c -> slot x = getSlot i m ->
  crel h c (localSocket (getSlot i m)) x evs x' -> grel h m evs (setSlot i (slot x') m).
Proof.
  intros Hok Hi Hc Hx (Hs & Hd & Hl). rewrite Hx in Hs. destruct Hi as [Hr Ha].
  destruct (sr_ready _ _ _ _ _ Hs) as [A1 A2 A3 A4].
  eapply (grel_slot h i c); try done.
  - by eapply data_event_about.
  - apply mgr_inv_setSlot_same; [apply Hok|done|by unfold slot_inv; rewrite A1|by rewrite A1, Ha].
  - intros j H0 Hne. apply getSlot_ne; [|done|done]. by apply out_of_range_nonneg in Hr as [? _].
  - rewrite getSlot_setSlot by (done || apply Hok). unfold evolves. rewrite Ha.
    intros c' E. simplify_eq. split; [eexists; apply Hs|done].
Qed.

(** Giving a slot up, with calls that close its channel and its socket. *)
Lemma grel_release h i c m evs m' s' st :
  pump_ok m -> holds i m -> sshChannel (getSlot i m) = Some c ->
  Forall (only_about (Some c) (localSocket (getSlot i m))) evs -> lock_run h evs = Some h ->
  td_run c (td_of (getSlot i m)) evs = Some st -> active s' = false -> slot_inactive_inv s' ->
  m' = given_up i s' m -> grel h m evs m'.
Proof.
  intros Hok Hi Hc He Hl Ht Ha' Hs' ->. destruct Hi as [Hr Ha].
  destruct (given_up_ok i s' m (proj1 Hok) Hr Ha Ha' Hs') as (G1 & _ & G3 & G4 & _).
  eapply (grel_slot h i c); try done.
  rewrite G4. unfold evolves. rewrite Ha. intros c' E. simplify_eq. split; [by eexists|congruence].
Qed.

Lemma teardown_about c fd evs : Forall (teardown_event c) evs ->
  Forall (only_about (Some c) fd) evs /\ Forall (fun ev => mutex_call ev = false) evs.
Proof.
  intros H. split; (eapply Forall_impl; [|exact H]); intros [cl r] E;
    unfold teardown_event, only_about, mutex_call in *; destruct cl; try done; simpl in *; subst; auto.
Qed.

Lemma teardown_silent c fd evs : Forall (teardown_event c) evs ->
  ssh_out c evs = [] /\ local_in fd evs = [] /\ local_taken fd evs = [] /\ local_lost fd evs = [] /\
  (forall eof, payload c eof evs = [] /\ eof_after c eof evs = eof).
Proof.
  unfold ssh_out, local_in, local_taken, local_lost.
  intros H. induction H as [|[cl r] evs Hc _ (I1 & I2 & I3 & I4 & I5)]; [done|].
  rewrite !bind_cons, I1, I2, I3, I4. cbn [payload eof_after].
  unfold teardown_event in Hc. by destruct cl.
Qed.

(** A teardown that has to be retried. *)
Lemma srel_teardown c fd s evs p' :
  ready c fd s -> Forall (teardown_event c) evs -> CloseProgress.freeComplete p' = false ->
  td_run c (td_of s) evs = Some (td_of (s <| sshCloseProgress := p' |>)) ->
  srel c fd s evs (s <| sshCloseProgress := p' |>).
Proof.
  intros [R1 R2 R3 [A1 A2 A3 A4 A5 A6]] He Hf Ht.
  destruct (teardown_silent c fd evs He) as (I1 & I2 & I3 & I4 & I5).
  split; rewrite ?I1, ?I2, ?I3, ?I4, ?app_nil_r, ?Z.add_0_r; try done; [by left|].
  intros _. destruct (I5 (remoteEof s)) as [-> ->]. simpl. by rewrite app_nil_r, Z.add_0_r.
Qed.

End Lifting.

Section ManagerSteps.
Context {R : Type} {BR : ByteRing R} {BL : ByteRingLaws R} {Env : Type} {P : Platform Env} {T : Target}.
Implicit Types q : ChannelManager R * world Env.

Lemma finalizeClose_grel i q :
  pump_ok q.1 -> out_of_range i q.1 = false ->
  does (grel true) (fun ok m => ok = true -> active (getSlot i m) = false) (finalizeClose i) q.
Proof.
  intros Hok Hr. destruct (active (getSlot i q.1)) eqn:Ha.
  2:{ unfold does, finalizeClose, wp, bind, get, gets. rewrite Hr, Ha. cbn [negb ret fst snd].
      exists []. destruct q. split_and!; [apply ran_nil|by apply grel_refl|done]. }
  assert (holds i q.1) as Hh by done.
  destruct (holds_ready i q.1 (proj1 Hok) Hh) as (c & Hc & Hready).
  eapply wp_conseq; [apply finalizeClose_ok; [apply Hok|done|done]|].
  intros ok q' (c' & evs & p' & Hc' & He & Hlib & H). rewrite Hc in Hc'. injection Hc' as <-.
  destruct (teardown_about c (localSocket (getSlot i q.1)) evs He) as [Hab Hmx]. destruct ok.
  - destruct H as (rc & now & _ & Htd & Hran & Hq'). exists (evs ++ [Event (CloseFd (localSocket (getSlot i q.1))) rc; Event Millis now]).
    split_and!; [exact Hran| |].
    + eapply (grel_release true i c _ _ _ (finalized p' now (getSlot i q.1)) TdFreed); try done; [| |].
      * apply Forall_app_2; [done|]. repeat constructor; by (left + right).
      * rewrite lock_run_app, (lock_run_held evs Hmx). done.
      * by rewrite td_run_app, Htd.
    + intros _.
      assert (q'.1 = given_up i (finalized p' now (getSlot i q.1)) q.1) as -> by exact Hq'.
      destruct (given_up_ok i (finalized p' now (getSlot i q.1)) q.1 (proj1 Hok) Hr Ha eq_refl
        (finalized_inactive _ _ _)) as (_ & _ & _ & E & _).
      by rewrite E.
  - destruct H as (Hf & Htd & Hran & Hq'). exists evs. split_and!; [exact Hran| |done].
    rewrite Hq'. pose proof (srel_teardown _ _ _ _ p' Hready He Hf Htd) as Hs.
    destruct (sr_ready _ _ _ _ _ Hs) as [A1 A2 A3 A4].
    eapply (grel_slot true i c); try done.
    + by apply lock_run_held.
    + apply mgr_inv_setSlot_same; [apply Hok|done|by unfold slot_inv; rewrite A1|done].
    + intros j H0 Hne. apply getSlot_ne; [|done|done]. by apply out_of_range_nonneg in Hr as [? _].
    + rewrite getSlot_setSlot by (done || apply Hok). unfold evolves. rewrite Ha.
      intros c' E. rewrite Hc in E. injection E as <-. split; [eexists; apply Hs|done].
Qed.

Lemma abandonSlot_grel h i reason q :
  pump_ok q.1 -> holds i q.1 ->
  does (grel h) (fun _ m => active (getSlot i m) = false) (abandonSlot i reason) q.
Proof.
  intros Hok [Hr Ha]. destruct (holds_ready i q.1 (proj1 Hok)) as (c & Hc & _); [done|].
  eapply wp_conseq; [apply abandonSlot_ok; [apply Hok|done|done]|].
  intros u q' (rc & Hq' & Hran). eexists. split_and!; [exact Hran| |].
  - eapply (grel_release h i c _ _ _ (reset_fields (getSlot i q.1)) (td_of (getSlot i q.1))); try done.
    repeat constructor; by (left + right).
  - rewrite Hq'. by destruct (given_up_ok i (reset_fields (getSlot i q.1)) q.1 (proj1 Hok) Hr Ha eq_refl
      (reset_inactive _)) as (_ & _ & _ & -> & _).
Qed.

End ManagerSteps.

(** ** The relation on pumps *)
Section PumpRelation.
Context {R : Type} {BR : ByteRing R} {BL : ByteRingLaws R} {Env : Type} {P : Platform Env} {T : Target}.
Implicit Types m : ChannelManager R.
Implicit Types p : Pump R.
Implicit Types q : Pump R * world Env.

(** The number of slots is fixed during a run. *)
Context (n : Z).

Definition pump_dom p : Prop :=
  pump_ok (manager p) /\ 0 < bufSize_ (pump p) <= SSH_TUNNEL_PREPEND_CAPACITY /\
  maxSlots_ (manager p) = n.

Definition prel (h : bool) p (evs : list event) p' : Prop :=
  pump_dom p /\ grel h (manager p) evs (manager p') /\
  mutex p' = mutex p /\ bufSize_ (pump p') = bufSize_ (pump p).

#[export] Instance prel_order h : TraceOrder pump_dom (prel h).
Proof.
  split.
  - intros p Hd. split_and!; try done. apply grel_refl, Hd.
  - intros p1 p2 p3 e1 e2 (D1 & G1 & M1 & B1) (D2 & G2 & M2 & B2).
    split_and!; [done|eapply grel_trans; [apply D1|done..]|congruence|congruence].
  - intros p e p' ((_ & Hb & Hn) & G & _ & B). split; [apply G|]. split; [by rewrite B|].
    by rewrite (gr_max _ _ _ _ G).
Qed.

Lemma control_owned m ev : call_chan (ev_call ev) = None -> call_fd (ev_call ev) = None -> owned m ev.
Proof. intros E1 E2. by split; intros ?; rewrite ?E1, ?E2. Qed.

(** Clock readings and mutex calls before and after a run change nothing. *)
Lemma evolves_control m j s' l evs r :
  pump_ok m -> out_of_range j m = false ->
  Forall (fun ev => control_event ev = true) l -> Forall (fun ev => control_event ev = true) r ->
  evolves (getSlot j m) evs s' -> evolves (getSlot j m) (l ++ evs ++ r) s'.
Proof.
  intros Hok Hj Hl Hr He. unfold evolves in *. destruct (active (getSlot j m)) eqn:Ha; [|done].
  destruct (holds_ready j m (proj1 Hok)) as (c & Hc & Hready); [done|].
  intros c' E. rewrite Hc in E. injection E as <-. destruct (He c Hc) as [[st Ht] Hs].
  destruct (control_silent c (localSocket (getSlot j m)) l Hl) as (_ & _ & _ & _ & _ & Hl').
  destruct (control_silent c (localSocket (getSlot j m)) r Hr) as (_ & _ & _ & _ & _ & Hr').
  split.
  - exists st. rewrite td_run_app, Hl'. simpl. by rewrite td_run_app, Ht; simpl.
  - intros Ha'. specialize (Hs Ha').
    eapply (srel_trans _ _ _ (getSlot j m)); [apply srel_silent; [done|by destruct (getSlot j m)|by left|done]|].
    eapply srel_trans; [exact Hs|]. apply srel_silent; [apply Hs|by destruct s'|by left|done].
Qed.

Lemma grel_control h m ev :
  pump_ok m -> control_event ev = true -> call_fd (ev_call ev) = None -> lock_run h [ev] = Some h ->
  grel h m [ev] m.
Proof.
  intros Hok Hc Hf Hl. split; try done.
  - constructor; [|constructor]. apply control_owned; [|done]. by destruct ev as [[] ?].
  - intros j Hj. apply (evolves_control m j _ [ev] [] []); try done; [by constructor|].
    by apply (gr_slot _ _ _ _ (grel_refl h m Hok) j Hj).
Qed.

#[export] Instance prel_discipline : LockDiscipline pump_dom prel.
Proof.
  split; [apply _| |].
  - intros p t Hd. split_and!; try done. by apply grel_control; [apply Hd|..].
  - intros p evs p' t r Hd (_ & G & M & B). split_and!; try done. split; try apply G.
    + repeat apply Forall_app_2; [| apply G |]; (constructor; [|constructor]; by apply control_owned).
    + rewrite lock_run_app. simpl. by rewrite lock_run_app, (gr_lock _ _ _ _ G).
    + intros j Hj. apply evolves_control; [apply Hd|done|by constructor|by constructor|by apply G].
Qed.

Lemma prel_same h p p' : pump_dom p -> manager p' = manager p -> mutex p' = mutex p ->
  bufSize_ (pump p') = bufSize_ (pump p) -> prel h p [] p'.
Proof. intros Hd E1 E2 E3. split_and!; try done. rewrite E1. apply grel_refl, Hd. Qed.

End PumpRelation.

(** ** The pump's interface to its clients' relations

    What a relation between pumps must promise for the four phases to be run
    under it: it is a lock discipline, it ignores clock readings and the pump's
    bookkeeping, it contains what a phase may do to one slot in use ([crel]) and
    the two ways in which a slot is given up.  The phases below are proved once,
    against this interface. *)
Section Interface.
Context {R : Type} {BR : ByteRing R} {BL : ByteRingLaws R} {Env : Type} {P : Platform Env} {T : Target}.
Implicit Types p : Pump R.
Implicit Types q : Pump R * world Env.

Class PumpRelation (n : Z) (Dom : Pump R -> Prop) (Rel : bool -> Pump R -> list event -> Pump R -> Prop) := {
  pr_discipline :: LockDiscipline Dom Rel;
  pr_inv : forall p, Dom p -> mgr_inv (manager p);
  pr_buf : forall p, Dom p -> 0 < bufSize_ (pump p) <= SSH_TUNNEL_PREPEND_CAPACITY;
  pr_slots : forall p, Dom p -> maxSlots_ (manager p) = n;
  pr_mutex : forall h p evs p', Rel h p evs p' -> mutex p' = mutex p;
  pr_same : forall h p p', Dom p -> manager p' = manager p -> mutex p' = mutex p ->
    bufSize_ (pump p') = bufSize_ (pump p) -> Rel h p [] p';
  pr_clock : forall h p r, Dom p -> Rel h p [Event Millis r] p;
  pr_cell : forall h p i c evs x', Dom p -> holds i (manager p) ->
    sshChannel (getSlot i (manager p)) = Some c ->
    crel h c (localSocket (getSlot i (manager p))) (cell_of i p) evs x' ->
    Rel h p evs (put_cell i x' p);
  pr_finalize : forall i q, Dom q.1 -> out_of_range i (manager q.1) = false ->
    does (Rel true) anything (on_manager (finalizeClose i)) q;
  pr_abandon : forall h i reason q, Dom q.1 -> holds i (manager q.1) ->
    does (Rel h) anything (on_manager (abandonSlot i reason)) q;
}.

End Interface.

(** ** The phases *)
Section Phases.
Context {R : Type} {BR : ByteRing R} {BL : ByteRingLaws R} {Env : Type} {P : Platform Env} {T : Target}.
Context {n : Z} {Dom : Pump R -> Prop} {Rel : bool -> Pump R -> list event -> Pump R -> Prop}.
Context {PR : PumpRelation (Env := Env) n Dom Rel}.
Implicit Types p : Pump R.
Implicit Types q : Pump R * world Env.
Abbreviation XM A := (M (Cell R * world Env) A).

Lemma does_field h (f : Pump R -> Pump R) q :
  Dom q.1 -> manager (f q.1) = manager q.1 -> mutex (f q.1) = mutex q.1 ->
  bufSize_ (pump (f q.1)) = bufSize_ (pump q.1) -> does (Rel h) anything (put f) q.
Proof. intros. apply does_put; [|done]. by apply pr_same. Qed.

Lemma does_clock {A} h (Q : A -> Pump R -> Prop) (k : Z -> M (Pump R * world Env) A) q :
  Dom q.1 -> (forall now q', Dom q'.1 -> does (Rel h) Q (k now) q') ->
  does (Rel h) Q (bind millis k) q.
Proof.
  intros Hd Hk. apply (does_bind anything).
  - refine (does_sys (Rel h) Millis anything q _). intros r Hr. split; [|done]. by apply pr_clock.
  - intros now q' Hd' _. by apply Hk.
Qed.

(** The session lock around part of a phase. *)
Lemma does_session_locked ticks (body : M (Pump R * world Env) unit) q :
  Dom q.1 ->
  (forall q', Dom q'.1 -> does (Rel true) anything body q') ->
  does (Rel false) anything (ok <- session_lock ticks;; when ok (body;; session_unlock)) q.
Proof.
  intros Hd Hbody.
  change (does (Rel false) anything
    (ok <- lock (mutex q.1) ticks;; when ok (body;; session_unlock)) q).
  apply (does_locked _ _ (fun p => mutex p = mutex q.1) _ _ (ret tt)); [done| | |].
  - intros q' Hq. assert (Dom q'.1) as Hd' by (by rewrite Hq).
    specialize (Hbody q' Hd'). unfold does, wp in *. destruct Hbody as (evs & R1 & C1 & _).
    exists evs. split_and!; [done|done|]. by rewrite (pr_mutex _ _ _ _ C1), Hq.
  - intros [p w] Hm. unfold session_unlock, unlock, bind, get, gets, ret, when. cbn [fst] in *.
    rewrite Hm. destruct (mutex q.1); [|done]. by destruct (sys _ _) as [[] ?].
  - intros q' Hd' _. by apply does_ret.
Qed.

(** A slot program that leaves free slots alone. *)
Definition skips_free (prog : XM unit) : Prop :=
  forall x w, slot_inactive_inv (slot x) -> active (slot x) = false -> prog (x, w) = (tt, (x, w)).

Lemma put_cell_id i p : mgr_inv (manager p) -> out_of_range i (manager p) = false ->
  put_cell i (cell_of i p) p = p.
Proof.
  intros Hi Hr. destruct p as [t m mx a]. unfold put_cell, cell_of. cbn in *.
  pose proof (setSlot_id i m Hi Hr) as E. unfold upd. cbn. rewrite E. by destruct t.
Qed.

Lemma in_array_range i p : Dom p -> 0 <= i < n -> out_of_range i (manager p) = false.
Proof.
  intros Hd Hi. unfold out_of_range. rewrite (pr_slots _ Hd).
  by rewrite (proj2 (Z.ltb_ge i 0)), (proj2 (Z.leb_gt n i)) by lia.
Qed.

Lemma does_on_cell h i (prog : XM unit) q :
  Dom q.1 -> 0 <= i < n -> skips_free prog ->
  (forall c fd x, cell_ready c fd x.1 -> does (crel h c fd) anything prog x) ->
  does (Rel h) anything (on_cell i prog) q.
Proof.
  intros Hd Hi Hskip Hprog. pose proof (in_array_range i q.1 Hd Hi) as Hr.
  destruct q as [p w]. cbn [fst] in *.
  pose proof (mgr_inv_slot i _ (pr_inv _ Hd) Hr) as Hs. unfold slot_inv in Hs.
  unfold does, on_cell. apply wp_focus_pair.
  destruct (active (getSlot i (manager p))) eqn:Ha.
  - destruct (holds_ready i (manager p) (pr_inv _ Hd)) as (c & Hc & Hready); [done|].
    pose proof (Hprog c _ (cell_of i p, w) Hready) as H. unfold does in H.
    eapply wp_conseq; [exact H|]. intros u x' (evs & R1 & C1 & _). exists evs.
    split_and!; [exact R1| |done]. by apply (pr_cell h p i c evs x'.1).
  - unfold wp. rewrite (Hskip (cell_of i p) w Hs Ha). cbn [fst snd]. exists [].
    rewrite put_cell_id by (done || by apply pr_inv).
    split_and!; [apply ran_nil|by apply trace_refl|done].
Qed.

Lemma pump_slot_skips b : skips_free (pump_slot b).
Proof. intros x w _ Ha. unfold pump_slot, bind, get, gets. cbn [fst]. by rewrite Ha. Qed.
Lemma drain_slot_local_skips b : skips_free (drain_slot_local b).
Proof.
  intros x w Hs _. unfold drain_slot_local, bind, get, gets. cbn [fst]. by rewrite (si_toLocal _ Hs).
Qed.
Lemma drain_slot_remote_skips mx b : skips_free (drain_slot_remote mx b).
Proof. intros x w _ Ha. unfold drain_slot_remote, bind, get, gets. cbn [fst]. by rewrite Ha. Qed.
Lemma open_step_skips now t : skips_free (open_step now t).
Proof. intros x w _ Ha. unfold open_step, bind, get, gets. cbn [fst]. by rewrite Ha. Qed.
Lemma send_eof_slot_skips : skips_free send_eof_slot.
Proof.
  intros x w Hs _. unfold send_eof_slot, bind, get, gets. cbn [fst]. by rewrite (si_chan _ Hs).
Qed.

(** Indices within the array. *)
Definition in_array (l : list Z) : Prop := Forall (fun i => 0 <= i < n) l.

Lemma rr_order_in_array offset : in_array (rr_order offset n).
Proof.
  apply Forall_forall. intros i Hi. apply list_elem_of_In, list_elem_of_fmap in Hi as (k & -> & Hk).
  apply elem_of_seqZ in Hk. apply Z.mod_pos_bound. lia.
Qed.
Lemma seqZ_in_array : in_array (seqZ 0 n).
Proof. apply Forall_forall. intros i Hi%list_elem_of_In%elem_of_seqZ. lia. Qed.

Lemma does_cells h l (prog : XM unit) q :
  Dom q.1 -> in_array l -> skips_free prog ->
  (forall c fd x, cell_ready c fd x.1 -> does (crel h c fd) anything prog x) ->
  does (Rel h) anything (for_each l (fun i => on_cell i prog)) q.
Proof.
  intros Hd Hl Hs Hp. apply does_for_each; [|done]. intros i q' Hi Hd'.
  apply does_on_cell; try done. apply list_elem_of_In in Hi. unfold in_array in Hl.
  rewrite Forall_forall in Hl. by apply Hl.
Qed.

(** Phase 1. *)

Lemma does_pump_fallback l q : Dom q.1 -> in_array l -> does (Rel true) anything (pump_fallback l) q.
Proof.
  intros Hd. induction l as [|i l IH]; intros Hl; [by apply does_ret|].
  apply Forall_cons_iff in Hl as [Hi Hl]. simpl. apply does_get.
  destruct (sshChannel _) as [c|] eqn:Hc; [|by apply IH].
  destruct (active _ && remoteEof _) eqn:Hae; [|by apply IH]. apply andb_true_iff in Hae as [Ha He].
  assert (holds i (manager q.1)) as Hh by (split; [by apply in_array_range|done]).
  destruct (holds_ready i (manager q.1) (pr_inv _ Hd) Hh) as (c' & Hc' & Hr). rewrite Hc in Hc'. injection Hc' as <-.
  eapply does_then; [|intros; by apply does_ret].
  apply (does_sys _ (ChannelRead c 1)). intros r _. split; [|done].
  rewrite <- (put_cell_id i q.1) at 2 by (by apply pr_inv || by apply in_array_range).
  apply (pr_cell true q.1 i c); try done.
  split_and!; [by apply srel_rx_discard|by repeat constructor|done].
Qed.

Lemma does_pump_channels q : Dom q.1 -> does (Rel true) anything pump_channels q.
Proof.
  intros Hd. unfold pump_channels. apply does_get.
  rewrite (pr_slots _ Hd).
  eapply does_then; [by apply does_field|]. intros u q1 Hd1. apply does_get, does_get.
  eapply does_then.
  { apply does_cells; [done|apply rr_order_in_array|apply pump_slot_skips|].
    intros c fd x Hx. apply does_pump_slot; [by apply pr_buf|done|done]. }
  intros u1 q2 Hd2. apply does_get, does_when; [done|]. intros _.
  apply does_pump_fallback; [done|apply seqZ_in_array].
Qed.

Lemma does_pumpSshTransport q : Dom q.1 -> does (Rel false) anything pumpSshTransport q.
Proof. intros Hd. apply does_session_locked; [done|]. apply does_pump_channels. Qed.

(** Phases 2 and 3. *)

Lemma does_drainSshToLocal q : Dom q.1 -> does (Rel false) anything drainSshToLocal q.
Proof.
  intros Hd. unfold drainSshToLocal. do 3 apply does_get.
  rewrite (pr_slots _ Hd).
  apply does_cells; [done|apply rr_order_in_array|apply drain_slot_local_skips|].
  intros c fd x Hx. apply does_drain_slot_local; [by apply pr_buf|done].
Qed.

Lemma does_drainLocalToSsh q : Dom q.1 -> does (Rel false) anything drainLocalToSsh q.
Proof.
  intros Hd. unfold drainLocalToSsh. apply does_get. destruct (_ =? 0); [by apply does_ret|].
  do 3 apply does_get. rewrite (pr_slots _ Hd).
  eapply does_then.
  { apply does_cells; [done|apply rr_order_in_array|apply drain_slot_remote_skips|].
    intros c fd x Hx. apply does_drain_slot_remote; [by apply pr_buf|done]. }
  intros u q1 Hd1. by apply does_field.
Qed.

(** Phase 4. *)

Lemma push_bounded_in_array arrSize i l : 0 <= i < n -> in_array l -> in_array (push_bounded arrSize i l).
Proof.
  intros Hi Hl. unfold push_bounded. destruct (_ <? _); [|done]. apply Forall_app_2; [done|]. constructor; [done|constructor].
Qed.

Lemma does_hard_abandon i q : Dom q.1 -> holds i (manager q.1) ->
  does (Rel false) anything (hard_abandon i) q.
Proof.
  intros Hd Hh. unfold hard_abandon. apply does_get. eapply does_then.
  { by apply pr_abandon. }
  intros u q1 Hd1. eapply does_then; [by apply does_field|]. intros. by apply does_field.
Qed.

Definition both_in_array (r : list Z * list Z) (_ : Pump R) : Prop := in_array r.1 /\ in_array r.2.

Lemma does_drain_scan now arrSize l eofs closes q :
  Dom q.1 -> in_array l -> in_array eofs -> in_array closes ->
  does (Rel false) both_in_array (drain_scan now arrSize l eofs closes) q.
Proof.
  revert eofs closes q. induction l as [|i l IH]; intros eofs closes q Hd Hl He Hc; [by apply does_ret|].
  apply Forall_cons_iff in Hl as [Hi Hl]. simpl. apply does_get.
  destruct (negb (active _) || _) eqn:Hact; [by apply IH|].
  apply orb_false_iff in Hact as [Ha%negb_false_iff _].
  destruct (drain_verdict _ _); [by apply IH|..].
  - apply IH; try done. by apply push_bounded_in_array.
  - apply IH; try done. by apply push_bounded_in_array.
  - eapply does_bind; [apply does_hard_abandon; [done|split; [by apply in_array_range|done]]|].
    intros. by apply IH.
Qed.

Lemma does_finalize_slot i q : Dom q.1 -> 0 <= i < n -> does (Rel true) anything (finalize_slot i) q.
Proof.
  intros Hd Hi. unfold finalize_slot. apply does_get. eapply does_then.
  { by apply pr_finalize; [|apply in_array_range]. }
  intros ok q1 Hd1. apply does_when; [done|]. intros _. by apply does_field.
Qed.

Lemma does_checkCloses q : Dom q.1 -> does (Rel false) anything checkCloses q.
Proof.
  intros Hd. unfold checkCloses. apply does_get.
  rewrite (pr_slots _ Hd).
  apply does_clock; [done|]. intros now q1 Hd1. apply does_get. eapply does_then.
  { apply does_cells; [done|apply seqZ_in_array|apply open_step_skips|].
    intros c fd x Hx. by apply does_open_step. }
  intros u q2 Hd2. apply does_clock; [done|]. intros now' q3 Hd3. cbv zeta.
  eapply (does_bind both_in_array).
  { apply does_drain_scan; [done|apply seqZ_in_array|constructor|constructor]. }
  intros [eofs closes] q4 Hd4 [He Hc]. cbn [fst snd] in *. eapply does_then.
  { apply does_when; [done|]. intros _. apply does_session_locked; [done|]. intros q5 Hd5.
    apply does_cells; [done|done|apply send_eof_slot_skips|]. intros c fd x Hx. by apply does_send_eof_slot. }
  intros u5 q5 Hd5. apply does_when; [done|]. intros _. apply does_session_locked; [done|]. intros q6 Hd6.
  apply does_for_each; [|done]. intros i q7 Hi Hd7. apply does_finalize_slot; [done|].
  apply list_elem_of_In in Hi. unfold in_array in Hc. rewrite Forall_forall in Hc. by apply Hc.
Qed.

Lemma does_pumpAll q : Dom q.1 -> does (Rel false) anything pumpAll q.
Proof.
  intros Hd. unfold pumpAll. apply does_get. destruct (_ || _); [by apply does_ret|].
  eapply does_then; [by apply does_field|]. intros u q1 Hd1.
  eapply does_then; [by apply does_pumpSshTransport|]. intros u1 q2 Hd2.
  eapply does_then; [by apply does_drainSshToLocal|]. intros u2 q3 Hd3.
  eapply does_then; [by apply does_drainLocalToSsh|]. intros u3 q4 Hd4.
  eapply does_then; [by apply does_checkCloses|]. intros u4 q5 Hd5.
  apply does_get. by apply does_ret.
Qed.

(** Any number of cycles. *)
Definition cycles (k : nat) : M (Pump R * world Env) unit :=
  for_each (replicate k tt) (fun _ => _ <- pumpAll;; ret tt).

Lemma does_cycles k q : Dom q.1 -> does (Rel false) anything (cycles k) q.
Proof.
  intros Hd. apply does_for_each; [|done]. intros u q' _ Hd'.
  eapply does_then; [by apply does_pumpAll|]. intros. by apply does_ret.
Qed.

End Phases.

(** [prel] is a pump relation. *)
Section PrelInstance.
Context {R : Type} {BR : ByteRing R} {BL : ByteRingLaws R} {Env : Type} {P : Platform Env} {T : Target}.
Implicit Types p : Pump R.
Implicit Types q : Pump R * world Env.
Context (n : Z).
Abbreviation pump_dom := (pump_dom n).
Abbreviation prel := (prel n).

(** A program of the manager run inside the pump. *)
Lemma does_on_manager {A} h (Q : A -> ChannelManager R -> Prop) (Q' : A -> Pump R -> Prop)
    (prog : M (ChannelManager R * world Env) A) q :
  pump_dom q.1 -> does (grel h) Q prog (manager q.1, q.2) ->
  (forall a p, Q a (manager p) -> Q' a p) -> does (prel h) Q' (on_manager prog) q.
Proof.
  intros Hd Hm HQ. destruct q as [p w]. unfold does, on_manager. apply wp_focus_pair.
  unfold does in Hm. eapply wp_conseq; [exact Hm|]. intros a t (evs & R1 & G & Ha).
  exists evs. split_and!; [exact R1|by split_and!|by apply HQ].
Qed.

#[export] Instance prel_pump : PumpRelation (Env := Env) n pump_dom prel.
Proof.
  split; [apply _|by intros p [[? _] _]|by intros p (_ & ? & _)|by intros p (_ & _ & ?)|
    by intros h p evs p' (_ & _ & ? & _)|intros h p p'; apply prel_same|..].
  - intros h p r Hd. split_and!; try done. by apply grel_control; [apply Hd|..].
  - intros h p i c evs x' Hd Hh Hc Hx. split_and!; try done.
    by apply (grel_cell h i c (manager p) (cell_of i p) x' evs); [apply Hd|..].
  - intros i q Hd Hr. eapply does_on_manager; [done|eapply does_any, finalizeClose_grel; [apply Hd|done]|done].
  - intros h i reason q Hd Hh. eapply does_on_manager; [done|by apply abandonSlot_grel; [apply Hd|]|done].
Qed.

End PrelInstance.

(** ** Properties of pump cycles *)
Section Properties.
Context {R : Type} {BR : ByteRing R} {BL : ByteRingLaws R} {Env : Type} {P : Platform Env} {T : Target}.
Implicit Types m : ChannelManager R.
Implicit Types q : Pump R * world Env.

(** What a slot still holds for each side. *)
Definition pending_local (j : Z) (p : Pump R) : list byte := bytes_of (toLocal (getSlot j (manager p))).
Definition pending_remote (j : Z) (p : Pump R) : list byte := bytes_of (toRemote (getSlot j (manager p))).

Lemma cycles_slot n k q j c :
  pump_dom n q.1 -> holds j (manager q.1) -> sshChannel (getSlot j (manager q.1)) = Some c ->
  let q' := snd (cycles k q) in
  exists evs, ran q evs q' /\ grel false (manager q.1) evs (manager q'.1) /\
    (exists st, td_run c (td_of (getSlot j (manager q.1))) evs = Some st) /\
    (active (getSlot j (manager q'.1)) = true ->
     srel c (localSocket (getSlot j (manager q.1))) (getSlot j (manager q.1)) evs
       (getSlot j (manager q'.1))).
Proof.
  intros Hd [Hr Ha] Hc q'. pose proof (does_cycles (Rel := prel n) k q Hd) as H. unfold does, wp in H. fold q' in H.
  destruct H as (evs & R1 & (_ & G & _) & _). exists evs. split; [done|]. split; [done|].
  pose proof (gr_slot _ _ _ _ G j Hr) as E. unfold evolves in E. rewrite Ha in E. by apply E.
Qed.

(** Without a [send] that failed for good, what was taken is what was accepted. *)
Lemma local_taken_all fd evs : local_lost fd evs = [] -> local_taken fd evs = local_out fd evs.
Proof.
  unfold local_lost, local_taken, local_out. induction evs as [|ev evs IH]; [done|].
  rewrite !bind_cons. intros [E1 E2]%app_nil. by rewrite E1, IH, app_nil_r.
Qed.

(** C1: for a pump whose buffer is not empty and fits the put-back area of a ring
    ([pump_dom], what [init] establishes), over any number of cycles and whatever the
    environment answers, a channel that is in use before and after keeps both byte
    streams in order.  Towards SSH there is no loss, duplication or reordering at
    all: what was buffered followed by what the local socket delivered is what the
    channel accepted followed by what is still buffered.  Towards the local side the
    statement is about a run in which the tunnel has not sent its own EOF on the
    channel ([eof_unsent]), and about the bytes read before the remote end of stream
    ([payload]): what was buffered followed by these bytes is what the local socket
    took followed by what is still buffered, where the bytes of a [send] that failed
    for good count as taken; if no [send] failed so, the local socket accepted them
    all. *)
Theorem pump_streams_in_order n k q j c :
  pump_dom n q.1 -> holds j (manager q.1) -> sshChannel (getSlot j (manager q.1)) = Some c ->
  let fd := localSocket (getSlot j (manager q.1)) in
  let eof := remoteEof (getSlot j (manager q.1)) in
  let q' := snd (cycles k q) in
  active (getSlot j (manager q'.1)) = true ->
  exists evs, ran q evs q' /\
    pending_remote j q.1 ++ local_in fd evs = ssh_out c evs ++ pending_remote j q'.1 /\
    (eof_unsent c evs ->
       pending_local j q.1 ++ payload c eof evs = local_taken fd evs ++ pending_local j q'.1 /\
       (local_lost fd evs = [] ->
        pending_local j q.1 ++ payload c eof evs = local_out fd evs ++ pending_local j q'.1)).
Proof.
  intros Hd Hj Hc fd eof q' Ha. destruct (cycles_slot n k q j c Hd Hj Hc) as (evs & R1 & _ & _ & S).
  specialize (S Ha). exists evs. split; [done|]. split; [apply S|]. intros He.
  destruct (sr_in _ _ _ _ _ S He) as (E & _). split; [exact E|]. intros Hl. by rewrite <- local_taken_all.
Qed.

(** C8: the statistics of a channel that stays in use, on the 32-bit counters: sent is
    exactly what the SSH channel accepted; and as long as the tunnel has not sent its
    own EOF on the channel ([eof_unsent]; bytes read behind it are stored without being
    counted), received is exactly what was read before the remote end of stream, and
    dropped exactly what a [send] that failed for good discarded. *)
Theorem pump_counts_exactly n k q j c :
  pump_dom n q.1 -> holds j (manager q.1) -> sshChannel (getSlot j (manager q.1)) = Some c ->
  let s := getSlot j (manager q.1) in
  let q' := snd (cycles k q) in
  let s' := getSlot j (manager q'.1) in
  active s' = true ->
  exists evs, ran q evs q' /\
    u32 (totalBytesSent s') = u32 (totalBytesSent s + zlen (ssh_out c evs)) /\
    (eof_unsent c evs ->
       u32 (totalBytesReceived s') = u32 (totalBytesReceived s + zlen (payload c (remoteEof s) evs)) /\
       u32 (totalBytesDropped s') = u32 (totalBytesDropped s + zlen (local_lost (localSocket s) evs))).
Proof.
  intros Hd Hj Hc s q' s' Ha. destruct (cycles_slot n k q j c Hd Hj Hc) as (evs & R1 & _ & _ & S).
  specialize (S Ha). exists evs. split; [done|]. split; [apply S|]. intros He. by apply S.
Qed.

(** C5: the pump calls libssh2 only while it holds the session mutex, never
    takes the mutex twice and always gives it back. *)
Theorem pump_lock_discipline n k q :
  pump_dom n q.1 ->
  let q' := snd (cycles k q) in
  exists evs, ran q evs q' /\ lock_run false evs = Some false.
Proof.
  intros Hd q'. pose proof (does_cycles (Rel := prel n) k q Hd) as H. unfold does, wp in H. fold q' in H.
  destruct H as (evs & R1 & (_ & G & _) & _). exists evs. split; [done|]. apply G.
Qed.

(** C29: the pump touches only the channels and sockets of slots in use; on each
    channel its calls follow the teardown protocol, so none is made on a freed
    channel; afterwards the manager is well formed, handles are distinct, and
    no slot has come into use. *)
Theorem pump_touches_only_owned n k q :
  pump_dom n q.1 ->
  let q' := snd (cycles k q) in
  exists evs, ran q evs q' /\ Forall (owned (manager q.1)) evs /\
    (forall j c, holds j (manager q.1) -> sshChannel (getSlot j (manager q.1)) = Some c ->
       is_Some (td_run c (td_of (getSlot j (manager q.1))) evs)) /\
    mgr_inv (manager q'.1) /\ distinct (manager q'.1) /\
    (forall j, holds j (manager q'.1) -> holds j (manager q.1)).
Proof.
  intros Hd q'. pose proof (does_cycles (Rel := prel n) k q Hd) as H. unfold does, wp in H. fold q' in H.
  destruct H as (evs & R1 & (_ & G & _) & _). exists evs. split_and!; [done|apply G| |apply G|apply G|].
  - intros j c [Hr Ha] Hc. pose proof (gr_slot _ _ _ _ G j Hr) as E. unfold evolves in E. rewrite Ha in E.
    by destruct (E c Hc).
  - intros j Hj. by destruct (grel_held _ _ _ _ _ (proj1 (proj1 Hd)) G Hj).
Qed.

(** the life of a channel only moves forward: it stays open, or starts to
    drain, or is released; end-of-stream marks are never taken back; and a free
    slot is left exactly as it is. *)
Theorem pump_lifecycle n k q j :
  pump_dom n q.1 -> out_of_range j (manager q.1) = false ->
  let s := getSlot j (manager q.1) in
  let s' := getSlot j (manager (snd (cycles k q)).1) in
  (active s = false -> s' = s) /\
  (active s = true -> active s' = true ->
     sshChannel s' = sshChannel s /\ localSocket s' = localSocket s /\
     (state s' = state s \/ (state s = Open /\ state s' = Draining)) /\
     (localEof s = true -> localEof s' = true) /\ (remoteEof s = true -> remoteEof s' = true)) /\
  (active s' = false -> sshChannel s' = None /\ localSocket s' = -1).
Proof.
  intros Hd Hr s s'. pose proof (does_cycles (Rel := prel n) k q Hd) as H. unfold does, wp in H.
  destruct H as (evs & R1 & (_ & G & _) & _). pose proof (gr_slot _ _ _ _ G j Hr) as E.
  fold s s' in E. unfold evolves in E. split; [by intros Ha; rewrite Ha in E|]. split.
  - intros Ha Ha'. rewrite Ha in E.
    destruct (holds_ready j (manager q.1) (proj1 (proj1 Hd))) as (c & Hc & _); [done|].
    destruct (E c Hc) as [_ S]. specialize (S Ha'). destruct (sr_ready _ _ _ _ _ S) as [_ C1 F1 _].
    split_and!; [by rewrite C1, <- Hc|done|apply S..].
  - intros Ha'. pose proof (mgr_inv_slot j (manager (snd (cycles k q)).1) (proj1 (gr_ok _ _ _ _ G))) as Hs.
    rewrite (range_eq _ _ _ (gr_max _ _ _ _ G)) in Hs. specialize (Hs Hr). fold s' in Hs.
    unfold slot_inv in Hs. rewrite Ha' in Hs. destruct Hs. done.
Qed.

End Properties.

(** ** A concrete pump *)
Section Example.
#[local] Existing Instance esp32_target.

(** One bound channel; the peer and the local server each deliver a few bytes,
    and the channel accepts one byte less than offered. *)
Definition example_pump : Pump wrap_ring * world script :=
  (mkPump (new_pump <| session_ := true |> <| channels_ := true |> <| rxBuf_ := true |>
       <| txBuf_ := true |> <| bufSize_ := 4096 |>)
     example_bound.1 true false,
   World (idle_script <| sc_reads := [(5, [x68; x65; x6c; x6c; x6f])] |>
       <| sc_recvs := [(3, 0, [x61; x62; x63])] |> <| sc_writes := [2] |>) []).

Lemma example_pump_dom : pump_dom 2 example_pump.1.
Proof.
  assert (mgr_inv (manager example_pump.1)) as Hi by exact example_bound_inv.
  split; [split; [exact Hi|]|split; [by vm_compute|by vm_compute]].
  assert (forall k, holds k (manager example_pump.1) -> k = 0) as H0.
  { intros k [Hr Ha]. apply out_of_range_nonneg in Hr.
    change (maxSlots_ (manager example_pump.1)) with 2 in Hr.
    destruct (decide (k = 0)) as [|Hne]; [done|]. replace k with 1 in Ha by lia.
    exfalso. vm_compute in Ha. discriminate. }
  intros i j Hi' Hj' Hne. by rewrite (H0 i Hi'), (H0 j Hj') in Hne.
Qed.

Lemma example_pump_holds : holds 0 (manager example_pump.1).
Proof. split; by vm_compute. Qed.

Lemma pump_streams_in_order_witness :
  active (getSlot 0 (manager (snd (cycles 2 example_pump)).1)) = true /\
  exists evs, ran example_pump evs (snd (cycles 2 example_pump)) /\
    local_in 50 evs = ssh_out 7 evs ++ pending_remote 0 (snd (cycles 2 example_pump)).1 /\
    local_in 50 evs = [x61; x62; x63] /\ local_taken 50 evs = [x68; x65; x6c; x6c; x6f].
Proof.
  split; [by vm_compute|].
  pose proof (pump_streams_in_order 2 2 example_pump 0 7 example_pump_dom example_pump_holds) as H.
  specialize (H ltac:(by vm_compute) ltac:(by vm_compute)). cbn zeta in H.
  destruct H as (evs & R1 & H1 & H2).
  replace (pending_remote 0 example_pump.1) with (@nil byte) in H1 by (by vm_compute).
  replace (localSocket (getSlot 0 (manager example_pump.1))) with 50 in H1 by (by vm_compute).
  rewrite app_nil_l in H1. exists evs. split; [exact R1|]. split; [exact H1|].
  assert (evs = w_trace (snd (cycles 2 example_pump)).2) as E by exact (eq_sym R1).
  rewrite E. split; by vm_compute.
Defined.

Lemma pump_counts_exactly_witness :
  totalBytesSent (getSlot 0 (manager (snd (cycles 2 example_pump)).1)) = 2 /\
  exists evs, ran example_pump evs (snd (cycles 2 example_pump)) /\ zlen (ssh_out 7 evs) mod 2 ^ 32 = 2.
Proof.
  split; [by vm_compute|].
  pose proof (pump_counts_exactly 2 2 example_pump 0 7 example_pump_dom example_pump_holds) as H.
  specialize (H ltac:(by vm_compute) ltac:(by vm_compute)). cbn zeta in H.
  destruct H as (evs & R1 & H1 & _). exists evs. split; [done|].
  replace (totalBytesSent (getSlot 0 (manager example_pump.1))) with 0 in H1 by (by vm_compute).
  rewrite Z.add_0_l in H1. unfold u32 in H1. rewrite <- H1. by vm_compute.
Defined.

Lemma pump_lock_discipline_witness :
  exists evs, ran example_pump evs (snd (cycles 2 example_pump)) /\ lock_run false evs = Some false.
Proof. exact (pump_lock_discipline 2 2 example_pump example_pump_dom). Defined.

Lemma pump_touches_only_owned_witness :
  mgr_inv (manager (snd (cycles 2 example_pump)).1).
Proof.
  pose proof (pump_touches_only_owned 2 2 example_pump example_pump_dom) as H. cbn zeta in H.
  by destruct H as (evs & _ & _ & _ & H & _).
Defined.

Lemma pump_lifecycle_witness :
  getSlot 1 (manager (snd (cycles 2 example_pump)).1) = getSlot 1 (manager example_pump.1).
Proof.
  apply (pump_lifecycle 2 2 example_pump 1 example_pump_dom); by vm_compute.
Defined.

End Example.
