(* ===== verification/Owners.v ===== *)
(** * What the slots own

    A slot in use owns its SSH channel and its local socket ([own]).  Every
    operation of the manager and every pump cycle moves these assets without
    misusing a channel and without losing a socket.  For the pump this is a
    second instance of the interface of Cycle.v, next to [prel]; unlike [prel]
    it does not assume that handles are distinct. *)

From S2P Require Import Prelude Platform Handles Policies Ring Breaker Config Net Channel Lock Transport Flow Cycle.

Section Own.
Context {R : Type} {BR : ByteRing R} {BL : ByteRingLaws R} {T : Target}.
Implicit Types s : ChannelSlot R.
Implicit Types m : ChannelManager R.

Definition slot_chan s : option chan := if active s then sshChannel s else None.
Definition slot_fd s : option Z := if active s then Some (localSocket s) else None.

Definition own m : assets :=
  Assets (omap slot_chan (slot_list m)) (omap slot_fd (slot_list m)).

Lemma omap_swap {A B} (f : A -> option B) l k a b : l !! k = Some a ->
  option_list (f b) ++ omap f l ≡ₚ option_list (f a) ++ omap f (<[k := b]> l).
Proof.
  intros Hl. rewrite <- (take_drop_middle l k a Hl) at 1.
  rewrite insert_take_drop by (by eapply lookup_lt_Some).
  rewrite !omap_app. cbn [omap list_omap]. destruct (f a), (f b); cbn; solve_Permutation.
Qed.

Lemma own_setSlot i s' m : mgr_inv m -> out_of_range i m = false ->
  option_list (slot_chan s') ++ a_chans (own m) ≡ₚ
    option_list (slot_chan (getSlot i m)) ++ a_chans (own (setSlot i s' m)) /\
  option_list (slot_fd s') ++ a_fds (own m) ≡ₚ
    option_list (slot_fd (getSlot i m)) ++ a_fds (own (setSlot i s' m)).
Proof.
  intros Hi Hr. destruct (in_range_lookup i m Hi Hr) as [_ Hl]. unfold own. rewrite slot_list_setSlot.
  split; by apply omap_swap.
Qed.

(** The assets depend on the slots only. *)
Lemma own_slots m m' : slots_ m' = slots_ m -> own m' = own m.
Proof. intros E. unfold own, slot_list. by rewrite E. Qed.

Lemma own_same i s' m : mgr_inv m -> out_of_range i m = false ->
  slot_chan s' = slot_chan (getSlot i m) -> slot_fd s' = slot_fd (getSlot i m) ->
  aequiv (own m) (own (setSlot i s' m)).
Proof.
  intros Hi Hr E1 E2. destruct (own_setSlot i s' m Hi Hr) as [H1 H2]. rewrite E1 in H1. rewrite E2 in H2.
  split; by eapply Permutation_app_inv_l.
Qed.

(** A channel and a socket besides. *)
Definition plus (c : chan) (fd : Z) (a : assets) : assets := Assets (c :: a_chans a) (fd :: a_fds a).

(** A slot that is given up gives back what it owned. *)
Lemma own_release i s' m c : mgr_inv m -> holds i m -> sshChannel (getSlot i m) = Some c ->
  active s' = false ->
  aequiv (own m) (plus c (localSocket (getSlot i m)) (own (setSlot i s' m))).
Proof.
  intros Hi [Hr Ha] Hc Ha'. destruct (own_setSlot i s' m Hi Hr) as [H1 H2].
  unfold slot_chan, slot_fd in H1, H2. rewrite Ha, Ha', ?Hc in *. by split.
Qed.

(** A slot that comes into use owns its channel and its socket. *)
Lemma own_bind i s' m c : mgr_inv m -> out_of_range i m = false -> active (getSlot i m) = false ->
  active s' = true -> sshChannel s' = Some c ->
  aequiv (plus c (localSocket s') (own m)) (own (setSlot i s' m)).
Proof.
  intros Hi Hr Ha Ha' Hc. destruct (own_setSlot i s' m Hi Hr) as [H1 H2].
  unfold slot_chan, slot_fd in H1, H2. rewrite Ha, Ha', ?Hc in *. by split.
Qed.

(** The calls of a phase use the slot's channel only, and keep its socket open. *)
Lemma data_event_uses c fd evs : Forall (data_event c fd) evs ->
  Forall (fun ev => uses c ev = true) evs /\ opened evs = [] /\ closed evs = [].
Proof.
  induction 1 as [|[cl r] evs Hd _ (I1 & I2 & I3)]; [done|]. unfold opened, closed in *.
  rewrite !bind_cons, I2, I3. unfold data_event in Hd.
  split_and!; [constructor; [|done]|..]; destruct cl; try done; cbn in Hd; subst; apply bool_decide_eq_true; auto.
Qed.

Lemma teardown_quiet c evs : Forall (teardown_event c) evs ->
  opened evs = [] /\ closed evs = [] /\ accepted evs = [].
Proof.
  unfold opened, closed, accepted. induction 1 as [|[cl r] evs Hev _ (I1 & I2 & I3)]; [done|].
  rewrite !bind_cons, I1, I2, I3. unfold teardown_event in Hev. by destruct cl.
Qed.

(** A teardown that the automaton accepts frees the channel at most once, at its
    end. *)
Lemma teardown_moves c st evs st' l :
  Forall (teardown_event c) evs -> td_run c st evs = Some st' -> st <> TdFreed ->
  chan_moves (c :: l) evs (match st' with TdFreed => l | _ => c :: l end).
Proof.
  intros He. revert st. induction He as [|[cl r] evs Hev He IH]; intros st Ht Hst.
  { injection Ht as <-. destruct st; try done; apply chan_moves_refl. }
  unfold teardown_event in Hev. cbn in Hev. destruct cl; try done; subst c0; cbn [td_run td_step] in Ht;
    rewrite Z.eqb_refl in Ht; destruct st; try done; cbn [mbind option_bind] in Ht;
    match type of Ht with td_run _ (if ?b then _ else _) _ = _ => destruct b eqn:Eb end.
  1,2: eapply (chan_moves_trans _ (c :: l) _ [_]);
    [apply chan_moves_use; constructor; [by apply bool_decide_eq_true; right|constructor]|by eapply IH].
  - eapply (chan_moves_trans _ (c :: l) _ [_]); [by apply chan_moves_retry|by eapply IH].
  - assert (evs = []) as ->.
    { destruct He as [|[cl' r'] evs' Hev' _]; [done|]. unfold teardown_event in Hev'. cbn in Hev'.
      destruct cl'; try done; subst; cbn [td_run td_step] in Ht; by rewrite Z.eqb_refl in Ht. }
    injection Ht as <-. apply chan_moves_free.
Qed.

End Own.

(** ** Operations of the manager *)
Section Operations.
Context {R : Type} {BR : ByteRing R} {BL : ByteRingLaws R} {Env : Type} {P : Platform Env} {T : Target}.
Implicit Types m : ChannelManager R.
Implicit Types q : ChannelManager R * world Env.

(** A run of the manager, starting and ending with [k] and [k'] in hand. *)
Record steps_to (k : assets) m (evs : list event) (k' : assets) m' : Prop := {
  st_inv : mgr_inv m';
  st_max : maxSlots_ m' = maxSlots_ m;
  st_moves : moves (also k (own m)) evs (also k' (own m'));
}.

Definition nothing : assets := Assets [] [].
Definition hand (c : chan) : assets := Assets [c] [].

Lemma also_nothing a : aequiv (also nothing a) a.
Proof. unfold also. split; cbn; by rewrite app_nil_r. Qed.

Lemma steps_moves m evs m' : moves (own m) evs (own m') -> moves (also nothing (own m)) evs (also nothing (own m')).
Proof. by rewrite !also_nothing. Qed.

Lemma quiet_moves a evs : Forall quiet evs -> moves a evs a.
Proof.
  intros H. destruct (quiet_sockets _ H). apply moves_silent; [|done|done].
  eapply Forall_impl; [|exact H]. intros [[] r]; done.
Qed.

Lemma allocateSlot_owns q : mgr_inv q.1 ->
  wp allocateSlot (fun r q' => exists evs, ran q evs q' /\ steps_to nothing q.1 evs nothing q'.1 /\
    (0 <= r -> q'.1 = q.1 /\ out_of_range r q.1 = false /\ active (getSlot r q.1) = false)) q.
Proof.
  intros Hi. pose proof (allocateSlot_inv q Hi) as Hinv. pose proof (allocateSlot_ok q Hi) as H.
  unfold wp in *. destruct H as (now & _ & Ha & evs & R1 & Q1). exists evs. split; [done|].
  unfold allocate_result in Ha. split.
  - destruct (0 <=? _).
    { destruct Ha as (E & _). split; [done|by rewrite E|]. apply steps_moves. rewrite E. by apply quiet_moves. }
    destruct Ha as (_ & _ & [E|(i & now' & Hr & Hc & _ & E)]); rewrite E in *.
    + split; [done|done|]. apply steps_moves. by apply quiet_moves.
    + split; [done|done|]. apply steps_moves. rewrite <- own_same; [by apply quiet_moves|done..].
  - intros Hr%Z.leb_le. rewrite Hr in Ha. destruct Ha as (E & Hrange & Hall & _). split_and!; [done|done|].
    change (active (getSlot (fst (allocateSlot q)) q.1)) with (SlotAlloc.slot_active (getSlot (fst (allocateSlot q)) q.1)).
    unfold SlotAlloc.allocatable in Hall. by destruct (SlotAlloc.slot_active _).
Qed.

Lemma finalizeClose_owns i q : mgr_inv q.1 -> out_of_range i q.1 = false ->
  wp (finalizeClose i) (fun _ q' => exists evs, ran q evs q' /\ steps_to nothing q.1 evs nothing q'.1) q.
Proof.
  intros Hi Hr. destruct (active (getSlot i q.1)) eqn:Ha.
  2:{ unfold finalizeClose, wp, bind, get, gets. rewrite Hr, Ha. cbn [negb ret fst snd]. exists []. destruct q.
      split; [apply ran_nil|]. split; [done|done|apply moves_refl]. }
  pose proof (finalizeClose_inv i q Hi) as Hinv. pose proof (finalizeClose_ok i q Hi Hr Ha) as H.
  unfold wp in *. destruct H as (c & evs & p' & Hc & He & _ & H).
  assert (td_of (getSlot i q.1) <> TdFreed) as Htd by (unfold td_of; rewrite Hc; by destruct (CloseProgress.closeComplete _)).
  destruct (teardown_quiet c evs He) as (Ho & Hcl & Hacc).
  destruct (fst (finalizeClose i q)).
  - destruct H as (rc & now & _ & Ht & Hran & E). eexists. split; [exact Hran|].
    assert (active (finalized p' now (getSlot i q.1)) = false) as Hf by done.
    destruct (given_up_ok i _ q.1 Hi Hr Ha Hf (finalized_inactive p' now _)) as (Hg & _).
    rewrite E in *. split; [done|done|]. apply steps_moves.
    rewrite (own_release i (finalized p' now (getSlot i q.1)) q.1 c) by done.
    split.
    + eapply chan_moves_trans; [exact (teardown_moves c _ evs TdFreed _ He Ht Htd)|].
      apply chan_moves_calm. by events.
    + unfold sock_moves. rewrite opened_app, closed_app, Ho, Hcl. cbn. by rewrite app_nil_r.
    + by rewrite accepted_app, Hacc.
  - destruct H as (Hf & Ht & Hran & E). exists evs. split; [done|].
    rewrite E in *. split; [done|done|]. apply steps_moves.
    rewrite <- (own_same i _ q.1) by done. split.
    + pose proof (own_release i (reset_fields (getSlot i q.1)) q.1 c Hi (conj Hr Ha) Hc eq_refl) as [E1 _].
      cbn [plus a_chans] in E1. rewrite E1.
      assert (td_of ((getSlot i q.1) <| sshCloseProgress := p' |>) <> TdFreed) as Hn
        by (unfold td_of; cbn; rewrite Hc; by destruct (CloseProgress.closeComplete _)).
      pose proof (teardown_moves c _ _ _ (a_chans (own (setSlot i (reset_fields (getSlot i q.1)) q.1))) He Ht Htd) as H.
      by destruct (td_of ((getSlot i q.1) <| sshCloseProgress := p' |>)).
    + unfold sock_moves. by rewrite Ho, Hcl, app_nil_r.
    + done.
Qed.

Lemma abandonSlot_owns i reason q : mgr_inv q.1 ->
  wp (abandonSlot i reason) (fun _ q' => exists evs, ran q evs q' /\ steps_to nothing q.1 evs nothing q'.1 /\
    Forall (fun ev => calm ev = true) evs /\
    (out_of_range i q.1 = false -> active (getSlot i q'.1) = false) /\
    (forall j, 0 <= j -> active (getSlot j q.1) = false -> active (getSlot j q'.1) = false)) q.
Proof.
  intros Hi. destruct (out_of_range i q.1) eqn:Hr.
  { unfold abandonSlot, wp, bind, get, gets. rewrite Hr. cbn. exists []. destruct q.
    split; [apply ran_nil|]. split_and!; try done. split; [done|done|apply moves_refl]. }
  destruct (active (getSlot i q.1)) eqn:Ha.
  2:{ unfold abandonSlot, wp, bind, get, gets. rewrite Hr, Ha. cbn. exists []. destruct q.
    split; [apply ran_nil|]. split_and!; try done. split; [done|done|apply moves_refl]. }
  pose proof (abandonSlot_inv i reason q Hi) as Hinv. pose proof (abandonSlot_ok i reason q Hi Hr Ha) as H.
  unfold wp in *. destruct H as (rc & E & R1). eexists. split; [exact R1|].
  assert (active (reset_fields (getSlot i q.1)) = false) as Hf by done.
  destruct (given_up_ok i _ q.1 Hi Hr Ha Hf (reset_inactive _)) as (Hg & _ & Hother & Hsame & _).
  rewrite E in *. pose proof (mgr_inv_slot i _ Hi Hr) as Hs. unfold slot_inv in Hs. rewrite Ha in Hs.
  destruct (sa_chan _ Hs) as [c Hc]. split_and!.
  - split; [done|done|]. apply steps_moves.
    rewrite (own_release i (reset_fields (getSlot i q.1)) q.1 c) by done.
    change (own (given_up i (reset_fields (getSlot i q.1)) q.1))
      with (own (setSlot i (reset_fields (getSlot i q.1)) q.1)). split.
    + eapply (chan_moves_trans _ _ _ []); [by apply chan_moves_drop, submseteq_cons|].
      apply chan_moves_calm. by events.
    + unfold sock_moves. cbn. by rewrite app_nil_r.
    + done.
  - by events.
  - intros _. by rewrite Hsame.
  - intros j Hj Haj. destruct (decide (j = i)) as [->|Hne]; [by rewrite Hsame|by rewrite Hother].
Qed.

(** A channel in hand is handed to the slot, or stays in hand. *)
Lemma bindChannel_owns i c mapping q : mgr_inv q.1 ->
  wp (bindChannel i c mapping) (fun ok q' => exists evs, ran q evs q' /\
    steps_to (hand c) q.1 evs (if ok then nothing else hand c) q'.1 /\
    if ok then out_of_range i q.1 = false /\ active (getSlot i q.1) = false /\ active (getSlot i q'.1) = true /\
      activeCount_ q'.1 = activeCount_ q.1 + 1
    else activeCount_ q'.1 = activeCount_ q.1) q.
Proof.
  intros Hi. pose proof (bindChannel_ok i c mapping q Hi) as H. unfold wp in *.
  destruct H as (evs & R1 & Hb). pose proof (bind_result_ok _ _ _ _ _ _ _ Hi Hb) as Hinv.
  destruct Hb as [Hu Hb]. exists evs. split; [done|]. destruct (fst (bindChannel i c mapping q)).
  - destruct Hb as (Hr & Ha & fd & now & l & r & Hfd & _ & Il & _ & Ir & _ & Ho & Hcl & E).
    set (s' := bound_slot c fd now l r mapping (getSlot i q.1)) in *.
    rewrite E in *. split_and!; try done.
    + split; [done|done|]. rewrite also_nothing.
      match goal with |- moves _ _ (own ?m) => change (own m) with (own (setSlot i s' q.1)) end.
      rewrite <- (own_bind i s' q.1 c) by done. split; cbn [also plus hand a_chans a_fds].
      * rewrite (Permutation_app_comm _ [c]). by apply chan_moves_use.
      * unfold sock_moves. rewrite Ho, Hcl, app_nil_r. cbn. by rewrite Permutation_app_comm.
      * by eapply uses_accepted.
    + match goal with |- active (getSlot i ?m) = _ => change (getSlot i m) with (getSlot i (setSlot i s' q.1)) end.
      by rewrite getSlot_setSlot.
  - destruct Hb as [Ho Hq].
    assert (slots_ (snd (bindChannel i c mapping q)).1 = slots_ q.1 /\
      maxSlots_ (snd (bindChannel i c mapping q)).1 = maxSlots_ q.1 /\
      activeCount_ (snd (bindChannel i c mapping q)).1 = activeCount_ q.1) as (E1 & E2 & E3)
      by (by destruct Hq as [->|[[now ->]| ->]]).
    split; [|done]. split; [done|done|]. rewrite (own_slots _ _ E1). split; cbn [also hand a_chans a_fds].
    + rewrite (Permutation_app_comm _ [c]). by apply chan_moves_use.
    + unfold sock_moves. rewrite Ho. apply Permutation_app_comm.
    + by eapply uses_accepted.
Qed.

End Operations.

(** ** The pump *)
Section PumpOwns.
Context {R : Type} {BR : ByteRing R} {BL : ByteRingLaws R} {Env : Type} {P : Platform Env} {T : Target}.
Implicit Types p : Pump R.
Implicit Types q : Pump R * world Env.
Context (n : Z).

Definition pump_wf p : Prop :=
  mgr_inv (manager p) /\ 0 < bufSize_ (pump p) <= SSH_TUNNEL_PREPEND_CAPACITY /\ maxSlots_ (manager p) = n.

Definition pump_owns (_ : bool) p (evs : list event) p' : Prop :=
  pump_wf p /\ pump_wf p' /\ mutex p' = mutex p /\ bufSize_ (pump p') = bufSize_ (pump p) /\
  moves (own (manager p)) evs (own (manager p')).

Lemma pump_owns_silent h p evs p' : pump_wf p -> manager p' = manager p -> mutex p' = mutex p ->
  bufSize_ (pump p') = bufSize_ (pump p) -> Forall (fun ev => calm ev = true) evs ->
  opened evs = [] -> closed evs = [] -> pump_owns h p evs p'.
Proof.
  intros Hw E1 E2 E3 He Ho Hc. split_and!; try done.
  - unfold pump_wf. by rewrite E1, E3.
  - rewrite E1. by apply moves_silent.
Qed.

#[export] Instance pump_owns_discipline : LockDiscipline pump_wf pump_owns.
Proof.
  split; [split| |].
  - intros p Hw. apply pump_owns_silent; done || constructor.
  - intros p1 p2 p3 e1 e2 (W1 & _ & M1 & B1 & H1) (_ & W3 & M2 & B2 & H2).
    split_and!; [done|done|congruence|congruence|by eapply moves_trans].
  - by intros p e p' (_ & ? & _).
  - intros p t Hw. apply pump_owns_silent; try done. by events.
  - intros p evs p' t r Hw (_ & W' & M1 & B1 & H1). split_and!; try done.
    eapply (moves_trans _ (own (manager p)) _ [_]); [apply moves_silent; [by events|done|done]|].
    eapply moves_trans; [exact H1|]. apply moves_silent; [by events|done|done].
Qed.

(** A program of the manager run inside the pump. *)
Lemma on_manager_owns {A} h (prog : M (ChannelManager R * world Env) A) q : pump_wf q.1 ->
  wp prog (fun _ (x : ChannelManager R * world Env) =>
    exists evs, ran (manager q.1, q.2) evs x /\ steps_to nothing (manager q.1) evs nothing x.1)
    (manager q.1, q.2) ->
  does (pump_owns h) anything (on_manager prog) q.
Proof.
  intros Hw Hp. destruct q as [p w]. unfold does, on_manager. apply wp_focus_pair.
  eapply wp_conseq; [exact Hp|]. intros a t (evs & R1 & [S1 S2 S3]). exists evs.
  cbn [fst] in *. rewrite !also_nothing in S3. split; [exact R1|]. split; [|exact I]. split; [exact Hw|].
  destruct Hw as (W1 & W2 & W3). split; [|done]. split; [done|]. split; [done|by rewrite <- W3].
Qed.

#[export] Instance pump_owns_pump : PumpRelation (Env := Env) n pump_wf pump_owns.
Proof.
  split; [apply _|by intros p (? & _)|by intros p (_ & ? & _)|by intros p (_ & _ & ?)|
    by intros h p evs p' (_ & _ & ? & _)|..].
  - intros h p p' Hw E1 E2 E3. apply pump_owns_silent; done || constructor.
  - intros h p r Hw. apply pump_owns_silent; try done. by events.
  - intros h p i c evs x' Hw Hh Hc (Hs & Hd & _). pose proof Hw as (W1 & W2 & W3).
    destruct (sr_ready _ _ _ _ _ Hs) as [A1 A2 A3 A4].
    assert (mgr_inv (setSlot i (slot x') (manager p))) as Hi'.
    { apply mgr_inv_setSlot_same; [done|apply Hh|by unfold slot_inv; rewrite A1|by rewrite A1, (proj2 Hh)]. }
    destruct (data_event_uses _ _ _ Hd) as (U & Ho & Hcl).
    split; [done|]. split; [by split|]. split; [done|]. split; [done|].
    change (own (manager (put_cell i x' p))) with (own (setSlot i (slot x') (manager p))).
    rewrite <- (own_same i (slot x') (manager p)); [|done|apply Hh|..].
    2,3: unfold slot_chan, slot_fd; rewrite A1, (proj2 Hh), ?A2, ?A3; done.
    rewrite (own_release i (reset_fields (slot x')) (manager p) c) by done.
    split; [by apply chan_moves_use| |by eapply uses_accepted]. unfold sock_moves. by rewrite Ho, Hcl, app_nil_r.
  - intros i q Hw Hr. apply on_manager_owns; [done|]. apply finalizeClose_owns; [apply Hw|done].
  - intros h i reason q Hw Hh. apply on_manager_owns; [done|].
    eapply wp_conseq; [apply abandonSlot_owns, Hw|]. intros u q' (evs & R1 & S1 & _). by exists evs.
Qed.

Lemma pumpAll_owns q : pump_wf q.1 -> does (pump_owns false) anything pumpAll q.
Proof. apply does_pumpAll. Qed.

End PumpOwns.
