(* ===== verification/HttpDiag.v ===== *)
(** * The HTTP request observer (ssh_transport.cpp, diagnostics build)

    With [TUNNEL_DIAG_LOG_ONLY] the pump lets every channel's slot watch the
    bytes that pass: [observeSshToLocal] collects the head of the first request
    and parses it, [logLocalWriteOnce] and [logLocalResponseOnce] report the
    first bytes that move on, and [logChannelsWithoutRequest] warns of a channel
    on which a stage does not happen.

    Pointers are offsets into the array they point to.  A value of type
    [option A] is the answer of code that may read or write outside its arrays:
    [None] stands for such an access and for a loop that does not end;
    [observer_safe] (HttpDiagFacts.v) shows that it never comes about.

    The last part is a reference parser on whole byte strings; HttpDiagFacts.v
    proves that the observer computes it. *)

From S2P Require Import Prelude.

#[local] Open Scope nat_scope.

Abbreviation NUL := x00 (only parsing).
Abbreviation HT := x09 (only parsing).
Abbreviation LF := x0a (only parsing).
Abbreviation CR := x0d (only parsing).
Abbreviation SP := x20 (only parsing).
Abbreviation COLON := x3a (only parsing).

(** The bytes of a string literal, without its NUL. *)
Abbreviation bytes := String.list_byte_of_string.

(** ** C strings and pointers *)

(** [tolower] of the C locale, on an [unsigned char]. *)
Definition tolower_byte (b : byte) : byte :=
  let n := Byte.to_N b in
  if ((65 <=? n) && (n <=? 90))%N then default b (Byte.of_N (n + 32)) else b.

Definition isdigit (b : byte) : bool :=
  let n := Byte.to_N b in ((48 <=? n) && (n <=? 57))%N.

(** [b - '0'] *)
Definition digit_value (b : byte) : Z := (Z.of_N (Byte.to_N b) - 48)%Z.

(** [p - q] for two pointers into one array, used as a [size_t]: a negative
    difference is a size beyond every array. *)
Definition ptr_diff (p q : nat) : option nat := if q <=? p then Some (p - q) else None.

(** [m[i] == c] *)
Definition is_at (m : list byte) (i : nat) (c : byte) : option bool :=
  x ← m !! i; Some (Byte.eqb x c).

(** [p && q]: [q] is not evaluated when [p] is false. *)
Definition and_also (p q : option bool) : option bool :=
  b ← p; if b : bool then q else Some false.

(** [memchr(m + p, c, n)]: the inner [None] is the null pointer. *)
Fixpoint memchr (m : list byte) (p : nat) (c : byte) (n : nat) : option (option nat) :=
  match n with
  | O => Some None
  | S n' => x ← m !! p; if Byte.eqb x c then Some (Some p) else memchr m (S p) c n'
  end.

(** [memcmp(m, s, n) == 0] *)
Fixpoint mem_equal (m s : list byte) (i n : nat) : option bool :=
  match n with
  | O => Some true
  | S n' =>
      x ← m !! i; y ← s !! i;
      if Byte.eqb x y then mem_equal m s (S i) n' else Some false
  end.

(** [memcpy(dst + p, src, n)] of bytes already read. *)
Definition store (dst : list byte) (p : nat) (bs : list byte) : option (list byte) :=
  if p + length bs <=? length dst
  then Some (take p dst ++ bs ++ drop (p + length bs) dst) else None.

(** [n] bytes read from [m + p]. *)
Definition load (m : list byte) (p n : nat) : option (list byte) :=
  if p + n <=? length m then Some (take n (drop p m)) else None.

(** What [%s] prints: the bytes before the first NUL of the array. *)
Fixpoint c_string (m : list byte) : option (list byte) :=
  match m with
  | [] => None
  | b :: m' => if Byte.eqb b NUL then Some [] else cons b <$> c_string m'
  end.

(** ** The parts of the parser *)

(** The loop of [ciEquals] at index [i], [n] rounds before its end. *)
Fixpoint ciEquals_from (m : list byte) (a : nat) (b : list byte) (i n : nat) : option bool :=
  match n with
  | O => Some true
  | S n' =>
      x ← m !! (a + i); y ← b !! i;
      if Byte.eqb (tolower_byte x) (tolower_byte y) then ciEquals_from m a b (S i) n'
      else Some false
  end.

Definition ciEquals (m : list byte) (a : nat) (b : list byte) (len : nat) : option bool :=
  ciEquals_from m a b 0 len.

(** The loop that skips blanks at the start of a header value. *)
Fixpoint skip_blanks (fuel : nat) (m : list byte) (value lineLimit : nat) : option nat :=
  match fuel with
  | O => None
  | S fuel' =>
      if value <? lineLimit then
        x ← m !! value;
        if Byte.eqb x SP || Byte.eqb x HT then skip_blanks fuel' m (S value) lineLimit
        else Some value
      else Some value
  end.

(** [if (lineLimit > p && lineLimit[-1] == '\r') --lineLimit;] *)
Definition trim_cr (m : list byte) (p lineEnd : nat) : option nat :=
  c ← and_also (Some (p <? lineEnd)) (is_at m (lineEnd - 1) CR);
  Some (if c : bool then lineEnd - 1 else lineEnd).

(** The loop of [findHeaderValue] with its cursor. *)
Fixpoint findHeaderValue_from (fuel : nat) (m : list byte) (end_ : nat)
    (headerName : list byte) (cursor : nat) : option (option nat) :=
  match fuel with
  | O => None
  | S fuel' =>
      if cursor <? end_ then
        n ← ptr_diff end_ cursor;
        r ← memchr m cursor LF n;
        let lineEnd := default end_ r in
        lineLimit ← trim_cr m cursor lineEnd;
        len ← ptr_diff lineLimit cursor;
        hit ← and_also (Some (length headerName <? len))
                (and_also (is_at m (cursor + length headerName) COLON)
                   (ciEquals m cursor headerName (length headerName)));
        if hit : bool then
          Some <$> skip_blanks (S len) m (cursor + length headerName + 1) lineLimit
        else
          findHeaderValue_from fuel' m end_ headerName
            (if lineEnd <? end_ then lineEnd + 1 else end_)
      else Some None
  end.

Definition findHeaderValue (m : list byte) (headers len : nat) (headerName : list byte)
  : option (option nat) :=
  findHeaderValue_from (S len) m (headers + len) headerName headers.

(** [copyToken(dst, dstSize, begin, end)]; the tokens point into [m], a null
    pointer is [None]. *)
Definition copyToken (dst : list byte) (dstSize : nat) (m : list byte) (begin_ end_ : option nat)
  : option (list byte) :=
  if dstSize =? 0 then Some dst else
  match begin_, end_ with
  | Some b, Some e =>
      if e <=? b then store dst 0 [NUL] else
      len ← ptr_diff e b;
      let len := if dstSize <=? len then dstSize - 1 else len in
      bs ← load m b len;
      dst ← store dst 0 bs;
      store dst len [NUL]
  | _, _ => store dst 0 [NUL]
  end.

(** The loop that looks for the empty line, at index [i], [n] rounds before its
    end. *)
Fixpoint headers_end_from (m : list byte) (i n : nat) : option (option nat) :=
  match n with
  | O => Some None
  | S n' =>
      found ← and_also (is_at m i CR) (and_also (is_at m (i + 1) LF)
                (and_also (is_at m (i + 2) CR) (is_at m (i + 3) LF)));
      if found : bool then Some (Some (i + 4)) else headers_end_from m (S i) n'
  end.

(** The loop that looks for the end of the request id. *)
Fixpoint rid_end (fuel : nat) (m : list byte) (ridEnd headersEnd : nat) : option nat :=
  match fuel with
  | O => None
  | S fuel' =>
      if ridEnd <? headersEnd then
        x ← m !! ridEnd;
        if Byte.eqb x CR || Byte.eqb x LF then Some ridEnd
        else rid_end fuel' m (S ridEnd) headersEnd
      else Some ridEnd
  end.

(** ** The observer's fields of a slot (ssh_channel.h) *)

Definition METHOD_SIZE : nat := 8.
Definition URL_SIZE : nat := 160.
Definition RID_SIZE : nat := 40.
Definition BUFFER_SIZE : nat := 2048.

Record Diag := mkDiag {
  diagRequestParsed : bool;
  diagLocalWriteLogged : bool;
  diagResponseLogged : bool;
  diagNoRequestLogged : bool;
  diagNoLocalWriteLogged : bool;
  diagNoResponseLogged : bool;
  diagBoundMs : Z;
  diagRequestMs : Z;
  diagLocalWriteMs : Z;
  diagMethod : list byte;
  diagUrl : list byte;
  diagRequestId : list byte;
  diagRequestBuffer : list byte;
  diagRequestBufferLen : nat
}.

#[export] Instance diag_eta : Eta Diag := fun d =>
  mkDiag (diagRequestParsed d) (diagLocalWriteLogged d) (diagResponseLogged d)
    (diagNoRequestLogged d) (diagNoLocalWriteLogged d) (diagNoResponseLogged d)
    (diagBoundMs d) (diagRequestMs d) (diagLocalWriteMs d) (diagMethod d) (diagUrl d)
    (diagRequestId d) (diagRequestBuffer d) (diagRequestBufferLen d).

Definition zeros (n : nat) : list byte := replicate n NUL.

(** The fields after [resetSlot], and in a slot of [init]. *)
Definition reset_diag : Diag :=
  mkDiag false false false false false false 0 0 0
    (zeros METHOD_SIZE) (zeros URL_SIZE) (zeros RID_SIZE) (zeros BUFFER_SIZE) 0.

(** The last lines of [bindChannel], [t] being the slot's [lastActivity]. *)
Definition bound_diag (t : Z) (ch : Diag) : Diag := ch <| diagBoundMs := t |>.

(** The lines the observer logs, with the values of its own they print (the lines
    about a slot also show its endpoint and the fill of its rings). *)
Inductive report :=
  | RequestTruncated
  | HeadersTruncated
  | Request (rid method url : list byte)
  | LocalWrite (rid method url : list byte) (sent remaining : Z)
  | Response (rid method url : list byte) (status : Z) (bytes : nat)
  | NoRequest (age : Z)
  | NoLocalWrite (age : Z) (rid method url : list byte)
  | NoResponse (age : Z) (rid method url : list byte).

(** A step of the observer on one slot. *)
Definition observation : Type := option (Diag * list report).

(** [httpDiagValue(value)] printed with [%s]. *)
Definition httpDiagValue (value : list byte) : option (list byte) :=
  s ← c_string value; Some (if s is [] then [x2d] else s).

(** The three values every line of the observer prints. *)
Definition with_names (ch : Diag) (k : list byte -> list byte -> list byte -> report)
  : option report :=
  rid ← httpDiagValue (diagRequestId ch);
  method ← httpDiagValue (diagMethod ch);
  url ← httpDiagValue (diagUrl ch);
  Some (k rid method url).

Definition rid_header : list byte := bytes "X-Request-ID".

(** The tail of [parseRequestBuffer], once the request line is split: copy the
    tokens, look for the request id, mark the request as parsed. *)
Definition parse_tokens (now : Z) (ch : Diag) (headersEnd methodEnd urlStart urlEnd : nat)
  : observation :=
  let buffer := diagRequestBuffer ch in
  method ← copyToken (diagMethod ch) METHOD_SIZE buffer (Some 0) (Some methodEnd);
  url ← copyToken (diagUrl ch) URL_SIZE buffer (Some urlStart) (Some urlEnd);
  rid ← findHeaderValue buffer 0 headersEnd rid_header;
  id ← match rid with
       | Some r =>
           ridEnd ← rid_end (S headersEnd) buffer r headersEnd;
           copyToken (diagRequestId ch) RID_SIZE buffer (Some r) (Some ridEnd)
       | None => Some (diagRequestId ch)
       end;
  let ch := ch <| diagMethod := method |> <| diagUrl := url |> <| diagRequestId := id |>
    <| diagRequestParsed := true |> <| diagRequestMs := now |> in
  r ← with_names ch Request;
  Some (ch, [r]).

(** A buffer without the end of the headers is given up when it is full. *)
Definition parse_truncated (ch : Diag) (r : report) : observation :=
  if diagRequestBufferLen ch =? BUFFER_SIZE - 1
  then Some (ch <| diagRequestParsed := true |>, [r]) else Some (ch, []).

Definition parseRequestBuffer (now : Z) (ch : Diag) : observation :=
  if diagRequestParsed ch || (diagRequestBufferLen ch =? 0) then Some (ch, []) else
  let buffer := diagRequestBuffer ch in
  let len := diagRequestBufferLen ch in
  headersEnd ← headers_end_from buffer 0 (len - 3);
  lineEnd ← memchr buffer 0 LF len;
  match lineEnd with
  | None => parse_truncated ch RequestTruncated
  | Some lineEnd =>
      match headersEnd with
      | None => parse_truncated ch HeadersTruncated
      | Some headersEnd =>
          lineLimit ← trim_cr buffer 0 lineEnd;
          methodEnd ← memchr buffer 0 SP lineLimit;
          match methodEnd with
          | None => Some (ch, [])
          | Some methodEnd =>
              let urlStart := methodEnd + 1 in
              n ← ptr_diff lineLimit urlStart;
              urlEnd ← memchr buffer urlStart SP n;
              match urlEnd with
              | None => Some (ch, [])
              | Some urlEnd => parse_tokens now ch headersEnd methodEnd urlStart urlEnd
              end
          end
      end
  end.

(** The copy of what fits of a read into the buffer. *)
Definition collect (data : list byte) (ch : Diag) : option Diag :=
  let len := length data in
  let cap := BUFFER_SIZE - 1 in
  let room := if diagRequestBufferLen ch <? cap then cap - diagRequestBufferLen ch else 0 in
  let toCopy := if len <? room then len else room in
  if 0 <? toCopy then
    bs ← load data 0 toCopy;
    buf ← store (diagRequestBuffer ch) (diagRequestBufferLen ch) bs;
    let n := diagRequestBufferLen ch + toCopy in
    buf ← store buf n [NUL];
    Some (ch <| diagRequestBuffer := buf |> <| diagRequestBufferLen := n |>)
  else Some ch.

(** [observeSshToLocal(slot, ch, data, len)] with the [len] bytes at [data]; [now]
    is what [millis()] answers when it is asked. *)
Definition observeSshToLocal (now : Z) (data : list byte) (ch : Diag) : observation :=
  if diagRequestParsed ch || (length data =? 0) then Some (ch, []) else
  ch ← collect data ch;
  parseRequestBuffer now ch.

Definition logLocalWriteOnce (now sent remaining : Z) (ch : Diag) : observation :=
  if diagLocalWriteLogged ch || (sent <=? 0)%Z then Some (ch, []) else
  let ch := ch <| diagLocalWriteLogged := true |> <| diagLocalWriteMs := now |> in
  r ← with_names ch (fun rid method url => LocalWrite rid method url sent remaining);
  Some (ch, [r]).

(** The status code [logLocalResponseOnce] prints. *)
Definition response_status (data : list byte) : option Z :=
  let len := length data in
  http ← and_also (Some (12 <=? len)) (mem_equal data (bytes "HTTP/") 0 5);
  if negb http then Some 0%Z else
  space ← memchr data 0 SP len;
  match space with
  | None => Some 0%Z
  | Some space =>
      let digit i := isdigit <$> data !! (space + i) in
      ok ← and_also (Some (space + 4 <=? len))
             (and_also (digit 1) (and_also (digit 2) (digit 3)));
      if ok : bool then
        d1 ← data !! (space + 1); d2 ← data !! (space + 2); d3 ← data !! (space + 3);
        Some (digit_value d1 * 100 + digit_value d2 * 10 + digit_value d3)%Z
      else Some 0%Z
  end.

Definition logLocalResponseOnce (data : list byte) (ch : Diag) : observation :=
  let len := length data in
  if diagResponseLogged ch || (len =? 0) then Some (ch, []) else
  let ch := ch <| diagResponseLogged := true |> in
  status ← response_status data;
  r ← with_names ch (fun rid method url => Response rid method url status len);
  Some (ch, [r]).

(** ** Warnings about stages that do not happen *)

Definition HTTPDIAG_NO_REQUEST_AFTER_MS : Z := 2000.
Definition HTTPDIAG_STAGE_STALL_AFTER_MS : Z := 2000.

(** The bodies of the three loops of [logChannelsWithoutRequest]. *)
Definition warn_no_request (now : Z) (active : bool) (ch : Diag) : observation :=
  if negb active || diagRequestParsed ch || diagNoRequestLogged ch
     || (diagBoundMs ch =? 0)%Z then Some (ch, []) else
  let age := u32_sub now (diagBoundMs ch) in
  if (age <? HTTPDIAG_NO_REQUEST_AFTER_MS)%Z then Some (ch, []) else
  Some (ch <| diagNoRequestLogged := true |>, [NoRequest age]).

Definition warn_no_local_write (now : Z) (active : bool) (ch : Diag) : observation :=
  if negb active || negb (diagRequestParsed ch) || diagLocalWriteLogged ch
     || diagNoLocalWriteLogged ch || (diagRequestMs ch =? 0)%Z then Some (ch, []) else
  let age := u32_sub now (diagRequestMs ch) in
  if (age <? HTTPDIAG_STAGE_STALL_AFTER_MS)%Z then Some (ch, []) else
  let ch := ch <| diagNoLocalWriteLogged := true |> in
  r ← with_names ch (NoLocalWrite age);
  Some (ch, [r]).

Definition warn_no_response (now : Z) (active : bool) (ch : Diag) : observation :=
  if negb active || negb (diagLocalWriteLogged ch) || diagResponseLogged ch
     || diagNoResponseLogged ch || (diagLocalWriteMs ch =? 0)%Z then Some (ch, []) else
  let age := u32_sub now (diagLocalWriteMs ch) in
  if (age <? HTTPDIAG_STAGE_STALL_AFTER_MS)%Z then Some (ch, []) else
  let ch := ch <| diagNoResponseLogged := true |> in
  r ← with_names ch (NoResponse age);
  Some (ch, [r]).

(** One loop over the slots, from slot [i] on; a slot is its [active] flag and its
    observer. *)
Fixpoint warn_pass (body : bool -> Diag -> observation) (i : nat) (slots : list (bool * Diag))
  : option (list (bool * Diag) * list (nat * report)) :=
  match slots with
  | [] => Some ([], [])
  | (active, ch) :: slots' =>
      '(ch, rs) ← body active ch;
      '(slots', rs') ← warn_pass body (S i) slots';
      Some ((active, ch) :: slots', (pair i <$> rs) ++ rs')
  end.

Definition logChannelsWithoutRequest (now : Z) (slots : list (bool * Diag))
  : option (list (bool * Diag) * list (nat * report)) :=
  '(slots, rs1) ← warn_pass (warn_no_request now) 0 slots;
  '(slots, rs2) ← warn_pass (warn_no_local_write now) 0 slots;
  '(slots, rs3) ← warn_pass (warn_no_response now) 0 slots;
  Some (slots, rs1 ++ rs2 ++ rs3).

(** What the three loops do to one slot. *)
Definition warn_slot (now : Z) (active : bool) (ch : Diag) : observation :=
  '(ch, rs1) ← warn_no_request now active ch;
  '(ch, rs2) ← warn_no_local_write now active ch;
  '(ch, rs3) ← warn_no_response now active ch;
  Some (ch, rs1 ++ rs2 ++ rs3).

(** ** Histories of one slot *)

Inductive diag_op :=
  | OpObserve (now : Z) (data : list byte)
  | OpLocalWrite (now sent remaining : Z)
  | OpResponse (data : list byte)
  | OpWarn (now : Z) (active : bool).

Definition run_op (op : diag_op) (ch : Diag) : observation :=
  match op with
  | OpObserve now data => observeSshToLocal now data ch
  | OpLocalWrite now sent remaining => logLocalWriteOnce now sent remaining ch
  | OpResponse data => logLocalResponseOnce data ch
  | OpWarn now active => warn_slot now active ch
  end.

Fixpoint run_ops (ops : list diag_op) (ch : Diag) : observation :=
  match ops with
  | [] => Some (ch, [])
  | op :: ops' =>
      '(ch, rs) ← run_op op ch;
      '(ch, rs') ← run_ops ops' ch;
      Some (ch, rs ++ rs')
  end.

(** A request for the examples. *)
Definition demo_request : list byte :=
  bytes "GET /a HTTP/1.1" ++ [CR; LF] ++ bytes "Host: h" ++ [CR; LF] ++
  bytes "x-request-id:  q7" ++ [CR; LF; CR; LF].

(** ** The reference parser *)

#[export] Instance byte_eq_dec : EqDecision byte := Byte.byte_eq_dec.

Fixpoint take_while (p : byte -> bool) (l : list byte) : list byte :=
  match l with
  | [] => []
  | b :: l' => if p b then b :: take_while p l' else []
  end.

Fixpoint drop_while (p : byte -> bool) (l : list byte) : list byte :=
  match l with
  | [] => []
  | b :: l' => if p b then drop_while p l' else l
  end.

(** The position of the first [c]. *)
Fixpoint index (c : byte) (l : list byte) : option nat :=
  match l with
  | [] => None
  | b :: l' => if Byte.eqb b c then Some 0 else S <$> index c l'
  end.

Definition not_eol (b : byte) : bool := negb (Byte.eqb b CR || Byte.eqb b LF).
Definition is_blank (b : byte) : bool := Byte.eqb b SP || Byte.eqb b HT.
Definition not_nul (b : byte) : bool := negb (Byte.eqb b NUL).

(** The lines of a text, without their ends of line. *)
Fixpoint split_lf (l : list byte) : list (list byte) :=
  match l with
  | [] => [[]]
  | b :: l' =>
      if Byte.eqb b LF then [] :: split_lf l' else
      match split_lf l' with
      | x :: xs => (b :: x) :: xs
      | [] => [[b]]
      end
  end.

Definition chop_cr (l : list byte) : list byte :=
  if decide (l !! (length l - 1) = Some CR) then take (length l - 1) l else l.

(** The value of the first line "name: value", the name in any case. *)
Definition line_value (name line : list byte) : option (list byte) :=
  let n := length name in
  if (n <? length line) && bool_decide (line !! n = Some COLON)
     && bool_decide (tolower_byte <$> take n line = tolower_byte <$> name)
  then Some (take_while not_eol (drop_while is_blank (drop (S n) line))) else None.

Definition header_value (name h : list byte) : option (list byte) :=
  head (omap (fun l => line_value name (chop_cr l)) (split_lf h)).

(** The text up to its first empty line. *)
Fixpoint head_of (l : list byte) : option (list byte) :=
  match l with
  | [] => None
  | b :: l' =>
      if decide (take 4 l = [CR; LF; CR; LF]) then Some (take 4 l)
      else cons b <$> head_of l'
  end.

(** Method and target of a request line. *)
Definition request_line (line : list byte) : option (list byte * list byte) :=
  k ← index SP line;
  let rest := drop (S k) line in
  k' ← index SP rest;
  Some (take k line, take k' rest).

(** A token as it is stored in an array of [n] bytes and printed. *)
Definition printed (n : nat) (token : list byte) : list byte :=
  match take_while not_nul (take (n - 1) token) with [] => [x2d] | s => s end.

(** What the observer says about a channel that received the stream [s]. *)
Definition verdict (s : list byte) : list report :=
  let seen := take (BUFFER_SIZE - 1) s in
  match head_of seen with
  | None =>
      if length seen =? BUFFER_SIZE - 1
      then [if decide (LF ∈ seen) then HeadersTruncated else RequestTruncated] else []
  | Some h =>
      match request_line (chop_cr (default h (head (split_lf h)))) with
      | None => []
      | Some (method, url) =>
          [Request (printed RID_SIZE (default [] (header_value rid_header h)))
             (printed METHOD_SIZE method) (printed URL_SIZE url)]
      end
  end.

(** The reads of a channel, each with its time. *)
Definition observe_all (reads : list (Z * list byte)) : list diag_op :=
  (fun '(now, data) => OpObserve now data) <$> reads.
