(* ===== verification/HttpDiagFacts.v ===== *)
(** * The HTTP request observer: proofs

    What the definitions of HttpDiag.v do.  The operations on memory are first
    shown to work on the slices they are meant for ([memchr_slice],
    [find_line], [copyToken_string], ...), then the parser is shown to compute
    the reference parser [verdict], then histories of a slot are followed. *)

From S2P Require Import Prelude HttpDiag.

#[local] Open Scope nat_scope.

(** ** The memory operations on a text *)

(** The bytes between two pointers. *)
Definition slice (m : list byte) (p q : nat) : list byte := take (q - p) (drop p m).

Lemma length_slice m p q : q <= length m -> length (slice m p q) = q - p.
Proof. intros. unfold slice. rewrite length_take, length_drop. lia. Qed.

Lemma slice_cons m p q : p < q <= length m ->
  exists x, m !! p = Some x /\ slice m p q = x :: slice m (S p) q.
Proof.
  intros H. destruct (lookup_lt_is_Some_2 m p) as [x Hx]; [lia|].
  exists x. split; [done|]. unfold slice. rewrite (drop_S m x p Hx).
  by replace (q - p) with (S (q - S p)) by lia.
Qed.

Lemma slice_nil m p q : q <= p -> slice m p q = [].
Proof. intros. unfold slice. by replace (q - p) with 0 by lia. Qed.

Lemma slice_split m p k q : p <= k <= q -> slice m p q = slice m p k ++ slice m k q.
Proof.
  intros. unfold slice. replace (drop k m) with (drop (k - p) (drop p m)).
  - replace (q - p) with ((k - p) + (q - k)) by lia. by rewrite take_take_drop.
  - rewrite drop_drop. f_equal. lia.
Qed.

Lemma slice_take m p q n : q - p = n -> slice m p q = take n (drop p m).
Proof. by intros <-. Qed.

Lemma slice_0 m q : slice m 0 q = take q m.
Proof. unfold slice. by rewrite drop_0, Nat.sub_0_r. Qed.

Lemma eqb_spec b c : reflect (b = c) (Byte.eqb b c).
Proof.
  destruct (Byte.eqb b c) eqn:E; constructor; [by apply Byte.byte_dec_bl|].
  intros ->. by rewrite Byte.byte_dec_lb in E.
Qed.

Lemma eqb_decide b c : Byte.eqb b c = bool_decide (b = c).
Proof. destruct (eqb_spec b c) as [->|H]; [by rewrite bool_decide_true|by rewrite bool_decide_false]. Qed.

Lemma ptr_diff_le p q : q <= p -> ptr_diff p q = Some (p - q).
Proof. intros. unfold ptr_diff. by rewrite (proj2 (Nat.leb_le q p)). Qed.

Lemma memchr_slice c n : forall m p, p + n <= length m ->
  memchr m p c n = Some (Nat.add p <$> index c (slice m p (p + n))).
Proof.
  induction n as [|n IH]; intros m p H; [by rewrite slice_nil by lia|].
  destruct (slice_cons m p (p + S n)) as (x & Hx & ->); [lia|].
  simpl. rewrite Hx. simpl. destruct (Byte.eqb x c); simpl; [by rewrite Nat.add_0_r|].
  rewrite IH by lia. f_equal. replace (S p + n) with (p + S n) by lia.
  destruct (index c _); simpl; [|done]. f_equal. lia.
Qed.

Lemma index_lt c l k : index c l = Some k -> k < length l /\ l !! k = Some c.
Proof.
  revert k. induction l as [|b l IH]; intros k; simpl; [done|].
  destruct (eqb_spec b c) as [->|]; [intros [= <-]; split; [lia|done]|].
  destruct (index c l) as [j|]; simpl; [intros [= <-]|done].
  destruct (IH j eq_refl). split; [lia|done].
Qed.

Lemma index_take c l k : index c l = Some k -> index c (take k l) = None.
Proof.
  revert k. induction l as [|b l IH]; intros k; simpl; [done|].
  destruct (Byte.eqb b c) eqn:E; [by intros [= <-]|].
  destruct (index c l) as [j|]; simpl; [intros [= <-]|done]. simpl. rewrite E, IH; done.
Qed.

Lemma index_app_l c l t k : index c l = Some k -> index c (l ++ t) = Some k.
Proof.
  revert k. induction l as [|b l IH]; intros k; simpl; [done|].
  destruct (Byte.eqb b c); [done|]. destruct (index c l) as [j|]; [|done].
  by rewrite (IH j).
Qed.

Lemma index_None c l : index c l = None <-> c ∉ l.
Proof.
  induction l as [|b l IH]; simpl; [split; [intros _; apply not_elem_of_nil|done]|].
  rewrite not_elem_of_cons. destruct (eqb_spec b c) as [->|Hb]; [naive_solver|].
  destruct (index c l); simpl; naive_solver.
Qed.

(** The first line of a text and the rest, from the position of its end. *)
Lemma split_lf_index l : split_lf l =
  match index LF l with
  | Some k => take k l :: split_lf (drop (S k) l)
  | None => [l]
  end.
Proof.
  induction l as [|b l IH]; [done|]. simpl. destruct (Byte.eqb b LF); [by rewrite drop_0|].
  rewrite IH. by destruct (index LF l).
Qed.

Lemma is_at_decide m i c : i < length m -> is_at m i c = Some (bool_decide (m !! i = Some c)).
Proof.
  intros H. unfold is_at. destruct (lookup_lt_is_Some_2 m i H) as [x Hx]. rewrite Hx. simpl.
  rewrite eqb_decide. f_equal. apply bool_decide_ext. naive_solver.
Qed.

Lemma slice_lookup m p q i : i < q - p -> slice m p q !! i = m !! (p + i).
Proof. intros. unfold slice. rewrite lookup_take_lt by done. apply lookup_drop. Qed.

(** Dropping the carriage return moves the end of the line back over it. *)
Lemma chop_cr_cases l : (chop_cr l = l) \/ (l = chop_cr l ++ [CR]).
Proof.
  unfold chop_cr. destruct (decide _) as [E|]; [right|by left].
  pose proof (lookup_lt_Some _ _ _ E).
  rewrite <- (take_drop (length l - 1) l) at 1. f_equal.
  rewrite (drop_S l CR (length l - 1) E), drop_ge by lia. done.
Qed.

Lemma trim_cr_slice m p e : p <= e <= length m ->
  trim_cr m p e = Some (p + length (chop_cr (slice m p e))).
Proof.
  intros H. unfold trim_cr, chop_cr. rewrite length_slice by lia.
  destruct (Nat.ltb_spec p e) as [Hlt|Hge]; simpl.
  - rewrite is_at_decide by lia. simpl. rewrite slice_lookup by lia.
    replace (p + (e - p - 1)) with (e - 1) by lia.
    destruct (decide _) as [E|E].
    + rewrite bool_decide_true by done. rewrite length_take, length_slice by lia. f_equal. lia.
    + rewrite bool_decide_false by done. rewrite length_slice by lia. f_equal. lia.
  - rewrite slice_nil by lia. simpl. f_equal. lia.
Qed.

Lemma ciEquals_from_lower m a b n : forall i, a + i + n <= length m -> i + n <= length b ->
  ciEquals_from m a b i n = Some (bool_decide
    (tolower_byte <$> slice m (a + i) (a + i + n) = tolower_byte <$> slice b i (i + n))).
Proof.
  induction n as [|n IH]; intros i Hm Hb.
  { rewrite !slice_nil by lia. done. }
  destruct (slice_cons m (a + i) (a + i + S n)) as (x & Hx & ->); [lia|].
  destruct (slice_cons b i (i + S n)) as (y & Hy & ->); [lia|].
  simpl. rewrite Hx. simpl. rewrite Hy. simpl.
  destruct (eqb_spec (tolower_byte x) (tolower_byte y)) as [E|E].
  - rewrite IH by lia. f_equal. apply bool_decide_ext. rewrite E.
    replace (S (a + i)) with (a + S i) by lia. replace (a + i + S n) with (a + S i + n) by lia.
    replace (i + S n) with (S i + n) by lia. split; [intros Heq; f_equal; exact Heq|intros [= Heq]; exact Heq].
  - f_equal. symmetry. apply bool_decide_false. by intros [=].
Qed.

Lemma ciEquals_lower m a name : a + length name <= length m ->
  ciEquals m a name (length name) = Some (bool_decide
    (tolower_byte <$> slice m a (a + length name) = tolower_byte <$> name)).
Proof.
  intros H. unfold ciEquals. rewrite ciEquals_from_lower by lia. rewrite Nat.add_0_r, slice_0.
  by rewrite take_ge.
Qed.

Lemma skip_blanks_slice m lim fuel : forall v, v <= lim <= length m -> lim - v < fuel ->
  exists w, skip_blanks fuel m v lim = Some w /\ v <= w <= lim /\
    slice m w lim = drop_while is_blank (slice m v lim).
Proof.
  induction fuel as [|fuel IH]; intros v Hv Hf; [lia|]. simpl.
  destruct (Nat.ltb_spec v lim) as [Hlt|Hge].
  - destruct (slice_cons m v lim) as (x & Hx & Hs); [lia|]. rewrite Hx, Hs. simpl. unfold is_blank.
    destruct (_ || _) eqn:E.
    + destruct (IH (S v)) as (w & E1 & Hw & E2); [lia..|]. exists w. split; [done|].
      split; [lia|done].
    + exists v. split; [done|]. split; [lia|done].
  - exists v. rewrite slice_nil by lia. split; [done|]. split; [lia|done].
Qed.

Lemma rid_end_slice m h fuel : forall r, r <= h <= length m -> h - r < fuel ->
  rid_end fuel m r h = Some (r + length (take_while not_eol (slice m r h))).
Proof.
  induction fuel as [|fuel IH]; intros r Hr Hf; [lia|]. simpl.
  destruct (Nat.ltb_spec r h) as [Hlt|Hge].
  - destruct (slice_cons m r h) as (x & Hx & ->); [lia|]. rewrite Hx. simpl. unfold not_eol at 1.
    destruct (_ || _) eqn:E; simpl; [f_equal; lia|]. rewrite IH by lia. f_equal. lia.
  - rewrite slice_nil by lia. simpl. f_equal. lia.
Qed.

Lemma take_while_prefix p l : take (length (take_while p l)) l = take_while p l.
Proof. induction l as [|b l IH]; [done|]. simpl. destruct (p b); simpl; [by rewrite IH|done]. Qed.

Lemma length_take_while p l : length (take_while p l) <= length l.
Proof. induction l as [|b l IH]; simpl; [done|]. destruct (p b); simpl; lia. Qed.

(** A scan that stops at the first byte after [l] sees [l] only. *)
Lemma take_while_stop p l t :
  (forall b, head t = Some b -> p b = false) -> take_while p (l ++ t) = take_while p l.
Proof.
  intros H. induction l as [|b l IH]; simpl; [|by rewrite IH].
  destruct t as [|b t]; [done|]. simpl. by rewrite (H b).
Qed.

(** The line at a cursor: where it ends, and what follows it. *)
Record line_at (m : list byte) (c h e lim : nat) : Prop := {
  la_order : c <= lim <= e /\ e <= h;
  la_line : slice m c lim = chop_cr (slice m c e);
  la_eol : forall b, head (slice m lim h) = Some b -> not_eol b = false;
  la_rest : split_lf (slice m c h) =
    slice m c e :: (if e <? h then split_lf (slice m (S e) h) else [])
}.

Lemma length_chop_cr l : length (chop_cr l) <= length l.
Proof. destruct (chop_cr_cases l) as [->|E]; [done|]. rewrite E at 2. rewrite length_app. lia. Qed.

Lemma chop_cr_slice m c e : c <= e <= length m ->
  slice m c (c + length (chop_cr (slice m c e))) = chop_cr (slice m c e).
Proof.
  intros H. pose proof (length_chop_cr (slice m c e)) as Hl. rewrite length_slice in Hl by lia.
  destruct (chop_cr_cases (slice m c e)) as [E|E].
  - rewrite E, length_slice by lia. by replace (c + (e - c)) with e by lia.
  - rewrite (slice_split m c (c + length (chop_cr (slice m c e))) e) in E at 1 by lia.
    apply (app_inj_1 _ _ _ _) in E as [E _]; [done|]. rewrite length_slice; lia.
Qed.

Lemma head_slice m p q : p < q <= length m -> head (slice m p q) = m !! p.
Proof. intros H. by destruct (slice_cons m p q H) as (x & -> & ->). Qed.

(** The body of a line and where it ends, computed as the code computes them. *)
Lemma find_line m c h : c < h <= length m ->
  exists e lim, line_at m c h e lim /\
    memchr m c LF (h - c) = Some (if e <? h then Some e else None) /\
    trim_cr m c e = Some lim.
Proof.
  intros H. rewrite (memchr_slice LF (h - c)) by lia. replace (c + (h - c)) with h by lia.
  pose proof (split_lf_index (slice m c h)) as Hs.
  set (e := match index LF (slice m c h) with Some k => c + k | None => h end).
  assert (He : c <= e <= h /\ (e < h -> m !! e = Some LF) /\
    (Nat.add c <$> index LF (slice m c h)) = (if e <? h then Some e else None) /\
    split_lf (slice m c h) =
      slice m c e :: (if e <? h then split_lf (slice m (S e) h) else [])).
  { unfold e. destruct (index LF (slice m c h)) as [k|] eqn:Ek; simpl.
    - destruct (index_lt _ _ _ Ek) as [Hk Hl]. rewrite length_slice in Hk by lia.
      rewrite slice_lookup in Hl by lia. rewrite Hs.
      rewrite (proj2 (Nat.ltb_lt (c + k) h)) by lia.
      rewrite (slice_split m c (c + k) h) at 1 by lia.
      rewrite take_app_length' by (rewrite length_slice; lia).
      rewrite (slice_split m c (S (c + k)) h) by lia.
      rewrite drop_app_length' by (rewrite length_slice; lia). repeat split; [lia..|done].
    - rewrite Nat.ltb_irrefl, Hs. repeat split; lia. }
  destruct He as (Hce & Hlf & -> & Hrest). exists e, (c + length (chop_cr (slice m c e))).
  split; [|split; [done|by rewrite trim_cr_slice by lia]].
  pose proof (length_chop_cr (slice m c e)) as Hl. rewrite length_slice in Hl by lia.
  constructor; [lia| |  |done].
  - apply chop_cr_slice. lia.
  - intros b. destruct (Nat.eq_dec (c + length (chop_cr (slice m c e))) h) as [->|Hne].
    { by rewrite slice_nil. }
    rewrite head_slice by lia. destruct (chop_cr_cases (slice m c e)) as [E|E].
    + rewrite E, length_slice by lia. replace (c + (e - c)) with e by lia.
      rewrite Hlf; [by intros [= <-]|]. rewrite E, length_slice in Hne; lia.
    + assert (Hlen : e - c = S (length (chop_cr (slice m c e)))).
      { rewrite <- (length_slice m c e) by lia. rewrite E at 1. rewrite length_app. simpl. lia. }
      rewrite <- (slice_lookup m c e) by lia.
      set (x := chop_cr (slice m c e)) in *. clearbody x. rewrite E.
      rewrite lookup_app_r, Nat.sub_diag by lia. by intros [= <-].
Qed.

(** The tests of one line, as the loop makes them. *)
Lemma line_test m c lim name : c <= lim <= length m ->
  and_also (Some (length name <? lim - c))
    (and_also (is_at m (c + length name) COLON) (ciEquals m c name (length name))) =
  Some (bool_decide (is_Some (line_value name (slice m c lim)))).
Proof.
  intros H. unfold line_value. rewrite length_slice by lia.
  destruct (Nat.ltb_spec (length name) (lim - c)) as [Hlt|Hge]; simpl; [|done].
  rewrite is_at_decide, slice_lookup by lia. simpl.
  destruct (bool_decide (m !! _ = _)); simpl; [|done].
  rewrite ciEquals_lower by lia. f_equal.
  rewrite (slice_split m c (c + length name) lim) by lia.
  rewrite take_app_length' by (rewrite length_slice; lia).
  by destruct (bool_decide _).
Qed.

(** On a matching line the code answers where the value starts. *)
Lemma line_value_start m c h e lim name v : line_at m c h e lim -> h <= length m ->
  line_value name (slice m c lim) = Some v ->
  exists w, skip_blanks (S (lim - c)) m (c + length name + 1) lim = Some w /\ w <= h /\
    take_while not_eol (slice m w h) = v.
Proof.
  intros [Ho _ Heol _] Hh. unfold line_value. rewrite length_slice by lia.
  destruct (Nat.ltb_spec (length name) (lim - c)) as [Hlt|]; [|done]. simpl.
  destruct (bool_decide _ && bool_decide _); [|done]. intros [= <-].
  destruct (skip_blanks_slice m lim (S (lim - c)) (c + length name + 1)) as (w & E & Hw & Es); [lia..|].
  exists w. split; [done|]. split; [lia|].
  rewrite (slice_split m w lim h) by lia. rewrite (take_while_stop not_eol) by done.
  rewrite Es. do 2 f_equal.
  rewrite (slice_split m c (c + length name + 1) lim) by lia.
  rewrite drop_app_length'; [done|]. rewrite length_slice; lia.
Qed.

#[local] Arguments and_also : simpl never.
#[local] Arguments skip_blanks : simpl never.

(** [findHeaderValue] answers where the value of the reference starts. *)
Definition value_at (m : list byte) (h : nat) (r : option nat) (v : option (list byte)) : Prop :=
  match v with
  | None => r = None
  | Some v => exists w, r = Some w /\ w <= h /\ take_while not_eol (slice m w h) = v
  end.

Lemma findHeaderValue_from_value m h name fuel : forall c,
  c <= h <= length m -> h - c < fuel ->
  exists r, findHeaderValue_from fuel m h name c = Some r /\
    value_at m h r (header_value name (slice m c h)).
Proof.
  induction fuel as [|fuel IH]; intros c Hc Hf; [lia|]. simpl.
  destruct (Nat.ltb_spec c h) as [Hlt|Hge].
  2: { exists None. by rewrite slice_nil by lia. }
  rewrite ptr_diff_le by lia. simpl.
  destruct (find_line m c h) as (e & lim & Hla & -> & Htr); [lia|].
  assert (He : default h (if e <? h then Some e else None) = e).
  { destruct (Nat.ltb_spec e h); simpl; [done|]. destruct Hla. lia. }
  simpl. rewrite He, Htr. simpl. pose proof (la_order _ _ _ _ _ Hla) as Ho.
  rewrite ptr_diff_le by lia. simpl. rewrite line_test by lia. simpl.
  unfold header_value. rewrite (la_rest _ _ _ _ _ Hla). simpl. rewrite <- (la_line _ _ _ _ _ Hla).
  destruct (line_value name (slice m c lim)) as [v|] eqn:Ev; simpl.
  - destruct (line_value_start m c h e lim name v Hla) as (w & -> & Hw & Ew); [lia|done|].
    simpl. exists (Some w). split; [done|]. by exists w.
  - destruct (Nat.ltb_spec e h) as [Heh|Heh].
    + rewrite Nat.add_1_r. apply IH; lia.
    + destruct (IH h) as (r & Er & Hr); [lia..|]. exists r. split; [done|].
      rewrite slice_nil in Hr by lia. done.
Qed.

Lemma findHeaderValue_value m h name : h <= length m ->
  exists r, findHeaderValue m 0 h name = Some r /\ value_at m h r (header_value name (take h m)).
Proof.
  intros H. unfold findHeaderValue. simpl (0 + h). rewrite <- slice_0.
  apply findHeaderValue_from_value; lia.
Qed.

(** ** Tokens *)

Lemma store_length dst p bs : p + length bs <= length dst ->
  exists dst', store dst p bs = Some dst' /\ length dst' = length dst /\
    take p dst' = take p dst /\ take (length bs) (drop p dst') = bs /\
    drop (p + length bs) dst' = drop (p + length bs) dst.
Proof.
  intros H. unfold store. rewrite (proj2 (Nat.leb_le _ _)) by done. eexists. split; [done|].
  assert (length (take p dst) = p) by (rewrite length_take; lia).
  rewrite !length_app, length_drop. split; [lia|].
  rewrite take_app_length', drop_app_length', take_app_length by done. repeat split.
  rewrite <- drop_drop, drop_app_length', drop_app_length by done. done.
Qed.

Lemma c_string_nul s t : c_string (s ++ NUL :: t) = Some (take_while not_nul s).
Proof.
  induction s as [|b s IH]; [done|]. simpl. rewrite IH.
  change (not_nul b) with (negb (Byte.eqb b NUL)).
  by destruct (Byte.eqb b NUL).
Qed.

Lemma store_string dst bs : length bs < length dst -> exists dst1 dst2,
  store dst 0 bs = Some dst1 /\ store dst1 (length bs) [NUL] = Some dst2 /\
  length dst2 = length dst /\ c_string dst2 = Some (take_while not_nul bs).
Proof.
  intros H. destruct (store_length dst 0 bs) as (d1 & E1 & L1 & _ & T1 & _); [lia|].
  destruct (store_length d1 (length bs) [NUL]) as (d2 & E2 & L2 & T2 & U2 & _); [simpl; lia|].
  exists d1, d2. split; [done|]. split; [done|]. split; [lia|].
  rewrite <- (take_drop (length bs) d2), T2. rewrite drop_0 in T1. rewrite T1.
  destruct (drop (length bs) d2) as [|b t]; [done|]. injection U2 as [= ->].
  apply c_string_nul.
Qed.

Lemma copyToken_string dst n m b e : length dst = n -> 0 < n -> b <= e <= length m ->
  exists dst', copyToken dst n m (Some b) (Some e) = Some dst' /\ length dst' = n /\
    c_string dst' = Some (take_while not_nul (take (n - 1) (slice m b e))).
Proof.
  intros <- Hn H. unfold copyToken. rewrite (proj2 (Nat.eqb_neq _ _)) by lia.
  destruct (Nat.leb_spec e b) as [Hle|Hlt].
  - destruct (store_string dst []) as (d1 & d2 & E1 & E2 & L & C); [simpl; lia|].
    rewrite slice_nil, take_nil by lia. unfold store in E1. simpl in E1. injection E1 as <-.
    by exists d2.
  - rewrite ptr_diff_le by lia. simpl.
    set (len := if length dst <=? e - b then length dst - 1 else e - b).
    assert (Hlen : len = Nat.min (length dst - 1) (e - b)).
    { unfold len. destruct (Nat.leb_spec (length dst) (e - b)); lia. }
    clearbody len. unfold load. rewrite (proj2 (Nat.leb_le _ _)) by lia. simpl.
    assert (Es : take (length dst - 1) (slice m b e) = take len (drop b m)).
    { unfold slice. rewrite take_take. f_equal. lia. }
    rewrite Es. set (bs := take len (drop b m)).
    assert (Hbs : length bs = len) by (unfold bs; rewrite length_take, length_drop; lia).
    rewrite <- Hbs. destruct (store_string dst bs) as (d1 & d2 & -> & E2 & L & C); [lia|].
    simpl. by exists d2.
Qed.

Lemma copyToken_printed dst n m b e : length dst = n -> 0 < n -> b <= e <= length m ->
  exists dst', copyToken dst n m (Some b) (Some e) = Some dst' /\ length dst' = n /\
    httpDiagValue dst' = Some (printed n (slice m b e)).
Proof.
  intros. destruct (copyToken_string dst n m b e) as (d & E & L & C); [done..|].
  exists d. split; [done|]. split; [done|]. unfold httpDiagValue, printed. rewrite C. simpl.
  by destruct (take_while _ _).
Qed.

(** ** The head of a request *)

Lemma head_of_short l : length l <= 3 -> head_of l = None.
Proof.
  induction l as [|b l IH]; intros H; [done|]. simpl in H. simpl.
  destruct (decide _) as [E|]; [|by rewrite IH by lia].
  apply (f_equal length) in E. simpl in E. rewrite length_take in E. lia.
Qed.

Lemma head_of_app l h t : head_of l = Some h -> head_of (l ++ t) = Some h.
Proof.
  revert h. induction l as [|b l IH]; intros h; [done|]. cbn [head_of app].
  destruct (decide (take 4 (b :: l) = _)) as [E|E].
  - intros Hh%(inj Some). subst h. assert (E' : take 4 (b :: l ++ t) = take 4 (b :: l)).
    { refine (take_app_le (b :: l) t 4 _).
      apply (f_equal length) in E. rewrite length_take in E.
      change (Nat.min 4 (length (b :: l)) = 4) in E. lia. }
    rewrite E'. by rewrite decide_True.
  - destruct (head_of l) as [h'|] eqn:Eh; [|done]. simpl. intros [= <-].
    rewrite (IH h' eq_refl). simpl. rewrite decide_False; [done|].
    intros E'. destruct (le_lt_dec 4 (length (b :: l))) as [Hl|Hl].
    + apply E. rewrite <- E'. exact (eq_sym (take_app_le (b :: l) t 4 Hl)).
    + rewrite head_of_short in Eh by (simpl in Hl; lia). done.
Qed.

Lemma head_of_prefix l h : head_of l = Some h ->
  h = take (length h) l /\ length h <= length l /\ LF ∈ h.
Proof.
  revert h. induction l as [|b l IH]; intros h; [done|]. cbn [head_of].
  destruct (decide _) as [E|E].
  - intros Hh%(inj Some). rewrite E in Hh. subst h. rewrite <- E at 1.
    split; [done|]. apply (f_equal length) in E. rewrite length_take in E.
    change (Nat.min 4 (length (b :: l)) = 4) in E. split; [|by right; left].
    change (4 <= length (b :: l)). lia.
  - destruct (head_of l) as [h'|]; [|done]. intros [= <-]. destruct (IH h' eq_refl) as (E1 & E2 & E3).
    simpl. split; [by f_equal|]. split; [lia|]. by right.
Qed.

Lemma headers_end_from_head m l n : forall i,
  l <= length m -> i + n + 3 = l \/ n = 0 /\ l <= i + 3 ->
  headers_end_from m i n = Some ((fun h => i + length h) <$> head_of (slice m i l)).
Proof.
  induction n as [|n IH]; intros i Hl Hn.
  { rewrite head_of_short; [done|]. rewrite length_slice by done. lia. }
  simpl. destruct (slice_cons m i l) as (x0 & H0 & E0); [lia|].
  destruct (slice_cons m (S i) l) as (x1 & H1 & E1); [lia|].
  destruct (slice_cons m (S (S i)) l) as (x2 & H2 & E2); [lia|].
  destruct (slice_cons m (S (S (S i))) l) as (x3 & H3 & E3); [lia|].
  replace (i + 1) with (S i) by lia. replace (i + 2) with (S (S i)) by lia.
  replace (i + 3) with (S (S (S i))) by lia.
  unfold is_at. rewrite H0, H1, H2, H3. unfold and_also. simpl. rewrite E0. cbn [head_of].
  rewrite IH by lia.
  assert (Ht : take 4 (x0 :: slice m (S i) l) = [x0; x1; x2; x3]) by by rewrite E1, E2, E3.
  rewrite Ht. clear Ht. destruct (decide ([x0; x1; x2; x3] = _)) as [E|E].
  { by injection E as -> -> -> ->. }
  destruct (eqb_spec x0 CR), (eqb_spec x1 LF), (eqb_spec x2 CR), (eqb_spec x3 LF);
    subst; try done; simpl; destruct (head_of _); simpl; try done; f_equal; f_equal; lia.
Qed.

Lemma headers_end_head m l : l <= length m ->
  headers_end_from m 0 (l - 3) = Some (length <$> head_of (take l m)).
Proof. intros H. rewrite <- slice_0. apply headers_end_from_head; lia. Qed.

(** ** The fields of a slot *)

(** The arrays keep their sizes and every string its NUL. *)
Record diag_ok (ch : Diag) : Prop := {
  do_method : length (diagMethod ch) = METHOD_SIZE;
  do_url : length (diagUrl ch) = URL_SIZE;
  do_rid : length (diagRequestId ch) = RID_SIZE;
  do_buffer : length (diagRequestBuffer ch) = BUFFER_SIZE;
  do_len : diagRequestBufferLen ch <= BUFFER_SIZE - 1;
  do_method_str : is_Some (httpDiagValue (diagMethod ch));
  do_url_str : is_Some (httpDiagValue (diagUrl ch));
  do_rid_str : is_Some (httpDiagValue (diagRequestId ch))
}.

Lemma reset_diag_ok : diag_ok reset_diag.
Proof. constructor; try (by eexists; vm_compute); vm_compute; lia. Qed.

Lemma with_names_ok ch k : diag_ok ch -> exists r, with_names ch k = Some r.
Proof.
  intros H. unfold with_names.
  destruct (do_rid_str ch H) as [? ->], (do_method_str ch H) as [? ->], (do_url_str ch H) as [? ->].
  by eexists.
Qed.

(** ** The parser computes the reference *)

Lemma slice_prefix m p q k : k <= q - p -> take k (slice m p q) = slice m p (p + k).
Proof. intros. unfold slice. rewrite take_take. f_equal. lia. Qed.

Lemma printed_nil n : printed n [] = [x2d].
Proof. unfold printed. by rewrite take_nil. Qed.

(** The request id as it is copied: the value the reference finds, or what the
    array held before. *)
Lemma parse_rid m H dst : H <= length m -> length dst = RID_SIZE ->
  httpDiagValue dst = Some [x2d] ->
  exists r d, findHeaderValue m 0 H rid_header = Some r /\
    match r with
    | Some r => ridEnd ← rid_end (S H) m r H; copyToken dst RID_SIZE m (Some r) (Some ridEnd)
    | None => Some dst
    end = Some d /\ length d = RID_SIZE /\
    httpDiagValue d = Some (printed RID_SIZE (default [] (header_value rid_header (take H m)))).
Proof.
  intros Hm Hd Hv. destruct (findHeaderValue_value m H rid_header Hm) as (r & Er & Hr).
  exists r. unfold value_at in Hr. destruct (header_value _ _) as [v|].
  2: { subst r. exists dst. simpl. by rewrite printed_nil. }
  destruct Hr as (w & -> & Hw & Ev). rewrite rid_end_slice by lia. cbn [mbind option_bind].
  pose proof (length_take_while not_eol (slice m w H)) as Hl. rewrite length_slice in Hl by lia.
  destruct (copyToken_printed dst RID_SIZE m w (w + length (take_while not_eol (slice m w H))))
    as (d & E & L & C); [done|unfold RID_SIZE; lia|lia|].
  exists d. split; [done|]. split; [done|]. split; [done|]. rewrite C. simpl. do 2 f_equal.
  rewrite <- Ev at 1. rewrite <- (take_while_prefix not_eol (slice m w H)) at 2.
  symmetry. apply slice_prefix. lia.
Qed.

(** [parse_tokens] prints the method, the target and the request id. *)
Lemma parse_tokens_request now ch H me us ue : diag_ok ch ->
  httpDiagValue (diagRequestId ch) = Some [x2d] ->
  H <= BUFFER_SIZE -> me <= BUFFER_SIZE -> us <= ue <= BUFFER_SIZE ->
  exists ch', parse_tokens now ch H me us ue = Some (ch', [Request
      (printed RID_SIZE (default [] (header_value rid_header (take H (diagRequestBuffer ch)))))
      (printed METHOD_SIZE (slice (diagRequestBuffer ch) 0 me))
      (printed URL_SIZE (slice (diagRequestBuffer ch) us ue))]) /\
    diag_ok ch' /\ diagRequestParsed ch' = true.
Proof.
  intros Hok Hid HH Hme Hue. pose proof (do_buffer ch Hok) as Hb. unfold parse_tokens.
  destruct (copyToken_printed (diagMethod ch) METHOD_SIZE (diagRequestBuffer ch) 0 me)
    as (dm & -> & Lm & Cm); [apply Hok|unfold METHOD_SIZE; lia|lia|].
  destruct (copyToken_printed (diagUrl ch) URL_SIZE (diagRequestBuffer ch) us ue)
    as (du & -> & Lu & Cu); [apply Hok|unfold URL_SIZE; lia|lia|].
  destruct (parse_rid (diagRequestBuffer ch) H (diagRequestId ch)) as (r & d & Er & Ed & Ld & Cd);
    [lia|apply Hok|done|].
  cbn [mbind option_bind]. rewrite Er. cbn [mbind option_bind]. rewrite Ed. cbn [mbind option_bind].
  unfold with_names. simpl. rewrite Cd, Cm, Cu. simpl. eexists. split; [done|]. split; [|done].
  destruct Hok. by constructor.
Qed.

Lemma request_line_slice m lim me ue : lim <= length m ->
  index SP (slice m 0 lim) = Some me -> index SP (slice m (me + 1) lim) = Some ue ->
  request_line (slice m 0 lim) = Some (slice m 0 me, slice m (me + 1) (me + 1 + ue)).
Proof.
  intros Hl Em Eu. unfold request_line. rewrite Em. cbn [mbind option_bind].
  destruct (index_lt _ _ _ Em) as [Hm _]. rewrite length_slice in Hm by done.
  destruct (index_lt _ _ _ Eu) as [Hu _]. rewrite length_slice in Hu by done.
  rewrite Nat.add_1_r in *.
  assert (Ed : drop (S me) (slice m 0 lim) = slice m (S me) lim).
  { rewrite (slice_split m 0 (S me) lim) by lia.
    rewrite drop_app_length'; [done|]. rewrite length_slice; lia. }
  rewrite Ed, Eu. cbn [mbind option_bind]. do 2 f_equal.
  - rewrite (slice_split m 0 me lim) by lia. rewrite take_app_length'; [done|].
    rewrite length_slice; lia.
  - rewrite (slice_split m (S me) (S me + ue) lim) by lia. rewrite take_app_length'; [done|].
    rewrite length_slice; lia.
Qed.

Lemma request_line_none m lim : lim <= length m ->
  match index SP (slice m 0 lim) with
  | Some me => index SP (slice m (me + 1) lim) = None
  | None => True
  end -> request_line (slice m 0 lim) = None.
Proof.
  intros Hl H. unfold request_line. destruct (index SP (slice m 0 lim)) as [me|] eqn:E; [|done].
  destruct (index_lt _ _ _ E) as [Hm _]. rewrite length_slice in Hm by done. simpl.
  rewrite (slice_split m 0 (me + 1) lim) by lia.
  rewrite drop_app_length' by (rewrite length_slice; lia). by rewrite H.
Qed.

(** The first line of a text that has a line feed. *)
Lemma first_line m h k : h <= length m -> index LF (take h m) = Some k ->
  chop_cr (default (take h m) (head (split_lf (take h m)))) =
    slice m 0 (length (chop_cr (slice m 0 k))).
Proof.
  intros Hh E. rewrite split_lf_index, E. simpl. destruct (index_lt _ _ _ E) as [Hk _].
  rewrite length_take in Hk. rewrite take_take, Nat.min_l by lia. rewrite <- slice_0.
  symmetry. apply (chop_cr_slice m 0 k). lia.
Qed.

(** What the parser may answer on a slot whose request is not parsed yet. *)
Definition parsed_as (ch : Diag) (rs : list report) (o : observation) : Prop :=
  exists ch', o = Some (ch', rs) /\ diag_ok ch' /\
    match rs with [] => ch' = ch | _ => diagRequestParsed ch' = true end.

Lemma parsed_as_none ch : diag_ok ch -> parsed_as ch [] (Some (ch, [])).
Proof. intros. by exists ch. Qed.

Lemma parse_truncated_as ch r : diag_ok ch ->
  parsed_as ch (if diagRequestBufferLen ch =? BUFFER_SIZE - 1 then [r] else [])
    (parse_truncated ch r).
Proof.
  intros H. unfold parse_truncated. destruct (_ =? _); [|by apply parsed_as_none].
  eexists. split; [done|]. split; [|done]. destruct H. by constructor.
Qed.

(** The verdict on a text that fits the buffer. *)
Lemma verdict_text s : length s <= BUFFER_SIZE - 1 -> verdict s =
  match head_of s with
  | None => if length s =? BUFFER_SIZE - 1
            then [if decide (LF ∈ s) then HeadersTruncated else RequestTruncated] else []
  | Some h =>
      match request_line (chop_cr (default h (head (split_lf h)))) with
      | None => []
      | Some (method, url) =>
          [Request (printed RID_SIZE (default [] (header_value rid_header h)))
             (printed METHOD_SIZE method) (printed URL_SIZE url)]
      end
  end.
Proof. intros H. unfold verdict. by rewrite take_ge by done. Qed.

(** The request line, found and split as the code does. *)
Lemma parse_line now ch H k : diag_ok ch -> httpDiagValue (diagRequestId ch) = Some [x2d] ->
  H <= diagRequestBufferLen ch -> index LF (take H (diagRequestBuffer ch)) = Some k ->
  let m := diagRequestBuffer ch in
  let line := chop_cr (default (take H m) (head (split_lf (take H m)))) in
  parsed_as ch
    match request_line line with
    | None => []
    | Some (method, url) =>
        [Request (printed RID_SIZE (default [] (header_value rid_header (take H m))))
           (printed METHOD_SIZE method) (printed URL_SIZE url)]
    end
    (lineLimit ← trim_cr m 0 k;
     methodEnd ← memchr m 0 SP lineLimit;
     match methodEnd with
     | None => Some (ch, [])
     | Some methodEnd =>
         let urlStart := methodEnd + 1 in
         n ← ptr_diff lineLimit urlStart;
         urlEnd ← memchr m urlStart SP n;
         match urlEnd with
         | None => Some (ch, [])
         | Some urlEnd => parse_tokens now ch H methodEnd urlStart urlEnd
         end
     end).
Proof.
  intros Hok Hid HH Hk m line. pose proof (do_buffer ch Hok) as Hb. pose proof (do_len ch Hok) as Hn.
  fold m in Hb. unfold line. rewrite (first_line m H k) by (done || lia). clear line.
  destruct (index_lt _ _ _ Hk) as [Hkl _]. rewrite length_take in Hkl. fold m in Hkl.
  rewrite trim_cr_slice by lia. simpl (0 + _). cbn [mbind option_bind].
  pose proof (length_chop_cr (slice m 0 k)) as Hlim. rewrite length_slice in Hlim by lia.
  set (lim := length (chop_cr (slice m 0 k))) in *. clearbody lim.
  rewrite (memchr_slice SP lim) by lia. simpl (0 + lim). cbn [mbind option_bind].
  destruct (index SP (slice m 0 lim)) as [me|] eqn:Em; simpl.
  2: { rewrite request_line_none by (rewrite ?Em; done || lia). by apply parsed_as_none. }
  destruct (index_lt _ _ _ Em) as [Hme _]. rewrite length_slice in Hme by lia.
  rewrite ptr_diff_le by lia. simpl. rewrite (memchr_slice SP) by lia.
  replace (me + 1 + (lim - (me + 1))) with lim by lia. cbn [mbind option_bind].
  destruct (index SP (slice m (me + 1) lim)) as [ue|] eqn:Eu; simpl.
  2: { rewrite request_line_none by (rewrite ?Em; done || lia). by apply parsed_as_none. }
  destruct (index_lt _ _ _ Eu) as [Hue _]. rewrite length_slice in Hue by lia.
  rewrite (request_line_slice m lim me ue) by (done || lia).
  destruct (parse_tokens_request now ch H me (me + 1) (me + 1 + ue)) as (ch' & E & Hok' & Hp);
    [done|done|lia..|]. by exists ch'.
Qed.

Lemma parseRequestBuffer_verdict now ch : diag_ok ch ->
  httpDiagValue (diagRequestId ch) = Some [x2d] -> diagRequestParsed ch = false ->
  parsed_as ch (verdict (take (diagRequestBufferLen ch) (diagRequestBuffer ch)))
    (parseRequestBuffer now ch).
Proof.
  intros Hok Hid Hp. pose proof (do_buffer ch Hok) as Hb. pose proof (do_len ch Hok) as Hn.
  unfold parseRequestBuffer. rewrite Hp. simpl.
  set (m := diagRequestBuffer ch) in *. set (n := diagRequestBufferLen ch) in *.
  assert (Hlen : length (take n m) = n) by (rewrite length_take; lia).
  destruct (Nat.eqb_spec n 0) as [->|Hn0]; [by apply parsed_as_none|].
  rewrite headers_end_head by lia. rewrite memchr_slice by lia. simpl (0 + n). rewrite slice_0.
  rewrite verdict_text by (rewrite Hlen; lia). rewrite Hlen. cbn [mbind option_bind].
  destruct (head_of (take n m)) as [h|] eqn:Eh.
  - destruct (head_of_prefix _ _ Eh) as (Hh & Hhl & Hlf). rewrite take_take, Nat.min_l in Hh by lia.
    destruct (index LF h) as [k|] eqn:Ek; [|by apply index_None in Ek].
    assert (Ek' : index LF (take n m) = Some k).
    { replace (take n m) with (h ++ drop (length h) (take n m)); [by apply index_app_l|].
      rewrite <- (take_drop (length h) (take n m)) at 2. f_equal.
      by rewrite take_take, Nat.min_l by lia. }
    rewrite Ek'. simpl. rewrite Hh in Ek |- *. rewrite length_take, Nat.min_l by lia.
    apply (parse_line now ch (length h) k); [done|done|lia|done].
  - simpl. destruct (decide (LF ∈ take n m)) as [Hin|Hin].
    + destruct (index LF (take n m)) as [k|] eqn:Ek; [|by apply index_None in Ek].
      by apply parse_truncated_as.
    + apply index_None in Hin as ->. by apply parse_truncated_as.
Qed.

(** A verdict is final. *)
Lemma verdict_app s t : verdict s <> [] -> verdict (s ++ t) = verdict s.
Proof.
  unfold verdict. intros H. destruct (le_lt_dec (BUFFER_SIZE - 1) (length s)) as [Hl|Hl].
  { by rewrite take_app_le. }
  rewrite (take_ge s) in H |- * by lia.
  destruct (head_of s) as [h|] eqn:Eh.
  - rewrite take_app_ge by lia. by rewrite (head_of_app s h _ Eh).
  - exfalso. apply H. by rewrite (proj2 (Nat.eqb_neq _ _)) by lia.
Qed.

Lemma verdict_take s : verdict (take (BUFFER_SIZE - 1) s) = verdict s.
Proof. unfold verdict. by rewrite take_take, Nat.min_id. Qed.

(** ** Reads of a channel *)

(** The observer of a slot that received the stream [s]: until the request is
    parsed it holds what fits of [s]. *)
Record watching (s : list byte) (ch : Diag) : Prop := {
  wa_ok : diag_ok ch;
  wa_id : diagRequestParsed ch = false -> httpDiagValue (diagRequestId ch) = Some [x2d];
  wa_text : diagRequestParsed ch = false ->
    take (diagRequestBufferLen ch) (diagRequestBuffer ch) = take (BUFFER_SIZE - 1) s;
  wa_verdict : diagRequestParsed ch = true <-> verdict s <> []
}.

Lemma watching_reset : watching [] reset_diag.
Proof. constructor; [apply reset_diag_ok|done..]. Qed.

(** The bytes a read adds to the buffer. *)
Lemma collect_text ch data : diag_ok ch -> data <> [] ->
  exists ch', collect data ch = Some ch' /\ diag_ok ch' /\ diagRequestId ch' = diagRequestId ch /\
    diagRequestParsed ch' = diagRequestParsed ch /\
    take (diagRequestBufferLen ch') (diagRequestBuffer ch') =
      take (BUFFER_SIZE - 1) (take (diagRequestBufferLen ch) (diagRequestBuffer ch) ++ data).
Proof.
  intros Hok Hd. pose proof (do_buffer ch Hok) as Hb. pose proof (do_len ch Hok) as Hn.
  unfold collect. set (cap := BUFFER_SIZE - 1) in *. set (n := diagRequestBufferLen ch) in *.
  set (m := diagRequestBuffer ch) in *. assert (Hc : length m = S cap) by (rewrite Hb; done).
  set (room := if n <? cap then _ else _).
  set (toCopy := if length data <? room then _ else _). assert (Ht : toCopy = Nat.min (length data) (cap - n)).
  { unfold toCopy, room. destruct (Nat.ltb_spec n cap);
      case_match eqn:E; [apply Nat.ltb_lt in E|apply Nat.ltb_ge in E|apply Nat.ltb_lt in E
        |apply Nat.ltb_ge in E]; lia. }
  clearbody toCopy. clear room Hb.
  assert (Hcap : BUFFER_SIZE = S cap) by done. clearbody cap.
  assert (Hl : length (take n m) = n) by (rewrite length_take; lia).
  destruct (Nat.ltb_spec 0 toCopy) as [Hpos|Hz].
  - unfold load. rewrite (proj2 (Nat.leb_le _ _)) by lia. rewrite drop_0. cbn [mbind option_bind].
    assert (Hbs : length (take toCopy data) = toCopy) by (rewrite length_take; lia).
    destruct (store_length m n (take toCopy data)) as (d1 & -> & L1 & T1 & U1 & _); [lia|].
    cbn [mbind option_bind].
    destruct (store_length d1 (n + toCopy) [NUL]) as (d2 & -> & L2 & T2 & _); [simpl; lia|].
    cbn [mbind option_bind]. eexists. split; [done|]. split.
    { destruct Hok. constructor; try done;
        [change (length d2 = BUFFER_SIZE)|change (n + toCopy <= BUFFER_SIZE - 1)]; lia. }
    split; [done|]. split; [done|]. simpl. rewrite T2.
    rewrite <- (take_take_drop d1), T1. rewrite Hbs in U1. rewrite U1.
    rewrite take_app, Hl, take_take, Nat.min_r by lia. f_equal.
    destruct (le_lt_dec (length data) (cap - n)).
    + rewrite !take_ge by lia. done.
    + f_equal. lia.
  - exists ch. split; [done|]. split; [done|]. split; [done|]. split; [done|]. fold n m.
    assert (length data <> 0) by (by destruct data).
    rewrite take_app_le, take_take by lia. f_equal. lia.
Qed.

Lemma take_take_app (n : nat) (s t : list byte) : take n (take n s ++ t) = take n (s ++ t).
Proof.
  destruct (le_lt_dec n (length s)) as [H|H].
  - rewrite !take_app_le by (rewrite ?length_take; lia). by rewrite take_take, Nat.min_id.
  - by rewrite (take_ge s) by lia.
Qed.

Lemma watching_read now data s ch : watching s ch -> exists ch' rs,
  observeSshToLocal now data ch = Some (ch', rs) /\ watching (s ++ data) ch' /\
  verdict (s ++ data) = verdict s ++ rs.
Proof.
  intros [Hok Hid Htext Hv]. unfold observeSshToLocal.
  destruct (diagRequestParsed ch) eqn:Hp; cbn [orb].
  { assert (Hne : verdict s <> []) by by apply Hv. exists ch, []. split; [done|].
    rewrite verdict_app, app_nil_r by done. split; [|done].
    constructor; try (by rewrite Hp); [done|]. by rewrite verdict_app, Hp. }
  assert (Hn : verdict s = []).
  { destruct (verdict s) eqn:E; [done|]. by assert (false = true) by by apply Hv. }
  destruct (Nat.eqb_spec (length data) 0) as [Hz|Hnz].
  { apply nil_length_inv in Hz as ->. rewrite app_nil_r. exists ch, []. rewrite app_nil_r.
    split; [done|]. split; [|done]. constructor; rewrite ?Hp; done. }
  destruct (collect_text ch data) as (ch1 & -> & Hok1 & Hi1 & Hp1 & Ht1); [done|by intros ->|].
  cbn [mbind option_bind]. rewrite Htext, take_take_app in Ht1 by done.
  destruct (parseRequestBuffer_verdict now ch1) as (ch2 & -> & Hok2 & Hres);
    [done|rewrite Hi1; by apply Hid|by rewrite Hp1|].
  rewrite Ht1, verdict_take in Hres |- *. exists ch2, (verdict (s ++ data)).
  split; [done|]. rewrite Hn. split; [|done]. destruct (verdict (s ++ data)) eqn:E.
  - subst ch2. constructor; rewrite ?Hp1, ?Hi1; [done|by intros; apply Hid|by intros|].
    by rewrite Hp, E.
  - constructor; rewrite ?Hres; [done|done|done|]. by rewrite E.
Qed.

(** C39: However the stream from the server is cut into reads, the observer's
    reports are those of the reference parser on the whole stream: the method,
    the target and the [X-Request-ID] (in any case) of the first request, cut to
    the arrays' sizes, one report of an overlong request, or none.  No access is
    outside an array and no loop runs on. *)
Theorem observer_chunking reads :
  exists ch, run_ops (observe_all reads) reset_diag =
    Some (ch, verdict (concat (snd <$> reads))) /\
    (diagRequestParsed ch = true <-> verdict (concat (snd <$> reads)) <> []).
Proof.
  enough (forall s ch, watching s ch -> exists ch' rs,
    run_ops (observe_all reads) ch = Some (ch', rs) /\
    watching (s ++ concat (snd <$> reads)) ch' /\
    verdict (s ++ concat (snd <$> reads)) = verdict s ++ rs) as H.
  { destruct (H [] reset_diag watching_reset) as (ch & rs & E & Hw & Hv). simpl in Hv.
    exists ch. rewrite Hv. split; [done|]. rewrite <- Hv. apply Hw. }
  induction reads as [|[now data] reads IH]; intros s ch Hw; simpl.
  { exists ch, []. by rewrite !app_nil_r. }
  destruct (watching_read now data s ch Hw) as (ch1 & rs1 & -> & Hw1 & Hv1). simpl.
  destruct (IH _ _ Hw1) as (ch2 & rs2 & E2 & Hw2 & Hv2).
  rewrite E2. simpl. exists ch2, (rs1 ++ rs2).
  rewrite <- app_assoc in Hw2, Hv2. split; [done|]. split; [done|].
  transitivity (verdict (s ++ data) ++ rs2); [exact Hv2|by rewrite Hv1, <- app_assoc].
Qed.

(** ** Histories *)

Lemma mem_equal_total m s n : forall i, i + n <= length m -> i + n <= length s ->
  exists b, mem_equal m s i n = Some b.
Proof.
  induction n as [|n IH]; intros i Hm Hs; [by eexists|]. simpl.
  destruct (lookup_lt_is_Some_2 m i) as [x ->]; [lia|].
  destruct (lookup_lt_is_Some_2 s i) as [y ->]; [lia|]. simpl.
  destruct (Byte.eqb x y); [apply IH; lia|by eexists].
Qed.

Lemma response_status_total data : exists z, response_status data = Some z.
Proof.
  unfold response_status. destruct (Nat.leb_spec 12 (length data)) as [Hl|]; [|by eexists].
  destruct (mem_equal_total data (bytes "HTTP/") 5 0) as [http Hh]; [lia|simpl; lia|].
  unfold and_also. cbn [mbind option_bind]. rewrite Hh. cbn [mbind option_bind].
  destruct http; simpl; [|by eexists]. rewrite memchr_slice by lia. cbn [mbind option_bind].
  destruct (index SP _) as [k|]; simpl; [|by eexists].
  destruct (Nat.leb_spec (k + 4) (length data)); simpl; [|by eexists].
  destruct (lookup_lt_is_Some_2 data (k + 1)) as [d1 ->]; [lia|].
  destruct (lookup_lt_is_Some_2 data (k + 2)) as [d2 ->]; [lia|].
  destruct (lookup_lt_is_Some_2 data (k + 3)) as [d3 ->]; [lia|]. simpl.
  destruct (isdigit d1); simpl; [|by eexists]. destruct (isdigit d2); simpl; [|by eexists].
  destruct (isdigit d3); simpl; by eexists.
Qed.

(** The status line of a response, [ddd] being its code. *)
Lemma response_status_code v d1 d2 d3 rest : SP ∉ v ->
  isdigit d1 && isdigit d2 && isdigit d3 = true ->
  12 <= length (bytes "HTTP/" ++ v ++ SP :: d1 :: d2 :: d3 :: rest) ->
  response_status (bytes "HTTP/" ++ v ++ SP :: d1 :: d2 :: d3 :: rest) =
    Some (digit_value d1 * 100 + digit_value d2 * 10 + digit_value d3)%Z.
Proof.
  intros Hv Hd Hl. unfold response_status. rewrite (proj2 (Nat.leb_le _ _)) by done.
  set (pre := bytes "HTTP/" ++ v). assert (Hp : SP ∉ pre).
  { unfold pre. rewrite elem_of_app. intros [H|H]; [|done]. by apply (index_None SP (bytes "HTTP/")) in H. }
  assert (Hi : index SP (pre ++ SP :: d1 :: d2 :: d3 :: rest) = Some (length pre)).
  { clearbody pre. clear -Hp. induction pre as [|b l IH]; [done|]. simpl.
    apply not_elem_of_cons in Hp as [Hb Hp]. destruct (eqb_spec b SP); [by subst|]. by rewrite IH. }
  replace (bytes "HTTP/" ++ v ++ SP :: d1 :: d2 :: d3 :: rest)
    with (pre ++ SP :: d1 :: d2 :: d3 :: rest) by (unfold pre; by rewrite <- app_assoc).
  rewrite memchr_slice by lia. rewrite Nat.add_0_l, slice_0, firstn_all, Hi.
  unfold and_also. cbn [mbind option_bind]. unfold pre at 1. simpl.
  assert (Hlk : forall i, (v ++ SP :: d1 :: d2 :: d3 :: rest) !! (length v + i) =
    (SP :: d1 :: d2 :: d3 :: rest) !! i).
  { intros i. rewrite lookup_app_r by lia. f_equal. lia. }
  rewrite (proj2 (Nat.leb_le _ _)) by (rewrite length_app; simpl; lia).
  apply andb_prop in Hd as [[H1 H2]%andb_prop H3].
  rewrite !Hlk. simpl. by rewrite H1, H2, H3.
Qed.

(** The kind of a report and the flag that guards it. *)
Definition report_kind (r : report) : nat :=
  match r with
  | RequestTruncated | HeadersTruncated | Request _ _ _ => 0
  | LocalWrite _ _ _ _ _ => 1
  | Response _ _ _ _ _ => 2
  | NoRequest _ => 3
  | NoLocalWrite _ _ _ _ => 4
  | NoResponse _ _ _ _ => 5
  end.

Definition flags (ch : Diag) : list bool :=
  [diagRequestParsed ch; diagLocalWriteLogged ch; diagResponseLogged ch; diagNoRequestLogged ch;
   diagNoLocalWriteLogged ch; diagNoResponseLogged ch].

Definition is_set (ch : Diag) (k : nat) : Prop := flags ch !! k = Some true.

(** A run that reports each kind at most once and sets its flag. *)
Record once (ch : Diag) (rs : list report) (ch' : Diag) : Prop := {
  on_keep : forall k, is_set ch k -> is_set ch' k;
  on_nodup : NoDup (report_kind <$> rs);
  on_set : forall r, r ∈ rs -> ~ is_set ch (report_kind r) /\ is_set ch' (report_kind r)
}.

Lemma once_nil ch : once ch [] ch.
Proof. constructor; [done|constructor|]. intros r H. by apply not_elem_of_nil in H. Qed.

Lemma once_one ch ch' r : ~ is_set ch (report_kind r) ->
  flags ch' = <[report_kind r := true]> (flags ch) -> once ch [r] ch'.
Proof.
  intros H E. unfold is_set in *. assert (Hk : report_kind r < length (flags ch)).
  { destruct r; simpl; lia. }
  constructor; unfold is_set; rewrite ?E.
  - intros k Hs. destruct (decide (k = report_kind r)) as [->|Hne].
    + by apply list_lookup_insert_eq.
    + by rewrite list_lookup_insert_ne.
  - apply NoDup_singleton.
  - intros r' ->%list_elem_of_singleton. split; [done|]. by apply list_lookup_insert_eq.
Qed.

Lemma once_app ch ch1 ch2 rs1 rs2 :
  once ch rs1 ch1 -> once ch1 rs2 ch2 -> once ch (rs1 ++ rs2) ch2.
Proof.
  intros H1 H2. constructor.
  - intros k Hk. by apply H2, H1.
  - rewrite fmap_app. apply list.NoDup_app. split; [apply H1|]. split; [|apply H2].
    intros k (r1 & -> & Hr1)%list_elem_of_fmap (r2 & E & Hr2)%list_elem_of_fmap.
    apply (on_set _ _ _ H2 r2 Hr2). rewrite <- E. by apply (on_set _ _ _ H1 r1).
  - intros r [Hr|Hr]%elem_of_app.
    + destruct (on_set _ _ _ H1 r Hr). split; [done|]. by apply (on_keep _ _ _ H2).
    + destruct (on_set _ _ _ H2 r Hr) as [Hn ?]. split; [|done].
      intros Hs. by apply Hn, (on_keep _ _ _ H1).
Qed.

(** One step: it answers, keeps the fields well-formed and reports once. *)
Record settled (ch : Diag) : Prop := {
  se_ok : diag_ok ch;
  se_id : diagRequestParsed ch = false -> httpDiagValue (diagRequestId ch) = Some [x2d]
}.

Definition step_ok (ch : Diag) (o : observation) : Prop :=
  exists ch' rs, o = Some (ch', rs) /\ settled ch' /\ once ch rs ch'.

Lemma step_none ch : settled ch -> step_ok ch (Some (ch, [])).
Proof. intros. exists ch, []. split; [done|]. split; [done|]. apply once_nil. Qed.

(** A step that sets one flag and reports once with the names. *)
Lemma step_named ch ch1 k : settled ch1 ->
  (forall rid method url, ~ is_set ch (report_kind (k rid method url)) /\
    flags ch1 = <[report_kind (k rid method url) := true]> (flags ch)) ->
  step_ok ch (r ← with_names ch1 k; Some (ch1, [r])).
Proof.
  intros Hs Hk. destruct (with_names_ok ch1 k (se_ok _ Hs)) as [r Er]. rewrite Er. simpl.
  exists ch1, [r]. split; [done|]. split; [done|]. unfold with_names in Er.
  simplify_option_eq. by apply once_one; apply Hk.
Qed.

Lemma step_bind ch o k : step_ok ch o ->
  (forall ch1, settled ch1 -> step_ok ch1 (k ch1)) ->
  step_ok ch ('(ch1, rs1) ← o; '(ch2, rs2) ← k ch1; Some (ch2, rs1 ++ rs2)).
Proof.
  intros (ch1 & rs1 & -> & H1 & O1) Hk. simpl. destruct (Hk ch1 H1) as (ch2 & rs2 & -> & H2 & O2).
  simpl. exists ch2, (rs1 ++ rs2). split; [done|]. split; [done|]. by eapply once_app.
Qed.

Ltac unset := intros; split; [unfold is_set, flags; simpl; congruence|done].

Ltac keep_settled H := destruct H as [[] ?]; constructor; [by constructor|done].

Lemma collect_flags data ch ch' : collect data ch = Some ch' -> flags ch' = flags ch.
Proof.
  unfold collect. destruct (0 <? _); [|by intros [= <-]].
  intros (bs & _ & (b1 & _ & (b2 & _ & [= <-])%bind_Some)%bind_Some)%bind_Some. done.
Qed.

(** What the parser does to the flags. *)
Definition parse_effect (ch ch' : Diag) (rs : list report) : Prop :=
  rs = [] \/ exists r, rs = [r] /\ report_kind r = 0 /\ flags ch' = <[0 := true]> (flags ch).

Lemma truncated_flags r ch ch' rs : report_kind r = 0 ->
  parse_truncated ch r = Some (ch', rs) -> parse_effect ch ch' rs.
Proof.
  unfold parse_truncated. intros Hr. destruct (_ =? _); intros [= <- <-]; [|by left].
  right. by exists r.
Qed.

Lemma tokens_flags now ch H me us ue ch' rs :
  parse_tokens now ch H me us ue = Some (ch', rs) -> parse_effect ch ch' rs.
Proof.
  unfold parse_tokens, with_names.
  intros (m & _ & (u & _ & (rid & _ & (d & _ & E)%bind_Some)%bind_Some)%bind_Some)%bind_Some.
  apply bind_Some in E as (r & (? & _ & (? & _ & (? & _ & [= <-])%bind_Some)%bind_Some)%bind_Some
    & [= <- <-]).
  right. by eexists.
Qed.

Lemma parse_flags now ch ch' rs :
  parseRequestBuffer now ch = Some (ch', rs) -> parse_effect ch ch' rs.
Proof.
  unfold parseRequestBuffer. destruct (_ || _); [intros [= _ <-]; by left|].
  intros (he & _ & ([le|] & _ & E)%bind_Some)%bind_Some; [|by apply truncated_flags in E].
  destruct he as [he|]; [|by apply truncated_flags in E].
  apply bind_Some in E as (lim & _ & ([me|] & _ & E)%bind_Some); [|injection E as _ <-; by left].
  apply bind_Some in E as (n & _ & ([ue|] & _ & E)%bind_Some); [|injection E as _ <-; by left].
  by apply tokens_flags in E.
Qed.

Lemma step_observe now data ch : settled ch -> step_ok ch (observeSshToLocal now data ch).
Proof.
  intros Hs. unfold observeSshToLocal. destruct (diagRequestParsed ch) eqn:Hp; simpl;
    [by apply step_none|]. destruct (Nat.eqb_spec (length data) 0); [by apply step_none|].
  destruct Hs as [Hok Hid]. specialize (Hid Hp).
  destruct (collect_text ch data) as (ch1 & E1 & Hok1 & Hi1 & Hp1 & _); [done|by intros ->|].
  rewrite E1. simpl. rewrite <- Hi1 in Hid.
  destruct (parseRequestBuffer_verdict now ch1) as (ch2 & E2 & Hok2 & Hres); [done|done|by rewrite Hp1|].
  pose proof (collect_flags _ _ _ E1) as Hf. rewrite E2. eexists ch2, _. split; [done|].
  destruct (parse_flags _ _ _ _ E2) as [Ev|(r & Ev & Hk & Hf2)]; rewrite Ev in Hres |- *.
  - subst ch2. split; [by constructor|]. constructor.
    + unfold is_set. by rewrite Hf.
    + constructor.
    + intros r Hr. by apply not_elem_of_nil in Hr.
  - split; [constructor; [done|by rewrite Hres]|]. apply once_one; rewrite Hk.
    + unfold is_set, flags. simpl. congruence.
    + by rewrite Hf2, Hf.
Qed.

Lemma step_local_write now sent remaining ch : settled ch ->
  step_ok ch (logLocalWriteOnce now sent remaining ch).
Proof.
  intros Hs. unfold logLocalWriteOnce. destruct (diagLocalWriteLogged ch) eqn:Hp; simpl;
    [by apply step_none|]. destruct (_ <=? _)%Z; [by apply step_none|].
  apply step_named; [keep_settled Hs|unset].
Qed.

Lemma step_response data ch : settled ch -> step_ok ch (logLocalResponseOnce data ch).
Proof.
  intros Hs. unfold logLocalResponseOnce. destruct (diagResponseLogged ch) eqn:Hp; simpl;
    [by apply step_none|]. destruct (_ =? _); [by apply step_none|].
  destruct (response_status_total data) as [z ->]. simpl.
  apply step_named; [keep_settled Hs|unset].
Qed.

Lemma step_no_request now active ch : settled ch -> step_ok ch (warn_no_request now active ch).
Proof.
  intros Hs. unfold warn_no_request.
  destruct (diagNoRequestLogged ch) eqn:Hp; rewrite ?orb_true_r; [by apply step_none|].
  destruct (_ || _); [by apply step_none|]. destruct (_ <? _)%Z; [by apply step_none|].
  eexists _, _. split; [done|]. split; [keep_settled Hs|]. apply once_one; [|done].
  unfold is_set, flags. simpl. congruence.
Qed.

Lemma step_no_local_write now active ch : settled ch ->
  step_ok ch (warn_no_local_write now active ch).
Proof.
  intros Hs. unfold warn_no_local_write.
  destruct (diagNoLocalWriteLogged ch) eqn:Hp; rewrite ?orb_true_r; [by apply step_none|].
  destruct (_ || _); [by apply step_none|]. destruct (_ <? _)%Z; [by apply step_none|].
  apply step_named; [keep_settled Hs|unset].
Qed.

Lemma step_no_response now active ch : settled ch -> step_ok ch (warn_no_response now active ch).
Proof.
  intros Hs. unfold warn_no_response.
  destruct (diagNoResponseLogged ch) eqn:Hp; rewrite ?orb_true_r; [by apply step_none|].
  destruct (_ || _); [by apply step_none|]. destruct (_ <? _)%Z; [by apply step_none|].
  apply step_named; [keep_settled Hs|unset].
Qed.

Lemma step_warn now active ch : settled ch -> step_ok ch (warn_slot now active ch).
Proof.
  intros Hs. unfold warn_slot. destruct (step_no_request now active ch Hs) as (c1 & r1 & -> & S1 & O1).
  simpl. destruct (step_no_local_write now active c1 S1) as (c2 & r2 & -> & S2 & O2). simpl.
  destruct (step_no_response now active c2 S2) as (c3 & r3 & -> & S3 & O3). simpl.
  exists c3, (r1 ++ r2 ++ r3). split; [done|]. split; [done|].
  eapply once_app; [done|]. by eapply once_app.
Qed.

Lemma step_op op ch : settled ch -> step_ok ch (run_op op ch).
Proof.
  destruct op; [apply step_observe|apply step_local_write|apply step_response|apply step_warn].
Qed.

Lemma run_ops_ok ops : forall ch, settled ch -> step_ok ch (run_ops ops ch).
Proof.
  induction ops as [|op ops IH]; intros ch Hs; [by apply step_none|].
  apply (step_bind ch (run_op op ch) (run_ops ops)); [by apply step_op|done].
Qed.

(** C40: Whatever bytes pass on a channel and whenever the warnings are checked,
    the observer accesses no byte outside its arrays, every string it prints ends
    inside its array, its loops end, and between two resets of the slot each kind
    of line is logged at most once. *)
Theorem observer_safe ops : exists ch rs,
  run_ops ops reset_diag = Some (ch, rs) /\ diag_ok ch /\ NoDup (report_kind <$> rs).
Proof.
  destruct (run_ops_ok ops reset_diag) as (ch & rs & E & Hs & Ho).
  { constructor; [apply reset_diag_ok|done]. }
  exists ch, rs. split; [done|]. split; [apply Hs|apply Ho].
Qed.

(** ** The three loops over all slots *)

Definition reports_of (i : nat) (rs : list (nat * report)) : list report :=
  omap (fun '(j, r) => if decide (i = j) then Some r else None) rs.

Lemma reports_of_app i rs1 rs2 :
  reports_of i (rs1 ++ rs2) = reports_of i rs1 ++ reports_of i rs2.
Proof. apply omap_app. Qed.

Lemma reports_of_pair i j rs : reports_of i (pair j <$> rs) = if decide (i = j) then rs else [].
Proof.
  unfold reports_of. destruct (decide (i = j)) eqn:E.
  - induction rs as [|r rs IH]; [done|]. simpl. rewrite E. f_equal. exact IH.
  - induction rs as [|r rs IH]; [done|]. simpl. rewrite E. exact IH.
Qed.

Definition all_settled (slots : list (bool * Diag)) : Prop :=
  forall i active ch, slots !! i = Some (active, ch) -> settled ch.

(** One loop works on every slot as its body does on that slot. *)
Lemma warn_pass_slots body slots : (forall active ch, settled ch -> step_ok ch (body active ch)) ->
  forall k, all_settled slots -> exists slots' rs,
    warn_pass body k slots = Some (slots', rs) /\ all_settled slots' /\
    (forall j, j < k -> reports_of j rs = []) /\
    (forall i active ch, slots !! i = Some (active, ch) -> exists ch' rsi,
       slots' !! i = Some (active, ch') /\ body active ch = Some (ch', rsi) /\
       reports_of (k + i) rs = rsi).
Proof.
  intros Hbody. induction slots as [|[active ch] slots IH]; intros k Hs.
  { exists [], []. split; [done|]. split; [done|]. split; [done|]. intros i active ch H.
    by rewrite lookup_nil in H. }
  destruct (Hbody active ch) as (ch' & rs & E & Hch & _); [by apply (Hs 0 active)|].
  destruct (IH (S k)) as (slots' & rs' & E' & Hs' & Hlow & Hat).
  { intros i a c Hi. by apply (Hs (S i) a). }
  cbn [warn_pass]. rewrite E. cbn [mbind option_bind]. rewrite E'. cbn [mbind option_bind].
  eexists _, _. split; [done|]. split; [|split].
  - intros [|i] a c; simpl; [by intros [= <- <-]|apply Hs'].
  - intros j Hj. rewrite reports_of_app, reports_of_pair, decide_False by lia. apply Hlow. lia.
  - intros [|i] a c Hi; simpl in Hi.
    + injection Hi as <- <-. exists ch', rs. split; [done|]. split; [done|].
      rewrite Nat.add_0_r, reports_of_app, reports_of_pair, decide_True by done.
      rewrite Hlow by lia. apply app_nil_r.
    + destruct (Hat i a c Hi) as (c' & rsi & H1 & H2 & H3). exists c', rsi.
      split; [done|]. split; [done|].
      rewrite reports_of_app, reports_of_pair, decide_False by lia.
      by replace (k + S i) with (S k + i) by lia.
Qed.

(** The three loops warn about every slot on its own. *)
Theorem warnings_slotwise now slots : all_settled slots -> exists slots' rs,
  logChannelsWithoutRequest now slots = Some (slots', rs) /\ all_settled slots' /\
  forall i active ch, slots !! i = Some (active, ch) -> exists ch',
    slots' !! i = Some (active, ch') /\ warn_slot now active ch = Some (ch', reports_of i rs).
Proof.
  intros Hs. unfold logChannelsWithoutRequest.
  destruct (warn_pass_slots (warn_no_request now) slots (step_no_request now) 0 Hs)
    as (l1 & r1 & -> & S1 & _ & A1). cbn [mbind option_bind].
  destruct (warn_pass_slots (warn_no_local_write now) l1 (step_no_local_write now) 0 S1)
    as (l2 & r2 & -> & S2 & _ & A2). cbn [mbind option_bind].
  destruct (warn_pass_slots (warn_no_response now) l2 (step_no_response now) 0 S2)
    as (l3 & r3 & -> & S3 & _ & A3). cbn [mbind option_bind].
  exists l3, (r1 ++ r2 ++ r3). split; [done|]. split; [done|].
  intros i active ch H0.
  destruct (A1 i active ch H0) as (c1 & q1 & H1 & E1 & <-).
  destruct (A2 i active c1 H1) as (c2 & q2 & H2 & E2 & <-).
  destruct (A3 i active c2 H2) as (c3 & q3 & H3 & E3 & <-).
  exists c3. split; [done|]. unfold warn_slot. rewrite E1. simpl. rewrite E2. simpl. rewrite E3.
  simpl. by rewrite !reports_of_app.
Qed.

(** ** Examples *)

Example demo_observed :
  snd <$> run_ops [OpObserve 5 (take 20 demo_request); OpObserve 6 (drop 20 demo_request);
                   OpWarn 3000 true] reset_diag =
  Some [Request (bytes "q7") (bytes "GET") (bytes "/a");
        NoLocalWrite 2994 (bytes "q7") (bytes "GET")
          (bytes "/a")].
Proof. vm_compute. reflexivity. Qed.

Example demo_verdict : verdict demo_request =
  [Request (bytes "q7") (bytes "GET") (bytes "/a")].
Proof. vm_compute. reflexivity. Qed.
