(* ===== verification/Instrument.v ===== *)
(** * Transport counters (ssh_transport.h, ssh_transport.cpp, instrumented build)

    With [TUNNEL_INSTRUMENT] the pump times its phases, its waits for the mutex
    and every read and write of an SSH channel, and [formatInstrumentation]
    prints the totals into a buffer of the caller.  [instrRead] and [instrWrite]
    are the bookkeeping around the library call, given what it answered and how
    long it took.

    The counters count what happened, modulo their widths ([counts_exact]), and
    the text in the buffer is the longest prefix of the full report that fits,
    closed by its NUL ([format_prefix]). *)

From stdpp Require Import pretty.
From S2P Require Import Prelude Platform HttpDiag HttpDiagFacts.

(** ** State *)

Definition u64 (x : Z) : Z := x mod 2 ^ 64.

Record InstrChannel := mkInstrChannel {
  read_us : Z;
  read_calls : Z;
  read_eagain : Z;
  read_zero : Z;
  read_bytes : Z;
  write_us : Z;
  write_calls : Z;
  write_eagain : Z;
  write_bytes : Z
}.

#[export] Instance instr_channel_eta : Eta InstrChannel := fun c =>
  mkInstrChannel (read_us c) (read_calls c) (read_eagain c) (read_zero c) (read_bytes c)
    (write_us c) (write_calls c) (write_eagain c) (write_bytes c).

Record InstrSession := mkInstrSession {
  lock_wait_us : Z;
  lock_calls : Z;
  lock_failed : Z;
  phase1_us : Z;
  phase1_cycles : Z;
  phase3_us : Z;
  phase3_cycles : Z
}.

#[export] Instance instr_session_eta : Eta InstrSession := fun s =>
  mkInstrSession (lock_wait_us s) (lock_calls s) (lock_failed s) (phase1_us s)
    (phase1_cycles s) (phase3_us s) (phase3_cycles s).

Definition INSTR_MAX_CHANNELS : nat := 8.

Record Instr := mkInstr {
  instrCh_ : list InstrChannel;
  instrSess_ : InstrSession
}.

#[export] Instance instr_eta : Eta Instr := fun i => mkInstr (instrCh_ i) (instrSess_ i).

Definition zero_channel : InstrChannel := mkInstrChannel 0 0 0 0 0 0 0 0 0.

Definition zero_instr : Instr :=
  mkInstr (replicate INSTR_MAX_CHANNELS zero_channel) (mkInstrSession 0 0 0 0 0 0 0).

(** ** Recording *)

Section Recording.
Context `{Target}.

(** [if (slotIdx >= 0 && slotIdx < INSTR_MAX_CHANNELS)] update its counters. *)
Definition at_slot (slotIdx : Z) (f : InstrChannel -> InstrChannel) (i : Instr) : Instr :=
  if (0 <=? slotIdx) && (slotIdx <? Z.of_nat INSTR_MAX_CHANNELS)
  then i <| instrCh_ := alter f (Z.to_nat slotIdx) (instrCh_ i) |> else i.

(** The counters after a read that took [dt] and answered [rc]. *)
Definition count_read (rc dt : Z) (ic : InstrChannel) : InstrChannel :=
  let ic := ic <| read_us := u64 (read_us ic + dt) |>
    <| read_calls := u32 (read_calls ic + 1) |> in
  if rc =? LIBSSH2_ERROR_EAGAIN then ic <| read_eagain := u32 (read_eagain ic + 1) |>
  else if rc =? 0 then ic <| read_zero := u32 (read_zero ic + 1) |>
  else if 0 <? rc then ic <| read_bytes := u64 (read_bytes ic + rc) |>
  else ic.

Definition instrRead (slotIdx rc dt : Z) (i : Instr) : Instr :=
  at_slot slotIdx (count_read rc dt) i.

Definition count_write (rc dt : Z) (ic : InstrChannel) : InstrChannel :=
  let ic := ic <| write_us := u64 (write_us ic + dt) |>
    <| write_calls := u32 (write_calls ic + 1) |> in
  if rc =? LIBSSH2_ERROR_EAGAIN then ic <| write_eagain := u32 (write_eagain ic + 1) |>
  else if 0 <? rc then ic <| write_bytes := u64 (write_bytes ic + rc) |>
  else ic.

Definition instrWrite (slotIdx rc dt : Z) (i : Instr) : Instr :=
  at_slot slotIdx (count_write rc dt) i.

(** The waits for the mutex in [pumpSshTransport]. *)
Definition instr_lock_failed (dt : Z) (i : Instr) : Instr :=
  let s := instrSess_ i in
  i <| instrSess_ := s <| lock_wait_us := u64 (lock_wait_us s + dt) |>
    <| lock_failed := u32 (lock_failed s + 1) |> |>.

Definition instr_locked (dt : Z) (i : Instr) : Instr :=
  let s := instrSess_ i in
  i <| instrSess_ := s <| lock_wait_us := u64 (lock_wait_us s + dt) |>
    <| lock_calls := u32 (lock_calls s + 1) |> |>.

(** The ends of [pumpSshTransport] and of [drainLocalToSsh]. *)
Definition instr_phase1 (dt : Z) (i : Instr) : Instr :=
  let s := instrSess_ i in
  i <| instrSess_ := s <| phase1_us := u64 (phase1_us s + dt) |>
    <| phase1_cycles := u32 (phase1_cycles s + 1) |> |>.

Definition instr_phase3 (dt : Z) (i : Instr) : Instr :=
  let s := instrSess_ i in
  i <| instrSess_ := s <| phase3_us := u64 (phase3_us s + dt) |>
    <| phase3_cycles := u32 (phase3_cycles s + 1) |> |>.

End Recording.

(** ** Printing *)

(** [%u], [%llu] and, for a small index, [%d]. *)
Definition dec (x : Z) : list byte := bytes (pretty (Z.to_N x)).

(** The two format strings with their arguments. *)
Definition session_text (s : InstrSession) : list byte :=
  bytes "lock_us=" ++ dec (lock_wait_us s) ++ bytes " lock_n=" ++ dec (lock_calls s) ++
  bytes " lock_fail=" ++ dec (lock_failed s) ++ bytes " p1_us=" ++ dec (phase1_us s) ++
  bytes " p1_n=" ++ dec (phase1_cycles s) ++ bytes " p3_us=" ++ dec (phase3_us s) ++
  bytes " p3_n=" ++ dec (phase3_cycles s).

Definition channel_text (i : nat) (ic : InstrChannel) : list byte :=
  let ch := bytes " ch" ++ dec (Z.of_nat i) in
  ch ++ bytes "_r_us=" ++ dec (read_us ic) ++ ch ++ bytes "_r_n=" ++ dec (read_calls ic) ++
  ch ++ bytes "_r_eag=" ++ dec (read_eagain ic) ++ ch ++ bytes "_r_zero=" ++ dec (read_zero ic) ++
  ch ++ bytes "_r_b=" ++ dec (read_bytes ic) ++ ch ++ bytes "_w_us=" ++ dec (write_us ic) ++
  ch ++ bytes "_w_n=" ++ dec (write_calls ic) ++ ch ++ bytes "_w_eag=" ++ dec (write_eagain ic) ++
  ch ++ bytes "_w_b=" ++ dec (write_bytes ic).

(** [snprintf(out + off, size, ...)] where the formatted text is [text]: at most
    [size - 1] bytes and a NUL; the answer is the length of the whole text. *)
Definition snprintf (out : list byte) (off size : nat) (text : list byte)
  : option (list byte * Z) :=
  if (size =? 0)%nat then Some (out, zlen text) else
  out ← store out off (take (size - 1) text ++ [NUL]);
  Some (out, zlen text).

(** The loop over the channels from index [i] on. *)
Fixpoint format_channels (out : list byte) (outSize off i : nat) (chs : list InstrChannel)
  : option (list byte * nat) :=
  match chs with
  | [] => Some (out, off)
  | ic :: chs' =>
      if (off <? outSize - 1)%nat then
        if (read_calls ic =? 0) && (write_calls ic =? 0)
        then format_channels out outSize off (S i) chs'
        else
          room ← ptr_diff outSize off;
          '(out, n) ← snprintf out off room (channel_text i ic);
          if n <? 0 then Some (out, off)
          else format_channels out outSize (off + Z.to_nat n) (S i) chs'
      else Some (out, off)
  end.

(** [formatInstrumentation(out, outSize)]: the buffer afterwards and the answer, a
    [size_t]; [None] is an access outside the buffer. *)
Definition formatInstrumentation (out : list byte) (outSize : nat) (i : Instr)
  : option (list byte * Z) :=
  '(out, n) ← snprintf out 0 outSize (session_text (instrSess_ i));
  if n <? 0 then Some (out, 0) else
  let off := Z.to_nat n in
  if (outSize <=? off)%nat then Some (out, u32 (Z.of_nat outSize - 1)) else
  '(out, off) ← format_channels out outSize off 0 (instrCh_ i);
  let off := if (outSize <=? off)%nat then (outSize - 1)%nat else off in
  out ← store out off [NUL];
  Some (out, Z.of_nat off).

(** ** What is counted *)

Section Counting.
Context `{Target}.

Inductive instr_op :=
  | IRead (slotIdx rc dt : Z)
  | IWrite (slotIdx rc dt : Z)
  | ILocked (dt : Z)
  | ILockFailed (dt : Z)
  | IPhase1 (dt : Z)
  | IPhase3 (dt : Z).

Definition instr_step (op : instr_op) (i : Instr) : Instr :=
  match op with
  | IRead slotIdx rc dt => instrRead slotIdx rc dt i
  | IWrite slotIdx rc dt => instrWrite slotIdx rc dt i
  | ILocked dt => instr_locked dt i
  | ILockFailed dt => instr_lock_failed dt i
  | IPhase1 dt => instr_phase1 dt i
  | IPhase3 dt => instr_phase3 dt i
  end.

(** The counters after a history, the newest event first. *)
Fixpoint instr_after (h : list instr_op) : Instr :=
  match h with
  | [] => zero_instr
  | op :: h' => instr_step op (instr_after h')
  end.

Fixpoint total {A} (f : A -> Z) (l : list A) : Z :=
  match l with
  | [] => 0
  | x :: l' => total f l' + f x
  end.

(** Answers and durations of the reads, of the writes, of slot [k]. *)
Definition reads_of (k : nat) (h : list instr_op) : list (Z * Z) :=
  omap (fun op => match op with
    | IRead s rc dt => if s =? Z.of_nat k then Some (rc, dt) else None
    | _ => None
    end) h.

Definition writes_of (k : nat) (h : list instr_op) : list (Z * Z) :=
  omap (fun op => match op with
    | IWrite s rc dt => if s =? Z.of_nat k then Some (rc, dt) else None
    | _ => None
    end) h.

Definition is_again (p : Z * Z) : bool := p.1 =? LIBSSH2_ERROR_EAGAIN.
Definition is_eof (p : Z * Z) : bool := negb (is_again p) && (p.1 =? 0).
Definition moved (p : Z * Z) : Z := if is_again p then 0 else Z.max 0 p.1.

(** The counters a slot should have after these reads and writes. *)
Definition counted (rd wr : list (Z * Z)) : InstrChannel :=
  mkInstrChannel
    (u64 (total snd rd)) (u32 (zlen rd)) (u32 (total (fun p => Z.b2z (is_again p)) rd))
    (u32 (total (fun p => Z.b2z (is_eof p)) rd)) (u64 (total moved rd))
    (u64 (total snd wr)) (u32 (zlen wr)) (u32 (total (fun p => Z.b2z (is_again p)) wr))
    (u64 (total moved wr)).

Lemma u64_add_l x y : u64 (u64 x + y) = u64 (x + y).
Proof. unfold u64. apply Zplus_mod_idemp_l. Qed.

Lemma count_read_counted rc dt rd wr :
  count_read rc dt (counted rd wr) = counted ((rc, dt) :: rd) wr.
Proof.
  unfold count_read, counted, is_eof, moved, is_again. simpl.
  rewrite Nat2Z.inj_succ, <- Z.add_1_r.
  destruct (Z.eqb_spec rc LIBSSH2_ERROR_EAGAIN) as [->|]; simpl;
    [|destruct (Z.eqb_spec rc 0) as [->|]; simpl; [|destruct (Z.ltb_spec 0 rc)]];
    unfold upd; simpl; rewrite ?u64_add_l, ?u32_add_l, ?Z.add_0_r; try done;
    f_equal; f_equal; lia.
Qed.

Lemma count_write_counted rc dt rd wr :
  count_write rc dt (counted rd wr) = counted rd ((rc, dt) :: wr).
Proof.
  unfold count_write, counted, is_eof, moved, is_again. simpl.
  rewrite Nat2Z.inj_succ, <- Z.add_1_r.
  destruct (Z.eqb_spec rc LIBSSH2_ERROR_EAGAIN) as [->|]; simpl;
    [|destruct (Z.ltb_spec 0 rc)];
    unfold upd; simpl; rewrite ?u64_add_l, ?u32_add_l, ?Z.add_0_r; try done;
    f_equal; f_equal; lia.
Qed.

Lemma at_slot_lookup s f i k : length (instrCh_ i) = INSTR_MAX_CHANNELS ->
  (k < INSTR_MAX_CHANNELS)%nat ->
  instrCh_ (at_slot s f i) !! k =
    (if s =? Z.of_nat k then f <$> instrCh_ i !! k else instrCh_ i !! k) /\
  length (instrCh_ (at_slot s f i)) = INSTR_MAX_CHANNELS.
Proof.
  intros Hl Hk. unfold at_slot. destruct (Z.eqb_spec s (Z.of_nat k)) as [->|Hne].
  - rewrite (proj2 (Z.leb_le _ _)), (proj2 (Z.ltb_lt _ _)) by lia. simpl.
    rewrite Nat2Z.id, list_lookup_alter_eq, length_alter. done.
  - destruct ((0 <=? s) && (s <? Z.of_nat INSTR_MAX_CHANNELS)) eqn:E; [|done].
    apply andb_prop in E as [E _]. apply Z.leb_le in E. simpl.
    rewrite list_lookup_alter_ne, length_alter by lia. done.
Qed.

(** The counters of every slot are exactly what its reads and writes add up to,
    each modulo its width; a call for a slot outside the table counts nowhere. *)
Theorem counts_exact h k : (k < INSTR_MAX_CHANNELS)%nat ->
  instrCh_ (instr_after h) !! k = Some (counted (reads_of k h) (writes_of k h)).
Proof.
  intros Hk. enough (instrCh_ (instr_after h) !! k = Some (counted (reads_of k h) (writes_of k h))
    /\ length (instrCh_ (instr_after h)) = INSTR_MAX_CHANNELS) by naive_solver.
  induction h as [|op h [IH Hl]]; [split; [by apply lookup_replicate|done]|].
  destruct op as [s rc dt|s rc dt|dt|dt|dt|dt]; try done; simpl.
  - unfold instrRead. destruct (at_slot_lookup s (count_read rc dt) (instr_after h) k Hl Hk) as [-> ->].
    split; [|done]. rewrite IH. destruct (s =? Z.of_nat k); [|done]. simpl.
    by rewrite count_read_counted.
  - unfold instrWrite. destruct (at_slot_lookup s (count_write rc dt) (instr_after h) k Hl Hk) as [-> ->].
    split; [|done]. rewrite IH. destruct (s =? Z.of_nat k); [|done]. simpl.
    by rewrite count_write_counted.
Qed.

End Counting.

(** ** What is printed *)

#[local] Open Scope nat_scope.

Fixpoint channels_text (i : nat) (chs : list InstrChannel) : list byte :=
  match chs with
  | [] => []
  | ic :: chs' =>
      (if ((read_calls ic =? 0) && (write_calls ic =? 0))%Z then [] else channel_text i ic) ++
      channels_text (S i) chs'
  end.

(** The report on all slots that were used. *)
Definition full_text (i : Instr) : list byte :=
  session_text (instrSess_ i) ++ channels_text 0 (instrCh_ i).

(** The buffer holds what fits of [text] and its NUL; the bytes from [n] on are
    those of [out0]. *)
Definition holds (out0 out : list byte) (n : nat) (text : list byte) : Prop :=
  length out = length out0 /\
  exists pad, out = take (n - 1) text ++ NUL :: pad ++ drop n out0.

Lemma store_app (a b c bs : list byte) : length bs <= length b ->
  store (a ++ b ++ c) (length a) bs = Some (a ++ bs ++ drop (length bs) b ++ c).
Proof.
  intros Hl. unfold store. rewrite (proj2 (Nat.leb_le _ _)) by (rewrite !length_app; lia).
  rewrite take_app_length. do 3 f_equal.
  rewrite drop_app_ge by lia. replace (length a + length bs - length a) with (length bs) by lia.
  by rewrite drop_app_le.
Qed.

(** One [snprintf] behind the text that is there; [b] is the rest of the first
    [n] bytes. *)
Lemma snprintf_app out0 (t b text : list byte) n : n <= length out0 ->
  length t < n -> length t + length b = n ->
  exists out, snprintf (t ++ b ++ drop n out0) (length t) (n - length t) text =
    Some (out, zlen text) /\ holds out0 out n (t ++ text).
Proof.
  intros Hn Ht Hb. unfold snprintf. rewrite (proj2 (Nat.eqb_neq _ _)) by lia.
  set (bs := take (n - length t - 1) text).
  assert (Hbs : length bs <= n - length t - 1) by (unfold bs; rewrite length_take; lia).
  rewrite store_app by (rewrite length_app; simpl; lia). cbn [mbind option_bind].
  eexists. split; [done|]. split.
  - repeat (rewrite length_app || rewrite length_drop). simpl. lia.
  - exists (drop (length (bs ++ [NUL])) b). rewrite take_app_ge by lia.
    replace (n - 1 - length t) with (n - length t - 1) by lia. fold bs.
    by rewrite <- !app_assoc.
Qed.

Lemma format_channels_text out0 n chs : n <= length out0 ->
  forall i out text, holds out0 out n text -> length text < n ->
  exists out' text' rest, format_channels out n (length text) i chs = Some (out', length text') /\
    holds out0 out' n text' /\ text ++ channels_text i chs = text' ++ rest /\
    (rest = [] \/ n - 1 <= length text').
Proof.
  intros Hn. induction chs as [|ic chs IH]; intros i out text Hh Ht.
  { exists out, text, []. split; [done|]. split; [done|]. split; [done|by left]. }
  cbn [format_channels channels_text]. destruct (Nat.ltb_spec (length text) (n - 1)) as [Hlt|Hge].
  2: { eexists out, text, _. split; [done|]. split; [done|]. split; [done|by right]. }
  destruct (_ && _)%Z; [by apply IH|].
  rewrite ptr_diff_le by lia. cbn [mbind option_bind].
  generalize (channel_text i ic). intros ct. destruct Hh as [Hlen (pad & Hout)]. rewrite take_ge in Hout by lia.
  assert (Hpad : length text + S (length pad) = n).
  { apply (f_equal length) in Hout. rewrite length_app in Hout. simpl in Hout.
    rewrite length_app, length_drop in Hout. lia. }
  rewrite Hout. destruct (snprintf_app out0 text (NUL :: pad) ct n)
    as (out1 & E1 & H1); [done|lia|simpl; lia|].
  simpl in E1 |- *. rewrite E1. cbn [mbind option_bind].
  rewrite (proj2 (Z.ltb_ge _ _)) by lia. rewrite Nat2Z.id, <- length_app.
  destruct (le_lt_dec n (length (text ++ ct))) as [Hover|Hfit].
  - exists out1, (text ++ ct), (channels_text (S i) chs).
    split; [|split; [done|split; [by rewrite app_assoc|right; lia]]].
    destruct chs; [done|]. cbn [format_channels].
    by rewrite (proj2 (Nat.ltb_ge _ _)) by lia.
  - destruct (IH (S i) out1 _ H1 Hfit) as (out' & text' & rest & E & Hh & Et & Hr).
    exists out', text', rest. rewrite app_assoc. done.
Qed.

(** The last byte [formatInstrumentation] writes is the NUL that is there. *)
Lemma store_nul out0 out n text : n <= length out0 -> 0 < n -> holds out0 out n text ->
  store out (if n <=? length text then n - 1 else length text) [NUL] = Some out.
Proof.
  intros Hn Hpos [Hlen (pad & ->)].
  replace (if n <=? length text then n - 1 else length text) with (length (take (n - 1) text)).
  2: { rewrite length_take. destruct (Nat.leb_spec n (length text)); lia. }
  change (NUL :: pad ++ drop n out0) with ([NUL] ++ pad ++ drop n out0).
  by rewrite store_app.
Qed.

(** [formatInstrumentation] writes the longest prefix of the report on the
    session and on all used slots that fits the buffer, closes it with a NUL,
    answers its length, and touches nothing from [outSize] on; no access is
    outside the buffer. *)
Theorem format_prefix out outSize i : 0 < outSize -> outSize <= length out ->
  (Z.of_nat outSize < 2 ^ 32)%Z ->
  let text := take (outSize - 1) (full_text i) in
  exists out' pad, formatInstrumentation out outSize i = Some (out', zlen text) /\
    length out' = length out /\ out' = text ++ NUL :: pad ++ drop outSize out.
Proof.
  intros Hpos Hn Hbig. unfold formatInstrumentation, full_text.
  generalize (session_text (instrSess_ i)). intros t.
  set (text := take (outSize - 1) (t ++ _)).
  destruct (snprintf_app out [] (take outSize out) t outSize)
    as (out1 & E1 & H1); [done|simpl; lia|rewrite length_take; simpl; lia|].
  rewrite take_drop, Nat.sub_0_r in E1. simpl app in H1, E1. simpl length in E1.
  rewrite E1. cbn [mbind option_bind].
  rewrite (proj2 (Z.ltb_ge _ _)) by lia. rewrite Nat2Z.id.
  destruct (Nat.leb_spec outSize (length t)) as [Hover|Hfit].
  - assert (Et : text = take (outSize - 1) t).
    { unfold text. by rewrite take_app_le by lia. }
    destruct H1 as [Hl (pad & Hp)]. exists out1, pad. rewrite Et. split; [|by rewrite <- Hp].
    rewrite length_take, Nat.min_l by lia. rewrite u32_small by lia. do 2 f_equal. lia.
  - destruct (format_channels_text out outSize (instrCh_ i) Hn 0 out1 t H1 Hfit)
      as (out2 & t2 & rest & E2 & H2 & Et & Hr).
    rewrite E2. cbn [mbind option_bind]. rewrite (store_nul out out2 outSize t2) by done.
    cbn [mbind option_bind].
    assert (E : text = take (outSize - 1) t2).
    { unfold text. rewrite Et. destruct Hr as [->|Hr]; [by rewrite app_nil_r|].
      by rewrite take_app_le. }
    destruct H2 as [Hl (pad & Hp)]. exists out2, pad. rewrite E. split; [|by rewrite <- Hp].
    rewrite length_take. do 2 f_equal. destruct (Nat.leb_spec outSize (length t2)); lia.
Qed.

Definition demo_instr : Instr :=
  zero_instr <| instrCh_ := <[3 := zero_channel <| read_calls := 12%Z |> <| read_bytes := 40%Z |>]>
    (instrCh_ zero_instr) |>.

Lemma format_prefix_witness :
  exists out' pad, formatInstrumentation (zeros 120) 100 demo_instr = Some (out', 99%Z) /\
    length out' = 120 /\
    out' = take 99 (full_text demo_instr) ++ NUL :: pad ++ drop 100 (zeros 120).
Proof.
  refine (format_prefix (zeros 120) 100 demo_instr _ _ _); [lia|vm_compute; lia|done].
Defined.

(** With [outSize == 0] nothing is written, and the answer is [SIZE_MAX]. *)
Theorem format_zero_size out i : formatInstrumentation out 0 i = Some (out, 2 ^ 32 - 1)%Z.
Proof.
  unfold formatInstrumentation, snprintf. cbn [Nat.eqb mbind option_bind].
  by rewrite (proj2 (Z.ltb_ge _ _)) by lia.
Qed.
