(* ===== verification/ManagedConfig.v ===== *)
(** * The managed configuration (examples/src/minis_registration.cpp)

    The control centre sends the firmware a text of lines "KEY=value".
    [parseConfig] works in place on the buffer that holds it: it cuts the lines
    and trims the values by writing NULs, and keeps pointers into the buffer.
    The buffer is a list of bytes and pointers are offsets, as in HttpDiag.v: a
    value of type [option A] is the answer of code that may read or write outside
    the buffer or loop for ever ([None]).

    The last part is a reference on whole texts; ManagedConfigFacts.v proves that
    the code computes it ([receive_config_text]). *)

From S2P Require Import Prelude HttpDiag.

#[local] Open Scope nat_scope.

Abbreviation HASH := x23 (only parsing).
Abbreviation EQUALS := x3d (only parsing).

(** ** C strings in a buffer *)

(** [strlen(m + p)] *)
Definition strlen (m : list byte) (p : nat) : option nat := length <$> c_string (drop p m).

(** [strncmp(m + p, key, strlen(key)) == 0] *)
Fixpoint strncmp_eq (m : list byte) (p : nat) (key : list byte) : option bool :=
  match key with
  | [] => Some true
  | k :: key' => x ← m !! p; if Byte.eqb x k then strncmp_eq m (S p) key' else Some false
  end.

(** [strcmp(m + p, s) == 0] *)
Definition strcmp_eq (m : list byte) (p : nat) (s : list byte) : option bool :=
  strncmp_eq m p (s ++ [NUL]).

(** [strchr(m + p, c)] for [c] other than NUL. *)
Fixpoint strchr (fuel : nat) (m : list byte) (p : nat) (c : byte) : option (option nat) :=
  match fuel with
  | O => None
  | S fuel' =>
      x ← m !! p;
      if Byte.eqb x c then Some (Some p) else if Byte.eqb x NUL then Some None
      else strchr fuel' m (S p) c
  end.

(** [while (p(m[i])) ++i;] *)
Fixpoint skip_while (fuel : nat) (p : byte -> bool) (m : list byte) (i : nat) : option nat :=
  match fuel with
  | O => None
  | S fuel' => x ← m !! i; if p x then skip_while fuel' p m (S i) else Some i
  end.

(** More rounds than the buffer has bytes. *)
Definition fuel_of (m : list byte) : nat := S (length m).

(** [m[i] = 0] *)
Definition cut (m : list byte) (i : nat) : option (list byte) := store m i [NUL].

(** ** Values *)

Definition UINT32_MAX : Z := 2 ^ 32 - 1.

(** A blank or a carriage return. *)
Definition is_pad (b : byte) : bool := is_blank b || Byte.eqb b CR.

(** The loop over the digits: [Some None] is the overflow exit. *)
Fixpoint digits_loop (fuel : nat) (m : list byte) (text : nat) (parsed : Z)
  : option (option (Z * nat)) :=
  match fuel with
  | O => None
  | S fuel' =>
      x ← m !! text;
      if isdigit x then
        let digit := digit_value x in
        if ((UINT32_MAX - digit) / 10 <? parsed)%Z then Some None
        else digits_loop fuel' m (S text) (u32 (parsed * 10 + digit))
      else Some (Some (parsed, text))
  end.

(** [parseUnsigned(text, value)]: the value when it answers [true]. *)
Definition parseUnsigned (m : list byte) (text : nat) : option (option Z) :=
  x ← m !! text;
  if negb (isdigit x) then Some None else
  r ← digits_loop (fuel_of m) m text 0;
  match r with
  | None => Some None
  | Some (parsed, text) =>
      text ← skip_while (fuel_of m) is_pad m text;
      y ← m !! text;
      Some (if negb (Byte.eqb y NUL) && negb (Byte.eqb y LF) && negb (Byte.eqb y HASH)
            then None else Some parsed)
  end.

Inductive SettingResult (A : Type) :=
  | NotFound
  | Valid (value : A)
  | Invalid.
Arguments NotFound {A}.
Arguments Valid {A} value.
Arguments Invalid {A}.

(** The common start of [parseSetting] and [parseTextSetting]: the pointer behind
    "key =", if the line has that form. *)
Definition setting_value (m : list byte) (line : nat) (key : list byte) : option (option nat) :=
  same ← strncmp_eq m line key;
  if negb same then Some None else
  v ← skip_while (fuel_of m) is_blank m (line + length key);
  eq ← is_at m v EQUALS;
  if negb eq then Some None else
  Some <$> skip_while (fuel_of m) is_blank m (v + 1).

Definition parseSetting (m : list byte) (line : nat) (key : list byte)
  : option (SettingResult Z) :=
  v ← setting_value m line key;
  match v with
  | None => Some NotFound
  | Some v =>
      r ← parseUnsigned m v;
      Some (match r with Some z => Valid z | None => Invalid end)
  end.

(** [while (end > settingValue && is_pad(end[-1])) --end;] *)
Fixpoint trim_end (n : nat) (m : list byte) (start : nat) : option nat :=
  match n with
  | O => Some start
  | S n' => x ← m !! (start + n'); if is_pad x then trim_end n' m start else Some (start + n)
  end.

(** [parseTextSetting(line, key, value)]: the buffer afterwards and the pointer. *)
Definition parseTextSetting (m : list byte) (line : nat) (key : list byte)
  : option (list byte * SettingResult nat) :=
  v ← setting_value m line key;
  match v with
  | None => Some (m, NotFound)
  | Some v =>
      n ← strlen m v;
      end_ ← trim_end n m v;
      m ← cut m end_;
      x ← m !! v;
      Some (m, if Byte.eqb x NUL then Invalid else Valid v)
  end.

Definition to_lower (b : byte) : byte := tolower_byte b.

(** The loop of [equalsIgnoreCase], [right] being a literal. *)
Fixpoint equalsIgnoreCase (m : list byte) (left : nat) (right : list byte) : option bool :=
  x ← m !! left;
  match right with
  | [] => Some (Byte.eqb x NUL)
  | y :: right' =>
      if Byte.eqb x NUL then Some false
      else if Byte.eqb (to_lower x) (to_lower y) then equalsIgnoreCase m (S left) right'
      else Some false
  end.

(** [p || q]: [q] is not evaluated when [p] is true. *)
Definition or_else (p q : option bool) : option bool :=
  b ← p; if b : bool then Some true else q.

(** [equalsIgnoreCase] against several literals. *)
Fixpoint any_of (m : list byte) (p : nat) (names : list (list byte)) : option bool :=
  match names with
  | [] => Some false
  | n :: names' => or_else (equalsIgnoreCase m p n) (any_of m p names')
  end.

(** [parseBoolean(value, parsed)]: the value when it answers [true]. *)
Definition parseBoolean (m : list byte) (value : nat) : option (option bool) :=
  yes ← or_else (strcmp_eq m value (bytes "1"))
          (any_of m value [bytes "yes"; bytes "true"; bytes "on"]);
  if yes : bool then Some (Some true) else
  no ← or_else (strcmp_eq m value (bytes "0"))
         (any_of m value [bytes "no"; bytes "false"; bytes "off"]);
  Some (if no : bool then Some false else None).

Definition MAX_CONFIG_HOST_LENGTH : nat := 253.
Definition MAX_MAC_VENDOR_LENGTH : nat := 16.
Definition MIN_HEARTBEAT_INTERVAL_MIN : Z := 2.
Definition MAX_HEARTBEAT_INTERVAL_MIN : Z := 1440.

Definition host_char (b : byte) : bool :=
  let n := Byte.to_N b in
  ((97 <=? n) && (n <=? 122) || (65 <=? n) && (n <=? 90) || (48 <=? n) && (n <=? 57))%N
  || existsb (Byte.eqb b) (bytes ".-:[]").

(** The loop of [isValidConfigHost], [n] characters before its end. *)
Fixpoint host_chars (m : list byte) (host n : nat) : option bool :=
  match n with
  | O => Some true
  | S n' => x ← m !! host; if host_char x then host_chars m (S host) n' else Some false
  end.

Definition isValidConfigHost (m : list byte) (host : nat) : option bool :=
  length ← strlen m host;
  if (length =? 0) || (MAX_CONFIG_HOST_LENGTH <? length) then Some false
  else host_chars m host length.

Definition vendor_names : list (list byte) :=
  [bytes "ORIGINAL"; bytes "ESP32"; bytes "CISCO"; bytes "HP"].

Definition isValidMacVendor (m : list byte) (vendor : nat) : option bool :=
  any_of m vendor vendor_names.

(** ** The parser *)

(** The three fields of one setting: [sshPortPresent], [sshPortValid], [sshPort]. *)
Record Setting (A : Type) := mkSetting { present : bool; valid : bool; value : A }.
Arguments mkSetting {A} _ _ _.
Arguments present {A} _.
Arguments valid {A} _.
Arguments value {A} _.

(** [ParsedConfig]; the text settings are pointers into the buffer, here of any
    type [S]. *)
Record ParsedConfig (S : Type) := mkParsedConfig {
  heartbeatInterval : Setting Z;
  tunnelEnabled : Setting bool;
  sshHost : Setting S;
  sshPort : Setting Z;
  remoteBindHost : Setting S;
  remoteBindPort : Setting Z;
  localHost : Setting S;
  localPort : Setting Z;
  macVendor : Setting S
}.
Arguments mkParsedConfig {S} _ _ _ _ _ _ _ _ _.
Arguments heartbeatInterval {S} _.
Arguments tunnelEnabled {S} _.
Arguments sshHost {S} _.
Arguments sshPort {S} _.
Arguments remoteBindHost {S} _.
Arguments remoteBindPort {S} _.
Arguments localHost {S} _.
Arguments localPort {S} _.
Arguments macVendor {S} _.

#[export] Instance parsed_config_eta S : Eta (ParsedConfig S) := fun c =>
  mkParsedConfig (heartbeatInterval c) (tunnelEnabled c) (sshHost c) (sshPort c)
    (remoteBindHost c) (remoteBindPort c) (localHost c) (localPort c) (macVendor c).

Definition absent {A} (a : A) : Setting A := mkSetting false false a.

(** The default member values; [null] is the null pointer. *)
Definition new_config {S} (null : S) : ParsedConfig S :=
  mkParsedConfig (absent 0%Z) (absent false) (absent null) (absent 0%Z) (absent null)
    (absent 0%Z) (absent null) (absent 0%Z) (absent null).

(** A setting was found: [Some v] is a valid value. *)
Definition found {A} (v : option A) (s : Setting A) : Setting A :=
  match v with
  | Some v => mkSetting true true v
  | None => mkSetting true false (value s)
  end.

(** A program on the buffer and the configuration read so far, with
    [structurallyValid]. *)
Definition parser : Type :=
  list byte -> ParsedConfig nat -> bool -> option (list byte * ParsedConfig nat * bool).

(** One block of the loop for a number between [lo] and [hi]. *)
Definition number_block (key : list byte) (lo hi : Z) (get : ParsedConfig nat -> Setting Z)
    (put : Setting Z -> ParsedConfig nat -> ParsedConfig nat) (line : nat) : parser :=
  fun m parsed structurallyValid =>
  result ← parseSetting m line key;
  let s := get parsed in
  match result with
  | NotFound => Some (m, parsed, structurallyValid)
  | Valid value =>
      let v := if ((lo <=? value) && (value <=? hi))%Z then Some (value mod 2 ^ 16)%Z else None in
      Some (m, put (found v s) parsed, structurallyValid && negb (present s))
  | Invalid => Some (m, put (found None s) parsed, structurallyValid && negb (present s))
  end.

(** One block for a text that [check] accepts. *)
Definition text_block (key : list byte) (check : list byte -> nat -> option bool)
    (get : ParsedConfig nat -> Setting nat)
    (put : Setting nat -> ParsedConfig nat -> ParsedConfig nat) (line : nat) : parser :=
  fun m parsed structurallyValid =>
  '(m, result) ← parseTextSetting m line key;
  let s := get parsed in
  match result with
  | NotFound => Some (m, parsed, structurallyValid)
  | Valid textValue =>
      ok ← check m textValue;
      let v := if ok : bool then Some textValue else None in
      Some (m, put (found v s) parsed, structurallyValid && negb (present s))
  | Invalid => Some (m, put (found None s) parsed, structurallyValid && negb (present s))
  end.

(** The block for [TUNNEL_ENABLED]. *)
Definition enabled_block (line : nat) : parser :=
  fun m parsed structurallyValid =>
  '(m, result) ← parseTextSetting m line (bytes "TUNNEL_ENABLED");
  let s := tunnelEnabled parsed in
  match result with
  | NotFound => Some (m, parsed, structurallyValid)
  | Valid textValue =>
      v ← parseBoolean m textValue;
      Some (m, parsed <| tunnelEnabled := found v s |>, structurallyValid && negb (present s))
  | Invalid =>
      Some (m, parsed <| tunnelEnabled := found None s |>, structurallyValid && negb (present s))
  end.

Definition then_ (p q : parser) : parser := fun m c ok =>
  '(m, c, ok) ← p m c ok; q m c ok.

(** The nine blocks of the loop, each with its key. *)
Definition blocks : list (list byte * (nat -> parser)) :=
  [(bytes "HB_INTERVAL_MIN", number_block (bytes "HB_INTERVAL_MIN") MIN_HEARTBEAT_INTERVAL_MIN
      MAX_HEARTBEAT_INTERVAL_MIN heartbeatInterval (fun s c => c <| heartbeatInterval := s |>));
   (bytes "TUNNEL_ENABLED", enabled_block);
   (bytes "SSH_HOST", text_block (bytes "SSH_HOST") isValidConfigHost sshHost
      (fun s c => c <| sshHost := s |>));
   (bytes "SSH_PORT", number_block (bytes "SSH_PORT") 1 65535 sshPort
      (fun s c => c <| sshPort := s |>));
   (bytes "REMOTE_BIND_HOST", text_block (bytes "REMOTE_BIND_HOST") isValidConfigHost remoteBindHost
      (fun s c => c <| remoteBindHost := s |>));
   (bytes "REMOTE_BIND_PORT", number_block (bytes "REMOTE_BIND_PORT") 1 65535 remoteBindPort
      (fun s c => c <| remoteBindPort := s |>));
   (bytes "LOCAL_HOST", text_block (bytes "LOCAL_HOST") isValidConfigHost localHost
      (fun s c => c <| localHost := s |>));
   (bytes "LOCAL_PORT", number_block (bytes "LOCAL_PORT") 1 65535 localPort
      (fun s c => c <| localPort := s |>));
   (bytes "MAC_VENDOR", text_block (bytes "MAC_VENDOR") isValidMacVendor macVendor
      (fun s c => c <| macVendor := s |>))].

(** They run one after another on every line. *)
Fixpoint run_blocks (bs : list (list byte * (nat -> parser))) (line : nat) : parser :=
  match bs with
  | [] => fun m c ok => Some (m, c, ok)
  | (_, b) :: bs' => then_ (b line) (run_blocks bs' line)
  end.

Definition parse_line (line : nat) : parser := run_blocks blocks line.

(** The body of the loop on one line that ends with a NUL. *)
Definition line_body (line : nat) : parser := fun m parsed structurallyValid =>
  line ← skip_while (fuel_of m) is_pad m line;
  y ← m !! line;
  if negb (Byte.eqb y HASH) && negb (Byte.eqb y NUL)
  then parse_line line m parsed structurallyValid
  else Some (m, parsed, structurallyValid).

(** The loop of [parseConfig]. *)
Fixpoint parseConfig_from (fuel : nat) (line : nat) : parser := fun m parsed structurallyValid =>
  match fuel with
  | O => None
  | S fuel' =>
      x ← m !! line;
      if Byte.eqb x NUL then Some (m, parsed, structurallyValid) else
      nextLine ← strchr (fuel_of m) m line LF;
      m ← match nextLine with Some p => cut m p | None => Some m end;
      '(m, parsed, structurallyValid) ← line_body line m parsed structurallyValid;
      match nextLine with
      | None => Some (m, parsed, structurallyValid)
      | Some p => parseConfig_from fuel' (p + 1) m parsed structurallyValid
      end
  end.

Definition parseConfig (m : list byte) : option (list byte * ParsedConfig nat * bool) :=
  parseConfig_from (fuel_of m) 0 m (new_config 0) true.

Definition hasCompleteTunnelConfig {S} (parsed : ParsedConfig S) : bool :=
  present (tunnelEnabled parsed) && present (sshHost parsed) && present (sshPort parsed) &&
  present (remoteBindHost parsed) && present (remoteBindPort parsed) &&
  present (localHost parsed) && present (localPort parsed) && valid (tunnelEnabled parsed) &&
  valid (sshHost parsed) && valid (sshPort parsed) && valid (remoteBindHost parsed) &&
  valid (remoteBindPort parsed) && valid (localHost parsed) && valid (localPort parsed) &&
  (negb (present (macVendor parsed)) || valid (macVendor parsed)).

(** ** From the parser to the main task *)

Record ManagedTunnelConfig := mkManaged {
  mt_enabled : bool;
  mt_sshHost : list byte;
  mt_sshPort : Z;
  mt_remoteBindHost : list byte;
  mt_remoteBindPort : Z;
  mt_localHost : list byte;
  mt_localPort : Z;
  mt_macVendor : option (list byte)   (* [macVendorPresent] and [macVendor] *)
}.

(** [strlcpy] into an array of [size] zeroed bytes. *)
Definition strlcpy (size : nat) (m : list byte) (src : nat) : option (list byte) :=
  s ← c_string (drop src m);
  store (zeros size) 0 (take (size - 1) s).

(** [QueuedManagedConfig] *)
Record QueuedManagedConfig := mkQueued {
  qm_enabled : bool;
  qm_sshPort : Z;
  qm_remoteBindPort : Z;
  qm_localPort : Z;
  qm_macVendorPresent : bool;
  qm_sshHost : list byte;
  qm_remoteBindHost : list byte;
  qm_localHost : list byte;
  qm_macVendor : list byte
}.

(** What [queueManagedConfig] puts into the queue. *)
Definition queued_config (m : list byte) (parsed : ParsedConfig nat) : option QueuedManagedConfig :=
  let size := MAX_CONFIG_HOST_LENGTH + 1 in
  sshH ← strlcpy size m (value (sshHost parsed));
  remoteH ← strlcpy size m (value (remoteBindHost parsed));
  localH ← strlcpy size m (value (localHost parsed));
  vendor ← (if present (macVendor parsed)
            then strlcpy (MAX_MAC_VENDOR_LENGTH + 1) m (value (macVendor parsed))
            else Some (zeros (MAX_MAC_VENDOR_LENGTH + 1)));
  Some (mkQueued (value (tunnelEnabled parsed)) (value (sshPort parsed))
    (value (remoteBindPort parsed)) (value (localPort parsed)) (present (macVendor parsed))
    sshH remoteH localH vendor).

(** What [takeManagedTunnelConfig] makes of an entry of the queue. *)
Definition takeManagedTunnelConfig (q : QueuedManagedConfig) : option ManagedTunnelConfig :=
  sshH ← c_string (qm_sshHost q);
  remoteH ← c_string (qm_remoteBindHost q);
  localH ← c_string (qm_localHost q);
  vendor ← (if qm_macVendorPresent q then Some <$> c_string (qm_macVendor q) else Some None);
  Some (mkManaged (qm_enabled q) sshH (qm_sshPort q) remoteH (qm_remoteBindPort q)
    localH (qm_localPort q) vendor).

(** [refreshConfig] from the answer of the server on: the heartbeat interval and
    the configuration that reaches the main task, if the text is accepted. *)
Definition receive_config (m : list byte) : option (option (Z * ManagedTunnelConfig)) :=
  '(m, parsed, structurallyValid) ← parseConfig m;
  if negb structurallyValid then Some None else
  if negb (present (heartbeatInterval parsed)) || negb (valid (heartbeatInterval parsed))
     || negb (hasCompleteTunnelConfig parsed) then Some None else
  q ← queued_config m parsed;
  c ← takeManagedTunnelConfig q;
  Some (Some (value (heartbeatInterval parsed), c)).

(** ** The reference *)

(** "name = value": the name ends at the first blank or [=]. *)
Definition name_char (b : byte) : bool := negb (is_blank b || Byte.eqb b EQUALS).

Definition line_setting (l : list byte) : option (list byte * list byte) :=
  let name := take_while name_char l in
  match drop_while is_blank (drop (length name) l) with
  | b :: v => if Byte.eqb b EQUALS then Some (name, drop_while is_blank v) else None
  | [] => None
  end.

Definition decimal (d : list byte) : Z := fold_left (fun a b => a * 10 + digit_value b)%Z d 0%Z.

(** Digits, then blanks, then the end of the line or a comment. *)
Definition number_value (v : list byte) : option Z :=
  let d := take_while isdigit v in
  let ends := match drop_while is_pad (drop (length d) v) with
              | [] => true
              | b :: _ => Byte.eqb b HASH || Byte.eqb b LF
              end in
  if negb (bool_decide (d = [])) && ends && (decimal d <=? UINT32_MAX)%Z
  then Some (decimal d) else None.

Definition rtrim (v : list byte) : list byte := reverse (drop_while is_pad (reverse v)).

Definition same_word (s name : list byte) : bool :=
  bool_decide (to_lower <$> s = to_lower <$> name).

Definition bool_value (s : list byte) : option bool :=
  if bool_decide (s = bytes "1") || existsb (same_word s) [bytes "yes"; bytes "true"; bytes "on"]
  then Some true
  else if bool_decide (s = bytes "0") || existsb (same_word s) [bytes "no"; bytes "false"; bytes "off"]
  then Some false else None.

Definition host_ok (s : list byte) : bool :=
  (1 <=? length s) && (length s <=? MAX_CONFIG_HOST_LENGTH) && forallb host_char s.

Definition vendor_ok (s : list byte) : bool := existsb (same_word s) vendor_names.

Definition number_in (lo hi : Z) (v : list byte) : option Z :=
  z ← number_value v; if ((lo <=? z) && (z <=? hi))%Z then Some z else None.

Definition text_in (check : list byte -> bool) (v : list byte) : option (list byte) :=
  let s := rtrim v in if check s then Some s else None.

(** Settings and whether none came twice. *)
Definition ref_state : Type := ParsedConfig (list byte) * bool.

Definition note {A} (get : ParsedConfig (list byte) -> Setting A)
    (put : Setting A -> ParsedConfig (list byte) -> ParsedConfig (list byte))
    (v : option A) (st : ref_state) : ref_state :=
  (put (found v (get st.1)) st.1, st.2 && negb (present (get st.1))).

(** The meaning of the settings, by name. *)
Definition meanings : list (list byte * (list byte -> ref_state -> ref_state)) :=
  [(bytes "HB_INTERVAL_MIN", fun v => note heartbeatInterval (fun s c => c <| heartbeatInterval := s |>)
      (number_in MIN_HEARTBEAT_INTERVAL_MIN MAX_HEARTBEAT_INTERVAL_MIN v));
   (bytes "TUNNEL_ENABLED", fun v => note tunnelEnabled (fun s c => c <| tunnelEnabled := s |>)
      (bool_value (rtrim v)));
   (bytes "SSH_HOST", fun v => note sshHost (fun s c => c <| sshHost := s |>) (text_in host_ok v));
   (bytes "SSH_PORT", fun v => note sshPort (fun s c => c <| sshPort := s |>) (number_in 1 65535 v));
   (bytes "REMOTE_BIND_HOST", fun v => note remoteBindHost (fun s c => c <| remoteBindHost := s |>)
      (text_in host_ok v));
   (bytes "REMOTE_BIND_PORT", fun v => note remoteBindPort (fun s c => c <| remoteBindPort := s |>)
      (number_in 1 65535 v));
   (bytes "LOCAL_HOST", fun v => note localHost (fun s c => c <| localHost := s |>)
      (text_in host_ok v));
   (bytes "LOCAL_PORT", fun v => note localPort (fun s c => c <| localPort := s |>)
      (number_in 1 65535 v));
   (bytes "MAC_VENDOR", fun v => note macVendor (fun s c => c <| macVendor := s |>)
      (text_in vendor_ok v))].

Fixpoint meaning_of (ms : list (list byte * (list byte -> ref_state -> ref_state)))
    (name v : list byte) (st : ref_state) : ref_state :=
  match ms with
  | [] => st
  | (k, f) :: ms' => if decide (name = k) then f v st else meaning_of ms' name v st
  end.

Definition ref_setting : list byte -> list byte -> ref_state -> ref_state := meaning_of meanings.

(** Empty lines and comments mean nothing. *)
Definition ref_line (st : ref_state) (l : list byte) : ref_state :=
  match drop_while is_pad l with
  | [] => st
  | b :: l' =>
      if Byte.eqb b HASH then st else
      match line_setting (b :: l') with
      | Some (name, v) => ref_setting name v st
      | None => st
      end
  end.

Definition ref_config (text : list byte) : ref_state :=
  fold_left ref_line (split_lf text) (new_config [], true).

(** What the main task gets from a text. *)
Definition reference_config (text : list byte) : option (Z * ManagedTunnelConfig) :=
  let '(c, ok) := ref_config text in
  if ok && present (heartbeatInterval c) && valid (heartbeatInterval c)
     && hasCompleteTunnelConfig c
  then Some (value (heartbeatInterval c),
    mkManaged (value (tunnelEnabled c)) (value (sshHost c)) (value (sshPort c))
      (value (remoteBindHost c)) (value (remoteBindPort c)) (value (localHost c))
      (value (localPort c)) (if present (macVendor c) then Some (value (macVendor c)) else None))
  else None.

(** A text for the examples. *)
Definition demo_config : list byte :=
  bytes "# tunnel" ++ [LF] ++ bytes "HB_INTERVAL_MIN = 15 # minutes" ++ [CR; LF] ++
  bytes "TUNNEL_ENABLED=Yes" ++ [LF] ++ bytes "SSH_HOST = ssh.example.org  " ++ [CR; LF] ++
  bytes "SSH_PORT=22" ++ [LF] ++ bytes "REMOTE_BIND_HOST=127.0.0.1" ++ [LF] ++
  bytes "REMOTE_BIND_PORT=23180" ++ [LF] ++ bytes "LOCAL_HOST=[::1]" ++ [LF] ++
  bytes "LOCAL_PORT=80" ++ [LF] ++ bytes "MAC_VENDOR=hp".
