(* ===== verification/ManagedConfigFacts.v ===== *)
(** * The managed configuration: proofs

    The parser of ManagedConfig.v stays inside its buffer, ends, and computes the
    reference: first the operations on C strings, then one line, then the text. *)

From S2P Require Import Prelude HttpDiag HttpDiagFacts ManagedConfig.

#[local] Open Scope nat_scope.

(** ** C strings *)

(** The string at [p] is [s]. *)
Definition str_at (m : list byte) (p : nat) (s : list byte) : Prop := c_string (drop p m) = Some s.

Lemma str_at_cons m p b s : str_at m p (b :: s) <-> m !! p = Some b /\ b <> NUL /\ str_at m (S p) s.
Proof.
  unfold str_at. destruct (m !! p) as [x|] eqn:E.
  - rewrite (drop_S _ _ _ E). cbn [c_string]. destruct (eqb_spec x NUL) as [->|Hx].
    + split; [done|]. intros ([= <-] & ? & _). done.
    + destruct (c_string (drop (S p) m)); simpl; naive_solver.
  - rewrite drop_ge by by apply lookup_ge_None. naive_solver.
Qed.

Lemma str_at_nil m p : str_at m p [] <-> m !! p = Some NUL.
Proof.
  unfold str_at. destruct (m !! p) as [x|] eqn:E.
  - rewrite (drop_S _ _ _ E). cbn [c_string]. destruct (eqb_spec x NUL) as [->|Hx]; [done|].
    destruct (c_string _); naive_solver.
  - rewrite drop_ge by by apply lookup_ge_None. naive_solver.
Qed.

Lemma str_at_length m p s : str_at m p s -> p + length s < length m.
Proof.
  revert p. induction s as [|b s IH]; intros p.
  - rewrite str_at_nil. intros H%lookup_lt_Some. simpl. lia.
  - rewrite str_at_cons. intros (_ & _ & H%IH). simpl. lia.
Qed.

Lemma str_at_no_nul m p s : str_at m p s -> NUL ∉ s.
Proof.
  revert p. induction s as [|b s IH]; intros p; [intros _; apply not_elem_of_nil|].
  rewrite str_at_cons. intros (_ & Hb & H%IH). rewrite not_elem_of_cons. by split.
Qed.

Lemma str_at_app m p s t : str_at m p (s ++ t) -> str_at m (p + length s) t.
Proof.
  revert p. induction s as [|b s IH]; intros p; [by rewrite Nat.add_0_r|].
  cbn [app]. rewrite str_at_cons. intros (_ & _ & H%IH).
  by replace (p + length (b :: s)) with (S p + length s) by (simpl; lia).
Qed.

(** Cutting a string. *)
Lemma cut_insert m i : i < length m -> cut m i = Some (<[i := NUL]> m).
Proof.
  intros H. unfold cut, store. simpl. rewrite (proj2 (Nat.leb_le _ _)) by lia.
  f_equal. rewrite insert_take_drop by done. by rewrite Nat.add_1_r.
Qed.

Lemma str_at_cut m p s t : str_at m p (s ++ t) -> str_at (<[p + length s := NUL]> m) p s.
Proof.
  revert p. induction s as [|b s IH]; intros p H.
  - rewrite Nat.add_0_r. apply str_at_nil. apply list_lookup_insert_eq.
    apply str_at_length in H. lia.
  - cbn [app] in H. apply str_at_cons in H as (E & Hb & H%IH). apply str_at_cons.
    replace (p + length (b :: s)) with (S p + length s) by (simpl; lia).
    rewrite list_lookup_insert_ne by lia. done.
Qed.

(** A string depends on the bytes up to its end only. *)
Lemma str_at_frame m m' p s b : take b m' = take b m -> p + length s < b ->
  str_at m p s -> str_at m' p s.
Proof.
  intros Hb. revert p. induction s as [|x s IH]; intros p Hl.
  - rewrite !str_at_nil. intros E. simpl in Hl.
    rewrite <- (lookup_take_lt m' b p), Hb by lia. by rewrite lookup_take_lt by lia.
  - rewrite !str_at_cons. simpl in Hl. intros (E & Hx & H). split; [|split; [done|apply IH; [lia|done]]].
    rewrite <- (lookup_take_lt m' b p), Hb by lia. by rewrite lookup_take_lt by lia.
Qed.

Lemma fuel_enough m p s : str_at m p s -> length s < fuel_of m.
Proof. intros H%str_at_length. unfold fuel_of. lia. Qed.

(** ** Scans *)

Lemma strncmp_eq_prefix m key : NUL ∉ key -> forall p s, str_at m p s ->
  strncmp_eq m p key = Some (bool_decide (take (length key) s = key)).
Proof.
  induction key as [|k key IH]; intros Hk p s Hs; [done|].
  apply not_elem_of_cons in Hk as [Hk0 Hk]. simpl.
  destruct s as [|b s].
  - rewrite str_at_nil in Hs. rewrite Hs. simpl. by destruct (eqb_spec NUL k).
  - apply str_at_cons in Hs as (E & _ & Hs). rewrite E. simpl.
    destruct (eqb_spec b k) as [->|Hne].
    + rewrite (IH Hk (S p) s Hs). f_equal. apply bool_decide_ext.
      split; [by intros ->|by intros [= ->]].
    + rewrite bool_decide_false; [done|by intros [= ? _]].
Qed.

Lemma strcmp_eq_decide m key : NUL ∉ key -> forall p s, str_at m p s ->
  strcmp_eq m p key = Some (bool_decide (s = key)).
Proof.
  unfold strcmp_eq. induction key as [|k key IH]; intros Hk p s Hs; simpl.
  - destruct s as [|b s].
    + rewrite str_at_nil in Hs. by rewrite Hs.
    + apply str_at_cons in Hs as (E & Hb & _). rewrite E. simpl.
      by destruct (eqb_spec b NUL).
  - apply not_elem_of_cons in Hk as [Hk0 Hk]. destruct s as [|b s].
    + rewrite str_at_nil in Hs. rewrite Hs. simpl. by destruct (eqb_spec NUL k).
    + apply str_at_cons in Hs as (E & _ & Hs). rewrite E. simpl.
      destruct (eqb_spec b k) as [->|Hne].
      * rewrite (IH Hk (S p) s Hs). f_equal. apply bool_decide_ext.
        split; [by intros ->|by intros [= ->]].
      * rewrite bool_decide_false; [done|by intros [= ? _]].
Qed.

Lemma strchr_index m c : c <> NUL -> forall fuel p s, length s < fuel -> str_at m p s ->
  strchr fuel m p c = Some (Nat.add p <$> index c s).
Proof.
  intros Hc fuel. induction fuel as [|fuel IH]; intros p s Hf Hs; [lia|]. simpl.
  destruct s as [|b s].
  - rewrite str_at_nil in Hs. rewrite Hs. simpl. by destruct (eqb_spec NUL c).
  - apply str_at_cons in Hs as (E & Hb & Hs). rewrite E. simpl.
    destruct (eqb_spec b c); [simpl; by rewrite Nat.add_0_r|].
    destruct (eqb_spec b NUL); [done|]. rewrite (IH (S p) s) by (simpl in Hf; lia || done).
    destruct (index c s); simpl; [|done]. do 2 f_equal. lia.
Qed.

Lemma drop_while_length p l : length (drop_while p l) <= length l.
Proof. induction l as [|b l IH]; simpl; [done|]. destruct (p b); simpl; lia. Qed.

Lemma skip_while_drop m p : p NUL = false -> forall fuel i s, length s < fuel -> str_at m i s ->
  exists j, skip_while fuel p m i = Some j /\ str_at m j (drop_while p s) /\ i <= j /\
    j + length (drop_while p s) = i + length s.
Proof.
  intros Hp fuel. induction fuel as [|fuel IH]; intros i s Hf Hs; [lia|]. simpl.
  destruct s as [|b s].
  - pose proof Hs as E. rewrite str_at_nil in E. rewrite E. simpl. rewrite Hp.
    exists i. repeat split; [done|lia].
  - pose proof Hs as Hs'. apply str_at_cons in Hs' as (E & Hb & Hs'). rewrite E. simpl.
    destruct (p b).
    + destruct (IH (S i) s) as (j & -> & Hj & Hij & Hl); [simpl in Hf; lia|done|].
      exists j. repeat split; [done|lia|lia].
    + exists i. repeat split; [done|lia].
Qed.

(** ** Numbers *)

Definition decimal_from (a : Z) (d : list byte) : Z :=
  fold_left (fun a b => a * 10 + digit_value b)%Z d a.

Lemma isdigit_value b : isdigit b = true -> (0 <= digit_value b <= 9)%Z.
Proof.
  unfold isdigit, digit_value. intros [H1%N.leb_le H2%N.leb_le]%andb_prop. lia.
Qed.

Lemma decimal_from_grows d : forall a, (0 <= a)%Z -> forallb isdigit d = true ->
  (a <= decimal_from a d)%Z.
Proof.
  induction d as [|b d IH]; intros a Ha Hd; [done|]. simpl in Hd.
  apply andb_prop in Hd as [Hb%isdigit_value Hd].
  specialize (IH (a * 10 + digit_value b)%Z). cbn [decimal_from fold_left].
  unfold decimal_from in IH. etrans; [|apply IH; [lia|done]]. lia.
Qed.

Lemma take_while_all p l : forallb p (take_while p l) = true.
Proof. induction l as [|b l IH]; [done|]. simpl. destruct (p b) eqn:E; simpl; by rewrite ?E. Qed.

Lemma digits_loop_decimal m fuel : forall p s a, length s < fuel -> str_at m p s ->
  (0 <= a <= UINT32_MAX)%Z ->
  let d := take_while isdigit s in
  digits_loop fuel m p a =
    Some (if (decimal_from a d <=? UINT32_MAX)%Z then Some (decimal_from a d, p + length d) else None).
Proof.
  induction fuel as [|fuel IH]; intros p s a Hf Hs Ha; [lia|]. simpl.
  destruct s as [|b s].
  - rewrite str_at_nil in Hs. rewrite Hs. simpl.
    rewrite (proj2 (Z.leb_le _ _)) by lia. by rewrite Nat.add_0_r.
  - apply str_at_cons in Hs as (E & _ & Hs). rewrite E. simpl. destruct (isdigit b) eqn:Hb.
    2: { simpl. rewrite (proj2 (Z.leb_le _ _)) by lia. by rewrite Nat.add_0_r. }
    pose proof (isdigit_value b Hb) as Hd. cbn [take_while]. unfold UINT32_MAX in *.
    assert (Hdec : ((2 ^ 32 - 1 - digit_value b) / 10 <? a)%Z =
                   negb (a * 10 + digit_value b <=? 2 ^ 32 - 1)%Z).
    { destruct (Z.ltb_spec ((2 ^ 32 - 1 - digit_value b) / 10) a);
        destruct (Z.leb_spec (a * 10 + digit_value b) (2 ^ 32 - 1)); try done;
        exfalso; Z.to_euclidean_division_equations; lia. }
    rewrite Hdec. destruct (Z.leb_spec (a * 10 + digit_value b) (2 ^ 32 - 1)) as [Hok|Hov]; simpl.
    + rewrite u32_small by lia. rewrite (IH (S p) s) by (simpl in Hf; lia || done).
      unfold decimal_from. simpl. by rewrite Nat.add_succ_r.
    + pose proof (decimal_from_grows (take_while isdigit s) (a * 10 + digit_value b)) as Hg.
      rewrite (proj2 (Z.leb_gt _ _)); [done|]. unfold decimal_from in *. cbn [fold_left].
      specialize (Hg ltac:(lia) (take_while_all _ _)). lia.
Qed.

Lemma take_drop_while p l : drop (length (take_while p l)) l = drop_while p l.
Proof. induction l as [|b l IH]; [done|]. simpl. by destruct (p b). Qed.

Lemma take_while_app_drop p l : take_while p l ++ drop_while p l = l.
Proof. induction l as [|b l IH]; [done|]. simpl. destruct (p b); simpl; by rewrite ?IH. Qed.

Lemma str_at_skip m p s n : str_at m p s -> n <= length s -> str_at m (p + n) (drop n s).
Proof.
  intros H Hn. rewrite <- (take_drop n s) in H. apply str_at_app in H.
  by rewrite length_take, Nat.min_l in H by done.
Qed.

Lemma parseUnsigned_number m p s : str_at m p s -> parseUnsigned m p = Some (number_value s).
Proof.
  intros Hs. unfold parseUnsigned, number_value.
  destruct s as [|b s'] eqn:Es.
  { apply str_at_nil in Hs as ->. done. }
  pose proof Hs as Hs'. apply str_at_cons in Hs' as (E & _ & _). rewrite E. cbn [mbind option_bind].
  destruct (isdigit b) eqn:Hb.
  2: { cbn [take_while]. by rewrite Hb. }
  rewrite <- Es in *. simpl negb. cbn iota.
  rewrite (digits_loop_decimal m (fuel_of m) p s 0 (fuel_enough _ _ _ Hs) Hs) by done.
  assert (bool_decide (take_while isdigit s = []) = false) as ->.
  { apply bool_decide_false. rewrite Es. simpl. by rewrite Hb. }
  change (decimal_from 0 (take_while isdigit s)) with (decimal (take_while isdigit s)).
  cbn [mbind option_bind]. destruct (_ <=? UINT32_MAX)%Z; [|by rewrite andb_false_r].
  rewrite andb_true_r. simpl andb.
  apply (str_at_skip _ _ _ (length (take_while isdigit s))) in Hs; [|apply length_take_while].
  destruct (skip_while_drop m is_pad eq_refl (fuel_of m) _ _ (fuel_enough _ _ _ Hs) Hs)
    as (j & -> & Hj & _). cbn [mbind option_bind].
  destruct (drop_while is_pad _) as [|x r].
  - apply str_at_nil in Hj as ->. done.
  - apply str_at_cons in Hj as (-> & Hx & _). cbn [mbind option_bind].
    destruct (eqb_spec x NUL); [done|]. simpl.
    by destruct (Byte.eqb x LF), (Byte.eqb x HASH).
Qed.

(** ** Texts *)

Lemma rtrim_snoc l b : rtrim (l ++ [b]) = if is_pad b then rtrim l else l ++ [b].
Proof.
  unfold rtrim. rewrite reverse_snoc. simpl. destruct (is_pad b); [done|].
  by rewrite reverse_cons, reverse_involutive.
Qed.

Lemma rtrim_take l : exists n, n <= length l /\ rtrim l = take n l.
Proof.
  induction l as [|b l IH] using rev_ind; [by exists 0|].
  rewrite rtrim_snoc. destruct (is_pad b).
  - destruct IH as (n & Hn & ->). exists n. rewrite length_app. split; [lia|].
    by rewrite take_app_le.
  - exists (length (l ++ [b])). split; [done|]. by rewrite take_ge.
Qed.

Lemma length_rtrim l : length (rtrim l) <= length l.
Proof. destruct (rtrim_take l) as (n & Hn & ->). rewrite length_take. lia. Qed.

Lemma rtrim_prefix l : exists t, l = rtrim l ++ t.
Proof. destruct (rtrim_take l) as (n & _ & ->). exists (drop n l). by rewrite take_drop. Qed.

Lemma str_at_lookup m p s i : str_at m p s -> i < length s -> m !! (p + i) = s !! i.
Proof.
  intros H Hi. destruct (lookup_lt_is_Some_2 s i Hi) as [b Hb].
  apply (str_at_skip _ _ _ i) in H; [|lia]. rewrite (drop_S _ _ _ Hb) in H.
  apply str_at_cons in H as [-> _]. done.
Qed.

Lemma trim_end_rtrim m p s n : str_at m p s -> n <= length s ->
  trim_end n m p = Some (p + length (rtrim (take n s))).
Proof.
  intros Hs. induction n as [|n IH]; intros Hn; [simpl; by rewrite Nat.add_0_r|].
  destruct (lookup_lt_is_Some_2 s n) as [b Hb]; [lia|].
  simpl. rewrite (str_at_lookup m p s n), Hb by (done || lia). simpl.
  rewrite (take_S_r _ _ _ Hb), rtrim_snoc. destruct (is_pad b); [by apply IH; lia|].
  rewrite length_app, length_take, Nat.min_l by lia. simpl. f_equal. lia.
Qed.

(** ** Words *)

Lemma equalsIgnoreCase_word m name : NUL ∉ name -> forall p s, str_at m p s ->
  equalsIgnoreCase m p name = Some (same_word s name).
Proof.
  unfold same_word. induction name as [|y name IH]; intros Hn p s Hs; destruct s as [|b s].
  - apply str_at_nil in Hs. simpl. by rewrite Hs.
  - apply str_at_cons in Hs as (E & Hb & _). simpl. rewrite E. simpl. by destruct (eqb_spec b NUL).
  - apply str_at_nil in Hs. simpl. by rewrite Hs.
  - apply not_elem_of_cons in Hn as [_ Hn]. apply str_at_cons in Hs as (E & Hb & Hs).
    simpl. rewrite E. simpl. destruct (eqb_spec b NUL); [done|].
    destruct (eqb_spec (to_lower b) (to_lower y)) as [->|Hne].
    + rewrite (IH Hn (S p) s Hs). f_equal. apply bool_decide_ext.
      split; [intros Heq; f_equal; exact Heq|intros [= Heq]; exact Heq].
    + f_equal. symmetry. apply bool_decide_false. by intros [=].
Qed.

Lemma any_of_words m names p s : Forall (fun n => NUL ∉ n) names -> str_at m p s ->
  any_of m p names = Some (existsb (same_word s) names).
Proof.
  intros Hn Hs. induction names as [|n names IH]; [done|]. inversion Hn as [|? ? H1 H2]; subst.
  simpl. unfold or_else. rewrite (equalsIgnoreCase_word m n H1 p s Hs). simpl.
  destruct (same_word s n); [done|]. by apply IH.
Qed.

Ltac no_nul := repeat constructor; by apply index_None.

Lemma parseBoolean_value m p s : str_at m p s -> parseBoolean m p = Some (bool_value s).
Proof.
  intros Hs. unfold parseBoolean, bool_value, or_else.
  rewrite (strcmp_eq_decide m (bytes "1")) with (s := s) by (no_nul || done).
  rewrite (strcmp_eq_decide m (bytes "0")) with (s := s) by (no_nul || done).
  rewrite !(any_of_words m _ p s) by (no_nul || done). cbn [mbind option_bind].
  destruct (bool_decide (s = bytes "1")); [done|]. cbn [orb mbind option_bind].
  destruct (existsb _ [bytes "yes"; _; _]); [done|]. cbn [mbind option_bind].
  destruct (bool_decide (s = bytes "0")); [done|]. cbn [orb mbind option_bind].
  by destruct (existsb _ _).
Qed.

Lemma host_chars_all m s : forall p, str_at m p s ->
  host_chars m p (length s) = Some (forallb host_char s).
Proof.
  induction s as [|b s IH]; intros p Hs; [done|]. apply str_at_cons in Hs as (E & _ & Hs).
  simpl. rewrite E. simpl. destruct (host_char b); [by apply IH|done].
Qed.

Lemma isValidConfigHost_ok m p s : str_at m p s -> isValidConfigHost m p = Some (host_ok s).
Proof.
  intros Hs. unfold isValidConfigHost, host_ok, strlen. rewrite Hs. cbn [fmap option_fmap option_map mbind option_bind].
  rewrite (host_chars_all m s p Hs).
  destruct (Nat.eqb_spec (length s) 0) as [E|E]; [by rewrite E|].
  rewrite (proj2 (Nat.leb_le _ _)) by lia. simpl.
  destruct (Nat.ltb_spec MAX_CONFIG_HOST_LENGTH (length s)) as [Hl|Hl].
  - by rewrite (proj2 (Nat.leb_gt _ _)).
  - by rewrite (proj2 (Nat.leb_le _ _)).
Qed.

Lemma isValidMacVendor_ok m p s : str_at m p s -> isValidMacVendor m p = Some (vendor_ok s).
Proof. intros Hs. apply any_of_words; [unfold vendor_names; no_nul|done]. Qed.

(** ** "name = value" *)

Lemma drop_while_nil p l : forallb p l = true -> forall t,
  (forall b, head t = Some b -> p b = false) -> drop_while p (l ++ t) = t.
Proof.
  intros Hl t Ht. induction l as [|b l IH]; simpl.
  - destruct t as [|b t]; [done|]. simpl. by rewrite (Ht b).
  - simpl in Hl. apply andb_prop in Hl as [-> Hl]. by apply IH.
Qed.

Lemma take_while_exact p l : forallb p l = true -> forall t,
  (forall b, head t = Some b -> p b = false) -> take_while p (l ++ t) = l.
Proof.
  intros Hl t Ht. induction l as [|b l IH]; simpl.
  - destruct t as [|b t]; [done|]. simpl. by rewrite (Ht b).
  - simpl in Hl. apply andb_prop in Hl as [-> Hl]. by rewrite IH.
Qed.

Lemma drop_while_head p l b : head (drop_while p l) = Some b -> p b = false.
Proof.
  induction l as [|x l IH]; [done|]. simpl. destruct (p x) eqn:E; [done|]. by intros [= <-].
Qed.

Definition no_blank_first (v : list byte) : Prop := forall b, head v = Some b -> is_blank b = false.

(** A line of that form, taken apart. *)
Record shaped (l name bl bl2 v : list byte) : Prop := {
  sh_line : l = name ++ bl ++ EQUALS :: bl2 ++ v;
  sh_name : forallb name_char name = true;
  sh_bl : forallb is_blank bl = true;
  sh_bl2 : forallb is_blank bl2 = true;
  sh_v : no_blank_first v
}.

Lemma line_setting_shaped l name v : line_setting l = Some (name, v) -> exists bl bl2,
  shaped l name bl bl2 v.
Proof.
  unfold line_setting. rewrite take_drop_while. set (r := drop_while name_char l). intros H.
  exists (take_while is_blank r). pose proof (take_while_app_drop name_char l) as El. fold r in El.
  pose proof (take_while_app_drop is_blank r) as Er.
  destruct (drop_while is_blank r) as [|b w] eqn:Ew; [done|].
  destruct (eqb_spec b EQUALS) as [->|]; [|done]. injection H as <- <-.
  exists (take_while is_blank w). constructor.
  - by rewrite take_while_app_drop, Er, El.
  - apply take_while_all.
  - apply take_while_all.
  - apply take_while_all.
  - intros c. apply drop_while_head.
Qed.

Lemma shaped_line_setting l name bl bl2 v : shaped l name bl bl2 v ->
  line_setting l = Some (name, v).
Proof.
  intros [-> Hn Hb Hb2 Hv]. unfold line_setting.
  rewrite (take_while_exact name_char name Hn).
  - rewrite drop_app_length, (drop_while_nil is_blank bl Hb); [|by intros b [= <-]].
    simpl. by rewrite (drop_while_nil is_blank bl2 Hb2).
  - intros b. destruct bl as [|c bl]; simpl; [by intros [= <-]|]. intros [= <-].
    simpl in Hb. apply andb_prop in Hb as [Hb _]. unfold name_char. by rewrite Hb.
Qed.

Definition key_ok (key : list byte) : Prop := forallb name_char key = true /\ NUL ∉ key.

(** [setting_value] finds the value of the line that has this name. *)
Lemma setting_value_hit m line l key v : key_ok key -> str_at m line l ->
  line_setting l = Some (key, v) ->
  exists q, setting_value m line key = Some (Some q) /\ str_at m q v /\
    line <= q /\ q + length v = line + length l.
Proof.
  intros [Hk Hn] Hs (bl & bl2 & [-> _ Hb Hb2 Hv])%line_setting_shaped. unfold setting_value.
  rewrite (strncmp_eq_prefix m key Hn _ _ Hs), take_app_length, bool_decide_true by done.
  cbn [mbind option_bind negb].
  pose proof (str_at_app _ _ _ _ Hs) as H1.
  destruct (skip_while_drop m is_blank eq_refl (fuel_of m) _ _ (fuel_enough _ _ _ H1) H1)
    as (j & -> & Hj & Hij & Hlj). cbn [mbind option_bind].
  rewrite (drop_while_nil is_blank bl Hb) in Hj, Hlj by (by intros b [= <-]).
  apply str_at_cons in Hj as (E & _ & Hj). unfold is_at. rewrite E. cbn [mbind option_bind negb].
  rewrite <- Nat.add_1_r in Hj.
  destruct (skip_while_drop m is_blank eq_refl (fuel_of m) _ _ (fuel_enough _ _ _ Hj) Hj)
    as (q & -> & Hq & Hjq & Hlq). rewrite (drop_while_nil is_blank bl2 Hb2 v Hv) in Hq, Hlq.
  exists q. split; [done|]. split; [done|].
  repeat rewrite length_app in Hlj. repeat rewrite length_app. simpl in *.
  repeat rewrite length_app in *. lia.
Qed.

Lemma setting_value_miss m line l key : key_ok key -> str_at m line l ->
  (forall v, line_setting l <> Some (key, v)) -> setting_value m line key = Some None.
Proof.
  intros [Hk Hn] Hs Hmiss. unfold setting_value. rewrite (strncmp_eq_prefix m key Hn _ _ Hs).
  cbn [mbind option_bind]. destruct (bool_decide _) eqn:E; [|done]. apply bool_decide_eq_true in E.
  cbn [negb]. rewrite <- (take_drop (length key) l), E in Hs, Hmiss.
  set (r := drop (length key) l) in *. pose proof (str_at_app _ _ _ _ Hs) as H1.
  destruct (skip_while_drop m is_blank eq_refl (fuel_of m) _ _ (fuel_enough _ _ _ H1) H1)
    as (j & -> & Hj & _). cbn [mbind option_bind]. unfold is_at.
  destruct (drop_while is_blank r) as [|b w] eqn:Ew.
  { apply str_at_nil in Hj as ->. done. }
  apply str_at_cons in Hj as (-> & _ & _). cbn [mbind option_bind].
  destruct (eqb_spec b EQUALS) as [->|]; [|done]. exfalso.
  apply (Hmiss (drop_while is_blank w)).
  apply (shaped_line_setting _ _ (take_while is_blank r) (take_while is_blank w)). constructor.
  - by rewrite take_while_app_drop, <- Ew, take_while_app_drop.
  - done.
  - apply take_while_all.
  - apply take_while_all.
  - intros c. apply drop_while_head.
Qed.

(** A text setting is trimmed in place; the line keeps its name. *)
Lemma parseTextSetting_hit m line l key v : key_ok key -> str_at m line l ->
  line_setting l = Some (key, v) ->
  exists q e l', line <= q /\ q + length (rtrim v) = e /\ e <= line + length l /\
    parseTextSetting m line key =
      Some (<[e := NUL]> m, if bool_decide (rtrim v = []) then Invalid else Valid q) /\
    str_at (<[e := NUL]> m) q (rtrim v) /\ str_at (<[e := NUL]> m) line l' /\
    exists v', line_setting l' = Some (key, v').
Proof.
  intros Hk Hs Hl. destruct (setting_value_hit m line l key v Hk Hs Hl) as (q & Eq & Hq & Hlq & Hlen).
  destruct (rtrim_prefix v) as [t Et]. unfold parseTextSetting, strlen. rewrite Eq.
  cbn [mbind option_bind]. rewrite Hq. cbn [fmap option_fmap option_map mbind option_bind].
  rewrite (trim_end_rtrim m q v _ Hq), take_ge by done. cbn [mbind option_bind].
  pose proof (length_rtrim v) as Hr. pose proof (str_at_length _ _ _ Hq) as Hm.
  rewrite cut_insert by lia. cbn [mbind option_bind].
  assert (Hv : str_at (<[q + length (rtrim v) := NUL]> m) q (rtrim v)).
  { apply (str_at_cut m q (rtrim v) t). by rewrite <- Et. }
  destruct (line_setting_shaped _ _ _ Hl) as (bl & bl2 & Hsh).
  pose proof (sh_line _ _ _ _ _ Hsh) as El. rewrite Et in El.
  exists q, (q + length (rtrim v)), (key ++ bl ++ EQUALS :: bl2 ++ rtrim v).
  split; [done|]. split; [done|]. split; [lia|]. split; [|split; [done|split]].
  - destruct (rtrim v) as [|b r]; [apply str_at_nil in Hv as ->; done|].
    apply str_at_cons in Hv as (-> & Hb & _). cbn [mbind option_bind].
    by destruct (eqb_spec b NUL).
  - replace (q + length (rtrim v)) with (line + length (key ++ bl ++ EQUALS :: bl2 ++ rtrim v)).
    + apply (str_at_cut m line _ t). replace ((key ++ bl ++ EQUALS :: bl2 ++ rtrim v) ++ t) with l; [done|].
      rewrite El. rewrite <- !app_assoc. simpl. by rewrite <- !app_assoc.
    + assert (length l = length (key ++ bl ++ EQUALS :: bl2 ++ rtrim v) + length t).
      { rewrite El. repeat (rewrite length_app || simpl). lia. }
      assert (length v = length (rtrim v) + length t) by (rewrite Et at 1; by rewrite length_app).
      lia.
  - exists (rtrim v). apply (shaped_line_setting _ _ bl bl2).
    destruct Hsh as [_ Hn Hb Hb2 Hv0]. constructor; try done.
    intros b Hb0. apply Hv0. rewrite Et. by destruct (rtrim v).
Qed.

Lemma parseTextSetting_miss m line l key : key_ok key -> str_at m line l ->
  (forall v, line_setting l <> Some (key, v)) -> parseTextSetting m line key = Some (m, NotFound).
Proof. intros Hk Hs Hm. unfold parseTextSetting. by rewrite (setting_value_miss m line l). Qed.

Lemma parseSetting_hit m line l key v : key_ok key -> str_at m line l ->
  line_setting l = Some (key, v) ->
  parseSetting m line key = Some (match number_value v with Some z => Valid z | None => Invalid end).
Proof.
  intros Hk Hs Hl. destruct (setting_value_hit m line l key v Hk Hs Hl) as (q & Eq & Hq & _).
  unfold parseSetting. rewrite Eq. cbn [mbind option_bind]. by rewrite (parseUnsigned_number m q v Hq).
Qed.

Lemma parseSetting_miss m line l key : key_ok key -> str_at m line l ->
  (forall v, line_setting l <> Some (key, v)) -> parseSetting m line key = Some NotFound.
Proof. intros Hk Hs Hm. unfold parseSetting. by rewrite (setting_value_miss m line l). Qed.

(** ** One block *)

(** A text setting points to the text of the reference, whose end lies before
    [b]. *)
Record text_rel (b : nat) (m : list byte) (check : list byte -> bool)
    (s : Setting nat) (r : Setting (list byte)) : Prop := {
  tr_present : present s = present r;
  tr_valid : valid s = valid r;
  tr_text : valid r = true ->
    str_at m (value s) (value r) /\ value s + length (value r) < b /\ check (value r) = true
}.

Record crel (b : nat) (m : list byte) (c : ParsedConfig nat) (r : ParsedConfig (list byte)) : Prop := {
  cr_heartbeat : heartbeatInterval c = heartbeatInterval r;
  cr_enabled : tunnelEnabled c = tunnelEnabled r;
  cr_sshHost : text_rel b m host_ok (sshHost c) (sshHost r);
  cr_sshPort : sshPort c = sshPort r;
  cr_remoteBindHost : text_rel b m host_ok (remoteBindHost c) (remoteBindHost r);
  cr_remoteBindPort : remoteBindPort c = remoteBindPort r;
  cr_localHost : text_rel b m host_ok (localHost c) (localHost r);
  cr_localPort : localPort c = localPort r;
  cr_macVendor : text_rel b m vendor_ok (macVendor c) (macVendor r)
}.

Lemma text_rel_frame b b' m m' check s r : b <= b' -> take b m' = take b m ->
  text_rel b m check s r -> text_rel b' m' check s r.
Proof.
  intros Hb Hm [H1 H2 H3]. constructor; [done|done|]. intros Hv.
  destruct (H3 Hv) as (Hs & Hl & Hc). split; [by eapply str_at_frame|]. split; [lia|done].
Qed.

Lemma crel_frame b b' m m' c r : b <= b' -> take b m' = take b m -> crel b m c r -> crel b' m' c r.
Proof. intros Hb Hm []. constructor; try done; by eapply text_rel_frame. Qed.

Lemma crel_new m : crel 0 m (new_config 0) (new_config []).
Proof. by constructor. Qed.

(** Only the [n] bytes from [line] on have changed. *)
Record inside (line n : nat) (m m' : list byte) : Prop := {
  in_length : length m' = length m;
  in_before : take line m' = take line m;
  in_after : drop (line + n) m' = drop (line + n) m
}.

Lemma inside_refl line n m : inside line n m m.
Proof. done. Qed.

Lemma inside_cut line n m e : line <= e -> e <= line + n -> m !! (line + n) = Some NUL ->
  inside line n m (<[e := NUL]> m).
Proof.
  intros H1 H2 H3. constructor; [by rewrite length_insert|by rewrite take_insert_ge by lia|].
  destruct (decide (e = line + n)) as [->|Hne]; [by rewrite list_insert_id|].
  by rewrite drop_insert_lt by lia.
Qed.

(** What a block must do: nothing on a line with another name, and what the
    reference says on a line with its own. *)
Record block_ok (key : list byte) (B : nat -> parser) (R : list byte -> ref_state -> ref_state)
    : Prop := {
  bo_skip : forall m line l c ok, str_at m line l -> (forall v, line_setting l <> Some (key, v)) ->
    B line m c ok = Some (m, c, ok);
  bo_hit : forall m line l v c ok r, str_at m line l -> line_setting l = Some (key, v) ->
    crel line m c r -> exists m' c' l' v',
      B line m c ok = Some (m', c', (R v (r, ok)).2) /\ crel (S (line + length l)) m' c' (R v (r, ok)).1 /\
      str_at m' line l' /\ line_setting l' = Some (key, v') /\ inside line (length l) m m'
}.

Lemma number_block_ok key lo hi get put getr putr : key_ok key -> (0 <= lo)%Z -> (hi < 2 ^ 16)%Z ->
  (forall b m c r s, crel b m c r -> get c = getr r /\ crel b m (put s c) (putr s r)) ->
  block_ok key (number_block key lo hi get put)
    (fun v => note getr putr (number_in lo hi v)).
Proof.
  intros Hk Hlo Hhi Hput. constructor.
  - intros m line l c ok Hs Hm. unfold number_block. by rewrite (parseSetting_miss m line l key).
  - intros m line l v c ok r Hs Hl Hc. unfold number_block, note, number_in.
    rewrite (parseSetting_hit m line l key v Hk Hs Hl).
    apply (crel_frame _ (S (line + length l)) m m) in Hc; [|lia|done].
    destruct (Hput _ _ _ _ (absent 0%Z) Hc) as [Hg _]. rewrite Hg.
    cbn [mbind option_bind fst snd].
    destruct (number_value v) as [z|]; cbn [mbind option_bind];
      [destruct (Z.leb_spec lo z), (Z.leb_spec z hi); cbn [andb];
       rewrite ?(Z.mod_small z) by lia|];
      (eexists _, _, l, v; split; [reflexivity|split; [apply (Hput _ _ _ _ _ Hc)|done]]).
Qed.

Lemma enabled_block_ok : block_ok (bytes "TUNNEL_ENABLED") enabled_block
  (fun v => note tunnelEnabled (fun s c => c <| tunnelEnabled := s |>) (bool_value (rtrim v))).
Proof.
  assert (Hk : key_ok (bytes "TUNNEL_ENABLED")) by (split; [done|by apply index_None]).
  constructor.
  - intros m line l c ok Hs Hm. unfold enabled_block. by rewrite (parseTextSetting_miss m line l).
  - intros m line l v c ok r Hs Hl Hc. unfold enabled_block, note.
    destruct (parseTextSetting_hit m line l _ v Hk Hs Hl)
      as (q & e & l' & Hq & He & Hel & -> & Hv & Hl' & v' & Ev').
    assert (Hin : inside line (length l) m (<[e := NUL]> m)).
    { apply inside_cut; [lia|done|]. apply (str_at_skip _ _ _ (length l)) in Hs; [|done].
      rewrite drop_all in Hs. by apply str_at_nil. }
    apply (crel_frame _ (S (line + length l)) _ (<[e := NUL]> m)) in Hc; [|lia|apply Hin].
    cbn [mbind option_bind fst snd]. rewrite (cr_enabled _ _ _ _ Hc).
    destruct (bool_decide (rtrim v = [])) eqn:E.
    + apply bool_decide_eq_true in E. rewrite E.
      eexists _, _, l', v'. split; [reflexivity|]. split; [|done]. destruct Hc. by constructor.
    + rewrite (parseBoolean_value _ _ _ Hv). cbn [mbind option_bind].
      eexists _, _, l', v'. split; [reflexivity|]. split; [|done]. destruct Hc. by constructor.
Qed.

Lemma text_block_ok key check chk get put getr putr : key_ok key -> chk [] = false ->
  (forall m p s, str_at m p s -> check m p = Some (chk s)) ->
  (forall b m c r, crel b m c r -> text_rel b m chk (get c) (getr r) /\
    forall s sr, text_rel b m chk s sr -> crel b m (put s c) (putr sr r)) ->
  block_ok key (text_block key check get put) (fun v => note getr putr (text_in chk v)).
Proof.
  intros Hk Hnil Hcheck Hput. constructor.
  - intros m line l c ok Hs Hm. unfold text_block. by rewrite (parseTextSetting_miss m line l).
  - intros m line l v c ok r Hs Hl Hc. unfold text_block, note, text_in.
    destruct (parseTextSetting_hit m line l _ v Hk Hs Hl)
      as (q & e & l' & Hq & He & Hel & -> & Hv & Hl' & v' & Ev').
    assert (Hin : inside line (length l) m (<[e := NUL]> m)).
    { apply inside_cut; [lia|done|]. apply (str_at_skip _ _ _ (length l)) in Hs; [|done].
      rewrite drop_all in Hs. by apply str_at_nil. }
    apply (crel_frame _ (S (line + length l)) _ (<[e := NUL]> m)) in Hc; [|lia|apply Hin].
    cbn [mbind option_bind fst snd]. destruct (Hput _ _ _ _ Hc) as [Hg Hp].
    rewrite (tr_present _ _ _ _ _ Hg).
    destruct (bool_decide (rtrim v = [])) eqn:E.
    + apply bool_decide_eq_true in E. rewrite E, Hnil. eexists _, _, l', v'.
      split; [reflexivity|]. split; [|done]. apply Hp. by constructor.
    + rewrite (Hcheck _ _ _ Hv). cbn [mbind option_bind]. destruct (chk (rtrim v)) eqn:Ec.
      * eexists _, _, l', v'. split; [reflexivity|]. split; [|done]. apply Hp.
        constructor; [done|done|]. intros _. cbn [found value]. split; [done|]. split; [lia|done].
      * eexists _, _, l', v'. split; [reflexivity|]. split; [|done]. apply Hp. by constructor.
Qed.

(** ** One line *)

Definition matches (b : list byte * (nat -> parser))
    (f : list byte * (list byte -> ref_state -> ref_state)) : Prop :=
  b.1 = f.1 /\ block_ok b.1 b.2 f.2.

Ltac key_tac := split; [reflexivity|by apply index_None].

Lemma blocks_match : Forall2 matches blocks meanings.
Proof.
  unfold blocks, meanings.
  repeat (apply List.Forall2_cons; [split; [done|cbn [fst snd]]|]); [..|apply List.Forall2_nil].
  all: first [apply enabled_block_ok
    |apply number_block_ok; [key_tac|done|done|intros ? ? ? ? ? []; split; [done|by constructor]]
    |apply text_block_ok; [key_tac|done|first [apply isValidConfigHost_ok|apply isValidMacVendor_ok]
      |intros ? ? ? ? []; split; [done|by constructor]]].
Qed.

Lemma keys_distinct : NoDup blocks.*1.
Proof. apply (bool_decide_unpack _). vm_compute. exact I. Qed.

Lemma run_blocks_skip bs fs line m l c ok : Forall2 matches bs fs -> str_at m line l ->
  (forall name v, line_setting l = Some (name, v) -> name ∉ bs.*1) ->
  run_blocks bs line m c ok = Some (m, c, ok).
Proof.
  intros Hb Hs. induction Hb as [|[k B] [k' f] bs fs [Hk Hok] _ IH]; intros Hn; [done|].
  cbn [run_blocks fst snd] in *. unfold then_.
  rewrite (bo_skip _ _ _ Hok m line l) by (done || intros v E; apply (Hn _ _ E); left).
  cbn [mbind option_bind]. apply IH. intros name v E Hin. apply (Hn _ _ E). by right.
Qed.

(** The state of the reference after one line's setting. *)
Definition apply_setting (fs : list (list byte * (list byte -> ref_state -> ref_state)))
    (l : list byte) (st : ref_state) : ref_state :=
  match line_setting l with
  | Some (name, v) => meaning_of fs name v st
  | None => st
  end.

Lemma run_blocks_setting bs fs line m l c r ok : Forall2 matches bs fs -> NoDup bs.*1 ->
  str_at m line l -> crel line m c r -> exists m' c',
  run_blocks bs line m c ok = Some (m', c', (apply_setting fs l (r, ok)).2) /\
  crel (S (line + length l)) m' c' (apply_setting fs l (r, ok)).1 /\ inside line (length l) m m'.
Proof.
  intros Hb Hnd Hs Hc. unfold apply_setting.
  induction Hb as [|[k B] [k' f] bs fs [Hk Hok] Hb IH].
  { exists m, c. destruct (line_setting l) as [[name v]|]; (split; [done|]; split; [|done]);
      by (eapply crel_frame; [|done|exact Hc]; lia). }
  cbn [run_blocks fst snd meaning_of fmap list_fmap] in *. subst k'.
  apply list.NoDup_cons in Hnd as [Hnk Hnd]. unfold then_.
  assert ((exists v, line_setting l = Some (k, v)) \/ forall v, line_setting l <> Some (k, v))
    as [[v E]|Hne].
  { destruct (line_setting l) as [[name v]|]; [|by right].
    destruct (decide (name = k)) as [->|]; [left; by exists v|right; by intros w [= ? _]]. }
  - rewrite E, decide_True by done.
    destruct (bo_hit _ _ _ Hok m line l v c ok r Hs E Hc)
      as (m' & c' & l' & v' & -> & Hc' & Hs' & E' & Hin). cbn [mbind option_bind].
    exists m', c'. split; [|done]. apply (run_blocks_skip bs fs line m' l'); [done|done|].
    intros name w Ew. rewrite E' in Ew. by injection Ew as <- _.
  - rewrite (bo_skip _ _ _ Hok m line l) by done.
    cbn [mbind option_bind]. destruct (IH Hnd) as (m' & c' & E' & Hc' & Hin).
    exists m', c'. destruct (line_setting l) as [[name v]|] eqn:El; [|done].
    rewrite decide_False; [done|]. intros ->. by apply (Hne v).
Qed.

(** Blanks, comments and the setting of one line. *)
Lemma inside_wider p q n k m m' : p <= q -> q + n = p + k -> inside q n m m' -> inside p k m m'.
Proof.
  intros H1 H2 [L B A]. constructor; [done| |by rewrite <- H2].
  rewrite <- (Nat.min_l p q) by done. by rewrite <- !take_take, B.
Qed.

Lemma line_body_ref line m l c r ok : str_at m line l -> crel line m c r -> exists m' c',
  line_body line m c ok = Some (m', c', (ref_line (r, ok) l).2) /\
  crel (S (line + length l)) m' c' (ref_line (r, ok) l).1 /\ inside line (length l) m m'.
Proof.
  intros Hs Hc. unfold line_body, ref_line.
  destruct (skip_while_drop m is_pad eq_refl (fuel_of m) _ _ (fuel_enough _ _ _ Hs) Hs)
    as (j & -> & Hj & Hij & Hlj). cbn [mbind option_bind].
  assert (Hsame : crel (S (line + length l)) m c r) by (eapply crel_frame; [|done|exact Hc]; lia).
  destruct (drop_while is_pad l) as [|b l'] eqn:Ed.
  { apply str_at_nil in Hj as ->. cbn [mbind option_bind]. by exists m, c. }
  pose proof Hj as Hj'. apply str_at_cons in Hj' as (-> & Hb & _). cbn [mbind option_bind].
  destruct (eqb_spec b HASH); [by exists m, c|]. destruct (eqb_spec b NUL); [done|]. cbn [negb andb].
  destruct (run_blocks_setting blocks meanings j m (b :: l') c r ok blocks_match keys_distinct Hj)
    as (m' & c' & E & Hc' & Hin); [eapply crel_frame; [|done|exact Hc]; lia|].
  unfold parse_line. rewrite E. exists m', c'.
  change (match line_setting (b :: l') with Some (name, v) => ref_setting name v (r, ok) | None => (r, ok) end)
    with (apply_setting meanings (b :: l') (r, ok)).
  rewrite Hlj in Hc'. split; [done|]. split; [done|]. by eapply inside_wider.
Qed.

(** ** The text *)

Lemma str_at_later m p s i : i < p -> str_at m p s -> str_at (<[i := NUL]> m) p s.
Proof. intros Hi. unfold str_at. by rewrite drop_insert_lt. Qed.

Lemma inside_later line n m m' p s : inside line n m m' -> line + n <= p -> str_at m p s -> str_at m' p s.
Proof.
  intros [_ _ H] Hp. unfold str_at. replace p with (line + n + (p - (line + n))) by lia.
  by rewrite <- !(drop_drop _ _ (line + n)), H.
Qed.

Lemma parseConfig_from_ref fuel : forall line m rest c r ok, length rest < fuel ->
  str_at m line rest -> crel line m c r -> exists m' c' b,
  let st := fold_left ref_line (split_lf rest) (r, ok) in
  parseConfig_from fuel line m c ok = Some (m', c', st.2) /\ crel b m' c' st.1.
Proof.
  induction fuel as [|fuel IH]; intros line m rest c r ok Hf Hs Hc; [lia|].
  cbn [parseConfig_from]. rewrite split_lf_index.
  destruct rest as [|b rest'] eqn:Er.
  { apply str_at_nil in Hs as ->. cbn [mbind option_bind]. exists m, c, line. done. }
  rewrite <- Er in *. pose proof Hs as Hs'. rewrite Er in Hs'.
  apply str_at_cons in Hs' as (-> & Hb & _). cbn [mbind option_bind].
  destruct (eqb_spec b NUL); [done|].
  rewrite (strchr_index m LF ltac:(done) (fuel_of m) line rest (fuel_enough _ _ _ Hs) Hs).
  cbn [mbind option_bind]. destruct (index LF rest) as [k|] eqn:Ek; cbn [fmap option_fmap option_map].
  2: { cbn [mbind option_bind fold_left].
    destruct (line_body_ref line m rest c r ok Hs Hc) as (m' & c' & -> & Hc' & _).
    cbn [mbind option_bind]. eexists _, _, _. split; [reflexivity|]. exact Hc'. }
  destruct (index_lt _ _ _ Ek) as [Hk Hlf]. pose proof (str_at_length _ _ _ Hs) as Hm.
  rewrite cut_insert by lia. cbn [mbind option_bind fold_left].
  set (m1 := <[line + k := NUL]> m).
  assert (Hlk : length (take k rest) = k) by (rewrite length_take; lia).
  assert (H1 : str_at m1 line (take k rest)).
  { unfold m1. rewrite <- Hlk at 1. apply (str_at_cut m line _ (drop k rest)). by rewrite take_drop. }
  assert (H2 : str_at m1 (line + S k) (drop (S k) rest)).
  { apply str_at_later; [lia|]. apply str_at_skip; [done|lia]. }
  assert (Hc1 : crel line m1 c r).
  { eapply crel_frame; [| |exact Hc]; [done|]. unfold m1. by rewrite take_insert_ge by lia. }
  destruct (line_body_ref line m1 (take k rest) c r ok H1 Hc1) as (m2 & c2 & -> & Hc2 & Hin).
  rewrite Hlk in Hc2, Hin. cbn [mbind option_bind].
  apply (inside_later _ _ _ _ _ _ Hin) in H2; [|lia].
  replace (line + S k) with (line + k + 1) in H2 by lia.
  replace (S (line + k)) with (line + k + 1) in Hc2 by lia.
  destruct (ref_line (r, ok) (take k rest)) as [r2 ok2].
  apply (IH (line + k + 1) m2 (drop (S k) rest) c2 r2 ok2); [rewrite length_drop; lia|done|done].
Qed.

(** ** From the text to the main task *)

Lemma c_string_text s t : NUL ∉ s -> c_string (s ++ NUL :: t) = Some s.
Proof.
  intros Hs. rewrite c_string_nul. f_equal. induction s as [|b s IH]; [done|].
  apply not_elem_of_cons in Hs as [Hb Hs]. simpl.
  change (not_nul b) with (negb (Byte.eqb b NUL)).
  destruct (eqb_spec b NUL); [by subst|]. simpl. by rewrite IH.
Qed.

Lemma strlcpy_text size m p s : str_at m p s -> length s < size -> exists d,
  strlcpy size m p = Some d /\ c_string d = Some s.
Proof.
  intros Hs Hl. unfold strlcpy. rewrite Hs. cbn [mbind option_bind].
  rewrite take_ge by lia. unfold store, zeros. rewrite length_replicate.
  rewrite (proj2 (Nat.leb_le _ _)) by lia. eexists. split; [done|]. simpl app.
  rewrite drop_replicate. replace (size - length s) with (S (size - length s - 1)) by lia.
  cbn [replicate]. by apply c_string_text, (str_at_no_nul m p).
Qed.

Lemma host_ok_length s : host_ok s = true -> length s < MAX_CONFIG_HOST_LENGTH + 1.
Proof.
  unfold host_ok. intros [[_ H%Nat.leb_le]%andb_prop _]%andb_prop. lia.
Qed.

Lemma vendor_ok_length s : vendor_ok s = true -> length s < MAX_MAC_VENDOR_LENGTH + 1.
Proof.
  unfold vendor_ok, vendor_names, MAX_MAC_VENDOR_LENGTH. intros H.
  apply existsb_exists in H as (n & Hn & Hs). apply bool_decide_eq_true in Hs.
  apply (f_equal length) in Hs. rewrite !length_fmap in Hs. rewrite Hs.
  repeat destruct Hn as [<-|Hn]; simpl; try lia. destruct Hn.
Qed.

Lemma copy_host b m c r : text_rel b m host_ok c r -> valid r = true -> exists d,
  strlcpy (MAX_CONFIG_HOST_LENGTH + 1) m (value c) = Some d /\ c_string d = Some (value r).
Proof.
  intros [_ _ H] Hv. destruct (H Hv) as (Hs & _ & Hc). apply strlcpy_text; [done|].
  by apply host_ok_length.
Qed.

Lemma copy_vendor b m c r : text_rel b m vendor_ok c r -> present r = true -> valid r = true -> exists d,
  strlcpy (MAX_MAC_VENDOR_LENGTH + 1) m (value c) = Some d /\ c_string d = Some (value r).
Proof.
  intros [_ _ H] _ Hv. destruct (H Hv) as (Hs & _ & Hc). apply strlcpy_text; [done|].
  by apply vendor_ok_length.
Qed.

Lemma complete_same b m c r : crel b m c r -> hasCompleteTunnelConfig c = hasCompleteTunnelConfig r.
Proof.
  intros []. unfold hasCompleteTunnelConfig.
  rewrite cr_enabled0, cr_sshPort0, cr_remoteBindPort0, cr_localPort0.
  destruct cr_sshHost0 as [-> -> _], cr_remoteBindHost0 as [-> -> _], cr_localHost0 as [-> -> _],
    cr_macVendor0 as [-> -> _]. done.
Qed.

(** A complete configuration reaches the main task unchanged. *)
Lemma managed_of_complete b m c r : crel b m c r -> hasCompleteTunnelConfig r = true ->
  exists q, queued_config m c = Some q /\ takeManagedTunnelConfig q = Some
    (mkManaged (value (tunnelEnabled r)) (value (sshHost r)) (value (sshPort r))
      (value (remoteBindHost r)) (value (remoteBindPort r)) (value (localHost r))
      (value (localPort r)) (if present (macVendor r) then Some (value (macVendor r)) else None)).
Proof.
  intros Hc H. unfold hasCompleteTunnelConfig in H. repeat (apply andb_prop in H as [H ?]).
  destruct (copy_host _ _ _ _ (cr_sshHost _ _ _ _ Hc)) as (d1 & E1 & S1); [done|].
  destruct (copy_host _ _ _ _ (cr_remoteBindHost _ _ _ _ Hc)) as (d2 & E2 & S2); [done|].
  destruct (copy_host _ _ _ _ (cr_localHost _ _ _ _ Hc)) as (d3 & E3 & S3); [done|].
  unfold queued_config. rewrite E1, E2, E3. cbn [mbind option_bind].
  pose proof (cr_macVendor _ _ _ _ Hc) as Hv. rewrite (tr_present _ _ _ _ _ Hv).
  rewrite (cr_enabled _ _ _ _ Hc), (cr_sshPort _ _ _ _ Hc), (cr_remoteBindPort _ _ _ _ Hc),
    (cr_localPort _ _ _ _ Hc).
  destruct (present (macVendor r)) eqn:Ep.
  - destruct (copy_vendor _ _ _ _ Hv Ep) as (d4 & -> & S4); [by destruct (valid (macVendor r))|].
    cbn [mbind option_bind]. eexists. split; [reflexivity|]. unfold takeManagedTunnelConfig.
    cbn [qm_sshHost qm_remoteBindHost qm_localHost qm_macVendor qm_macVendorPresent].
    by rewrite S1, S2, S3, S4.
  - cbn [mbind option_bind]. eexists. split; [reflexivity|]. unfold takeManagedTunnelConfig.
    cbn [qm_sshHost qm_remoteBindHost qm_localHost qm_macVendor qm_macVendorPresent].
    by rewrite S1, S2, S3.
Qed.

(** Whatever text the server sent, parsing it in place, checking it, copying it
    into the queue and taking it out again stays inside the arrays, ends, and gives
    the main task exactly what the reference reads: nothing unless every required
    setting is there once, with a valid value, and otherwise the hosts, ports, flag
    and vendor of the text. *)
Lemma receive_config_text (text tail : list byte) : NUL ∉ text ->
  receive_config (text ++ NUL :: tail) = Some (reference_config text).
Proof.
  intros Hn. set (m := text ++ NUL :: tail).
  assert (Hs : str_at m 0 text).
  { unfold str_at, m. rewrite drop_0. by apply c_string_text. }
  destruct (parseConfig_from_ref (fuel_of m) 0 m text (new_config 0) (new_config []) true
    (fuel_enough _ _ _ Hs) Hs (crel_new m)) as (m' & c' & b & E & Hc).
  unfold receive_config, parseConfig, reference_config, ref_config. cbv zeta in E, Hc.
  destruct (fold_left ref_line (split_lf text) (new_config [], true)) as [r ok].
  cbn [fst snd] in *. rewrite E. cbn [mbind option_bind].
  destruct ok; cbn [negb andb]; [|done]. rewrite (complete_same _ _ _ _ Hc), (cr_heartbeat _ _ _ _ Hc).
  destruct (present (heartbeatInterval r)); cbn [negb orb andb]; [|done].
  destruct (valid (heartbeatInterval r)); cbn [negb orb andb]; [|done].
  destruct (hasCompleteTunnelConfig r) eqn:Ecomp; cbn [negb]; [|done].
  destruct (managed_of_complete _ _ _ _ Hc Ecomp) as (q & -> & Hq). cbn [mbind option_bind].
  rewrite Hq. done.
Qed.

(** ** What an accepted configuration is like *)

Definition sound {A} (P : A -> Prop) (s : Setting A) : Prop := valid s = true -> P (value s).

Definition port_ok (z : Z) : Prop := (1 <= z <= 65535)%Z.

Record config_sound (c : ParsedConfig (list byte)) : Prop := {
  cs_heartbeat : sound (fun z => (2 <= z <= 1440)%Z) (heartbeatInterval c);
  cs_sshHost : sound (fun s => host_ok s = true) (sshHost c);
  cs_sshPort : sound port_ok (sshPort c);
  cs_remoteBindHost : sound (fun s => host_ok s = true) (remoteBindHost c);
  cs_remoteBindPort : sound port_ok (remoteBindPort c);
  cs_localHost : sound (fun s => host_ok s = true) (localHost c);
  cs_localPort : sound port_ok (localPort c);
  cs_macVendor : sound (fun s => vendor_ok s = true) (macVendor c)
}.

Lemma sound_found {A} (P : A -> Prop) v s : (forall a, v = Some a -> P a) -> sound P (found v s).
Proof. destruct v as [a|]; [|done]. intros H _. by apply H. Qed.

Lemma number_in_range lo hi v z : number_in lo hi v = Some z -> (lo <= z <= hi)%Z.
Proof.
  unfold number_in. destruct (number_value v) as [y|]; [|done]. simpl.
  destruct (Z.leb_spec lo y), (Z.leb_spec y hi); simpl; [|done..]. by intros [= <-].
Qed.

Lemma text_in_check check v s : text_in check v = Some s -> check s = true.
Proof. unfold text_in. destruct (check (rtrim v)) eqn:E; [|done]. by intros [= <-]. Qed.

Lemma ref_line_sound st l : config_sound st.1 -> config_sound (ref_line st l).1.
Proof.
  unfold ref_line. intros H. destruct (drop_while is_pad l) as [|b l']; [done|].
  destruct (Byte.eqb b HASH); [done|]. destruct (line_setting (b :: l')) as [[name v]|]; [|done].
  unfold ref_setting, meanings. cbn [meaning_of]. destruct H.
  repeat (destruct (decide _); [constructor; try done; apply sound_found; intros a Ha;
    first [by apply number_in_range in Ha|by apply text_in_check in Ha]|]).
  done.
Qed.

(** A configuration the main task can use: ports between 1 and 65535, host names of 1
    to 253 legal characters, a known vendor that fits its array, if any. *)
Record managed_ok (c : ManagedTunnelConfig) : Prop := {
  mo_sshPort : port_ok (mt_sshPort c);
  mo_remotePort : port_ok (mt_remoteBindPort c);
  mo_localPort : port_ok (mt_localPort c);
  mo_sshHost : host_ok (mt_sshHost c) = true;
  mo_remoteHost : host_ok (mt_remoteBindHost c) = true;
  mo_localHost : host_ok (mt_localHost c) = true;
  mo_vendor : forall v, mt_macVendor c = Some v -> vendor_ok v = true /\ length v <= MAX_MAC_VENDOR_LENGTH
}.

(** An accepted configuration is one, and its heartbeat interval is between two minutes
    and a day. *)
Theorem accepted_valid text heartbeat c : reference_config text = Some (heartbeat, c) ->
  (2 <= heartbeat <= 1440)%Z /\ managed_ok c.
Proof.
  unfold reference_config, ref_config.
  assert (Hs : forall ls st, config_sound st.1 -> config_sound (fold_left ref_line ls st).1).
  { intros ls. induction ls as [|l ls IH]; intros st Hst; [done|]. apply IH. by apply ref_line_sound. }
  specialize (Hs (split_lf text) (new_config [], true)).
  destruct (fold_left ref_line _ _) as [r ok]. cbn [fst] in Hs.
  destruct Hs as [H1 H2 H3 H4 H5 H6 H7 H8]; [by constructor|].
  destruct (_ && _) eqn:E; [|done]. unfold hasCompleteTunnelConfig in E.
  apply andb_prop in E as [E Hall]. repeat (apply andb_prop in E as [E ?]).
  repeat (apply andb_prop in Hall as [Hall ?]). intros [= <- <-]. simpl.
  split; [by apply H1|]. constructor; cbn; try by first [apply H3|apply H5|apply H7|apply H2|apply H4|apply H6].
  intros v Hv. destruct (present (macVendor r)) eqn:Ep; [|done]. injection Hv as <-.
  assert (Hvendor : vendor_ok (value (macVendor r)) = true) by (apply H8; by destruct (valid (macVendor r))).
  pose proof (vendor_ok_length _ Hvendor). split; [done|lia].
Qed.
Example demo_received :
  receive_config (demo_config ++ zeros 10) = Some (Some (15%Z,
    mkManaged true (bytes "ssh.example.org") 22 (bytes "127.0.0.1") 23180 (bytes "[::1]") 80
      (Some (bytes "hp")))).
Proof. vm_compute. reflexivity. Qed.

Example demo_reference : receive_config (demo_config ++ zeros 10) = Some (reference_config demo_config).
Proof. vm_compute. reflexivity. Qed.
