(* ===== verification/Provisioning.v ===== *)
(** * Stored settings of the firmware (examples/src/wifi_provisioning.cpp,
      mac_vendor.cpp, main.cpp)

    The reference firmware keeps its settings in a small text file, with every
    value percent-encoded, and the SSH key pair in two more files.  This file
    models the encoding, the writing and loading of these files on a file system,
    and what the main task does with a configuration from the control centre
    (ManagedConfig.v).  An Arduino [String] is a list of bytes.

    The file system is third-party code: the class [FileSystem] with the laws
    [FileSystemLaws] (an operation that fails changes nothing, one that succeeds
    changes the files it names; [rename] replaces its target; a write may stop
    short).  [MapFs] is a concrete one.  Programs on it log every state they go
    through, since the power may fail between any two operations. *)

From stdpp Require Import gmap.
From S2P Require Import Prelude HttpDiag ManagedConfig.

#[local] Open Scope nat_scope.

Abbreviation PERCENT := x25 (only parsing).

(** ** Percent-encoding *)

(** [isAlphaNumeric] of the Arduino core. *)
Definition isAlphaNumeric (b : byte) : bool :=
  let n := Byte.to_N b in
  ((48 <=? n) && (n <=? 57) || (65 <=? n) && (n <=? 90) || (97 <=? n) && (n <=? 122))%N.

Definition isUnreserved (c : byte) : bool :=
  isAlphaNumeric c || existsb (Byte.eqb c) (bytes "-_.").

Definition byte_of (n : N) : byte := default NUL (Byte.of_N n).

Definition hexDigit (n : N) : byte := byte_of (if n <? 10 then 48 + n else 65 + n - 10)%N.

(** [None] is the answer [-1]. *)
Definition hexValue (c : byte) : option N :=
  let n := Byte.to_N c in
  if ((48 <=? n) && (n <=? 57))%N then Some (n - 48)%N
  else if ((97 <=? n) && (n <=? 102))%N then Some (n - 97 + 10)%N
  else if ((65 <=? n) && (n <=? 70))%N then Some (n - 65 + 10)%N
  else None.

Definition encode_byte (c : byte) : list byte :=
  if isUnreserved c then [c]
  else [PERCENT; hexDigit (Byte.to_N c / 16); hexDigit (Byte.to_N c mod 16)].

Definition encode (value : list byte) : list byte := value ≫= encode_byte.

(** [decode(value, result)]: the result when it answers [true]. *)
Fixpoint decode (value : list byte) : option (list byte) :=
  match value with
  | [] => Some []
  | c :: value' =>
      if negb (Byte.eqb c PERCENT) then cons c <$> decode value' else
      match value' with
      | h :: l :: value'' =>
          hi ← hexValue h; lo ← hexValue l;
          cons (byte_of (16 * hi + lo)) <$> decode value''
      | _ => None
      end
  end.

(** ** Strings *)

Definition isspace (b : byte) : bool :=
  let n := Byte.to_N b in ((n =? 32) || (9 <=? n) && (n <=? 13))%N.

(** [String::trim] *)
Definition trim (s : list byte) : list byte :=
  reverse (drop_while isspace (reverse (drop_while isspace s))).

Definition toupper (b : byte) : byte :=
  let n := Byte.to_N b in if ((97 <=? n) && (n <=? 122))%N then byte_of (n - 32) else b.

Fixpoint is_prefix (p s : list byte) : bool :=
  match p, s with
  | [], _ => true
  | x :: p', y :: s' => Byte.eqb x y && is_prefix p' s'
  | _, [] => false
  end.

(** [s.indexOf(p) >= 0] *)
Fixpoint contains (p s : list byte) : bool :=
  is_prefix p s || match s with [] => false | _ :: s' => contains p s' end.

(** [String(n)] for a port number: decimal digits, at most [fuel] of them. *)
Fixpoint print_digits (fuel : nat) (n : N) : list byte :=
  match fuel with
  | O => []
  | S fuel' =>
      (if (n <? 10)%N then [] else print_digits fuel' (n / 10)) ++ [byte_of (48 + n mod 10)]
  end.

Definition print_int (z : Z) : list byte :=
  if (z <? 0)%Z then x2d :: print_digits 10 (Z.to_N (- z)) else print_digits 10 (Z.to_N z).

(** [toInt()]: blanks, a sign, digits; saturates like [strtol]. *)
Definition toInt (s : list byte) : Z :=
  let s := drop_while isspace s in
  let '(neg, s) := match s with
                   | x2d :: s' => (true, s')
                   | x2b :: s' => (false, s')
                   | _ => (false, s)
                   end in
  let n := decimal (take_while isdigit s) in
  if neg : bool then Z.max (- 2 ^ 31) (- n) else Z.min (2 ^ 31 - 1) n.

(** [parsePort(value, port)]: the port when it answers [true]. *)
Definition parsePort (value : list byte) : option Z :=
  if bool_decide (value = []) then None else
  if negb (forallb isdigit value) then None else
  let parsed := toInt value in
  if ((parsed <? 1) || (65535 <? parsed))%Z then None else Some parsed.

(** ** MAC vendors (mac_vendor.cpp) *)

Inductive MacVendor := Original | Cisco | HP.

#[export] Instance mac_vendor_eq_dec : EqDecision MacVendor.
Proof. solve_decision. Defined.

Definition configValue (vendor : MacVendor) : list byte :=
  match vendor with Cisco => bytes "CISCO" | HP => bytes "HP" | Original => bytes "ORIGINAL" end.

(** [mac_vendor::parse(value, vendor)] *)
Definition parse_vendor (value : list byte) : option MacVendor :=
  let normalized := toupper <$> trim value in
  if bool_decide (normalized = bytes "ORIGINAL") || bool_decide (normalized = bytes "ESP32")
  then Some Original
  else if bool_decide (normalized = bytes "CISCO") then Some Cisco
  else if bool_decide (normalized = bytes "HP")
          || bool_decide (normalized = bytes "HEWLETT-PACKARD")
          || bool_decide (normalized = bytes "HEWLETT_PACKARD")
  then Some HP else None.

(** ** The configuration (wifi_provisioning.h) *)

Inductive SSHAuthMethod := Password | PrivateKey.

#[export] Instance auth_eq_dec : EqDecision SSHAuthMethod.
Proof. solve_decision. Defined.

Record DeviceRuntimeConfig := mkDevice {
  wifiSsid : list byte;
  wifiPassword : list byte;
  dc_macVendor : MacVendor;
  setupComplete : bool;
  dc_sshHost : list byte;
  dc_sshPort : Z;
  sshUsername : list byte;
  sshAuthMethod : SSHAuthMethod;
  sshPassword : list byte;
  sshPrivateKey : list byte;
  sshPublicKey : list byte;
  sshKeyPassphrase : list byte;
  dc_tunnelEnabled : bool;
  dc_remoteBindHost : list byte;
  dc_remoteBindPort : Z;
  dc_localHost : list byte;
  dc_localPort : Z
}.

#[export] Instance device_eta : Eta DeviceRuntimeConfig := fun c =>
  mkDevice (wifiSsid c) (wifiPassword c) (dc_macVendor c) (setupComplete c) (dc_sshHost c)
    (dc_sshPort c) (sshUsername c) (sshAuthMethod c) (sshPassword c) (sshPrivateKey c)
    (sshPublicKey c) (sshKeyPassphrase c) (dc_tunnelEnabled c) (dc_remoteBindHost c)
    (dc_remoteBindPort c) (dc_localHost c) (dc_localPort c).

(** The default member values. *)
Definition default_device : DeviceRuntimeConfig :=
  mkDevice [] [] Original false [] 22 [] Password [] [] [] [] true (bytes "127.0.0.1") 23180
    (bytes "192.168.1.1") 22.

Definition MAX_KEY_SIZE : Z := 16384.
Definition MAX_PUBLIC_KEY_SIZE : Z := 4096.

Definition validKey (key : list byte) : bool :=
  (0 <? zlen key)%Z && (zlen key <=? MAX_KEY_SIZE)%Z && contains (bytes "-----BEGIN") key &&
  contains (bytes "PRIVATE KEY-----") key && contains (bytes "-----END") key.

Definition key_algorithms : list (list byte) :=
  [bytes "ssh-rsa"; bytes "ecdsa-sha2-nistp256"; bytes "ecdsa-sha2-nistp384";
   bytes "ecdsa-sha2-nistp521"].

Definition validPublicKey (key : list byte) : bool :=
  if bool_decide (key = []) then true else
  if (MAX_PUBLIC_KEY_SIZE <? zlen key)%Z then false else
  let trimmed := trim key in
  match index SP trimmed with
  | None | Some O => false
  | Some separator =>
      if separator =? length trimmed - 1 then false
      else bool_decide (take separator trimmed ∈ key_algorithms)
  end.

Definition validDeviceConfig (c : DeviceRuntimeConfig) : bool :=
  let port p := ((1 <=? p) && (p <=? 65535))%Z in
  negb (bool_decide (dc_sshHost c = [])) && (length (dc_sshHost c) <=? 253) &&
  negb (bool_decide (sshUsername c = [])) && (length (sshUsername c) <=? 128) &&
  port (dc_sshPort c) && negb (bool_decide (dc_remoteBindHost c = [])) &&
  port (dc_remoteBindPort c) && negb (bool_decide (dc_localHost c = [])) &&
  port (dc_localPort c) &&
  match sshAuthMethod c with
  | Password => negb (bool_decide (sshPassword c = []))
  | PrivateKey => validKey (sshPrivateKey c) && validPublicKey (sshPublicKey c)
  end.

(** ** The file system *)

Definition path : Type := string.

(** LittleFS: the content of a file; removing and renaming with their answers;
    [open(path, "w")], prints and [close] as one operation, which answers how many
    bytes were written, or nothing when the file cannot be opened. *)
Class FileSystem (F : Type) := {
  fs_read : path -> F -> option (list byte);
  fs_remove : path -> F -> bool * F;
  fs_rename : path -> path -> F -> bool * F;
  fs_write : path -> list byte -> F -> option nat * F
}.

Class FileSystemLaws (F : Type) `{FileSystem F} := {
  remove_ok : forall p f f', fs_remove p f = (true, f') ->
    fs_read p f' = None /\ forall q, q <> p -> fs_read q f' = fs_read q f;
  remove_failed : forall p f f' q, fs_remove p f = (false, f') -> fs_read q f' = fs_read q f;
  rename_ok : forall a b f f', a <> b -> fs_rename a b f = (true, f') ->
    is_Some (fs_read a f) /\ fs_read b f' = fs_read a f /\ fs_read a f' = None /\
    forall q, q <> a -> q <> b -> fs_read q f' = fs_read q f;
  rename_failed : forall a b f f' q, fs_rename a b f = (false, f') -> fs_read q f' = fs_read q f;
  write_ok : forall p s f f' n, fs_write p s f = (Some n, f') ->
    fs_read p f' = Some (take n s) /\ forall q, q <> p -> fs_read q f' = fs_read q f;
  write_failed : forall p s f f' q, fs_write p s f = (None, f') -> fs_read q f' = fs_read q f
}.

Definition CONFIG_PATH : path := "/esp32tun.cfg".
Definition CONFIG_TEMP : path := "/esp32tun.cfg.tmp".
Definition CONFIG_BACKUP : path := "/esp32tun.cfg.bak".
Definition KEY_PATH : path := "/esp32tun_ssh_key".
Definition KEY_TEMP : path := "/esp32tun_ssh_key.tmp".
Definition PUBLIC_KEY_PATH : path := "/esp32tun_ssh_key.pub".
Definition PUBLIC_KEY_TEMP : path := "/esp32tun_ssh_key.pub.tmp".

Section Storage.
Context {F : Type} `{FileSystem F}.

(** A program on the file system, with the states it went through, the newest
    first. *)
Abbreviation FsM A := (M (F * list F) A).

Definition act {A} (op : F -> A * F) : FsM A := fun s =>
  let '(a, f) := op s.1 in (a, (f, f :: s.2)).

Definition exists_file (p : path) : FsM bool :=
  gets (fun s => match fs_read p s.1 with Some _ => true | None => false end).

Definition read_file (p : path) : FsM (option (list byte)) := gets (fun s => fs_read p s.1).

Definition removeIfExists (p : path) : FsM unit :=
  b <- exists_file p;;
  when b (_ <- act (fs_remove p);; ret tt).

(** ** Writing the configuration *)

(** [file.println(s)] and [writeValue(file, name, value)] as text. *)
Definition println (s : list byte) : list byte := s ++ [CR; LF].

Definition value_text (name value : list byte) : list byte :=
  println (name ++ [EQUALS] ++ encode value).

(** Everything [writeConfig] prints. *)
Definition config_text (c : DeviceRuntimeConfig) : list byte :=
  println (bytes "version=4") ++
  println (if setupComplete c then bytes "setup_complete=1" else bytes "setup_complete=0") ++
  value_text (bytes "wifi_ssid") (wifiSsid c) ++
  value_text (bytes "wifi_password") (wifiPassword c) ++
  value_text (bytes "mac_vendor") (configValue (dc_macVendor c)) ++
  (if setupComplete c then
     value_text (bytes "ssh_host") (dc_sshHost c) ++
     value_text (bytes "ssh_port") (print_int (dc_sshPort c)) ++
     value_text (bytes "ssh_user") (sshUsername c) ++
     value_text (bytes "ssh_auth")
       (if decide (sshAuthMethod c = PrivateKey) then bytes "key" else bytes "password") ++
     value_text (bytes "ssh_password") (sshPassword c) ++
     value_text (bytes "ssh_key_passphrase") (sshKeyPassphrase c) ++
     value_text (bytes "tunnel_enabled") (if dc_tunnelEnabled c then bytes "1" else bytes "0") ++
     value_text (bytes "remote_host") (dc_remoteBindHost c) ++
     value_text (bytes "remote_port") (print_int (dc_remoteBindPort c)) ++
     value_text (bytes "local_host") (dc_localHost c) ++
     value_text (bytes "local_port") (print_int (dc_localPort c))
   else []).

(** The part of [writeConfig] that puts the new file in place of the old one. *)
Definition replace_config : FsM bool :=
  removeIfExists CONFIG_BACKUP;;
  hadExistingConfig <- exists_file CONFIG_PATH;;
  saved <- (if hadExistingConfig : bool then act (fs_rename CONFIG_PATH CONFIG_BACKUP) else ret true);;
  if negb saved then removeIfExists CONFIG_TEMP;; ret false else
  moved <- act (fs_rename CONFIG_TEMP CONFIG_PATH);;
  if negb moved then
    when hadExistingConfig (_ <- act (fs_rename CONFIG_BACKUP CONFIG_PATH);; ret tt);;
    removeIfExists CONFIG_TEMP;;
    ret false
  else
    removeIfExists CONFIG_BACKUP;;
    ret true.

Definition writeConfig (c : DeviceRuntimeConfig) : FsM bool :=
  written <- act (fs_write CONFIG_TEMP (config_text c));;
  match written with
  | None => ret false
  | Some _ => replace_config
  end.

Definition saveManagedConfig (c : DeviceRuntimeConfig) : FsM bool :=
  if negb (setupComplete c) then ret false else writeConfig c.

(** ** The key pair *)

Definition writeKeyFile (p : path) (key : list byte) : FsM bool :=
  written <- act (fs_write p key);;
  ret (match written with Some n => n =? length key | None => false end).

Definition saveKeys (privateKey publicKey : list byte) : FsM bool :=
  let hasPublic := negb (bool_decide (publicKey = [])) in
  removeIfExists KEY_TEMP;;
  removeIfExists PUBLIC_KEY_TEMP;;
  ok <- writeKeyFile KEY_TEMP privateKey;;
  if negb ok then ret false else
  ok <- (if hasPublic then writeKeyFile PUBLIC_KEY_TEMP publicKey else ret true);;
  if negb ok then removeIfExists KEY_TEMP;; ret false else
  removeIfExists KEY_PATH;;
  ok <- act (fs_rename KEY_TEMP KEY_PATH);;
  if negb ok then removeIfExists PUBLIC_KEY_TEMP;; ret false else
  removeIfExists PUBLIC_KEY_PATH;;
  if hasPublic then act (fs_rename PUBLIC_KEY_TEMP PUBLIC_KEY_PATH) else ret true.

(** [file.size() == 0 || file.size() > max] *)
Definition bad_size (max : Z) (s : list byte) : bool := (zlen s =? 0)%Z || (max <? zlen s)%Z.

(** [loadKeys(privateKey, publicKey)]: the answer and the two strings, which may be
    set even when it answers [false]. *)
Definition loadKeys (old : list byte * list byte) : FsM (bool * (list byte * list byte)) :=
  k <- read_file KEY_PATH;;
  match k with
  | None => ret (false, old)
  | Some privateKey =>
      if bad_size MAX_KEY_SIZE privateKey then ret (false, old) else
      if negb (validKey privateKey) then ret (false, (privateKey, old.2)) else
      k <- read_file PUBLIC_KEY_PATH;;
      ret (match k with
           | None => (true, (privateKey, []))
           | Some publicKey =>
               if bad_size MAX_PUBLIC_KEY_SIZE publicKey then (false, (privateKey, []))
               else (validPublicKey publicKey, (privateKey, publicKey))
           end)
  end.

(** ** Loading the configuration *)

(** The variables of [loadConfig]: the numbers are read as strings first. *)
Record Loading := mkLoading {
  ld_config : DeviceRuntimeConfig;
  ld_version : Z;
  ld_complete : list byte;
  ld_sshPort : list byte;
  ld_remotePort : list byte;
  ld_localPort : list byte;
  ld_auth : list byte;
  ld_tunnelEnabled : list byte;
  ld_macVendor : list byte
}.

#[export] Instance loading_eta : Eta Loading := fun l =>
  mkLoading (ld_config l) (ld_version l) (ld_complete l) (ld_sshPort l) (ld_remotePort l)
    (ld_localPort l) (ld_auth l) (ld_tunnelEnabled l) (ld_macVendor l).

Definition start_loading (c : DeviceRuntimeConfig) : Loading :=
  mkLoading c 0 [] [] [] [] [] [] [].

(** The chain of [if (name == ...)]. *)
Definition assignments : list (list byte * (list byte -> Loading -> Loading)) :=
  let on f v l := l <| ld_config := f v (ld_config l) |> in
  [(bytes "version", fun v l => l <| ld_version := toInt v |>);
   (bytes "setup_complete", fun v l => l <| ld_complete := v |>);
   (bytes "wifi_ssid", on (fun v c => c <| wifiSsid := v |>));
   (bytes "wifi_password", on (fun v c => c <| wifiPassword := v |>));
   (bytes "mac_vendor", fun v l => l <| ld_macVendor := v |>);
   (bytes "ssh_host", on (fun v c => c <| dc_sshHost := v |>));
   (bytes "ssh_port", fun v l => l <| ld_sshPort := v |>);
   (bytes "ssh_user", on (fun v c => c <| sshUsername := v |>));
   (bytes "ssh_auth", fun v l => l <| ld_auth := v |>);
   (bytes "ssh_password", on (fun v c => c <| sshPassword := v |>));
   (bytes "ssh_key_passphrase", on (fun v c => c <| sshKeyPassphrase := v |>));
   (bytes "tunnel_enabled", fun v l => l <| ld_tunnelEnabled := v |>);
   (bytes "remote_host", on (fun v c => c <| dc_remoteBindHost := v |>));
   (bytes "remote_port", fun v l => l <| ld_remotePort := v |>);
   (bytes "local_host", on (fun v c => c <| dc_localHost := v |>));
   (bytes "local_port", fun v l => l <| ld_localPort := v |>)].

Fixpoint assign (table : list (list byte * (list byte -> Loading -> Loading)))
    (name v : list byte) (l : Loading) : Loading :=
  match table with
  | [] => l
  | (k, f) :: table' => if decide (name = k) then f v l else assign table' name v l
  end.

(** One line; [None] is the early [return false] on a value that does not decode. *)
Definition load_line (line : list byte) (l : Loading) : option Loading :=
  let line := chop_cr line in
  match index EQUALS line with
  | None | Some O => Some l
  | Some pos =>
      value ← decode (drop (S pos) line);
      Some (assign assignments (take pos line) value l)
  end.

(** What [readStringUntil('\n')] yields until the file ends. *)
Definition file_lines (text : list byte) : list (list byte) :=
  match reverse (split_lf text) with
  | [] :: ls => reverse ls
  | _ => split_lf text
  end.

(** The loop over the lines: whether it went to the end, and the variables. *)
Fixpoint load_lines (lines : list (list byte)) (l : Loading) : bool * Loading :=
  match lines with
  | [] => (true, l)
  | line :: lines' =>
      match load_line line l with
      | Some l' => load_lines lines' l'
      | None => (false, l)
      end
  end.

(** [loadConfig] behind the checks of version, WiFi and vendor. *)
Definition load_tunnel (l : Loading) : FsM (bool * DeviceRuntimeConfig) :=
  let c := ld_config l in
  if ((ld_version l =? 1)%Z || negb (bool_decide (ld_complete l = bytes "1"))) then ret (true, c) else
  let enabled := ld_tunnelEnabled l in
  if (3 <=? ld_version l)%Z && negb (bool_decide (enabled = bytes "0"))
     && negb (bool_decide (enabled = bytes "1")) then ret (true, c) else
  let c := if (3 <=? ld_version l)%Z
           then c <| dc_tunnelEnabled := bool_decide (enabled = bytes "1") |> else c in
  let c := c <| sshAuthMethod := if decide (ld_auth l = bytes "key") then PrivateKey else Password |> in
  match parsePort (ld_sshPort l) with
  | None => ret (true, c)
  | Some p =>
      let c := c <| dc_sshPort := p |> in
      match parsePort (ld_remotePort l) with
      | None => ret (true, c)
      | Some p =>
          let c := c <| dc_remoteBindPort := p |> in
          match parsePort (ld_localPort l) with
          | None => ret (true, c)
          | Some p =>
              let c := c <| dc_localPort := p |> in
              keys <- (if decide (sshAuthMethod c = PrivateKey)
                       then loadKeys (sshPrivateKey c, sshPublicKey c)
                       else ret (true, (sshPrivateKey c, sshPublicKey c)));;
              let '(ok, (priv, pub)) := keys in
              let c := c <| sshPrivateKey := priv |> <| sshPublicKey := pub |> in
              ret (true, if ok : bool then c <| setupComplete := validDeviceConfig c |> else c)
          end
      end
  end.

(** The first lines of [loadConfig]: finish or undo an interrupted replacement. *)
Definition recover_config : FsM unit :=
  there <- exists_file CONFIG_PATH;;
  backup <- exists_file CONFIG_BACKUP;;
  if negb there && backup then _ <- act (fs_rename CONFIG_BACKUP CONFIG_PATH);; ret tt
  else when there (removeIfExists CONFIG_BACKUP).

(** [loadConfig(c)]: its answer and the configuration afterwards. *)
Definition loadConfig (c : DeviceRuntimeConfig) : FsM (bool * DeviceRuntimeConfig) :=
  recover_config;;
  text <- read_file CONFIG_PATH;;
  match text with
  | None => ret (false, c)
  | Some text =>
      let '(done, l) := load_lines (file_lines text) (start_loading c) in
      let c := ld_config l in
      if negb done then ret (false, c) else
      if ((ld_version l <? 1) || (4 <? ld_version l))%Z || bool_decide (wifiSsid c = [])
         || (32 <? length (wifiSsid c)) || (63 <? length (wifiPassword c)) then ret (false, c) else
      if (4 <=? ld_version l)%Z then
        match parse_vendor (ld_macVendor l) with
        | None => ret (false, c)
        | Some v => load_tunnel (l <| ld_config := c <| dc_macVendor := v |> |>)
        end
      else load_tunnel (l <| ld_config := c <| dc_macVendor := Original |> |>)
  end.

End Storage.

(** ** A configuration from the control centre (main.cpp) *)

Inductive managed_outcome :=
  | BadVendor
  | Unchanged
  | NeedsKey
  | Store (next : DeviceRuntimeConfig).

(** [applyPendingMinisConfig] up to [saveManagedConfig], [sid] being the device's
    id. *)
Definition apply_managed (sid : list byte) (managed : ManagedTunnelConfig)
    (deviceConfig : DeviceRuntimeConfig) : managed_outcome :=
  match (match mt_macVendor managed with
         | Some v => parse_vendor v
         | None => Some (dc_macVendor deviceConfig)
         end) with
  | None => BadVendor
  | Some vendor =>
      let unchanged :=
        setupComplete deviceConfig &&
        Bool.eqb (dc_tunnelEnabled deviceConfig) (mt_enabled managed) &&
        bool_decide (dc_sshHost deviceConfig = mt_sshHost managed) &&
        (dc_sshPort deviceConfig =? mt_sshPort managed)%Z &&
        bool_decide (sshUsername deviceConfig = sid) &&
        bool_decide (dc_remoteBindHost deviceConfig = mt_remoteBindHost managed) &&
        (dc_remoteBindPort deviceConfig =? mt_remoteBindPort managed)%Z &&
        bool_decide (dc_localHost deviceConfig = mt_localHost managed) &&
        (dc_localPort deviceConfig =? mt_localPort managed)%Z &&
        bool_decide (dc_macVendor deviceConfig = vendor) in
      if unchanged then Unchanged else
      if decide (sshAuthMethod deviceConfig <> PrivateKey) then NeedsKey else
      Store (deviceConfig <| setupComplete := true |>
        <| dc_tunnelEnabled := mt_enabled managed |> <| dc_sshHost := mt_sshHost managed |>
        <| dc_sshPort := mt_sshPort managed |> <| sshUsername := sid |>
        <| dc_remoteBindHost := mt_remoteBindHost managed |>
        <| dc_remoteBindPort := mt_remoteBindPort managed |>
        <| dc_localHost := mt_localHost managed |> <| dc_localPort := mt_localPort managed |>
        <| dc_macVendor := vendor |>)
  end.

(** ** A concrete file system *)

(** What the next operation does: work, fail, or write so many bytes only. *)
Inductive fault := Works | Fails | Short (n : nat).

Record MapFs := mkMapFs { files : gmap path (list byte); faults : list fault }.

Definition next_fault (f : MapFs) : fault := default Works (head (faults f)).

Definition after_fault (m : gmap path (list byte)) (f : MapFs) : MapFs := mkMapFs m (tail (faults f)).

#[export] Instance map_fs : FileSystem MapFs := {
  fs_read p f := files f !! p;
  fs_remove p f := match next_fault f with
                   | Fails => (false, after_fault (files f) f)
                   | _ => (true, after_fault (delete p (files f)) f)
                   end;
  fs_rename a b f := match next_fault f, files f !! a with
                     | Fails, _ | _, None => (false, after_fault (files f) f)
                     | _, Some s => (true, after_fault (<[b := s]> (delete a (files f))) f)
                     end;
  fs_write p s f := match next_fault f with
                    | Works => (Some (length s), after_fault (<[p := s]> (files f)) f)
                    | Short n => (Some (Nat.min n (length s)), after_fault (<[p := take n s]> (files f)) f)
                    | Fails => (None, after_fault (files f) f)
                    end
}.
