(* ===== verification/IdentityFacts.v ===== *)
(** * The SSH identity of the firmware: proofs

    The public key OpenSSH reads from the text is the point mbedTLS generated
    ([public_key_form]); the identity is made once and found again after every
    restart ([identity_kept]); no power failure mixes two pairs where the old public
    key can be removed ([pair_never_mixed], [kept_public_key_mixes]). *)

From stdpp Require Import gmap.
From S2P Require Import Prelude HttpDiag HttpDiagFacts ManagedConfig ManagedConfigFacts.
From S2P Require Import Provisioning ProvisioningFacts Identity.

#[local] Open Scope nat_scope.

(** ** The blob *)

Lemma byte_at_value v k : (0 <= k)%Z -> Z.of_N (Byte.to_N (byte_at v k)) = (v / 2 ^ k mod 256)%Z.
Proof.
  intros Hk. unfold byte_at. rewrite Z.shiftr_div_pow2 by done.
  change 255%Z with (Z.ones 8). rewrite Z.land_ones by lia. change (2 ^ 8)%Z with 256%Z.
  pose proof (Z.mod_pos_bound (v / 2 ^ k) 256). rewrite to_byte_of by lia. lia.
Qed.

Lemma number32_be32 v : (0 <= v < 2 ^ 32)%Z -> number32 (be32 v) = v.
Proof.
  intros Hv. unfold number32, be32. cbn [fold_left]. rewrite !byte_at_value by lia.
  change (2 ^ 24)%Z with 16777216%Z. change (2 ^ 16)%Z with 65536%Z. change (2 ^ 8)%Z with 256%Z.
  change (2 ^ 0)%Z with 1%Z. change (2 ^ 32)%Z with 4294967296%Z in Hv.
  Z.to_euclidean_division_equations. lia.
Qed.

Lemma store_inside (a b c bs : list byte) : length b = length bs ->
  store (a ++ b ++ c) (length a) bs = Some (a ++ bs ++ c).
Proof.
  intros E. unfold store. rewrite !length_app. rewrite (proj2 (Nat.leb_le _ _)) by lia.
  rewrite take_app_length, <- E. do 3 f_equal. rewrite app_assoc, drop_app_length'; [done|].
  by rewrite length_app.
Qed.

Lemma zeros_split n k : k <= n -> zeros n = zeros k ++ zeros (n - k).
Proof. intros. unfold zeros. rewrite <- replicate_add. f_equal. lia. Qed.

(** A string as the blob holds it. *)
Definition ssh_string (data : list byte) : list byte := be32 (zlen data) ++ data.

Lemma length_ssh_string d : length (ssh_string d) = 4 + length d.
Proof. reflexivity. Qed.

Lemma appendBytes_ok pre r size data : 4 + length data <= r -> length pre + r <= size -> size < 1000 ->
  appendBytes (pre ++ zeros r) (Z.of_nat size) (length pre) data =
  Some (true, ((pre ++ ssh_string data) ++ zeros (r - (4 + length data)), length (pre ++ ssh_string data))).
Proof.
  intros Hr Hs Hb. unfold appendBytes, appendUint32. rewrite !u32_small by lia.
  rewrite (proj2 (Z.ltb_ge _ _)) by lia. rewrite (zeros_split r 4) by lia.
  rewrite (store_inside pre (zeros 4)) by done. cbn [mbind option_bind negb orb].
  rewrite u32_small by lia. rewrite (proj2 (Z.ltb_ge _ _)) by lia.
  rewrite (zeros_split (r - 4) (length data)) by lia.
  pose proof (store_inside (pre ++ be32 (zlen data)) (zeros (length data))
    (zeros (r - 4 - length data)) data ltac:(apply length_replicate)) as E.
  rewrite length_app in E. change (length (be32 _)) with 4 in E. rewrite <- app_assoc in E.
  rewrite E. cbn [mbind option_bind]. unfold ssh_string.
  rewrite !length_app. change (length (be32 _)) with 4. rewrite <- !app_assoc.
  by rewrite Nat.sub_add_distr, Nat.add_assoc.
Qed.

Lemma ssh_strings_cons fuel d t : length d < 1000 ->
  ssh_strings (S fuel) (ssh_string d ++ t) = cons d <$> ssh_strings fuel t.
Proof.
  intros Hd. unfold ssh_string. rewrite <- app_assoc.
  assert (E : take 4 (be32 (zlen d) ++ d ++ t) = be32 (zlen d)) by done.
  cbn [ssh_strings app be32]. change (byte_at (zlen d) 24 :: _) with (be32 (zlen d) ++ d ++ t) in *.
  rewrite E, number32_be32, Nat2Z.id by lia.
  assert (El : length (be32 (zlen d) ++ d ++ t) = 4 + (length d + length t)) by (rewrite !length_app; done).
  rewrite El, (proj2 (Nat.ltb_ge _ _)), (proj2 (Nat.ltb_ge _ _)) by lia. cbn [orb].
  change (drop 4 (be32 (zlen d) ++ d ++ t)) with (d ++ t). rewrite take_app_length.
  change (drop (4 + length d) (be32 (zlen d) ++ d ++ t)) with (drop (length d) (d ++ t)).
  by rewrite drop_app_length.
Qed.

Lemma openssh_blob_strings point : length point = P256_UNCOMPRESSED_POINT_SIZE -> exists blob,
  openssh_blob point = Some (Some blob) /\ ssh_strings 4 blob = Some [ALGORITHM; CURVE; point].
Proof.
  intros Hp. unfold P256_UNCOMPRESSED_POINT_SIZE in Hp.
  exists (ssh_string ALGORITHM ++ ssh_string CURVE ++ ssh_string point). split.
  - unfold openssh_blob.
    pose proof (appendBytes_ok [] 160 160 ALGORITHM ltac:(simpl; lia) ltac:(simpl; lia) ltac:(lia)) as E.
    cbn [app length] in E. cbv zeta. change OPENSSH_BLOB_BUFFER_SIZE with 160.
    rewrite E. cbn [mbind option_bind negb]. clear E.
    rewrite (appendBytes_ok _ _ 160 CURVE) by (rewrite ?length_ssh_string; simpl; lia).
    cbn [mbind option_bind negb].
    rewrite (appendBytes_ok _ _ 160 point) by (rewrite ?length_app, ?length_ssh_string, ?Hp; simpl; lia).
    cbn [mbind option_bind negb]. unfold load. rewrite drop_0, take_app_length.
    rewrite (proj2 (Nat.leb_le _ _)) by (rewrite (length_app _ (zeros _)); lia). cbn [fmap option_fmap option_map]. by rewrite <- app_assoc.
  - rewrite !ssh_strings_cons by (rewrite ?Hp; simpl; lia).
    pose proof (ssh_strings_cons 1 point [] ltac:(lia)) as E. rewrite app_nil_r in E. by rewrite E.
Qed.

(** ** From mbedTLS's encoding to OpenSSH's *)

Definition is_point (p : list byte) : Prop :=
  length p = P256_UNCOMPRESSED_POINT_SIZE /\ head p = Some x04.

Lemma load_point der i : i + 65 <= length der -> der !! i = Some x04 ->
  exists p, load der i P256_UNCOMPRESSED_POINT_SIZE = Some p /\ p = take 65 (drop i der) /\ is_point p.
Proof.
  intros Hi Hb. unfold load, is_point. change P256_UNCOMPRESSED_POINT_SIZE with 65.
  rewrite (proj2 (Nat.leb_le _ _)) by done. eexists. split_and!; [done..| |].
  - rewrite length_take, length_drop. lia.
  - rewrite (drop_S _ _ _ Hb). done.
Qed.

Lemma find_point_total der : forall fuel i, length der < i + fuel -> 0 < fuel -> exists r,
  find_point fuel der i = Some r /\ (forall p, r = Some p -> is_point p).
Proof.
  induction fuel as [|fuel IH]; intros i Hf Hp; [lia|]. cbn [find_point].
  change P256_UNCOMPRESSED_POINT_SIZE with 65.
  destruct (Nat.leb_spec (i + 65) (length der)) as [Hi|]; [|by exists None].
  destruct (der !! i) as [b|] eqn:Eb; [|apply lookup_ge_None in Eb; lia]. cbn [mbind option_bind].
  destruct (Byte.eqb b x04) eqn:E4; [|apply IH; lia]. apply Byte.byte_dec_bl in E4 as ->.
  destruct (load_point der i Hi Eb) as (p & Ep & _ & Hpt). change 65 with P256_UNCOMPRESSED_POINT_SIZE.
  rewrite Ep. exists (Some p). split; [done|]. by intros ? [= <-].
Qed.

Lemma extract_total der : exists r, extractP256PointFromSpki der = Some r /\
  (forall p, r = Some p -> is_point p).
Proof.
  unfold extractP256PointFromSpki. cbv zeta. change P256_UNCOMPRESSED_POINT_SIZE with 65.
  destruct (Nat.leb_spec 65 (length der)) as [Hl|]; [|apply find_point_total; lia].
  destruct (der !! (length der - 65)) as [b|] eqn:Eb; [|apply lookup_ge_None in Eb; lia].
  cbn [mbind option_bind]. destruct (Byte.eqb b x04) eqn:E4; [|apply find_point_total; lia].
  apply Byte.byte_dec_bl in E4 as ->. destruct (load_point der (length der - 65)) as (p & Ep & _ & Hpt);
    [lia|done|]. change P256_UNCOMPRESSED_POINT_SIZE with 65 in Ep. rewrite Ep.
  exists (Some p). split; [done|]. by intros ? [= <-].
Qed.

Lemma extract_last pre xy : length xy = 64 ->
  extractP256PointFromSpki (pre ++ x04 :: xy) = Some (Some (x04 :: xy)).
Proof.
  intros Hl. unfold extractP256PointFromSpki. cbv zeta. change P256_UNCOMPRESSED_POINT_SIZE with 65.
  rewrite length_app. cbn [length]. rewrite Hl, (proj2 (Nat.leb_le _ _)) by lia.
  replace (length pre + 65 - 65) with (length pre) by lia.
  rewrite list_lookup_middle by done. cbn [mbind option_bind]. change (Byte.eqb x04 x04) with true.
  cbn match. unfold load. rewrite length_app. cbn [length]. rewrite Hl, (proj2 (Nat.leb_le _ _)) by lia.
  rewrite drop_app_length, take_ge by (simpl; lia). done.
Qed.

(** What building a key comes to. *)
Lemma build_cases {K} (m : Mbed K) pk : MbedLaws m ->
  buildOpenSshPublicKey m pk = Some None \/
  exists n buffer point blob text, mb_pubkey_der m pk = (n, buffer) /\
    extractP256PointFromSpki (drop (PUBLIC_DER_BUFFER_SIZE - Z.to_nat n) buffer) = Some (Some point) /\
    is_point point /\ ssh_strings 4 blob = Some [ALGORITHM; CURVE; point] /\
    mb_base64 m blob = (0%Z, text) /\
    buildOpenSshPublicKey m pk = Some (Some (ALGORITHM ++ [SP] ++ text)).
Proof.
  intros Hm. unfold buildOpenSshPublicKey. destruct (mb_pubkey_der m pk) as [n buffer] eqn:Ed.
  pose proof (der_size m Hm pk n buffer Ed) as Hsz. unfold PUBLIC_DER_BUFFER_SIZE in *.
  destruct (Z.leb_spec n 0); [by left|].
  destruct (Z.ltb_spec (Z.of_nat 192) n); [by left|].
  unfold load. rewrite Hsz, (proj2 (Nat.leb_le _ _)) by lia. cbn [mbind option_bind].
  rewrite take_ge by (rewrite length_drop; lia).
  destruct (extract_total (drop (192 - Z.to_nat n) buffer)) as (r & Er & Hr). rewrite Er.
  cbn [mbind option_bind]. destruct r as [point|]; [|by left].
  specialize (Hr point eq_refl). destruct (openssh_blob_strings point (proj1 Hr)) as (blob & Eb & Hb).
  rewrite Eb. cbn [mbind option_bind]. destruct (mb_base64 m blob) as [result text] eqn:E64.
  destruct (Z.eqb_spec result 0) as [->|]; [|by left]. cbn [negb].
  destruct (base64_text m Hm blob text E64) as (Hlen & Hnul & _ & _). unfold OPENSSH_BASE64_BUFFER_SIZE in *.
  pose proof (store_inside [] (zeros (length (text ++ [NUL]))) (zeros (256 - length (text ++ [NUL])))
    (text ++ [NUL]) ltac:(apply length_replicate)) as Es.
  cbn [app length] in Es. rewrite <- zeros_split in Es by (rewrite length_app; simpl; lia).
  rewrite Es. cbn [mbind option_bind]. rewrite <- app_assoc. cbn [app].
  rewrite c_string_text by done. right. by exists n, buffer, point, blob, text.
Qed.

(** C25: Whatever mbedTLS answers within its documentation, building the public key
    reads and writes inside the arrays; and a key that is built is the algorithm's
    name and the encoding of a blob in which OpenSSH finds the algorithm, the curve
    and an uncompressed point: the one at the end of mbedTLS's DER. *)
Theorem public_key_form {K} (m : Mbed K) pk : MbedLaws m -> exists r,
  buildOpenSshPublicKey m pk = Some r /\ forall key, r = Some key -> exists point blob text,
    key = ALGORITHM ++ [SP] ++ text /\ mb_base64 m blob = (0%Z, text) /\
    ssh_strings 4 blob = Some [ALGORITHM; CURVE; point] /\ is_point point /\
    forall n buffer pre xy, mb_pubkey_der m pk = (n, buffer) ->
      drop (PUBLIC_DER_BUFFER_SIZE - Z.to_nat n) buffer = pre ++ x04 :: xy -> length xy = 64 ->
      point = x04 :: xy.
Proof.
  intros Hm. destruct (build_cases m pk Hm) as [->|(n & buffer & point & blob & text & Ed & Er & Hp & Hb & E64 & ->)];
    [by exists None|].
  eexists. split; [done|]. intros key [= <-]. exists point, blob, text. split_and!; try done.
  intros n' buffer' pre xy Ed' Hd Hxy. rewrite Ed in Ed'. injection Ed' as <- <-.
  rewrite Hd, extract_last in Er by done. by injection Er.
Qed.

(** ** Trimming *)

Lemma is_prefix_app p t : is_prefix p (p ++ t) = true.
Proof. induction p as [|b p IH]; [done|]. cbn [is_prefix app]. by rewrite Byte.byte_dec_lb. Qed.

Lemma is_prefix_split p : forall s, is_prefix p s = true -> exists t, s = p ++ t.
Proof.
  induction p as [|b p IH]; intros s Hs; [by exists s|]. destruct s as [|c s]; [done|].
  cbn [is_prefix] in Hs. apply andb_prop in Hs as [->%Byte.byte_dec_bl Hs].
  destruct (IH s Hs) as [t ->]. by exists t.
Qed.

Lemma contains_split p s : contains p s = true <-> exists u v, s = u ++ p ++ v.
Proof.
  split.
  - induction s as [|b s IH]; cbn [contains]; intros [Hp|Hs]%orb_prop.
    + destruct (is_prefix_split _ _ Hp) as [t Ht]. by exists [], t.
    + done.
    + destruct (is_prefix_split _ _ Hp) as [t Ht]. by exists [], t.
    + destruct (IH Hs) as (u & v & ->). by exists (b :: u), v.
  - intros (u & v & ->). induction u as [|b u IH]; cbn [app contains].
    + destruct (p ++ v) eqn:E; cbn [contains]; rewrite <- E, is_prefix_app; done.
    + by rewrite IH, orb_true_r.
Qed.

(** A text that begins and ends with a character that is no blank. *)
Definition no_blank_ends (p : list byte) : Prop :=
  (exists b q, p = b :: q /\ isspace b = false) /\ (exists b q, p = q ++ [b] /\ isspace b = false).

Lemma drop_while_word u b q v : isspace b = false ->
  drop_while isspace (u ++ (b :: q) ++ v) = drop_while isspace u ++ (b :: q) ++ v.
Proof.
  intros Hb. induction u as [|c u IH]; cbn [app drop_while]; [by rewrite Hb|].
  by destruct (isspace c).
Qed.

Lemma trim_word u p v : no_blank_ends p -> exists u' v', trim (u ++ p ++ v) = u' ++ p ++ v' /\
  (u = [] -> v = [] -> u' = [] /\ v' = []).
Proof.
  intros [(b & q & -> & Hb) (b2 & q2 & E2 & Hb2)]. unfold trim.
  rewrite drop_while_word by done. rewrite E2, !reverse_app. cbn [reverse rev_append app].
  rewrite <- app_assoc.
  pose proof (drop_while_word (reverse v) b2 (reverse q2) (reverse (drop_while isspace u)) Hb2) as E.
  cbn [app] in E |- *. rewrite E. exists (drop_while isspace u), (reverse (drop_while isspace (reverse v))).
  split; [|by intros -> ->]. change (b2 :: reverse q2 ++ reverse (drop_while isspace u))
    with ([b2] ++ reverse q2 ++ reverse (drop_while isspace u)).
  rewrite !reverse_app, !reverse_involutive. change (reverse [b2]) with [b2].
  by rewrite <- !app_assoc.
Qed.

Lemma contains_trim p s : no_blank_ends p -> contains p s = true -> contains p (trim s) = true.
Proof.
  intros Hp (u & v & ->)%contains_split. destruct (trim_word u p v Hp) as (u' & v' & -> & _).
  apply contains_split. by exists u', v'.
Qed.

Lemma trim_id p : no_blank_ends p -> trim p = p.
Proof.
  intros Hp. destruct (trim_word [] p [] Hp) as (u' & v' & E & He). destruct (He eq_refl eq_refl) as [-> ->].
  cbn [app] in E. by rewrite !app_nil_r in E.
Qed.

(** ** The pair on the file system *)

Section Persist.
Context {F : Type} `{FileSystemLaws F}.
Implicit Types (f g : F) (log : list F).
Variables (priv pub : list byte) (f0 : F).

(** The four files of the pair. *)
Record pair_at (k p kt pt : option (list byte)) (g : F) : Prop := {
  pa_key : fs_read KEY_PATH g = k;
  pa_public : fs_read PUBLIC_KEY_PATH g = p;
  pa_key_temp : fs_read KEY_TEMP g = kt;
  pa_public_temp : fs_read PUBLIC_KEY_TEMP g = pt
}.

(** The pair of [g] is the one of [f0], the new one, or incomplete. *)
Definition unmixed g : Prop :=
  fs_read KEY_PATH g = None \/ fs_read PUBLIC_KEY_PATH g = None \/
  (fs_read KEY_PATH g = fs_read KEY_PATH f0 /\ fs_read PUBLIC_KEY_PATH g = fs_read PUBLIC_KEY_PATH f0) \/
  (fs_read KEY_PATH g = Some priv /\ fs_read PUBLIC_KEY_PATH g = Some pub).

Definition unmixed_opt (k p : option (list byte)) : Prop :=
  k = None \/ p = None \/ (k = fs_read KEY_PATH f0 /\ p = fs_read PUBLIC_KEY_PATH f0) \/
  (k = Some priv /\ p = Some pub).

Lemma unmixed_at k p kt pt g : pair_at k p kt pt g -> unmixed_opt k p -> unmixed g.
Proof. by intros [<- <- _ _]. Qed.

(** A step that keeps the log unmixed: [k], [p], [kt], [pt] are the files after it. *)
Lemma log_grows k p kt pt g log log' : pair_at k p kt pt g -> unmixed_opt k p ->
  log' = log \/ log' = g :: log -> Forall unmixed log -> Forall unmixed log'.
Proof. intros Hg Hu [->| ->] Hl; [done|]. constructor; [by eapply unmixed_at|done]. Qed.

Ltac pairs_of E := rewrite E by done; done.

Ltac pairs := constructor; repeat match goal with
  | E : forall q, _ -> _ |- context [fs_read ?q ?g] => rewrite (E q) by done
  end; done.

(** Removing a temporary file, or trying to. *)
Lemma wp_rm_temp path k p kt pt g log (Q : unit -> F * list F -> Prop) :
  path = KEY_TEMP \/ path = PUBLIC_KEY_TEMP -> pair_at k p kt pt g -> unmixed_opt k p ->
  Forall unmixed log ->
  (forall h log', (exists kt' pt', pair_at k p kt' pt' h) -> Forall unmixed log' -> Q tt (h, log')) ->
  wp (removeIfExists path) Q (g, log).
Proof.
  intros Hp [H1 H2 _ _] Hu Hl HQ. apply wp_removeIfExists. intros h log' E _ Hlog.
  assert (Hh : pair_at k p (fs_read KEY_TEMP h) (fs_read PUBLIC_KEY_TEMP h) h)
    by (constructor; [..|done|done]; rewrite E; try done; by destruct Hp as [->| ->]).
  apply HQ; [by eexists _, _|]. by eapply log_grows.
Qed.

(** Removing the private key, or trying to. *)
Lemma wp_rm_key k p kt pt g log (Q : unit -> F * list F -> Prop) :
  pair_at k p kt pt g -> unmixed_opt k p -> Forall unmixed log ->
  (forall k' h log', pair_at k' p kt pt h -> unmixed_opt k' p -> Forall unmixed log' -> Q tt (h, log')) ->
  wp (removeIfExists KEY_PATH) Q (g, log).
Proof.
  intros [H1 H2 H3 H4] Hu Hl HQ. unfold removeIfExists. apply wp_bind, wp_exists_file.
  - intros s _. apply wp_when; [intros _|done]. apply wp_bind, wp_act. intros [|] h E; apply wp_ret.
    + destruct (remove_ok _ _ _ E) as [E1 E2].
      assert (Hh : pair_at None p kt pt h) by (constructor; [done|by rewrite E2..]).
      eapply HQ; [exact Hh|by left|]. eapply log_grows; [exact Hh|by left|by right|done].
    + pose proof (fun q => remove_failed _ _ _ q E) as E2.
      assert (Hh : pair_at k p kt pt h) by (constructor; by rewrite E2).
      eapply HQ; [exact Hh|done|]. eapply log_grows; [exact Hh|done|by right|done].
  - intros _. apply wp_when; [done|intros _]. by eapply HQ.
Qed.

(** Removing the public key, where that works. *)
Lemma under_rm_public k p kt pt g log (Q : unit -> F * list F -> Prop) :
  pair_at k p kt pt g -> Forall unmixed log ->
  (forall h log', pair_at k None kt pt h -> Forall unmixed log' -> Q tt (h, log')) ->
  under (removes PUBLIC_KEY_PATH) (removeIfExists PUBLIC_KEY_PATH) Q (g, log).
Proof.
  intros [H1 H2 H3 H4] Hl HQ. apply under_remove; [done|]. intros h log' En E Hlog.
  assert (Hh : pair_at k None kt pt h) by pairs.
  apply HQ; [done|]. eapply log_grows; [done|right; by left|done..].
Qed.

(** [writeFile] of one of the temporary files: when it answers [true] the file is
    complete. *)
Lemma wp_write_temp path v k p kt pt g log (Q : bool -> F * list F -> Prop) :
  path = KEY_TEMP \/ path = PUBLIC_KEY_TEMP -> pair_at k p kt pt g -> unmixed_opt k p ->
  Forall unmixed log ->
  (forall b h log', (exists kt' pt', pair_at k p kt' pt' h /\
       (b = true -> if decide (path = KEY_TEMP) then kt' = Some v /\ pt' = pt else kt' = kt /\ pt' = Some v)) ->
     Forall unmixed log' -> Q b (h, log')) ->
  wp (writeFile path v) Q (g, log).
Proof.
  intros Hp [H1 H2 H3 H4] Hu Hl HQ. unfold writeFile. apply wp_bind, wp_act. intros [n|] h E; apply wp_ret.
  - destruct (write_ok _ _ _ _ _ E) as [Ew Eo].
    assert (Hh : pair_at k p (fs_read KEY_TEMP h) (fs_read PUBLIC_KEY_TEMP h) h)
      by (constructor; [..|done|done]; rewrite Eo; try done; by destruct Hp as [->| ->]).
    apply HQ; [|eapply log_grows; [done|done|by right|done]].
    eexists _, _. split; [exact Hh|]. intros En%Nat.eqb_eq. rewrite En, take_ge in Ew by done.
    destruct Hp as [->| ->]; [rewrite decide_True by done|rewrite decide_False by done];
      (split; [|]); rewrite ?Ew, ?Eo by done; done.
  - pose proof (fun q => write_failed _ _ _ _ q E) as Eo.
    assert (Hh : pair_at k p kt pt h) by (constructor; by rewrite Eo).
    apply HQ; [|eapply log_grows; [done|done|by right|done]]. exists kt, pt. by split.
Qed.

Definition log_unmixed (b : bool) (s : F * list F) : Prop := Forall unmixed s.2.

(** Giving up: the temporary files go. *)
Lemma give_up_temps k p kt pt g log : pair_at k p kt pt g -> unmixed_opt k p -> Forall unmixed log ->
  wp (removeIfExists KEY_TEMP;; removeIfExists PUBLIC_KEY_TEMP;; ret false) log_unmixed (g, log).
Proof.
  intros Hg Hu Hl. apply wp_bind. eapply wp_rm_temp; [by left|exact Hg|done|done|].
  intros h log' (kt' & pt' & Hh) Hl'. apply wp_bind. eapply wp_rm_temp; [by right|exact Hh|done|done|].
  intros h' log2 _ Hl2. by apply wp_ret.
Qed.

(** The renames, after the old public key is gone. *)
Lemma persist_renames k g log : pair_at k None (Some priv) (Some pub) g -> Forall unmixed log ->
  wp (ok <- act (fs_rename KEY_TEMP KEY_PATH);;
      if negb ok then removeIfExists KEY_TEMP;; removeIfExists PUBLIC_KEY_TEMP;; ret false else
      ok <- act (fs_rename PUBLIC_KEY_TEMP PUBLIC_KEY_PATH);;
      if negb ok then removeIfExists KEY_PATH;; removeIfExists PUBLIC_KEY_TEMP;; ret false else
      ret true) log_unmixed (g, log).
Proof.
  intros [H1 H2 H3 H4] Hl. apply wp_bind, wp_rename; [done|..]; cbn [negb].
  - intros h E1 E2 E3.
    assert (Hh : pair_at (Some priv) None None (Some pub) h) by (constructor; [congruence|pairs_of E3|done|pairs_of E3]).
    assert (Hl1 : Forall unmixed (h :: log)) by (eapply log_grows; [exact Hh|right; by left|by right|done]).
    destruct Hh as [K1 K2 K3 K4]. apply wp_bind, wp_rename; [done|..]; cbn [negb].
    + intros h2 E4 E5 E6.
      assert (Hh : pair_at (Some priv) (Some pub) None None h2) by (constructor; [pairs_of E6|congruence|pairs_of E6|done]).
      apply wp_ret. eapply log_grows; [exact Hh|right; right; by right|by right|done].
    + intros h2 E4.
      assert (Hh : pair_at (Some priv) None None (Some pub) h2) by (constructor; by rewrite E4).
      assert (Hl2 : Forall unmixed (h2 :: h :: log)) by (eapply log_grows; [exact Hh|right; by left|by right|done]).
      apply wp_bind. eapply wp_rm_key; [exact Hh|right; by left|done|]. intros k' h3 log3 H3' Hu3 Hl3. apply wp_bind.
      eapply wp_rm_temp; [by right|exact H3'|done|done|]. intros h4 log4 _ Hl4. by apply wp_ret.
  - intros h E1.
    assert (Hh : pair_at k None (Some priv) (Some pub) h) by (constructor; by rewrite E1).
    eapply give_up_temps; [exact Hh|right; by left|]. eapply log_grows; [exact Hh|right; by left|by right|done].
Qed.

Lemma persist_pair_safe : under (removes PUBLIC_KEY_PATH) (persistKeyPair priv pub) log_unmixed (f0, []).
Proof.
  unfold persistKeyPair. set (k := fs_read KEY_PATH f0). set (p := fs_read PUBLIC_KEY_PATH f0).
  assert (Hu : unmixed_opt k p) by (right; right; left; done).
  assert (Hp0 : pair_at k p (fs_read KEY_TEMP f0) (fs_read PUBLIC_KEY_TEMP f0) f0) by done.
  apply under_bind, under_wp; [apply _..|].
  eapply wp_rm_temp; [by left|exact Hp0|done|constructor|]. intros g1 log1 (kt1 & pt1 & H1) Hl1.
  apply under_bind, under_wp; [apply _..|].
  eapply wp_rm_temp; [by right|exact H1|done|done|]. intros g2 log2 (kt2 & pt2 & H2) Hl2.
  apply under_bind, under_wp; [apply _..|].
  eapply wp_write_temp; [by left|exact H2|done|done|].
  intros ok1 g3 log3 (kt & pt & H3 & Hok1) Hl3. apply under_bind, under_wp; [apply _..|]. destruct ok1.
  - destruct (Hok1 eq_refl) as [-> _].
    eapply wp_write_temp; [by right|exact H3|done|done|]. intros ok2 g4 log4 (kt' & pt' & H4 & Hok2) Hl4.
    destruct ok2; cbn [negb]; [|apply under_wp; by eapply give_up_temps].
    destruct (Hok2 eq_refl) as [-> ->]. apply under_bind, under_wp; [apply _..|].
    eapply wp_rm_key; [exact H4|done|done|]. intros k' g5 log5 H5 _ Hl5. apply under_bind; [apply _..|].
    eapply under_rm_public; [exact H5|done|]. intros g6 log6 H6 Hl6. apply under_wp. by eapply persist_renames.
  - apply wp_ret. cbn [negb]. apply under_wp. by eapply give_up_temps.
Qed.

(** An answer [true]: both halves are in place, whatever could be removed. *)
Lemma persist_pair_true log : wp (persistKeyPair priv pub) (fun b s => b = true ->
  fs_read KEY_PATH s.1 = Some priv /\ fs_read PUBLIC_KEY_PATH s.1 = Some pub) (f0, log).
Proof.
  assert (Hw : forall path v f log (Q : bool -> F * list F -> Prop),
    (forall g log', fs_read path g = Some v -> (forall q, q <> path -> fs_read q g = fs_read q f) -> Q true (g, log')) ->
    (forall s, Q false s) -> wp (writeFile path v) Q (f, log)).
  { intros path v f l Q HT HF. unfold writeFile. apply wp_bind, wp_act. intros [n|] g E; apply wp_ret; [|apply HF].
    destruct (write_ok _ _ _ _ _ E) as [Ew Eo]. destruct (Nat.eqb_spec n (length v)) as [En|]; [|apply HF].
    apply HT; [|done]. by rewrite Ew, En, take_ge. }
  assert (Hf : forall m : M (F * list F) unit, forall s, wp (m;; ret false) (fun b s' => b = true ->
    fs_read KEY_PATH s'.1 = Some priv /\ fs_read PUBLIC_KEY_PATH s'.1 = Some pub) s).
  { intros m s. unfold wp, bind, ret. by destruct (m s). }
  unfold persistKeyPair. apply wp_bind, wp_removeIfExists. intros g1 l1 _ _ _.
  apply wp_bind, wp_removeIfExists. intros g2 l2 _ _ _. apply wp_bind, Hw; [|intros s].
  2:{ apply wp_bind, wp_ret. cbn [negb]. unfold wp, bind, ret. destruct (removeIfExists KEY_TEMP s) as [u s1].
      by destruct (removeIfExists PUBLIC_KEY_TEMP s1). }
  intros g3 l3 E3 _. apply wp_bind, Hw; [|intros s; cbn [negb]; unfold wp, bind, ret;
    destruct (removeIfExists KEY_TEMP s) as [u s1]; by destruct (removeIfExists PUBLIC_KEY_TEMP s1)].
  intros g4 l4 E4 K4. cbn [negb]. apply wp_bind, wp_removeIfExists. intros g5 l5 K5 _ _.
  apply wp_bind, wp_removeIfExists. intros g6 l6 K6 _ _. apply wp_bind, wp_rename; [done|..]; cbn [negb].
  2:{ intros g7 _. unfold wp, bind, ret. destruct (removeIfExists KEY_TEMP _) as [u s1].
      by destruct (removeIfExists PUBLIC_KEY_TEMP s1). }
  intros g7 E7 _ K7. apply wp_bind, wp_rename; [done|..]; cbn [negb].
  - intros g8 E8 _ K8. apply wp_ret. intros _. cbn [fst]. split.
    + rewrite K8, E7, K6, K5, K4 by done. done.
    + rewrite E8, K7, K6, K5 by done. done.
  - intros g8 _. unfold wp, bind, ret. destruct (removeIfExists KEY_PATH _) as [u s1].
    by destruct (removeIfExists PUBLIC_KEY_TEMP s1).
Qed.

End Persist.

(** C17: A power failure at any moment of [persistKeyPair], which stores the key pair
    the device has made, and any failure of its writes and renames leaves the old pair,
    the new pair, or an incomplete pair (which [ensure] replaces): a private key never
    meets the public key of another pair.  The one condition is on the run itself: in
    no state of it does the storage refuse to remove the old public key (then the new
    private key would meet it, [kept_public_key_mixes]).  An answer [true] means that
    the new pair is in place, without any condition. *)
Theorem pair_never_mixed {F} `{FileSystemLaws F} (priv pub : list byte) (f f' : F) b log :
  persistKeyPair priv pub (f, []) = (b, (f', log)) ->
  (Forall (removes PUBLIC_KEY_PATH) (f :: log) -> forall g, g ∈ log -> unmixed priv pub f g) /\
  (b = true -> fs_read KEY_PATH f' = Some priv /\ fs_read PUBLIC_KEY_PATH f' = Some pub).
Proof.
  intros E. split.
  - intros HF. pose proof (under_run _ _ _ _ _ _ _ (persist_pair_safe priv pub f) E HF) as Hl.
    unfold log_unmixed in Hl. cbn [snd] in Hl. rewrite List.Forall_forall in Hl. intros g Hg. by apply Hl, list_elem_of_In.
  - intros Hb. by apply (wp_run _ _ _ _ _ (persist_pair_true priv pub f []) E).
Qed.

(** ** The identity is made once *)

Lemma drop_while_idem p l : drop_while p (drop_while p l) = drop_while p l.
Proof.
  induction l as [|b l IH]; [done|]. cbn [drop_while]. destruct (p b) eqn:E; [done|].
  cbn [drop_while]. by rewrite E.
Qed.

Lemma drop_while_head_eq p l : (forall b, head l = Some b -> p b = false) -> drop_while p l = l.
Proof. destruct l as [|b l]; [done|]. intros Hb. cbn [drop_while]. by rewrite (Hb b eq_refl). Qed.

Lemma trim_idem s : trim (trim s) = trim s.
Proof.
  unfold trim. set (a := drop_while isspace s).
  assert (Ht : drop_while isspace (reverse (drop_while isspace (reverse a)))
    = reverse (drop_while isspace (reverse a))).
  { apply drop_while_head_eq. intros b Hb.
    pose proof (f_equal reverse (take_while_app_drop isspace (reverse a))) as E.
    rewrite reverse_app, reverse_involutive in E. apply (drop_while_head isspace s).
    fold a. rewrite <- E. by destruct (reverse (drop_while isspace (reverse a))). }
  rewrite Ht, reverse_involutive. by rewrite drop_while_idem.
Qed.

Lemma contains_nonempty p s : p <> [] -> contains p s = true -> s <> [].
Proof. intros Hp Hc ->. by destruct p. Qed.

Lemma pem_header_ends : no_blank_ends PEM_HEADER.
Proof. split; [by eexists _, _|]. by exists x2d, (removelast PEM_HEADER). Qed.

Lemma pem_footer_ends : no_blank_ends PEM_FOOTER.
Proof. split; [by eexists _, _|]. by exists x2d, (removelast PEM_FOOTER). Qed.

(** A pair that [generateKeyPair] gives is one that [loadExisting] accepts. *)
Lemma generated_pair {K} (m : Mbed K) priv pub : MbedLaws m ->
  generateKeyPair m = Some (Some (priv, pub)) ->
  contains PEM_HEADER priv = true /\ contains PEM_FOOTER priv = true /\ no_blank_ends pub /\
  starts_with (ALGORITHM ++ [SP]) pub = true.
Proof.
  intros Hm. unfold generateKeyPair. destruct (negb _); [done|]. destruct (negb _); [done|].
  destruct (mb_gen_key m) as [r pk]. destruct (negb _); [done|].
  destruct (mb_key_pem m pk) as [r2 buffer] eqn:Ep. destruct (Z.eqb_spec r2 0) as [->|]; [|done].
  destruct (pem_text m Hm pk buffer Ep) as (s & -> & _ & Hh & Hf). cbn [negb mbind option_bind].
  destruct (build_cases m pk Hm) as [->|(n & b & point & blob & text & _ & _ & _ & Hb & E64 & ->)]; [done|].
  cbn [mbind option_bind]. destruct (_ && _) in |- *; [|done]. intros [= <- <-].
  destruct (base64_text m Hm blob text E64) as (_ & _ & Hblank & Hne).
  split_and!; [done|done| |].
  - split; [by eexists _, _|]. destruct text as [|c text _] using rev_ind.
    { exfalso. apply Hne; [|done]. intros ->. done. }
    exists c, (ALGORITHM ++ [SP] ++ text). split; [by rewrite <- !app_assoc|].
    rewrite forallb_app in Hblank. apply andb_prop in Hblank as [_ Hc]. cbn [forallb] in Hc.
    rewrite andb_true_r in Hc. by apply negb_true_iff in Hc.
  - exact (is_prefix_app (ALGORITHM ++ [SP]) text).
Qed.

Lemma loadExisting_ok {F} `{FileSystem F} (g : F) log k q :
  fs_read KEY_PATH g = Some k -> fs_read PUBLIC_KEY_PATH g = Some q ->
  contains PEM_HEADER (trim k) = true -> contains PEM_FOOTER (trim k) = true ->
  starts_with (ALGORITHM ++ [SP]) (trim q) = true ->
  loadExisting (g, log) = (Some (trim k, trim q), (g, log)).
Proof.
  intros Ek Eq Hh Hf Hs. unfold loadExisting, bind, read_file, gets, ret. cbn [fst snd].
  rewrite Ek, Eq. rewrite !bool_decide_false; [by cbn [orb]; rewrite Hh, Hf, Hs|..];
    intros ->; [by vm_compute in Hs|by vm_compute in Hh].
Qed.

Lemma loadExisting_Some {F} `{FileSystem F} (g : F) log priv pub s :
  loadExisting (g, log) = (Some (priv, pub), s) -> s = (g, log) /\ trim priv = priv /\
  forall log', loadExisting (g, log') = (Some (priv, pub), (g, log')).
Proof.
  unfold loadExisting, bind, read_file, gets, ret. cbn [fst snd]. intros Er.
  assert (E := f_equal fst Er). assert (Es := f_equal snd Er). cbn [fst snd] in E, Es. rewrite E.
  split; [done|]. split; [|done].
  destruct (fs_read KEY_PATH g) as [k|], (fs_read PUBLIC_KEY_PATH g) as [q|]; try done.
  destruct (_ || _) in E; [done|]. destruct (contains PEM_HEADER (trim k) && _ && _) in E; [|done]. injection E as <- <-. apply trim_idem.
Qed.

(** C26: The identity is made once: whenever [ensure] gives the device a key pair, the
    next start, whatever mbedTLS would generate then, gives it the same one (the
    private key without blanks around it). *)
Theorem identity_kept {F K K'} `{FileSystemLaws F} (m : Mbed K) (m' : Mbed K')
    (config config' c : DeviceRuntimeConfig) (f f' : F) log log' :
  MbedLaws m -> ensure m config (f, []) = (Some (true, c), (f', log)) ->
  exists priv pub, c = take_keys priv pub config /\
    (ensure m' config' (f', log')).1 = Some (true, take_keys (trim priv) pub config').
Proof.
  intros Hm. unfold ensure at 1, bind. destruct (loadExisting (f, [])) as [[[priv pub]|] s] eqn:El.
  - destruct (loadExisting_Some _ _ _ _ _ El) as (-> & Ht & Hl). unfold ret. intros [= <- <- <-].
    exists priv, pub. split; [done|]. unfold ensure, bind. by rewrite Hl, Ht.
  - assert (Es : s = (f, [])) by exact (eq_sym (f_equal snd El)).
    subst s. destruct (generateKeyPair m) as [[[priv pub]|]|] eqn:Eg; [|done..].
    destruct (persistKeyPair priv pub (f, [])) as [ok [g l]] eqn:Ep. unfold ret. destruct ok; [|done].
    intros [= <- <- <-]. exists priv, pub. split; [done|].
    destruct (generated_pair m priv pub Hm Eg) as (Hh & Hf & He & Hs).
    destruct (wp_run _ _ _ _ _ (persist_pair_true priv pub f []) Ep) as [Ek Eq]; [done|].
    unfold ensure, bind. rewrite (loadExisting_ok g log' priv pub); try done.
    + by rewrite (trim_id pub He).
    + apply contains_trim; [apply pem_header_ends|done].
    + apply contains_trim; [apply pem_footer_ends|done].
    + by rewrite (trim_id pub He).
Qed.

(** ** A file system without failures, and an mbedTLS *)

Record PlainFs := mkPlain { plain_files : gmap path (list byte) }.

#[export] Instance plain_fs : FileSystem PlainFs := {
  fs_read p f := plain_files f !! p;
  fs_remove p f := match plain_files f !! p with
                   | Some _ => (true, mkPlain (delete p (plain_files f)))
                   | None => (false, f)
                   end;
  fs_rename a b f := match plain_files f !! a with
                     | Some s => (true, mkPlain (<[b := s]> (delete a (plain_files f))))
                     | None => (false, f)
                     end;
  fs_write p s f := (Some (length s), mkPlain (<[p := s]> (plain_files f)))
}.

#[export] Instance plain_fs_laws : FileSystemLaws PlainFs.
Proof.
  constructor; simpl.
  - intros p f f'. destruct (plain_files f !! p); intros [= <-]. cbn [plain_files].
    split; [by rewrite lookup_delete_eq|intros q Hq; by rewrite lookup_delete_ne].
  - intros p f f' q. by destruct (plain_files f !! p); intros [= <-].
  - intros a b f f' Hne. destruct (plain_files f !! a) as [s|] eqn:Ea; intros [= <-]. cbn [plain_files].
    split_and!; [by eexists|by rewrite lookup_insert_eq|by rewrite lookup_insert_ne, lookup_delete_eq|].
    intros q H1 H2. by rewrite lookup_insert_ne, lookup_delete_ne.
  - intros a b f f' q. by destruct (plain_files f !! a); intros [= <-].
  - intros p s f f' n [= <- <-]. cbn [plain_files].
    split; [by rewrite lookup_insert_eq, take_ge|intros q Hq; by rewrite lookup_insert_ne].
  - done.
Qed.

Lemma plain_serves (g : PlainFs) : serves g.
Proof.
  split; [|by intros p t n h [= <- _]]. intros p [s Hs]. cbn in *. by rewrite Hs.
Qed.

Definition demo_point : list byte := x04 :: replicate 64 x2a.

Definition demo_mbed : Mbed unit :=
  mkMbed unit 0 0 (0%Z, tt) (fun _ => (0%Z, demo_key ++ zeros 900))
    (fun _ => (91%Z, zeros 101 ++ replicate 26 x30 ++ demo_point)) (fun _ => (0%Z, bytes "AAAAE2Vj")).

Lemma demo_mbed_laws : MbedLaws demo_mbed.
Proof.
  constructor.
  - intros k buffer [= <-]. exists demo_key. split_and!; [by vm_compute|vm_compute; lia|by vm_compute..].
  - by intros k n buffer [= <- <-].
  - intros blob s [= <-]. split_and!; [vm_compute; lia|by apply index_None|by vm_compute|done].
Qed.

Lemma public_key_form_witness : exists r, buildOpenSshPublicKey demo_mbed tt = Some r /\
  forall key, r = Some key -> exists point blob text,
    key = ALGORITHM ++ [SP] ++ text /\ mb_base64 demo_mbed blob = (0%Z, text) /\
    ssh_strings 4 blob = Some [ALGORITHM; CURVE; point] /\ is_point point /\
    forall n buffer pre xy, mb_pubkey_der demo_mbed tt = (n, buffer) ->
      drop (PUBLIC_DER_BUFFER_SIZE - Z.to_nat n) buffer = pre ++ x04 :: xy -> length xy = 64 ->
      point = x04 :: xy.
Proof. exact (public_key_form demo_mbed tt demo_mbed_laws). Defined.

(** An old pair is in the files. *)
Definition old_pair : PlainFs :=
  mkPlain (<[KEY_PATH := bytes "old private"]> {[PUBLIC_KEY_PATH := bytes "old public"]}).

Lemma pair_never_mixed_witness :
  let run := persistKeyPair demo_key demo_public (old_pair, []) in
  run.1 = true /\ length run.2.2 = 6 /\
  (forall g, g ∈ run.2.2 -> unmixed demo_key demo_public old_pair g) /\
  fs_read KEY_PATH run.2.1 = Some demo_key /\ fs_read PUBLIC_KEY_PATH run.2.1 = Some demo_public.
Proof.
  intros run. split; [by vm_compute|]. split; [by vm_compute|].
  assert (E : run = (true, (run.2.1, run.2.2))) by by vm_compute.
  destruct (pair_never_mixed demo_key demo_public old_pair _ _ _ E) as [H1 H2].
  split; [apply H1, Forall_forall; intros g _; by apply plain_serves|]. by apply H2.
Defined.

(** Where the storage refuses to remove the old public key, the new private key meets
    it until the last rename. *)
Example kept_public_key_mixes :
  let before := demo_fs [Works; Works; Works; Fails] in
  let new_key := demo_key ++ [LF] in
  exists g, g ∈ (persistKeyPair new_key (bytes "ssh-rsa AAAA") (before, [])).2.2 /\
    (loadKeys ([], []) (g, [])).1 = (true, (new_key, demo_public)).
Proof.
  intros before new_key. set (log := (persistKeyPair new_key (bytes "ssh-rsa AAAA") (before, [])).2.2).
  exists (List.nth 1 log before). split; [|by vm_compute].
  apply list_elem_of_In, List.nth_In. vm_compute. lia.
Qed.

Lemma identity_kept_witness :
  let run := ensure demo_mbed default_device (mkPlain ∅, []) in exists c,
  run.1 = Some (true, c) /\ exists priv pub, c = take_keys priv pub default_device /\
    (ensure demo_mbed demo_device (run.2.1, [])).1 = Some (true, take_keys (trim priv) pub demo_device).
Proof.
  intros run.
  set (c := take_keys demo_key (ALGORITHM ++ [SP] ++ bytes "AAAAE2Vj") default_device).
  assert (E : run = (Some (true, c), (run.2.1, run.2.2))) by by vm_compute.
  exists c. split; [exact (f_equal fst E)|].
  exact (identity_kept demo_mbed demo_mbed default_device demo_device c _ _ _ [] demo_mbed_laws E).
Defined.

(** [saveKeys] of the setup page renames the new private key into place before it
    removes the old public key: a power failure between the two leaves a pair that
    does not fit together, which [loadKeys] accepts. *)
Lemma saveKeys_mixes_pair :
  let old := mkPlain (<[KEY_PATH := demo_key]> {[PUBLIC_KEY_PATH := demo_public]}) in
  let new_key := demo_key ++ [LF] in
  exists g, g ∈ (saveKeys new_key (bytes "ssh-rsa AAAA") (old, [])).2.2 /\
    (loadKeys ([], []) (g, [])).1 = (true, (new_key, demo_public)).
Proof.
  intros old new_key. set (log := (saveKeys new_key (bytes "ssh-rsa AAAA") (old, [])).2.2).
  exists (List.nth 2 log old). split; [|by vm_compute].
  apply list_elem_of_In, nth_In. vm_compute. lia.
Qed.
