(* ===== verification/Controls.v ===== *)
(** * Button and LED of the firmware (examples/src/wifi_provisioning.cpp,
      status_led.cpp)

    The BOOT button is sampled every 20 ms: three clicks reset the WiFi settings,
    five reset everything, holding it for four seconds opens the settings.
    [sampleConfigButton] recognises the gesture, [pollConfigResetButton] acts on it.
    The LED shows the state of the firmware as a pattern of flashes.

    Times are [millis()], 32-bit values that wrap. *)

From stdpp Require Import gmap.
From S2P Require Import Prelude HttpDiag ManagedConfig Provisioning.

#[local] Open Scope Z_scope.

(** ** The gestures *)

Definition CONFIG_EDIT_HOLD_MS : Z := 4000.
Definition CONFIG_CLICK_MIN_MS : Z := 40.
Definition CONFIG_CLICK_WINDOW_MS : Z := 3000.

Inductive ButtonAction := NoAction | WifiReset | Edit | FactoryReset.

#[export] Instance button_action_eq_dec : EqDecision ButtonAction.
Proof. solve_decision. Defined.

Record Button := mkButton {
  buttonWasPressed : bool;
  buttonPressedAt : Z;
  buttonClickCount : Z;
  buttonClickWindowStartedAt : Z;
  buttonHoldActionTriggered : bool;
  pendingButtonAction : ButtonAction
}.

#[export] Instance button_eta : Eta Button := fun b =>
  mkButton (buttonWasPressed b) (buttonPressedAt b) (buttonClickCount b)
    (buttonClickWindowStartedAt b) (buttonHoldActionTriggered b) (pendingButtonAction b).

Definition idle_button : Button := mkButton false 0 0 0 false NoAction.

(** A click has ended at [now]. *)
Definition count_click (now : Z) (b : Button) : Button :=
  let b := if (0 <? buttonClickCount b)
              && (CONFIG_CLICK_WINDOW_MS <? u32_sub now (buttonClickWindowStartedAt b))
           then b <| buttonClickCount := 0 |> else b in
  let b := if buttonClickCount b =? 0 then b <| buttonClickWindowStartedAt := now |> else b in
  let b := b <| buttonClickCount := (buttonClickCount b + 1) mod 2 ^ 8 |> in
  if 5 <=? buttonClickCount b
  then b <| buttonClickCount := 5 |> <| pendingButtonAction := FactoryReset |> else b.

(** [sampleConfigButton], [now] being [millis()] and [pressed] the pin. *)
Definition sampleConfigButton (now : Z) (pressed : bool) (b : Button) : Button :=
  if decide (pendingButtonAction b <> NoAction) then b else
  if negb pressed then
    if buttonWasPressed b then
      let pressDuration := u32_sub now (buttonPressedAt b) in
      let b := b <| buttonWasPressed := false |> <| buttonPressedAt := 0 |> in
      let b := if negb (buttonHoldActionTriggered b) && (CONFIG_CLICK_MIN_MS <=? pressDuration)
                  && (pressDuration <? CONFIG_EDIT_HOLD_MS)
               then count_click now b else b in
      b <| buttonHoldActionTriggered := false |>
    else if (0 <? buttonClickCount b)
            && (CONFIG_CLICK_WINDOW_MS <? u32_sub now (buttonClickWindowStartedAt b)) then
      if buttonClickCount b =? 3 then b <| pendingButtonAction := WifiReset |>
      else b <| buttonClickCount := 0 |>
    else b
  else if negb (buttonWasPressed b) then
    b <| buttonWasPressed := true |> <| buttonPressedAt := now |> <| buttonHoldActionTriggered := false |>
  else if negb (buttonHoldActionTriggered b)
          && (CONFIG_EDIT_HOLD_MS <=? u32_sub now (buttonPressedAt b)) then
    b <| buttonHoldActionTriggered := true |> <| buttonClickCount := 0 |> <| pendingButtonAction := Edit |>
  else b.

(** ** What the gestures do *)

Definition EDIT_REQUEST_PATH : path := "/esp32tun.edit".
Definition WIFI_RESET_REQUEST_PATH : path := "/esp32tun.wifi_reset".
Definition MINIS_CONFIG_PATH : path := "/minis.cfg".
Definition MINIS_CONFIG_TEMP_PATH : path := "/minis.cfg.tmp".
Definition MINIS_CONFIG_BACKUP_PATH : path := "/minis.cfg.bak".
Definition MINIS_CFG_APPLIED_NOTICE_PATH : path := "/minis.cfg_applied_notice".

(** The files a factory reset removes, in its order. *)
Definition factory_files : list path :=
  [CONFIG_PATH; CONFIG_TEMP; CONFIG_BACKUP; KEY_PATH; KEY_TEMP; PUBLIC_KEY_PATH; PUBLIC_KEY_TEMP;
   EDIT_REQUEST_PATH; WIFI_RESET_REQUEST_PATH; MINIS_CONFIG_PATH; MINIS_CONFIG_TEMP_PATH;
   MINIS_CONFIG_BACKUP_PATH; MINIS_CFG_APPLIED_NOTICE_PATH].

(** Whether [poll] goes on or restarts the device; the second says whether it has
    made the WiFi stack forget its credentials. *)
Inductive polled := GoesOn (b : Button) | Restarts (forgets_wifi : bool).

Section Poll.
Context {F : Type} `{FileSystem F}.

(** [pollConfigResetButton] behind the sampling. *)
Definition perform_action (b : Button) : M (F * list F) polled :=
  match pendingButtonAction b with
  | NoAction => ret (GoesOn b)
  | Edit =>
      marker <- act (fs_write EDIT_REQUEST_PATH (bytes "1"));;
      match marker with
      | None => ret (GoesOn idle_button)
      | Some _ => ret (Restarts false)
      end
  | WifiReset =>
      marker <- act (fs_write WIFI_RESET_REQUEST_PATH (bytes "1"));;
      match marker with
      | None => ret (GoesOn idle_button)
      | Some _ => removeIfExists EDIT_REQUEST_PATH;; ret (Restarts true)
      end
  | FactoryReset => for_each factory_files removeIfExists;; ret (Restarts true)
  end.

(** [pollConfigResetButton]; [sample] is the clock and the pin, when there is no
    button task that samples them. *)
Definition pollConfigResetButton (sample : option (Z * bool)) (b : Button) : M (F * list F) polled :=
  perform_action (match sample with Some (now, pressed) => sampleConfigButton now pressed b | None => b end).

(** What [begin] finds at the next start: [configEditRequested] and
    [wifiResetRequested]. *)
Definition requests : M (F * list F) (bool * bool) :=
  edit <- exists_file EDIT_REQUEST_PATH;;
  wifi <- exists_file WIFI_RESET_REQUEST_PATH;;
  ret (edit, wifi).

End Poll.

(** ** The LED *)

Inductive LedState := Booting | MissingConfig | Setup | Connecting | Connected | Disabled | LedError.

#[export] Instance led_state_eq_dec : EqDecision LedState.
Proof. solve_decision. Defined.

(** [outputFor(state, elapsed)]: whether the LED is on. *)
Definition outputFor (state : LedState) (elapsed : Z) : bool :=
  match state with
  | Booting => true
  | MissingConfig =>
      if elapsed <? 900 then
        (elapsed <? 120) || ((300 <=? elapsed) && (elapsed <? 420))
        || ((600 <=? elapsed) && (elapsed <? 720))
      else u32_sub elapsed 900 mod 1000 <? 500
  | Setup => elapsed mod 1000 <? 500
  | Connecting =>
      let phase := elapsed mod 2000 in (phase <? 120) || ((300 <=? phase) && (phase <? 420))
  | Connected | Disabled => false
  | LedError =>
      let phase := elapsed mod 2000 in
      (phase <? 120) || ((300 <=? phase) && (phase <? 420)) || ((600 <=? phase) && (phase <? 720))
  end.

(** The variables of status_led.cpp, and the level of the pin. *)
Record Led := mkLed {
  currentState : LedState;
  stateStartedAt : Z;
  lastUpdateAt : Z;
  initialized : bool;
  outputKnown : bool;
  lastOutput : bool;
  pin_high : bool
}.

#[export] Instance led_eta : Eta Led := fun l =>
  mkLed (currentState l) (stateStartedAt l) (lastUpdateAt l) (initialized l) (outputKnown l)
    (lastOutput l) (pin_high l).

Section LedOperations.
Context (active_low : bool).

(** [writeOutput(on)] *)
Definition writeOutput (on : bool) (l : Led) : Led :=
  if outputKnown l && Bool.eqb on (lastOutput l) then l else
  l <| pin_high := negb (Bool.eqb on active_low) |> <| lastOutput := on |> <| outputKnown := true |>.

Definition led_begin (now : Z) (l : Led) : Led :=
  writeOutput true (l <| initialized := true |> <| stateStartedAt := now |> <| lastUpdateAt := now |>).

Definition led_set (state : LedState) (now : Z) (l : Led) : Led :=
  if negb (initialized l) || bool_decide (state = currentState l) then l else
  let l := l <| currentState := state |> <| stateStartedAt := now |> <| lastUpdateAt := now |> in
  writeOutput (outputFor state 0) l.

Definition led_update (now : Z) (l : Led) : Led :=
  if negb (initialized l) then l else
  if u32_sub now (lastUpdateAt l) <? 20 then l else
  let l := l <| lastUpdateAt := now |> in
  writeOutput (outputFor (currentState l) (u32_sub now (stateStartedAt l))) l.

End LedOperations.
