(* ===== verification/ControlsFacts.v ===== *)
(** * Button and LED of the firmware: proofs

    A gesture is recognised only when it was made ([gestures_sound]), a factory
    reset leaves a device like new ([factory_reset_complete]), and the LED is at the
    level of its pattern ([led_shows_pattern]). *)

From Stdlib Require Import Sorting.Sorted.
From stdpp Require Import gmap.
From S2P Require Import Prelude HttpDiag ManagedConfig Provisioning ProvisioningFacts Identity IdentityFacts Controls.

#[local] Open Scope Z_scope.

(** ** What a gesture is

    A history is the list of the samples in their order, each with its time (which
    does not wrap) and the pin. *)

Definition history : Type := list (Z * bool).

(** The button went down at [s] and was held ever since: [mid] are the samples behind
    the first one. *)
Definition held_since (h : history) (s : Z) : Prop := exists pre mid,
  h = pre ++ (s, true) :: mid /\ Forall (fun x => x.2 = true) mid /\
  (forall x, list.last pre = Some x -> x.2 = false).

(** It went down at [s] and was seen up again at [r], 40 ms to 4 s later. *)
Definition is_click (h : history) (c : Z * Z) : Prop := exists before after,
  h = before ++ (c.2, false) :: after /\ held_since before c.1 /\
  CONFIG_CLICK_MIN_MS <= c.2 - c.1 < CONFIG_EDIT_HOLD_MS.

Lemma is_click_later h x c : is_click h c -> is_click (h ++ [x]) c.
Proof.
  intros (b & a & -> & Hh & Hd). exists b, (a ++ [x]). split; [by rewrite <- app_assoc|done].
Qed.

(** Clicks in their order, the first within the window of the last. *)
Record clicks (h : history) (cs : list (Z * Z)) : Prop := mkClicks {
  ck_clicks : Forall (is_click h) cs;
  ck_order : StronglySorted (fun c d => c.2 + CONFIG_CLICK_MIN_MS <= d.2) cs;
  ck_window : forall c d, list.head cs = Some c -> list.last cs = Some d -> d.2 - c.2 <= CONFIG_CLICK_WINDOW_MS
}.

(** The gesture that stands for an action. *)
Definition gesture (h : history) (a : ButtonAction) : Prop :=
  match a with
  | NoAction => True
  | Edit => exists h' s t, h = h' ++ [(t, true)] /\ held_since h s /\ CONFIG_EDIT_HOLD_MS <= t - s
  | FactoryReset => exists cs, length cs = 5%nat /\ clicks h cs
  | WifiReset => exists cs c h' t, length cs = 3%nat /\ clicks h cs /\ list.head cs = Some c /\
      h = h' ++ [(t, false)] /\ CONFIG_CLICK_WINDOW_MS < t - c.2
  end.

(** Samples do not go back in time and span less than 2^32 ms. *)
Definition timely (h : history) : Prop := StronglySorted (fun x y : Z * bool => 0 <= y.1 - x.1 < 2 ^ 32) h.

(** Nothing is under way: no action, no press, no clicks. *)
Definition quiet (b : Button) : Prop :=
  pendingButtonAction b = NoAction /\ buttonWasPressed b = false /\ buttonClickCount b = 0 /\
  buttonHoldActionTriggered b = false.

Definition run_samples (h : history) (b : Button) : Button :=
  fold_left (fun b x => sampleConfigButton (u32 x.1) x.2 b) h b.

Lemma run_samples_snoc h x b :
  run_samples (h ++ [x]) b = sampleConfigButton (u32 x.1) x.2 (run_samples h b).
Proof. unfold run_samples. by rewrite fold_left_app. Qed.

Lemma timely_snoc h x : timely (h ++ [x]) -> timely h /\ forall y, y ∈ h -> 0 <= x.1 - y.1 < 2 ^ 32.
Proof.
  unfold timely. induction h as [|z h IH]; intros Ht; [split; [constructor|by intros y ?%elem_of_nil]|].
  cbn [app] in Ht. inversion_clear Ht as [|? ? Hs Hz]. destruct (IH Hs) as [IH1 IH2].
  rewrite List.Forall_app in Hz. destruct Hz as [Hz Hx]. inversion_clear Hx. split; [by constructor|].
  intros y [->|Hy]%elem_of_cons; [done|by apply IH2].
Qed.

Lemma u32_sub_real a b : 0 <= a - b < 2 ^ 32 -> u32_sub (u32 a) (u32 b) = a - b.
Proof.
  intros Hd. unfold u32_sub, u32. rewrite <- Zminus_mod. by apply Z.mod_small.
Qed.

(** ** The invariant of the recogniser while no action is pending *)

(** [cs] are the counted clicks, the last before [t]. *)
Record counting (h : history) (b : Button) (cs : list (Z * Z)) (t : Z) : Prop := {
  co_clicks : clicks h cs;
  co_count : buttonClickCount b = Z.of_nat (length cs);
  co_few : (length cs < 5)%nat;
  co_window : forall c, list.head cs = Some c -> buttonClickWindowStartedAt b = u32 c.2;
  co_before : forall d, list.last cs = Some d -> d.2 <= t
}.

Inductive watching (h : history) (b : Button) : Prop :=
  | watching_start : h = [] -> quiet b -> watching h b
  | watching_up cs t : pendingButtonAction b = NoAction -> buttonHoldActionTriggered b = false ->
      buttonWasPressed b = false -> list.last h = Some (t, false) -> counting h b cs t -> watching h b
  | watching_down cs s t : pendingButtonAction b = NoAction -> buttonHoldActionTriggered b = false ->
      buttonWasPressed b = true -> list.last h = Some (t, true) -> held_since h s ->
      buttonPressedAt b = u32 s -> t - s < CONFIG_EDIT_HOLD_MS -> counting h b cs s -> watching h b.

Lemma no_clicks h b t : buttonClickCount b = 0 -> counting h b [] t.
Proof. intros Hc. constructor; [by repeat constructor|done|simpl; lia|done|done]. Qed.

Lemma clicks_later h x cs : clicks h cs -> clicks (h ++ [x]) cs.
Proof.
  intros [H1 H2 H3]. constructor; [|done|done]. eapply List.Forall_impl; [|exact H1].
  intros c. apply is_click_later.
Qed.

Lemma counting_later h b x cs t t' : t <= t' -> counting h b cs t -> counting (h ++ [x]) b cs t'.
Proof.
  intros Ht [H1 H2 H3 H4 H5]. constructor; [by apply clicks_later|done|done|done|].
  intros d Hd. specialize (H5 d Hd). lia.
Qed.

Lemma held_in h s : held_since h s -> (s, true) ∈ h.
Proof. intros (pre & mid & -> & _). apply elem_of_app. right. left. Qed.

Lemma click_in h c : is_click h c -> (c.2, false) ∈ h.
Proof. intros (b & a & -> & _). apply elem_of_app. right. left. Qed.

Lemma held_more h s t : held_since h s -> held_since (h ++ [(t, true)]) s.
Proof.
  intros (pre & mid & -> & Hm & Hp). exists pre, (mid ++ [(t, true)]). split; [by rewrite <- app_assoc|].
  split; [|done]. apply List.Forall_app. split; [done|by repeat constructor].
Qed.

Lemma first_click_in h cs c : clicks h cs -> list.head cs = Some c -> (c.2, false) ∈ h.
Proof.
  intros [H1 _ _] Hc. destruct cs as [|c' cs]; [done|]. injection Hc as ->.
  inversion_clear H1. by apply click_in.
Qed.

(** ** One sample *)

Lemma counting_same h b b' cs t : buttonClickCount b' = buttonClickCount b ->
  buttonClickWindowStartedAt b' = buttonClickWindowStartedAt b -> counting h b cs t -> counting h b' cs t.
Proof.
  intros E1 E2 [H1 H2 H3 H4 H5]. constructor; [done|by rewrite E1|done| |done].
  intros c Hc. rewrite E2. by apply H4.
Qed.

Lemma one_click h c : is_click h c -> clicks h [c].
Proof.
  intros Hc. constructor; [by repeat constructor|by repeat constructor|].
  intros c1 d1 [= <-] [= <-]. unfold CONFIG_CLICK_WINDOW_MS. lia.
Qed.

Lemma sorted_snoc cs d : StronglySorted (fun c d : Z * Z => c.2 + CONFIG_CLICK_MIN_MS <= d.2) cs ->
  (forall e, list.last cs = Some e -> e.2 + CONFIG_CLICK_MIN_MS <= d.2) ->
  StronglySorted (fun c d : Z * Z => c.2 + CONFIG_CLICK_MIN_MS <= d.2) (cs ++ [d]).
Proof.
  induction 1 as [|c cs Hs IH Hc]; intros Hl; [by repeat constructor|]. cbn [app].
  constructor.
  - apply IH. intros e He. apply Hl. rewrite last_cons, He. done.
  - apply List.Forall_app. split; [done|]. constructor; [|constructor].
    rewrite last_cons in Hl. destruct (list.last cs) as [e|] eqn:El; [|by apply Hl].
    specialize (Hl e eq_refl). apply last_Some_elem_of, list_elem_of_In in El.
    rewrite List.Forall_forall in Hc. specialize (Hc e El). unfold CONFIG_CLICK_MIN_MS in *. lia.
Qed.

(** A click more: it starts a new window, or joins the others, or is the fifth. *)
Lemma count_click_ok h b cs s now : pendingButtonAction b = NoAction -> counting h b cs s ->
  is_click (h ++ [(now, false)]) (s, now) ->
  (forall y, y ∈ h -> 0 <= now - y.1 < 2 ^ 32) ->
  let b' := count_click (u32 now) b in
  buttonWasPressed b' = buttonWasPressed b /\
  ((pendingButtonAction b' = NoAction /\ exists cs', counting (h ++ [(now, false)]) b' cs' now) \/
   (pendingButtonAction b' = FactoryReset /\ gesture (h ++ [(now, false)]) FactoryReset)).
Proof.
  intros Hpend Hco Hclick Htime. set (h' := h ++ [(now, false)]) in *.
  pose proof Hco as [Hc Hn Hf Hw Hb]. pose proof Hclick as (before & after & _ & _ & Hd). cbn [fst snd] in Hd.
  destruct b as [b1 b2 b3 b4 b5 b6]. unfold count_click.
  cbn [pendingButtonAction buttonWasPressed buttonClickCount buttonClickWindowStartedAt] in *.
  assert (Hone : forall b, buttonClickCount b = 1 -> buttonClickWindowStartedAt b = u32 now ->
    counting h' b [(s, now)] now).
  { intros b E1 E2. constructor; [by apply one_click|done|simpl; lia|by intros c [= <-]|].
    intros d [= <-]. simpl. lia. }
  destruct cs as [|c1 cs].
  - cbn [length] in Hn. subst b3. cbn. split; [done|]. left. split; [done|]. exists [(s, now)]. by apply Hone.
  - pose proof (Hw c1 eq_refl) as Hwin.
    pose proof (Htime _ (first_click_in _ _ _ Hc eq_refl)) as Hc1. cbn [fst] in Hc1.
    rewrite Hwin, u32_sub_real by done. rewrite Hn, (proj2 (Z.ltb_lt _ _)) by (simpl; lia). cbn [andb].
    destruct (Z.ltb_spec CONFIG_CLICK_WINDOW_MS (now - c1.2)) as [Hlate|Hin].
    + cbn. split; [done|]. left. split; [done|]. exists [(s, now)]. by apply Hone.
    + set (cs' := (c1 :: cs) ++ [(s, now)]).
    assert (Hcs : clicks h' cs').
      { constructor.
        - apply List.Forall_app. split; [apply (clicks_later _ _ _ Hc)|by repeat constructor].
        - apply sorted_snoc; [apply Hc|]. intros e He. specialize (Hb e He). simpl. lia.
        - intros c d Hcc Hdd. unfold cs' in Hdd. rewrite last_snoc in Hdd. injection Hdd as <-.
          injection Hcc as <-. simpl. lia. }
      assert (Hlen : length cs' = S (length (c1 :: cs))) by (unfold cs'; rewrite length_app; simpl; lia).
      cbn [buttonClickCount]. rewrite (proj2 (Z.eqb_neq _ _)) by (simpl; lia).
      cbv [upd eta_of button_eta]. cbn [buttonClickCount buttonWasPressed buttonPressedAt
        buttonClickWindowStartedAt buttonHoldActionTriggered pendingButtonAction].
      rewrite Z.mod_small by (simpl in Hf; simpl; lia).
      replace (Z.of_nat (length (c1 :: cs)) + 1) with (Z.of_nat (length cs')) by (rewrite Hlen; simpl; lia).
      destruct (Z.leb_spec 5 (Z.of_nat (length cs'))) as [H5|H5]; (split; [done|]); [right|left].
      * split; [done|]. exists cs'. split; [lia|done].
      * split; [done|]. exists cs'. constructor; [done|done|simpl in *; lia| |].
        -- intros c Hcc. injection Hcc as <-. done.
        -- intros d Hdd. unfold cs' in Hdd. rewrite last_snoc in Hdd. injection Hdd as <-. simpl. lia.
Qed.

(** After a sample the recogniser still watches, or the gesture was made. *)
Definition outcome (h : history) (b : Button) : Prop :=
  watching h b \/ (pendingButtonAction b <> NoAction /\ gesture h (pendingButtonAction b)).

Ltac fields := cbn [pendingButtonAction buttonWasPressed buttonClickCount buttonClickWindowStartedAt
  buttonHoldActionTriggered buttonPressedAt upd eta_of button_eta] in *.

Lemma press_begins h b cs t now : pendingButtonAction b = NoAction -> buttonWasPressed b = false ->
  (forall x, list.last h = Some x -> x.2 = false) -> counting h b cs t -> t <= now ->
  outcome (h ++ [(now, true)]) (sampleConfigButton (u32 now) true b).
Proof.
  intros Hp Hw Hup Hco Ht. unfold sampleConfigButton. rewrite Hp, decide_False by (by intros []).
  cbn [negb]. rewrite Hw. cbn [negb]. left.
  apply (watching_down _ _ cs now now); [done|done|done|by rewrite last_snoc| |done| |].
  - by exists h, [].
  - unfold CONFIG_EDIT_HOLD_MS. lia.
  - apply (counting_same _ b); [done|done|]. by apply (counting_later _ _ _ _ t).
Qed.

Lemma press_holds h b cs s t now : watching h b -> pendingButtonAction b = NoAction ->
  buttonHoldActionTriggered b = false -> buttonWasPressed b = true -> held_since h s ->
  buttonPressedAt b = u32 s -> counting h b cs s -> t <= now -> 0 <= now - s < 2 ^ 32 ->
  outcome (h ++ [(now, true)]) (sampleConfigButton (u32 now) true b).
Proof.
  intros Hwa Hp Hh Hw Hs Ha Hco Ht Hd. unfold sampleConfigButton. rewrite Hp, decide_False by (by intros []).
  cbn [negb]. rewrite Hw, Hh, Ha, u32_sub_real by done. cbn [negb andb].
  destruct (Z.leb_spec CONFIG_EDIT_HOLD_MS (now - s)) as [Hlong|Hshort].
  - right. split; [done|]. exists h, s, now. split; [done|]. split; [by apply held_more|done].
  - left. apply (watching_down _ _ cs s now); [done|done|done|by rewrite last_snoc|by apply held_more|done|done|].
    apply (counting_later _ _ _ _ s); [lia|done].
Qed.

Lemma press_ends h b cs s now : pendingButtonAction b = NoAction -> buttonHoldActionTriggered b = false ->
  buttonWasPressed b = true -> held_since h s -> buttonPressedAt b = u32 s -> counting h b cs s ->
  (forall y, y ∈ h -> 0 <= now - y.1 < 2 ^ 32) ->
  outcome (h ++ [(now, false)]) (sampleConfigButton (u32 now) false b).
Proof.
  intros Hp Hh Hw Hs Ha Hco Htime. pose proof (Htime _ (held_in _ _ Hs)) as Hd. cbn [fst] in Hd.
  unfold sampleConfigButton. rewrite Hp, decide_False by (by intros []). cbn [negb].
  rewrite Hw, Ha, u32_sub_real by done.
  set (b1 := b <| buttonWasPressed := false |> <| buttonPressedAt := 0 |>).
  assert (H1 : counting h b1 cs s) by by apply (counting_same _ b).
  change (buttonHoldActionTriggered b1) with (buttonHoldActionTriggered b). rewrite Hh. cbn [negb andb].
  destruct ((CONFIG_CLICK_MIN_MS <=? now - s) && (now - s <? CONFIG_EDIT_HOLD_MS)) eqn:Ed.
  - assert (Hclick : is_click (h ++ [(now, false)]) (s, now)).
    { exists h, []. split; [done|]. split; [done|]. simpl. lia. }
    destruct (count_click_ok h b1 cs s now Hp H1 Hclick Htime) as [Hw1 [[Hp1 [cs' Hc1]]|[Hp1 Hg]]].
    + left. apply (watching_up _ _ cs' now); [exact Hp1|done|exact Hw1|by rewrite last_snoc|].
      by apply (counting_same _ (count_click (u32 now) b1)).
    + right. change (pendingButtonAction ((count_click (u32 now) b1) <| buttonHoldActionTriggered := false |>))
        with (pendingButtonAction (count_click (u32 now) b1)). rewrite Hp1. split; [done|exact Hg].
  - left. apply (watching_up _ _ cs now); [done|done|done|by rewrite last_snoc|].
    apply (counting_same _ b); [done|done|]. apply (counting_later _ _ _ _ s); [lia|done].
Qed.

Lemma stays_up h b cs t now : pendingButtonAction b = NoAction -> buttonHoldActionTriggered b = false ->
  buttonWasPressed b = false -> counting h b cs t -> t <= now -> (forall y, y ∈ h -> 0 <= now - y.1 < 2 ^ 32) ->
  outcome (h ++ [(now, false)]) (sampleConfigButton (u32 now) false b).
Proof.
  intros Hp Hh Hw Hco Ht Htime. unfold sampleConfigButton. rewrite Hp, decide_False by (by intros []).
  cbn [negb]. rewrite Hw. pose proof Hco as [Hc Hn Hf Hwin Hb].
  assert (Hstay : outcome (h ++ [(now, false)]) b).
  { left. apply (watching_up _ _ cs now); [done|done|done|by rewrite last_snoc|].
    by apply (counting_later _ _ _ _ t). }
  destruct (Z.ltb_spec 0 (buttonClickCount b)) as [Hpos|]; [|exact Hstay]. cbn [andb].
  destruct cs as [|c cs]; [simpl in Hn; lia|].
  pose proof (Htime _ (first_click_in _ _ _ Hc eq_refl)) as Hcc. cbn [fst] in Hcc.
  rewrite (Hwin c eq_refl), u32_sub_real by done.
  destruct (Z.ltb_spec CONFIG_CLICK_WINDOW_MS (now - c.2)) as [Hlate|]; [|exact Hstay].
  destruct (Z.eqb_spec (buttonClickCount b) 3) as [E3|].
  - right. split; [done|]. exists (c :: cs), c, h, now. split; [lia|]. split; [by apply clicks_later|]. done.
  - left. apply (watching_up _ _ [] now); [done|done|done|by rewrite last_snoc|by apply no_clicks].
Qed.

Lemma watching_step h b x : watching h b -> timely (h ++ [x]) ->
  outcome (h ++ [x]) (sampleConfigButton (u32 x.1) x.2 b).
Proof.
  intros Hwa [Ht Htime]%timely_snoc. destruct x as [now p]. cbn [fst snd] in *.
  pose proof Hwa as Hwa'.
  destruct Hwa as [-> (Q1 & Q2 & Q3 & Q4)|cs t Hp Hh Hw Hl Hco|cs s t Hp Hh Hw Hl Hs Ha Hd Hco].
  - pose proof (no_clicks [] b now Q3) as Hco. destruct p.
    + apply (press_begins [] b [] now); try done.
    + apply (stays_up [] b [] now); try done.
  - pose proof (Htime (t, false) (last_Some_elem_of _ _ Hl)) as Htn. cbn [fst] in Htn. destruct p.
    + apply (press_begins h b cs t); try done; [|lia]. rewrite Hl. by intros x [= <-].
    + apply (stays_up h b cs t); try done. lia.
  - pose proof (Htime (t, true) (last_Some_elem_of _ _ Hl)) as Htn. cbn [fst] in Htn. destruct p.
    + apply (press_holds h b cs s t); try done; [lia|]. apply (Htime _ (held_in _ _ Hs)).
    + by apply (press_ends h b cs s).
Qed.

(** A pending action stays until it is acted on. *)
Lemma pending_stays now p b : pendingButtonAction b <> NoAction -> sampleConfigButton now p b = b.
Proof. intros Hp. unfold sampleConfigButton. by rewrite decide_True. Qed.

Lemma watching_run h : forall b, quiet b -> timely h -> watching h (run_samples h b) \/
  exists h1 h2, h = h1 ++ h2 /\ pendingButtonAction (run_samples h b) <> NoAction /\
    gesture h1 (pendingButtonAction (run_samples h b)).
Proof.
  induction h as [|x h IH] using rev_ind; intros b Hq Ht; [left; by apply watching_start|].
  rewrite run_samples_snoc. destruct (timely_snoc _ _ Ht) as [Hth _].
  destruct (IH b Hq Hth) as [Hwa|(h1 & h2 & -> & Hp & Hg)].
  - destruct (watching_step _ _ _ Hwa Ht) as [Hw|[Hp Hg]]; [by left|right].
    exists (h ++ [x]), []. by rewrite app_nil_r.
  - right. rewrite pending_stays by done. exists h1, (h2 ++ [x]). split; [by rewrite app_assoc|done].
Qed.

(** C27: A gesture is recognised only when it was made, wherever the clock wraps: a
    factory reset needs five clicks of 40 ms to 4 s within three seconds, a WiFi reset
    three within that window and the button up when it is over, the settings open when
    the button was held for four seconds. *)
Theorem gestures_sound (h : history) (b : Button) : quiet b -> timely h ->
  pendingButtonAction (run_samples h b) <> NoAction ->
  exists h1 h2, h = h1 ++ h2 /\ gesture h1 (pendingButtonAction (run_samples h b)).
Proof.
  intros Hq Ht Hp. destruct (watching_run h b Hq Ht) as [Hw|(h1 & h2 & E & _ & Hg)].
  - destruct Hw as [-> (Q1 & _)|? ? Hn|? ? ? Hn]; [by cbn in Hp|done..].
  - by exists h1, h2.
Qed.

(** Samples every 20 ms: the pin at the given lengths of time, in turn down and up. *)
Fixpoint presses (t : Z) (durations : list nat) (p : bool) : history :=
  match durations with
  | [] => []
  | n :: ds => ((fun k => (t + 20 * Z.of_nat k, p)) <$> seq 0 n) ++ presses (t + 20 * Z.of_nat n) ds (negb p)
  end.

(** Just before the clock wraps. *)
Definition demo_start : Z := 2 ^ 32 - 300.

Definition five_clicks : history := presses demo_start [5; 10; 5; 10; 5; 10; 5; 10; 5; 1]%nat true.

Fixpoint timely_check (h : history) : bool :=
  match h with
  | [] => true
  | x :: h' => forallb (fun y => (0 <=? y.1 - x.1) && (y.1 - x.1 <? 2 ^ 32)) h' && timely_check h'
  end.

Lemma timely_check_ok h : timely_check h = true -> timely h.
Proof.
  induction h as [|x h IH]; intros Hc; [constructor|]. cbn [timely_check] in Hc.
  apply andb_prop in Hc as [Hx Hh]. constructor; [by apply IH|].
  apply List.Forall_forall. intros y Hy. rewrite forallb_forall in Hx. specialize (Hx y Hy). lia.
Qed.

Lemma five_clicks_timely : timely five_clicks.
Proof. apply timely_check_ok. by vm_compute. Qed.

Lemma gestures_sound_witness : pendingButtonAction (run_samples five_clicks idle_button) = FactoryReset /\
  exists h1 h2, five_clicks = h1 ++ h2 /\
    gesture h1 (pendingButtonAction (run_samples five_clicks idle_button)).
Proof.
  assert (E : pendingButtonAction (run_samples five_clicks idle_button) = FactoryReset) by by vm_compute.
  split; [exact E|]. apply (gestures_sound five_clicks idle_button); [by repeat split|apply five_clicks_timely|].
  rewrite E. discriminate.
Defined.

Example three_clicks : pendingButtonAction (run_samples
  (presses demo_start [5; 10; 5; 10; 5; 160]%nat true) idle_button) = WifiReset.
Proof. by vm_compute. Qed.

Example four_clicks : quiet (run_samples
  (presses demo_start [5; 10; 5; 10; 5; 10; 5; 160]%nat true) idle_button).
Proof. by vm_compute. Qed.

Example long_hold : pendingButtonAction (run_samples (presses demo_start [201]%nat true) idle_button) = Edit.
Proof. by vm_compute. Qed.

(** ** What the actions leave behind *)

(** The files of the device: settings, key pair, requests, and what it keeps for the
    control centre (all it writes but the marker of minis_public_key_upload.cpp, a tag
    of the key pair whose report has been sent). *)
Definition settings_files : list path := ["/esp32tun.cfg"; "/esp32tun.cfg.tmp"; "/esp32tun.cfg.bak"]%string.
Definition key_pair_files : list path :=
  ["/esp32tun_ssh_key"; "/esp32tun_ssh_key.tmp"; "/esp32tun_ssh_key.pub"; "/esp32tun_ssh_key.pub.tmp"]%string.
Definition request_files : list path := ["/esp32tun.edit"; "/esp32tun.wifi_reset"]%string.
Definition control_files : list path :=
  ["/minis.cfg"; "/minis.cfg.tmp"; "/minis.cfg.bak"; "/minis.cfg_applied_notice"]%string.
Definition device_files : list path := settings_files ++ key_pair_files ++ request_files ++ control_files.

Section Actions.
Context {F : Type} `{FileSystemLaws F}.
Implicit Types (f g : F) (log : list F).

(** Removing a list of files leaves the others as they are. *)
Lemma wp_remove_others ps : forall f log,
  wp (for_each ps removeIfExists) (fun _ s => forall p, p ∉ ps -> fs_read p s.1 = fs_read p f) (f, log).
Proof.
  induction ps as [|p ps IH]; intros f log; [by apply wp_ret|].
  cbn [for_each]. apply wp_bind, wp_removeIfExists. intros g log' E _ _.
  eapply wp_conseq; [apply IH|]. intros u s Hps q [Hq1 Hq2]%not_elem_of_cons. rewrite Hps by done. by apply E.
Qed.

(** A file that is not there does not appear. *)
Lemma wp_stays_removed p ps : forall f log, fs_read p f = None ->
  wp (for_each ps removeIfExists) (fun _ s => fs_read p s.1 = None) (f, log).
Proof.
  induction ps as [|q ps IH]; intros f log Hp; [by apply wp_ret|].
  cbn [for_each]. apply wp_bind, wp_removeIfExists. intros g log' E En _. apply IH.
  destruct (decide (p = q)) as [->|Hne]; [by apply En|by rewrite E].
Qed.

(** Each file of the list is gone where it can be removed. *)
Lemma under_remove_all p ps : p ∈ ps -> forall f log,
  under (removes p) (for_each ps removeIfExists) (fun _ s => fs_read p s.1 = None) (f, log).
Proof.
  induction ps as [|q ps IH]; [by intros ?%elem_of_nil|]. intros Hp f log. cbn [for_each].
  apply under_bind; [apply _..|]. destruct (decide (p = q)) as [->|Hne].
  - apply under_remove; [done|]. intros g log' En _ _. by apply under_wp, wp_stays_removed.
  - apply under_wp, wp_removeIfExists. intros g log' _ _ _. apply IH. by apply elem_of_cons in Hp as [?|?].
Qed.

Lemma no_config f log : (forall p, p ∈ settings_files -> fs_read p f = None) ->
  (loadConfig default_device (f, log)).1 = (false, default_device).
Proof.
  intros Hs. unfold loadConfig, recover_config, bind, exists_file, read_file, gets, when, ret. cbn [fst snd].
  assert (E1 : fs_read CONFIG_PATH f = None) by (apply Hs; left).
  assert (E2 : fs_read CONFIG_BACKUP f = None) by (apply Hs; do 2 right; left).
  rewrite E1, E2. cbn [negb andb fst snd]. by rewrite E1.
Qed.

Lemma no_keys f log old : (forall p, p ∈ key_pair_files -> fs_read p f = None) ->
  (loadKeys old (f, log)).1 = (false, old) /\ (loadExisting (f, log)).1 = None.
Proof.
  intros Hs. unfold loadKeys, loadExisting, bind, read_file, gets, ret. cbn [fst snd].
  assert (E1 : fs_read KEY_PATH f = None) by (apply Hs; left). by rewrite E1.
Qed.

Lemma no_requests f log : (forall p, p ∈ request_files -> fs_read p f = None) -> (requests (f, log)).1 = (false, false).
Proof.
  intros Hs. unfold requests, bind, exists_file, gets, ret. cbn [fst snd].
  by rewrite (Hs EDIT_REQUEST_PATH), (Hs WIFI_RESET_REQUEST_PATH) by (unfold request_files; set_solver).
Qed.

(** C28: A factory reset (the WiFi stack forgets its credentials, the device restarts)
    removes every file of the device ([device_files], by name) that the storage does
    not refuse to remove in a state of the run, and touches no other.  Where nothing is
    refused, the device is like new: the next start finds no configuration, no key
    pair (neither the portal's nor the firmware's own reader does) and no request. *)
Theorem factory_reset_complete sample (b : Button) f f' log' r :
  pendingButtonAction b = FactoryReset -> pollConfigResetButton sample b (f, []) = (r, (f', log')) ->
  r = Restarts true /\
  (forall p, p ∉ device_files -> fs_read p f' = fs_read p f) /\
  (forall p, p ∈ device_files -> Forall (removes p) (f :: log') -> fs_read p f' = None) /\
  ((forall p, p ∈ device_files -> Forall (removes p) (f :: log')) -> forall log'' old,
     (loadConfig default_device (f', log'')).1 = (false, default_device) /\
     (loadKeys old (f', log'')).1 = (false, old) /\ (loadExisting (f', log'')).1 = None /\
     (requests (f', log'')).1 = (false, false)).
Proof.
  intros Hb. unfold pollConfigResetButton.
  assert ((match sample with Some (now, pressed) => sampleConfigButton now pressed b | None => b end) = b) as ->
    by (destruct sample as [[now p]|]; [apply pending_stays; by rewrite Hb|done]).
  unfold perform_action. rewrite Hb. unfold bind, ret.
  destruct (for_each factory_files removeIfExists (f, [])) as [u s] eqn:Er. intros [= <- ->].
  assert (Hall : forall p, p ∈ device_files -> Forall (removes p) (f :: log') -> fs_read p f' = None).
  { intros p Hp HF. by apply (under_run _ _ _ _ _ _ _ (under_remove_all p factory_files Hp f []) Er). }
  split; [done|]. split; [exact (wp_run _ _ _ _ _ (wp_remove_others factory_files f []) Er)|]. split; [exact Hall|].
  intros HF log'' old. split_and!.
  - apply no_config. intros p Hp. apply Hall; [|apply HF]; by apply elem_of_app; left.
  - apply no_keys. intros p Hp. apply Hall; [|apply HF]; set_solver.
  - apply (no_keys f' log'' old). intros p Hp. apply Hall; [|apply HF]; set_solver.
  - apply no_requests. intros p Hp. apply Hall; [|apply HF]; set_solver.
Qed.

(** A request survives the restart: the next start sees it. *)
Lemma request_kept (b : Button) f r s :
  perform_action b (f, []) = (r, s) -> r <> GoesOn b -> r <> GoesOn idle_button ->
  (forall p, Forall (removes p) (f :: s.2)) ->
  match pendingButtonAction b with
  | Edit => (requests s).1.1 = true
  | WifiReset => (requests s).1 = (false, true)
  | FactoryReset => (requests s).1 = (false, false)
  | NoAction => False
  end.
Proof.
  unfold perform_action. destruct (pendingButtonAction b).
  - by intros [= <- <-].
  - unfold bind at 1, act. cbn [fst snd]. destruct (fs_write _ _ f) as [[n|] g] eqn:E; [|by intros [= <- <-]].
    destruct (write_ok _ _ _ _ _ E) as [E1 _].
    assert (Hwp : under (removes EDIT_REQUEST_PATH) (removeIfExists EDIT_REQUEST_PATH) (fun _ s =>
      fs_read EDIT_REQUEST_PATH s.1 = None /\
      fs_read WIFI_RESET_REQUEST_PATH s.1 = Some (take n (bytes "1"))) (g, [g])).
    { apply under_remove; [done|]. intros h log' En Eo _. split; [done|]. cbn [fst]. by rewrite Eo. }
    unfold bind. destruct (removeIfExists _ _) as [u s'] eqn:Er. intros [= <- <-] _ _ HF.
    specialize (HF EDIT_REQUEST_PATH). inversion HF as [|? ? _ HF2]; subst. unfold under in Hwp. rewrite Er in Hwp.
    destruct (logs_remove EDIT_REQUEST_PATH (g, [g])) as (l & El & _). rewrite Er in El. cbn [fst snd] in *.
    destruct (Hwp ltac:(rewrite El in HF2; apply List.Forall_app in HF2 as [_ HF3]; by inversion HF3) HF2) as [W1 W2].
    unfold requests, bind, exists_file, gets, ret. cbn [fst snd]. by rewrite W1, W2.
  - unfold bind, act. cbn [fst snd]. destruct (fs_write _ _ f) as [[n|] g] eqn:E; [|by intros [= <- <-]].
    destruct (write_ok _ _ _ _ _ E) as [E1 _]. intros [= <- <-] _ _ _.
    unfold requests, bind, exists_file, gets, ret. cbn [fst snd]. by rewrite E1.
  - unfold bind. destruct (for_each factory_files removeIfExists (f, [])) as [u s'] eqn:Er.
    intros [= <- <-] _ _ HF. destruct s' as [f' log']. apply no_requests. intros p Hp.
    apply (under_run _ _ _ _ _ _ _ (under_remove_all p factory_files ltac:(set_solver) f []) Er), HF.
Qed.

End Actions.

Lemma factory_reset_complete_witness :
  let b := run_samples five_clicks idle_button in
  let run := pollConfigResetButton None b (mkPlain demo_files, []) in
  fs_read KEY_PATH (mkPlain demo_files) = Some demo_key /\
  run.1 = Restarts true /\ (forall p, p ∉ device_files -> fs_read p run.2.1 = fs_read p (mkPlain demo_files)) /\
  (loadConfig default_device (run.2.1, [])).1 = (false, default_device) /\
  (loadExisting (run.2.1, [])).1 = None.
Proof.
  intros b run. split; [by vm_compute|].
  assert (Hb : pendingButtonAction b = FactoryReset) by by vm_compute.
  destruct (factory_reset_complete None b (mkPlain demo_files) run.2.1 run.2.2 run.1 Hb) as (H1 & H2 & _ & H4);
    [destruct run as [? [? ?]] eqn:E; exact E|].
  destruct (H4 (fun p _ => proj2 (Forall_forall _ _) (fun g _ => sv_removes g (plain_serves g) p)) [] ([], [])) as (H5 & _ & H6 & _).
  exact (conj H1 (conj H2 (conj H5 H6))).
Defined.

(** ** The LED *)

Definition led_off : Led := mkLed Booting 0 0 false false false false.

(** The calls of the three functions. *)
Inductive led_call := LedBegin (now : Z) | LedSet (s : LedState) (now : Z) | LedUpdate (now : Z).

Definition led_step (active_low : bool) (l : Led) (c : led_call) : Led :=
  match c with
  | LedBegin now => if initialized l then l else led_begin active_low now l
  | LedSet s now => led_set active_low s now l
  | LedUpdate now => led_update active_low now l
  end.

(** The pin is at the level of the pattern at the last update. *)
Definition shows_pattern (active_low : bool) (l : Led) : Prop :=
  let on := outputFor (currentState l) (u32_sub (lastUpdateAt l) (stateStartedAt l)) in
  lastOutput l = on /\ outputKnown l = true /\ pin_high l = negb (Bool.eqb on active_low).

Definition led_ok (active_low : bool) (l : Led) : Prop :=
  if initialized l then shows_pattern active_low l else l = led_off.

Lemma writeOutput_shows active_low on l : (outputKnown l = true -> pin_high l = negb (Bool.eqb (lastOutput l) active_low)) ->
  let l' := writeOutput active_low on l in
  lastOutput l' = on /\ outputKnown l' = true /\ pin_high l' = negb (Bool.eqb on active_low) /\
  currentState l' = currentState l /\ lastUpdateAt l' = lastUpdateAt l /\
  stateStartedAt l' = stateStartedAt l /\ initialized l' = initialized l.
Proof.
  intros Hl. unfold writeOutput. destruct l as [s a u i k o p]; cbn in *.
  destruct k; cbn; [|done]. destruct on, o; cbn; rewrite ?Hl; done.
Qed.

Lemma led_step_ok active_low l c : led_ok active_low l -> led_ok active_low (led_step active_low l c).
Proof.
  assert (Hwrite : forall l0 on, (outputKnown l0 = true -> pin_high l0 = negb (Bool.eqb (lastOutput l0) active_low)) ->
    initialized l0 = true -> on = outputFor (currentState l0) (u32_sub (lastUpdateAt l0) (stateStartedAt l0)) ->
    led_ok active_low (writeOutput active_low on l0)).
  { intros l0 on Hk Hi Hon. destruct (writeOutput_shows active_low on l0 Hk) as (W1 & W2 & W3 & W4 & W5 & W6 & W7).
    unfold led_ok, shows_pattern. rewrite W7, Hi, W4, W5, W6, <- Hon. done. }
  intros Hl. pose proof Hl as Hl'. unfold led_ok in Hl'. unfold led_step.
  destruct c as [now|s now|now]; destruct (initialized l) eqn:Ei.
  - exact Hl.
  - subst l. by apply Hwrite.
  - unfold led_set. rewrite Ei. cbn [negb orb]. destruct (bool_decide _); [exact Hl|].
    destruct Hl' as (H1 & H2 & H3). apply Hwrite; [intros _; cbn; rewrite H1; exact H3|exact Ei|].
    cbn. unfold u32_sub. by rewrite Z.sub_diag.
  - unfold led_set. by rewrite Ei.
  - unfold led_update. rewrite Ei. cbn [negb]. destruct (_ <? _); [exact Hl|].
    destruct Hl' as (H1 & H2 & H3). apply Hwrite; [intros _; cbn; rewrite H1; exact H3|exact Ei|done].
  - unfold led_update. by rewrite Ei.
Qed.

(** Whatever calls are made, the pin shows the pattern of the state, at its time
    since the state was set, as of the last update. *)
Theorem led_shows_pattern active_low (cs : list led_call) :
  let l := fold_left (led_step active_low) cs led_off in
  initialized l = true -> shows_pattern active_low l.
Proof.
  intros l Hi. assert (Hok : led_ok active_low l).
  { unfold l. clear l Hi. assert (H0 : led_ok active_low led_off) by done. revert H0. generalize led_off.
    induction cs as [|c cs IH]; intros l0 H0; [exact H0|]. cbn [fold_left]. by apply IH, led_step_ok. }
  unfold led_ok in Hok. by rewrite Hi in Hok.
Qed.
