(* ===== verification/MinisHttp.v ===== *)
(** * The requests to the control centre (examples/src/minis_registration.cpp)

    The firmware fetches its configuration with a small HTTP client of its own:
    [performGet] reads the status line, the headers and the body from the
    connection into arrays, [refreshConfig] hands the body to the parser of
    ManagedConfig.v.  As in HttpDiag.v arrays are lists of bytes and [None] is an
    access outside them.

    What arrives on the connection is a list of bytes and of pauses long enough
    for a read to time out; behind its end the connection is closed. *)

From S2P Require Import Prelude HttpDiag ManagedConfig Provisioning.

#[local] Open Scope nat_scope.

(** ** The device *)

Definition MINIS_TIMEOUT_MS : Z := 5000.
Definition CONFIG_BUFFER_SIZE : nat := 768.
Definition MINIS_TLS_MIN_LARGEST_BLOCK : Z := 31 * 1024.
Definition MINIS_TLS_MIN_FREE_HEAP : Z := 70 * 1024.

(** A hexadecimal digit in lower case, of ["%08x"]. *)
Definition hex_lower (n : Z) : byte := byte_of (Z.to_N (if (n <? 10)%Z then 48 + n else 97 + n - 10)).

Definition buildSid (chipId : Z) : list byte :=
  let shortId := Z.land chipId (2 ^ 32 - 1) in
  (fun k => hex_lower (Z.land (Z.shiftr shortId (4 * k)) 15)) <$> [7; 6; 5; 4; 3; 2; 1; 0]%Z.

(** [tlsMemoryAvailable], given the heap. *)
Definition tlsMemoryAvailable (freeHeap largestBlock : Z) : bool :=
  if (freeHeap <? MINIS_TLS_MIN_FREE_HEAP)%Z then false
  else if (largestBlock <? MINIS_TLS_MIN_LARGEST_BLOCK)%Z then false else true.

(** ** Reading from the connection *)

Inductive arrival := Arrives (b : byte) | Pause.

Abbreviation stream := (list arrival).

(** [timedRead()]: a byte, or nothing after the timeout. *)
Definition timedRead (s : stream) : option byte * stream :=
  match s with
  | [] => (None, [])
  | Arrives b :: s' => (Some b, s')
  | Pause :: s' => (None, s')
  end.

(** [readBytesUntil(terminator, buffer, n)]: the terminator is read, but it is left
    where it is when the buffer is full. *)
Fixpoint readBytesUntil (terminator : byte) (n : nat) (s : stream) : list byte * stream :=
  match n with
  | O => ([], s)
  | S n' =>
      match s with
      | [] => ([], [])
      | Pause :: s' => ([], s')
      | Arrives b :: s' =>
          if Byte.eqb b terminator then ([], s')
          else let '(bs, s'') := readBytesUntil terminator n' s' in (b :: bs, s'')
      end
  end.

(** [readBytes(buffer, n)] *)
Fixpoint readBytes (n : nat) (s : stream) : list byte * stream :=
  match n with
  | O => ([], s)
  | S n' =>
      match s with
      | [] => ([], [])
      | Pause :: s' => ([], s')
      | Arrives b :: s' => let '(bs, s'') := readBytes n' s' in (b :: bs, s'')
      end
  end.

(** ** The status line *)

(** The search for the first space in the first [length] bytes, from [i] on. *)
Fixpoint find_space (n : nat) (line : list byte) (i : nat) : option (option nat) :=
  match n with
  | O => Some None
  | S n' => x ← line !! i; if Byte.eqb x SP then Some (Some i) else find_space n' line (S i)
  end.

Definition parseHttpStatus (line : list byte) (length : nat) : option Z :=
  separator ← find_space length line 0;
  match separator with
  | None => Some (-1)%Z
  | Some p =>
      if length <=? p + 3 then Some (-1)%Z else
      a ← line !! (p + 1); b ← line !! (p + 2); c ← line !! (p + 3);
      Some (if negb (isdigit a && isdigit b && isdigit c) then (-1)%Z
            else (digit_value a * 100 + digit_value b * 10 + digit_value c)%Z)
  end.

(** ** The request *)

Definition LINE_SIZE : nat := 96.
Definition CONTENT_LENGTH_HEADER : list byte := bytes "Content-Length:".
Definition INT_MAX : Z := 2 ^ 31 - 1.

(** The array [line], cleared, with what was read. *)
Definition line_array (bs : list byte) : option (list byte) := store (zeros LINE_SIZE) 0 bs.

(** What one header line does to [contentLength]. *)
Definition header_line (line : list byte) (contentLength : Z) : option Z :=
  same ← strncmp_eq line 0 CONTENT_LENGTH_HEADER;
  if negb same then Some contentLength else
  value ← skip_while (fuel_of line) is_blank line (length CONTENT_LENGTH_HEADER);
  r ← parseUnsigned line value;
  Some (match r with
        | Some n => if (n <=? INT_MAX)%Z then s32 n else contentLength
        | None => contentLength
        end).

(** The loop over the headers: [contentLength] and the rest of the stream. *)
Fixpoint header_loop (fuel : nat) (s : stream) (contentLength : Z) : option (Z * stream) :=
  match fuel with
  | O => None
  | S fuel' =>
      let '(bs, s) := readBytesUntil LF (LINE_SIZE - 1) s in
      line ← line_array bs;
      x ← line !! 0;
      if (length bs =? 0) || ((length bs =? 1) && Byte.eqb x CR) then Some (contentLength, s)
      else contentLength ← header_line line contentLength; header_loop fuel' s contentLength
  end.

(** The body without a [Content-Length]: read until the connection is closed or
    pauses. *)
Fixpoint body_loop (s : stream) (response : list byte) (used : nat) (complete : bool)
  : option (list byte * nat * bool) :=
  match s with
  | [] => Some (response, used, complete)
  | Pause :: _ => Some (response, used, false)
  | Arrives b :: s' =>
      if used + 1 <? length response
      then response ← store response used [b]; body_loop s' response (used + 1) complete
      else body_loop s' response used false
  end.

(** What a request meets: the heap, whether the server can be reached, and what it
    sends. *)
Record Server := mkServer {
  sv_freeHeap : Z;
  sv_largestBlock : Z;
  sv_connects : bool;
  sv_answer : stream
}.

(** [performGet(suffix, response, ...)]: the status, the array and
    [responseLength]; no array is a null pointer. *)
Definition performGet (sv : Server) (response : option (list byte)) : option (Z * list byte * nat) :=
  let array := default [] response in
  if negb (tlsMemoryAvailable (sv_freeHeap sv) (sv_largestBlock sv)) then Some ((-2)%Z, array, 0) else
  if negb (sv_connects sv) then Some ((-1)%Z, array, 0) else
  let '(bs, s) := readBytesUntil LF (LINE_SIZE - 1) (sv_answer sv) in
  line ← line_array bs;
  status ← parseHttpStatus line (length bs);
  match response with
  | None => Some (status, [], 0)
  | Some response =>
      if (status <? 0)%Z || (length response <? 2) || negb (status =? 200)%Z
      then Some (status, response, 0) else
      '(contentLength, s) ← header_loop (S (length s)) s (-1)%Z;
      '(response, used, complete) ←
        (if (0 <=? contentLength)%Z then
           if (Z.of_nat (length response) <=? contentLength)%Z then Some (response, 0, false)
           else let '(bs, _) := readBytes (Z.to_nat contentLength) s in
                response ← store response 0 bs;
                Some (response, length bs, (Z.of_nat (length bs) =? contentLength)%Z)
         else body_loop s response 0 true);
      if negb complete then Some ((-1)%Z, response, 0) else
      response ← store response used [NUL];
      Some (status, response, used)
  end.

Definition sendBootstrap (wifi : bool) (sv : Server) : option bool :=
  if negb wifi then Some false else
  '(status, _, _) ← performGet sv None;
  Some (0 <? status)%Z.

(** [refreshConfig] without the heartbeat interval it stores: the interval and the
    configuration for the main task, when there are any. *)
Definition refreshConfig (wifi : bool) (sv : Server) : option (option (Z * ManagedTunnelConfig)) :=
  if negb wifi then Some None else
  '(status, config, configLength) ← performGet sv (Some (zeros CONFIG_BUFFER_SIZE));
  if negb (status =? 200)%Z then Some None else
  if configLength =? 0 then Some None else receive_config config.

(** ** The heartbeat *)

(** [nextHeartbeatDelaySeconds], given [esp_random()]. *)
Definition nextHeartbeatDelaySeconds (heartbeatIntervalMin random : Z) : Z :=
  let baseSeconds := u32 (heartbeatIntervalMin * 60) in
  let jitterSeconds := (random mod u32 (baseSeconds + 1))%Z in
  u32 (baseSeconds + jitterSeconds).

(** The inner loop of [heartbeatTask]: each round takes some ticks; [None] when the
    list of rounds ends before the loop. *)
Fixpoint heartbeat_wait (heartbeatRemaining : Z) (rounds : list Z) : option (list Z) :=
  if (heartbeatRemaining <=? 0)%Z then Some rounds else
  match rounds with
  | [] => None
  | elapsed :: rounds' =>
      heartbeat_wait (if (heartbeatRemaining <=? elapsed)%Z then 0 else u32_sub heartbeatRemaining elapsed)
        rounds'
  end.
