(* ===== verification/MinisHttpFacts.v ===== *)
(** * The requests to the control centre: proofs

    Whatever the server sends, a request stays inside its arrays and ends
    ([refresh_safe]); a text that is served properly reaches the main task as the
    reference reads it ([refreshed_config]). *)

From S2P Require Import Prelude HttpDiag HttpDiagFacts ManagedConfig ManagedConfigFacts.
From S2P Require Import Provisioning ProvisioningFacts IdentityFacts MinisHttp.

#[local] Open Scope nat_scope.

(** ** Reading *)

Lemma readBytesUntil_length c n : forall s bs s', readBytesUntil c n s = (bs, s') ->
  length bs <= n /\ length bs + length s' <= length s.
Proof.
  induction n as [|n IH]; intros s bs s' E; cbn [readBytesUntil] in E.
  - injection E as <- <-. simpl. lia.
  - destruct s as [|[b|] s]; [injection E as <- <-; simpl; lia| |injection E as <- <-; simpl; lia].
    destruct (Byte.eqb b c); [injection E as <- <-; simpl; lia|].
    destruct (readBytesUntil c n s) as [bs1 s1] eqn:E1. injection E as <- <-.
    destruct (IH _ _ _ E1). simpl. lia.
Qed.

Lemma readBytesUntil_line c n l t : c ∉ l -> length l < n ->
  readBytesUntil c n (Arrives <$> (l ++ c :: t)) = (l, Arrives <$> t).
Proof.
  revert n. induction l as [|b l IH]; intros n Hl Hn; (destruct n as [|n]; [simpl in Hn; lia|]);
    cbn [app fmap list_fmap readBytesUntil].
  - by rewrite Byte.byte_dec_lb.
  - apply not_elem_of_cons in Hl as [Hb Hl]. destruct (eqb_spec b c); [by subst|].
    rewrite IH by (done || simpl in Hn; lia). done.
Qed.

Lemma readBytes_length n : forall s bs s', readBytes n s = (bs, s') -> length bs <= n.
Proof.
  induction n as [|n IH]; intros s bs s' E; cbn [readBytes] in E; [injection E as <- <-; simpl; lia|].
  destruct s as [|[b|] s]; [injection E as <- <-; simpl; lia| |injection E as <- <-; simpl; lia].
  destruct (readBytes n s) as [bs1 s1] eqn:E1. injection E as <- <-. apply IH in E1. simpl. lia.
Qed.

Lemma readBytes_all l t : readBytes (length l) (Arrives <$> (l ++ t)) = (l, Arrives <$> t).
Proof. induction l as [|b l IH]; [done|]. cbn [length app fmap list_fmap readBytes]. by rewrite IH. Qed.

Lemma store_prefix n bs : length bs <= n -> store (zeros n) 0 bs = Some (bs ++ zeros (n - length bs)).
Proof.
  intros Hl. pose proof (store_inside [] (zeros (length bs)) (zeros (n - length bs)) bs
    (length_replicate _ _)) as E. cbn [app length] in E. by rewrite <- zeros_split in E.
Qed.

Lemma line_array_ok bs : length bs <= 95 ->
  line_array bs = Some (bs ++ NUL :: zeros (95 - length bs)).
Proof.
  intros Hl. unfold line_array, LINE_SIZE. rewrite store_prefix by lia.
  by replace (96 - length bs) with (S (95 - length bs)) by lia.
Qed.

(** The C string in a line array. *)
Lemma line_string bs t : exists s, str_at (bs ++ NUL :: t) 0 s /\ s = take_while not_nul bs.
Proof.
  exists (take_while not_nul bs). split; [|done]. unfold str_at. rewrite drop_0.
  induction bs as [|b bs IH]; [done|]. cbn [app c_string take_while].
  change (not_nul b) with (negb (Byte.eqb b NUL)).
  destruct (Byte.eqb b NUL); [done|]. cbn [negb]. by rewrite IH.
Qed.

(** ** The status line *)

Lemma find_space_total line n : forall i, i + n <= length line -> exists r,
  find_space n line i = Some r /\ forall p, r = Some p -> i <= p < i + n.
Proof.
  induction n as [|n IH]; intros i Hi; cbn [find_space]; [by exists None|].
  destruct (line !! i) as [x|] eqn:E; [|apply lookup_ge_None in E; lia]. cbn [mbind option_bind].
  destruct (Byte.eqb x SP).
  - exists (Some i). split; [done|]. intros p [= <-]. lia.
  - destruct (IH (S i)) as (r & -> & Hr); [lia|]. exists r. split; [done|]. intros p Hp.
    specialize (Hr p Hp). lia.
Qed.

Lemma parseHttpStatus_total line n : n <= length line -> exists z, parseHttpStatus line n = Some z.
Proof.
  intros Hn. unfold parseHttpStatus. destruct (find_space_total line n 0 Hn) as (r & -> & Hr).
  cbn [mbind option_bind]. destruct r as [p|]; [|by eexists].
  destruct (Nat.leb_spec n (p + 3)); [by eexists|].
  destruct (lookup_lt_is_Some_2 line (p + 1)) as [a ->]; [lia|].
  destruct (lookup_lt_is_Some_2 line (p + 2)) as [b ->]; [lia|].
  destruct (lookup_lt_is_Some_2 line (p + 3)) as [c ->]; [lia|]. by eexists.
Qed.

Lemma find_space_first l t : SP ∉ l -> forall i pre, i = length pre ->
  find_space (S (length l)) (pre ++ l ++ SP :: t) i = Some (Some (i + length l)).
Proof.
  induction l as [|b l IH]; intros Hl i pre ->.
  - cbn [find_space app length]. rewrite list_lookup_middle by done. cbn [mbind option_bind].
    by rewrite Nat.add_0_r.
  - apply not_elem_of_cons in Hl as [Hb Hl]. cbn [length app].
    change (find_space (S (S (length l))) ?m ?i) with
      (x ← m !! i; if Byte.eqb x SP then Some (Some i) else find_space (S (length l)) m (S i)).
    rewrite list_lookup_middle by done. cbn [mbind option_bind]. destruct (eqb_spec b SP); [by subst|].
    change (b :: l ++ SP :: t) with ([b] ++ l ++ SP :: t). rewrite app_assoc.
    rewrite (IH Hl (S (length pre)) (pre ++ [b])) by (rewrite length_app; simpl; lia).
    do 2 f_equal. lia.
Qed.

(** ** The headers *)

(** What a header line comes to, on its text up to the first NUL. *)
Definition header_value (s : list byte) (contentLength : Z) : Z :=
  if bool_decide (take (length CONTENT_LENGTH_HEADER) s = CONTENT_LENGTH_HEADER) then
    match number_value (drop_while is_blank (drop (length CONTENT_LENGTH_HEADER) s)) with
    | Some n => if (n <=? INT_MAX)%Z then s32 n else contentLength
    | None => contentLength
    end
  else contentLength.

Lemma header_line_value line s cl : str_at line 0 s -> header_line line cl = Some (header_value s cl).
Proof.
  intros Hs. unfold header_line, header_value.
  rewrite (strncmp_eq_prefix line CONTENT_LENGTH_HEADER) with (s := s); [|by apply index_None|done].
  cbn [mbind option_bind]. destruct (bool_decide_reflect
    (take (length CONTENT_LENGTH_HEADER) s = CONTENT_LENGTH_HEADER)) as [Ep|]; cbn [negb]; [|done].
  assert (Hl : length CONTENT_LENGTH_HEADER <= length s).
  { apply (f_equal length) in Ep. rewrite length_take in Ep. lia. }
  pose proof (str_at_skip line 0 s _ Hs Hl) as Hv. cbn [Nat.add] in Hv.
  destruct (skip_while_drop line is_blank eq_refl (fuel_of line) _ _ (fuel_enough _ _ _ Hv) Hv)
    as (j & -> & Hj & _). cbn [mbind option_bind]. by rewrite (parseUnsigned_number _ _ _ Hj).
Qed.

Lemma header_loop_total fuel : forall s cl, length s < fuel -> exists cl' s',
  header_loop fuel s cl = Some (cl', s').
Proof.
  induction fuel as [|fuel IH]; intros s cl Hf; [lia|]. cbn [header_loop].
  destruct (readBytesUntil LF (LINE_SIZE - 1) s) as [bs s1] eqn:E.
  destruct (readBytesUntil_length _ _ _ _ _ E) as [Hb Hs]. rewrite line_array_ok by done.
  cbn [mbind option_bind].
  destruct (lookup_lt_is_Some_2 (bs ++ NUL :: zeros (95 - length bs)) 0) as [x ->];
    [rewrite length_app; simpl; lia|]. cbn [mbind option_bind].
  destruct (length bs =? 0) eqn:E0; [by eexists _, _|]. apply Nat.eqb_neq in E0. cbn [orb].
  destruct ((length bs =? 1) && Byte.eqb x CR); [by eexists _, _|].
  destruct (line_string bs (zeros (95 - length bs))) as (t & Ht & _).
  rewrite (header_line_value _ t) by done. cbn [mbind option_bind]. apply IH. lia.
Qed.

(** One line of a served text. *)
Definition served (lines : list (list byte)) (body : list byte) : stream :=
  Arrives <$> (concat ((fun l => l ++ [LF]) <$> lines) ++ body).

(** A line that fits: with its line feed it is read at once. *)
Definition fits (l : list byte) : Prop := (LF ∉ l) /\ length l <= 94.

Lemma served_line l ls body : fits l ->
  readBytesUntil LF (LINE_SIZE - 1) (served (l :: ls) body) = (l, served ls body).
Proof.
  intros [Hl Hn]. unfold served. cbn [fmap list_fmap concat].
  rewrite <- !app_assoc. cbn [app]. apply readBytesUntil_line; [done|]. unfold LINE_SIZE. lia.
Qed.

(** A header line that is no end of the headers. *)
Definition header_ok (l : list byte) : Prop := fits l /\ l <> [] /\ l <> [CR].

Definition header_effect (cl : Z) (l : list byte) : Z := header_value (take_while not_nul l) cl.

Lemma header_loop_lines ls body : Forall header_ok ls -> forall fuel cl, length ls < fuel ->
  header_loop fuel (served (ls ++ [[CR]]) body) cl = Some (fold_left header_effect ls cl, Arrives <$> body).
Proof.
  induction 1 as [|l ls Hl _ IH]; intros fuel cl Hf; (destruct fuel as [|fuel]; [simpl in Hf; lia|]);
    cbn [header_loop app].
  - rewrite served_line by (split; [by apply index_None|simpl; lia]).
    rewrite line_array_ok by (simpl; lia). done.
  - destruct Hl as (Hfit & Hne & Hcr). rewrite served_line by done. destruct Hfit as [Hlf Hlen].
    rewrite line_array_ok by lia. cbn [mbind option_bind].
    destruct l as [|b l]; [done|]. cbn [app]. change ((b :: ?t) !! 0) with (Some b).
    cbn [mbind option_bind length Nat.eqb orb].
    assert ((length l =? 0) && Byte.eqb b CR = false) as ->.
    { destruct l as [|b' l]; [|done]. cbn [length Nat.eqb andb]. destruct (eqb_spec b CR); [by subst|done]. }
    destruct (line_string (b :: l) (zeros (95 - S (length l)))) as (t & Ht & Et).
    cbn [app] in Ht. rewrite (header_line_value _ t) by done. cbn [mbind option_bind].
    rewrite IH by (simpl in Hf; lia). cbn [fold_left]. unfold header_effect at 3. by rewrite <- Et.
Qed.

(** ** The body *)

Lemma store_length_ok m p bs : p + length bs <= length m -> exists m', store m p bs = Some m' /\
  length m' = length m.
Proof.
  intros Hp. unfold store. rewrite (proj2 (Nat.leb_le _ _)) by done. eexists. split; [done|].
  rewrite !length_app, length_take, length_drop. lia.
Qed.

Lemma body_loop_total s : forall response used complete, used < length response -> exists r u c,
  body_loop s response used complete = Some (r, u, c) /\ length r = length response /\ u < length r.
Proof.
  induction s as [|[b|] s IH]; intros response used complete Hu; cbn [body_loop].
  - by exists response, used, complete.
  - destruct (Nat.ltb_spec (used + 1) (length response)) as [Hl|]; [|by apply IH].
    destruct (store_length_ok response used [b]) as (m & -> & Em); [simpl; lia|]. cbn [mbind option_bind].
    destruct (IH m (used + 1) complete) as (r & u & c & E & Er & Hur); [lia|].
    exists r, u, c. split; [done|lia].
  - by exists response, used, false.
Qed.

(** ** A whole request *)

Lemma performGet_total sv response : exists status array used,
  performGet sv response = Some (status, array, used) /\
  forall r, response = Some r -> length array = length r /\
    (2 <= length r -> status = 200%Z -> array !! used = Some NUL).
Proof.
  unfold performGet. destruct (negb _); [eexists _, _, _; split; [done|]; by intros r ->|].
  destruct (negb _); [eexists _, _, _; split; [done|]; by intros r ->|].
  destruct (readBytesUntil LF (LINE_SIZE - 1) (sv_answer sv)) as [bs s] eqn:E.
  destruct (readBytesUntil_length _ _ _ _ _ E) as [Hb _]. rewrite line_array_ok by done.
  cbn [mbind option_bind].
  destruct (parseHttpStatus_total (bs ++ NUL :: zeros (95 - length bs)) (length bs)) as (status & ->);
    [rewrite length_app; lia|]. cbn [mbind option_bind].
  destruct response as [r|]; [|by eexists _, _, _].
  destruct (_ || _ || _) eqn:Eearly.
  { eexists _, _, _. split; [done|]. intros ? [= <-]. split; [done|]. intros H2 ->.
    destruct (Nat.ltb_spec (length r) 2); [lia|done]. }
  apply orb_false_elim in Eearly as [Eearly _]. apply orb_false_elim in Eearly as [_ H2%Nat.ltb_ge].
  destruct (header_loop_total (S (length s)) s (-1)%Z) as (cl & s1 & ->); [lia|]. cbn [mbind option_bind].
  assert (Hbody : exists r1 used complete,
    (if (0 <=? cl)%Z then if (Z.of_nat (length r) <=? cl)%Z then Some (r, 0, false)
       else let '(bs, _) := readBytes (Z.to_nat cl) s1 in response ← store r 0 bs;
            Some (response, length bs, (Z.of_nat (length bs) =? cl)%Z)
     else body_loop s1 r 0 true) = Some (r1, used, complete) /\ length r1 = length r /\ used < length r1).
  { destruct (Z.leb_spec 0 cl); [|destruct (body_loop_total s1 r 0 true) as (x & u & c & Ex & Hx); [lia|];
      exists x, u, c; split; [exact Ex|lia]].
    destruct (Z.leb_spec (Z.of_nat (length r)) cl); [exists r, 0, false; split; [done|lia]|].
    destruct (readBytes (Z.to_nat cl) s1) as [bs1 s2] eqn:E1. apply readBytes_length in E1.
    destruct (store_length_ok r 0 bs1) as (m & -> & Em); [lia|]. cbn [mbind option_bind].
    eexists _, _, _. split; [done|lia]. }
  destruct Hbody as (r1 & used & complete & -> & E1 & Hu). cbn [mbind option_bind].
  destruct complete; cbn [negb].
  - destruct (store_length_ok r1 used [NUL]) as (m & Em & Elen); [simpl; lia|]. rewrite Em.
    cbn [mbind option_bind]. eexists _, _, _. split; [done|]. intros ? [= <-]. split; [lia|]. intros _ _.
    unfold store in Em. cbn [length] in Em. rewrite (proj2 (Nat.leb_le _ _)) in Em by lia.
    injection Em as <-. cbn [app]. apply list_lookup_middle. rewrite length_take. lia.
  - eexists _, _, _. split; [done|]. intros ? [= <-]. by split.
Qed.

Lemma first_nul (m : list byte) i : m !! i = Some NUL -> exists s t, m = s ++ NUL :: t /\ NUL ∉ s.
Proof.
  intros Hi. destruct (index NUL m) as [k|] eqn:Ek.
  - destruct (index_lt _ _ _ Ek) as [Hk Hm]. exists (take k m), (drop (S k) m). split.
    + by rewrite <- (drop_S _ _ _ Hm), take_drop.
    + apply index_None. by apply index_take.
  - exfalso. apply index_None in Ek. by apply Ek, (list_elem_of_lookup_2 _ i).
Qed.

(** C16: Whatever the server sends, with whatever pauses, fetching and reading the
    configuration accesses nothing outside its arrays (the line, the 768 bytes of the
    text, and those of the parser) and ends; and what it hands to the main task, if
    anything, has a heartbeat interval between two minutes and a day, ports between 1
    and 65535, host names of 1 to 253 legal characters and, if any, a known vendor
    that fits its array. *)
Theorem refresh_safe wifi sv : exists r, refreshConfig wifi sv = Some r /\
  match r with Some (interval, m) => (2 <= interval <= 1440)%Z /\ managed_ok m | None => True end.
Proof.
  unfold refreshConfig. destruct wifi; cbn [negb]; [|by eexists].
  destruct (performGet_total sv (Some (zeros CONFIG_BUFFER_SIZE))) as (status & array & used & -> & Hr).
  cbn [mbind option_bind]. destruct (Z.eqb_spec status 200) as [->|]; cbn [negb]; [|by eexists].
  destruct (used =? 0); [by eexists|]. destruct (Hr _ eq_refl) as [_ Hn].
  destruct (first_nul array used) as (s & t & -> & Hs);
    [apply Hn; [unfold zeros, CONFIG_BUFFER_SIZE; rewrite length_replicate; lia|done]|].
  exists (reference_config s). split; [by apply receive_config_text|].
  destruct (reference_config s) as [[interval m]|] eqn:E; [|done]. by apply accepted_valid in E.
Qed.

(** ** A text that is served *)

Definition status_line (proto reason : list byte) : list byte := proto ++ [SP] ++ bytes "200" ++ reason.

Lemma status_200 proto reason t : SP ∉ proto ->
  parseHttpStatus (status_line proto reason ++ t) (length (status_line proto reason)) = Some 200%Z.
Proof.
  intros Hp. unfold parseHttpStatus, status_line.
  replace (length (proto ++ [SP] ++ bytes "200" ++ reason)) with (S (length proto) + (3 + length reason))
    by (rewrite !length_app; simpl; lia).
  rewrite <- !app_assoc. cbn [app].
  assert (Hfind : forall m n i r, find_space n m i = Some (Some r) -> forall k,
    find_space (n + k) m i = Some (Some r)).
  { intros m n. induction n as [|n IH]; intros i r; [done|]. cbn [find_space Nat.add].
    destruct (m !! i); [|done]. cbn [mbind option_bind]. destruct (Byte.eqb b SP); [done|]. intros Hr k.
    by apply IH. }
  pose proof (find_space_first proto (bytes "200" ++ reason ++ t) Hp 0 [] eq_refl) as Es.
  cbn [app Nat.add] in Es. rewrite (Hfind _ _ _ _ Es). cbn [mbind option_bind].
  destruct (Nat.leb_spec (S (length proto) + (3 + length reason)) (length proto + 3)); [lia|].
  rewrite !lookup_app_r by lia.
  replace (length proto + 1 - length proto) with 1 by lia.
  replace (length proto + 2 - length proto) with 2 by lia.
  replace (length proto + 3 - length proto) with 3 by lia. done.
Qed.

(** The header with the length of the text. *)
Definition length_line (n : nat) : list byte :=
  CONTENT_LENGTH_HEADER ++ [SP] ++ print_int (Z.of_nat n) ++ [CR].

Lemma number_printed n : (Z.of_nat n < 2 ^ 31)%Z -> number_value (print_int (Z.of_nat n) ++ [CR]) = Some (Z.of_nat n).
Proof.
  intros Hn. unfold print_int. rewrite (proj2 (Z.ltb_ge _ _)) by lia.
  destruct (print_digits_decimal 10 (Z.to_N (Z.of_nat n))) as (E1 & E2 & E3); [simpl; lia|lia|].
  set (d := print_digits 10 (Z.to_N (Z.of_nat n))) in *. unfold number_value.
  pose proof (take_while_exact isdigit d E2 [CR] (fun b (E : head [CR] = Some b) => ltac:(by injection E as <-))) as Ed.
  rewrite Ed, drop_app_length. cbn [drop_while]. rewrite bool_decide_false by done.
  rewrite E1, Z2N.id by lia. unfold UINT32_MAX. rewrite (proj2 (Z.leb_le _ _)) by lia. done.
Qed.

Definition digit_plain (b : byte) : bool :=
  implb (isdigit b) (not_nul b && negb (Byte.eqb b LF) && negb (is_blank b)).

Lemma digit_is_plain b : isdigit b = true -> not_nul b = true /\ b <> LF /\ is_blank b = false.
Proof.
  intros Hb. pose proof (all_bytes_all digit_plain ltac:(by vm_compute) b) as E. unfold digit_plain in E.
  rewrite Hb in E. cbn [implb] in E. apply andb_prop in E as [E E3%negb_true_iff].
  apply andb_prop in E as [E1 E2%negb_true_iff]. split_and!; [done| |done]. by intros ->.
Qed.

Lemma length_print_digits fuel : forall n, length (print_digits fuel n) <= fuel.
Proof.
  induction fuel as [|fuel IH]; intros n; cbn [print_digits]; [done|]. rewrite length_app. cbn [length].
  destruct (n <? 10)%N; [simpl; lia|]. specialize (IH (n / 10)%N). lia.
Qed.

Lemma printed_digits n : (Z.of_nat n < 2 ^ 31)%Z -> forallb isdigit (print_int (Z.of_nat n)) = true /\
  print_int (Z.of_nat n) <> [] /\ length (print_int (Z.of_nat n)) <= 10.
Proof.
  intros Hn. unfold print_int. rewrite (proj2 (Z.ltb_ge _ _)) by lia.
  destruct (print_digits_decimal 10 (Z.to_N (Z.of_nat n))) as (_ & E2 & E3); [simpl; lia|lia|].
  split_and!; [done..|apply length_print_digits].
Qed.

Lemma length_line_effect n cl : (Z.of_nat n < 2 ^ 31)%Z -> header_ok (length_line n) /\
  header_effect cl (length_line n) = Z.of_nat n.
Proof.
  intros Hn. destruct (printed_digits n Hn) as (Hd & Hne & Hlen). set (d := print_int (Z.of_nat n)) in *.
  assert (Hd' : forall b, b ∈ d -> isdigit b = true)
    by (intros b Hb%list_elem_of_In; rewrite forallb_forall in Hd; by apply Hd).
  unfold length_line. fold d. split.
  - split; [split|by split].
    + rewrite !elem_of_app. intros [Hin|[Hin|[Hin|Hin]]];
        [revert Hin; by apply (index_None LF CONTENT_LENGTH_HEADER)|by apply list_elem_of_singleton in Hin
        |by apply Hd', digit_is_plain in Hin as (_ & ? & _)|by apply list_elem_of_singleton in Hin].
    + rewrite !length_app. simpl. lia.
  - unfold header_effect, header_value.
    assert (take_while not_nul (CONTENT_LENGTH_HEADER ++ [SP] ++ d ++ [CR])
      = CONTENT_LENGTH_HEADER ++ [SP] ++ d ++ [CR]) as ->.
    { pose proof (take_while_exact not_nul (CONTENT_LENGTH_HEADER ++ [SP] ++ d ++ [CR])) as E.
      rewrite <- (app_nil_r (CONTENT_LENGTH_HEADER ++ _)) at 1. apply E; [|done].
      rewrite !forallb_app. rewrite (proj2 (forallb_forall not_nul d)); [done|].
      intros b Hb%list_elem_of_In. by apply Hd', digit_is_plain in Hb as (? & _). }
    rewrite take_app_length, bool_decide_true, drop_app_length by done.
    assert (drop_while is_blank ([SP] ++ d ++ [CR]) = d ++ [CR]) as ->.
    { cbn [app drop_while]. change (is_blank SP) with true. cbn iota.
      destruct d as [|b d']; [done|]. cbn [app drop_while].
      destruct (digit_is_plain b) as (_ & _ & ->); [apply Hd'; left|done]. }
    unfold d. rewrite number_printed by done. unfold INT_MAX. rewrite (proj2 (Z.leb_le _ _)) by lia.
    unfold s32. rewrite u32_small by lia. by rewrite (proj2 (Z.ltb_lt _ _)).
Qed.

(** Any other header. *)
Definition other_header (l : list byte) : Prop := header_ok l /\ is_prefix CONTENT_LENGTH_HEADER l = false.

Lemma other_header_effect l cl : other_header l -> header_effect cl l = cl.
Proof.
  intros [_ Hp]. unfold header_effect, header_value. rewrite bool_decide_false; [done|]. intros E.
  rewrite <- (take_while_app_drop not_nul l), <- (take_drop (length CONTENT_LENGTH_HEADER) (take_while not_nul l)), E,
    <- app_assoc, is_prefix_app in Hp. done.
Qed.

Lemma other_headers_effect ls cl : Forall other_header ls -> fold_left header_effect ls cl = cl.
Proof. intros H. revert cl. induction H as [|l ls Hl _ IH]; intros cl; [done|]. cbn [fold_left]. by rewrite other_header_effect. Qed.

Lemma served_length ls body : length ls <= length (served ls body).
Proof.
  unfold served. rewrite length_fmap, length_app. induction ls as [|l ls IH]; [simpl; lia|].
  cbn [fmap list_fmap concat length]. rewrite !length_app. simpl in *. lia.
Qed.

(** A server that answers with [text]. *)
Definition serves (free largest : Z) (proto reason : list byte) (hs1 hs2 : list (list byte))
    (text extra : list byte) : Server :=
  mkServer free largest true (served (status_line proto reason ::
    (hs1 ++ length_line (length text) :: hs2) ++ [[CR]]) (text ++ extra)).

Lemma performGet_served free largest proto reason hs1 hs2 text extra size :
  tlsMemoryAvailable free largest = true -> SP ∉ proto -> fits (status_line proto reason) ->
  Forall other_header hs1 -> Forall other_header hs2 -> length text < size -> 2 <= size ->
  (Z.of_nat size < 2 ^ 31)%Z ->
  performGet (serves free largest proto reason hs1 hs2 text extra) (Some (zeros size)) =
    Some (200%Z, text ++ NUL :: zeros (size - length text - 1), length text).
Proof.
  intros Hm Hp Hf H1 H2 Hl Hs Hz. unfold performGet, serves. cbn [sv_freeHeap sv_largestBlock sv_connects sv_answer].
  rewrite Hm. cbn [negb]. rewrite served_line by done. rewrite line_array_ok by (destruct Hf; lia).
  cbn [mbind option_bind]. rewrite status_200 by done. cbn [mbind option_bind].
  rewrite (proj2 (Nat.ltb_ge _ _)) by (unfold zeros; rewrite length_replicate; lia).
  change ((200 <? 0)%Z || false || negb (200 =? 200)%Z) with false. cbn iota.
  destruct (length_line_effect (length text) (-1)%Z) as [Hok Heff]; [lia|].
  rewrite header_loop_lines.
  - rewrite fold_left_app. cbn [fold_left]. rewrite (other_headers_effect hs1), Heff, other_headers_effect by done.
    cbn [mbind option_bind]. rewrite (proj2 (Z.leb_le _ _)) by lia.
    rewrite (proj2 (Z.leb_gt _ _)) by (unfold zeros; rewrite length_replicate; lia).
    rewrite Nat2Z.id, readBytes_all, store_prefix by lia. cbn [mbind option_bind].
    rewrite Z.eqb_refl. cbn [negb].
    pose proof (store_inside text (zeros 1) (zeros (size - length text - 1)) [NUL] eq_refl) as E.
    rewrite <- zeros_split in E by lia. rewrite E. done.
  - assert (Hh : forall l, other_header l -> header_ok l) by by intros l [].
    apply List.Forall_app. split; [by eapply List.Forall_impl|].
    constructor; [done|by eapply List.Forall_impl].
  - pose proof (served_length ((hs1 ++ length_line (length text) :: hs2) ++ [[CR]]) (text ++ extra)) as Hle.
    rewrite length_app in Hle. simpl in Hle. lia.
Qed.

(** C15: A text of 1 to 767 bytes without NUL that the server answers with "200" and its
    length, among any other headers, every line of which fits the array ([fits]: at
    most 94 bytes in front of its line feed; [long_header_ends_headers] is a line of
    95), to a device with memory for the request, reaches the main task as the reference reads
    it: parsing the request's answer and the text in place, checking it, copying it
    into the queue and out again gives nothing unless every required setting is there
    once with a valid value, and otherwise the settings of the text. *)
Theorem refreshed_config free largest proto reason hs1 hs2 text extra :
  tlsMemoryAvailable free largest = true -> SP ∉ proto -> fits (status_line proto reason) ->
  Forall other_header hs1 -> Forall other_header hs2 -> NUL ∉ text -> 0 < length text < CONFIG_BUFFER_SIZE ->
  refreshConfig true (serves free largest proto reason hs1 hs2 text extra) = Some (reference_config text).
Proof.
  intros Hm Hp Hf H1 H2 Hn Hl. unfold refreshConfig. cbn [negb].
  rewrite performGet_served by (done || unfold CONFIG_BUFFER_SIZE in *; lia). cbn [mbind option_bind].
  rewrite Z.eqb_refl. cbn [negb]. rewrite (proj2 (Nat.eqb_neq _ _)) by lia. by apply receive_config_text.
Qed.

Definition demo_date : list byte := bytes "Date: Mon, 1 Jan 2024" ++ [CR].

Lemma refreshed_config_witness :
  (tlsMemoryAvailable 100000 40000 = true /\ NUL ∉ demo_config) /\
  refreshConfig true (serves 100000 40000 (bytes "HTTP/1.1") (bytes " OK" ++ [CR]) [demo_date] [[CR; CR]]
    demo_config (bytes "next")) = Some (reference_config demo_config) /\
  reference_config demo_config <> None.
Proof.
  split; [split; [reflexivity|by apply (bool_decide_unpack _); vm_compute]|]. split; [|by vm_compute].
  apply (refreshed_config 100000 40000 (bytes "HTTP/1.1") (bytes " OK" ++ [CR]) [demo_date] [[CR; CR]]
    demo_config (bytes "next")); try reflexivity.
  - by apply (bool_decide_unpack _); vm_compute.
  - by split; [apply (bool_decide_unpack _); vm_compute|vm_compute; lia].
  - constructor; [|constructor]. repeat split; try (by apply (bool_decide_unpack _); vm_compute); vm_compute; done || lia.
  - constructor; [|constructor]. repeat split; try (by apply (bool_decide_unpack _); vm_compute); vm_compute; done || lia.
  - by apply (bool_decide_unpack _); vm_compute.
  - vm_compute. lia.
Defined.

(** A header line of exactly 95 bytes fills the array: its line end stays unread, the
    next read finds an empty line, and the headers that follow are taken for the body. *)
Definition long_header : list byte := bytes "X-Trace: " ++ repeat x61 85 ++ [CR].

Example long_header_ends_headers :
  length long_header = 95 /\
  header_loop 5 (served [long_header; bytes "Content-Length: 5" ++ [CR]; [CR]] (bytes "a=b")) (-1)%Z =
    Some ((-1)%Z, served [bytes "Content-Length: 5" ++ [CR]; [CR]] (bytes "a=b")).
Proof. by vm_compute. Qed.

(** A shorter one, and a longer one whose rest is not empty, do no harm. *)
Example other_headers_pass :
  header_loop 5 (served [demo_date; bytes "Content-Length: 5" ++ [CR]; [CR]] (bytes "a=b")) (-1)%Z =
    Some (5%Z, Arrives <$> bytes "a=b") /\
  header_loop 5 (served [repeat x61 99; bytes "Content-Length: 5" ++ [CR]; [CR]] (bytes "a=b")) (-1)%Z =
    Some (5%Z, Arrives <$> bytes "a=b").
Proof. by vm_compute. Qed.

(** ** Name and rhythm of the device *)

(** The name has eight characters, none of which a setting or an address has to encode. *)
Lemma buildSid_form chipId : length (buildSid chipId) = 8 /\ forallb isUnreserved (buildSid chipId) = true.
Proof.
  split; [done|]. unfold buildSid. cbn [fmap list_fmap forallb].
  repeat (apply andb_true_intro; split); try done; unfold hex_lower;
    match goal with |- context [Z.land ?a 15] =>
      assert (0 <= Z.land a 15 < 16)%Z as Hx by (rewrite (Z.land_ones _ 4) by lia; apply Z.mod_pos_bound; lia);
      revert Hx; generalize (Z.land a 15); intros x Hx end;
    assert (x = 0 \/ x = 1 \/ x = 2 \/ x = 3 \/ x = 4 \/ x = 5 \/ x = 6 \/ x = 7 \/ x = 8 \/ x = 9 \/ x = 10
      \/ x = 11 \/ x = 12 \/ x = 13 \/ x = 14 \/ x = 15)%Z as Hc by lia;
    repeat (destruct Hc as [->|Hc]; [by vm_compute|]); by subst x.
Qed.

Example buildSid_value : buildSid 305419896 = bytes "12345678".
Proof. by vm_compute. Qed.

(** The next heartbeat comes after one to two intervals. *)
Lemma heartbeat_delay_range interval random :
  (MIN_HEARTBEAT_INTERVAL_MIN <= interval <= MAX_HEARTBEAT_INTERVAL_MIN)%Z -> (0 <= random)%Z ->
  (interval * 60 <= nextHeartbeatDelaySeconds interval random <= 2 * (interval * 60))%Z.
Proof.
  unfold MIN_HEARTBEAT_INTERVAL_MIN, MAX_HEARTBEAT_INTERVAL_MIN, nextHeartbeatDelaySeconds. intros Hi Hr.
  rewrite !(u32_small (interval * 60)), !(u32_small (interval * 60 + 1)) by lia.
  pose proof (Z.mod_pos_bound random (interval * 60 + 1) ltac:(lia)).
  rewrite u32_small by lia. lia.
Qed.

(** Waiting for it ends once the rounds have taken that long together, however often an
    alert wakes the task, and not before. *)
Lemma heartbeat_wait_exact rounds : forall remaining,
  (0 <= remaining < 2 ^ 32)%Z -> Forall (fun e => 0 <= e < 2 ^ 32)%Z rounds ->
  is_Some (heartbeat_wait remaining rounds) <-> (remaining <= foldr Z.add 0 rounds)%Z.
Proof.
  induction rounds as [|e rounds IH]; intros remaining Hr HF; cbn [heartbeat_wait foldr].
  - destruct (Z.leb_spec remaining 0); split; intros Hx; try lia; try done; by destruct Hx.
  - inversion HF as [|? ? He HF']; subst.
    assert (0 <= foldr Z.add 0 rounds)%Z as Hs
      by (clear - HF'; induction HF' as [|? ? ? ? ?]; simpl; lia).
    destruct (Z.leb_spec remaining 0); [split; [lia|done]|].
    destruct (Z.leb_spec remaining e) as [Hle|Hgt].
    + rewrite IH by (lia || done). lia.
    + unfold u32_sub. rewrite u32_small by lia. rewrite IH by (lia || done). lia.
Qed.
