(* ===== verification/Alerts.v ===== *)
(** * Alerts and notices of the firmware (examples/src/minis_registration.cpp)

    Other parts of the firmware queue alerts for the control centre
    ([queueAlert]); the heartbeat task posts them one at a time and takes an alert
    out of the queue only when the server has answered 200.  A marker file makes the
    device tell, after its restart, that a new configuration is in force.  The
    interval of the heartbeats is kept in one more file.

    The queue is FreeRTOS's: the class [AlertQueue] with the laws [AlertQueueLaws],
    whose [contents] is what its documentation speaks about.  Files are those of
    Provisioning.v, what a server sends is a [stream] of MinisHttp.v.  While a post
    is under way the other tasks may queue more alerts ([ex_others]). *)

From S2P Require Import Prelude HttpDiag ManagedConfig Provisioning MinisHttp.

#[local] Open Scope nat_scope.

(** ** The body of a post *)

Abbreviation AMPERSAND := x26 (only parsing).
Abbreviation PLUS := x2b (only parsing).

(** The characters [appendFormEncoded] copies. *)
Definition form_unreserved (c : byte) : bool :=
  let n := Byte.to_N c in
  ((97 <=? n) && (n <=? 122) || (65 <=? n) && (n <=? 90) || (48 <=? n) && (n <=? 57))%N
  || existsb (Byte.eqb c) (bytes "-_.~").

Definition form_byte (c : byte) : list byte :=
  if form_unreserved c then [c]
  else if Byte.eqb c SP then [PLUS]
  else [PERCENT; hexDigit (Byte.to_N c / 16); hexDigit (Byte.to_N c mod 16)].

(** [appendFormEncoded(out, value)], [value] being the memory at the pointer;
    [None] when it has no end. *)
Fixpoint appendFormEncoded (out value : list byte) : option (list byte) :=
  match value with
  | [] => None
  | c :: value' => if Byte.eqb c NUL then Some out else appendFormEncoded (out ++ form_byte c) value'
  end.

Definition appendFormField (body name value : list byte) : option (list byte) :=
  let body := if bool_decide (body = []) then body else body ++ [AMPERSAND] in
  appendFormEncoded (body ++ name ++ [EQUALS]) value.

(** ** Alerts *)

Definition ALERT_QUEUE_DEPTH : nat := 4.
Definition ALERT_LEVEL_SIZE : nat := 9.
Definition ALERT_TITLE_SIZE : nat := 97.
Definition ALERT_MESSAGE_SIZE : nat := 257.
Definition ALERT_TAG_SIZE : nat := 49.

(** The strings are arrays of the sizes above. *)
Record QueuedAlert := mkAlert {
  al_level : list byte;
  al_title : list byte;
  al_message : list byte;
  al_tag : list byte;
  clearConfigAppliedNotice : bool
}.

Inductive AlertSendResult := NothingSent | Sent | Deferred.

(** What a post meets: WiFi, the server, and what other tasks queue meanwhile. *)
Record Exchange := mkExchange { ex_wifi : bool; ex_server : Server; ex_others : list QueuedAlert }.

(** The fields of the body, in order. *)
Definition alert_body (clientSid : list byte) (alert : QueuedAlert) : option (list byte) :=
  body ← appendFormField [] (bytes "sid") (clientSid ++ [NUL]);
  body ← appendFormField body (bytes "alert_level") (al_level alert);
  body ← appendFormField body (bytes "alert_title") (al_title alert);
  body ← appendFormField body (bytes "alert_message") (al_message alert);
  appendFormField body (bytes "alert_tag") (al_tag alert).

(** [performAlertPost(alert)]: its answer.  The answer of the server is awaited for
    as long as a read would wait. *)
Definition performAlertPost (clientSid : list byte) (alert : QueuedAlert) (x : Exchange) : option Z :=
  let sv := ex_server x in
  if negb (ex_wifi x) then Some (-3)%Z else
  if negb (tlsMemoryAvailable (sv_freeHeap sv) (sv_largestBlock sv)) then Some (-2)%Z else
  _ ← alert_body clientSid alert;
  if negb (sv_connects sv) then Some (-1)%Z else
  match sv_answer sv with
  | [] | Pause :: _ => Some (-1)%Z
  | Arrives _ :: _ =>
      let '(bs, _) := readBytesUntil LF (LINE_SIZE - 1) (sv_answer sv) in
      statusLine ← line_array bs;
      parseHttpStatus statusLine (length bs)
  end.

(** ** The queue *)

(** [xQueueCreate(ALERT_QUEUE_DEPTH, ...)], [xQueueSend] and [xQueueReceive] without
    waiting, [xQueuePeek], [uxQueueMessagesWaiting]. *)
Class AlertQueue (Q : Type) := {
  xQueueCreate : Q;
  xQueueSend : QueuedAlert -> Q -> bool * Q;
  xQueuePeek : Q -> option QueuedAlert;
  xQueueReceive : Q -> option QueuedAlert * Q;
  uxQueueMessagesWaiting : Q -> nat
}.

Class AlertQueueLaws (Q : Type) `{AlertQueue Q} := {
  contents : Q -> list QueuedAlert;
  created_empty : contents xQueueCreate = [];
  send_room : forall a q, length (contents q) < ALERT_QUEUE_DEPTH ->
    (xQueueSend a q).1 = true /\ contents (xQueueSend a q).2 = contents q ++ [a];
  send_full : forall a q, ALERT_QUEUE_DEPTH <= length (contents q) ->
    (xQueueSend a q).1 = false /\ contents (xQueueSend a q).2 = contents q;
  peek_head : forall q, xQueuePeek q = head (contents q);
  receive_head : forall q, (xQueueReceive q).1 = head (contents q) /\
    contents (xQueueReceive q).2 = tail (contents q);
  waiting_length : forall q, uxQueueMessagesWaiting q = length (contents q)
}.

Definition CONFIG_APPLIED_NOTICE_PATH : path := "/minis.cfg_applied_notice".

Section Tasks.
Context {Q F : Type} `{AlertQueue Q} `{FileSystem F}.
Context (clientSid FIRMWARE_VERSION : list byte).

(** The handles, the count of the task's notifications, and for the proofs the
    alerts the queue has taken and the posts with their answers, oldest first. *)
Record Plane := mkPlane {
  heartbeatTaskHandle : bool;
  managedConfigQueue : bool;
  alertQueue : option Q;
  notifications : nat;
  accepted : list QueuedAlert;
  posts : list (QueuedAlert * Z)
}.

#[export] Instance plane_eta : Eta Plane := fun p =>
  mkPlane (heartbeatTaskHandle p) (managedConfigQueue p) (alertQueue p) (notifications p) (accepted p) (posts p).

Definition new_plane : Plane := mkPlane false false None 0 [] [].

Abbreviation AM A := (M (Plane * (F * list F)) A).

Definition plane {A} (f : Plane -> A) : AM A := gets (fun s => f s.1).
Definition change (f : Plane -> Plane) : AM unit := modify (fun s => (f s.1, s.2)).
Definition on_files {A} (m : M (F * list F) A) : AM A := fun s => let '(a, fs) := m s.2 in (a, (s.1, fs)).

(** [xTaskNotifyGive(heartbeatTaskHandle)] *)
Definition xTaskNotifyGive : AM unit := change (fun p => p <| notifications := S (notifications p) |>).

(** [xQueueSend(alertQueue, &alert, 0)] on a queue that is there. *)
Definition send_to (a : QueuedAlert) (q : Q) : AM bool :=
  let '(ok, q') := xQueueSend a q in
  change (fun p => p <| alertQueue := Some q' |> <| accepted := accepted p ++ (if ok then [a] else []) |>);;
  ret ok.

(** The end of [queueAlert]: the alert is built. *)
Definition enqueue (a : QueuedAlert) : AM bool :=
  queue <- plane alertQueue;;
  match queue with
  | None => ret false
  | Some q => ok <- send_to a q;; when ok xTaskNotifyGive;; ret ok
  end.

(** The level under its own name, when it has one. *)
Definition normalizedLevel (level : list byte) : option (option (list byte)) :=
  info ← strcmp_eq level 0 (bytes "info");
  if info : bool then Some (Some (bytes "info")) else
  warn ← or_else (strcmp_eq level 0 (bytes "warn")) (strcmp_eq level 0 (bytes "warning"));
  if warn : bool then Some (Some (bytes "warn")) else
  critical ← or_else (strcmp_eq level 0 (bytes "critical")) (strcmp_eq level 0 (bytes "error"));
  Some (if critical : bool then Some (bytes "critical") else None).

(** A field that may be missing. *)
Definition copy_field (size : nat) (s : option (list byte)) : option (list byte) :=
  match s with Some m => strlcpy size m 0 | None => Some (zeros size) end.

(** The alert [queueAlert] builds from its arguments (null pointers are [None]), or
    nothing when it rejects them. *)
Definition build_alert (level title message tag : option (list byte)) : option (option QueuedAlert) :=
  match level, message with
  | Some level, Some message =>
      first ← message !! 0;
      if Byte.eqb first NUL then Some None else
      normalized ← normalizedLevel level;
      match normalized with
      | None => Some None
      | Some name =>
          l ← strlcpy ALERT_LEVEL_SIZE (name ++ [NUL]) 0;
          t ← copy_field ALERT_TITLE_SIZE title;
          m ← strlcpy ALERT_MESSAGE_SIZE message 0;
          g ← copy_field ALERT_TAG_SIZE tag;
          Some (Some (mkAlert l t m g false))
      end
  | _, _ => Some None
  end.

Definition queueAlert (level title message tag : option (list byte)) : AM (option bool) :=
  p <- plane id;;
  match heartbeatTaskHandle p, alertQueue p with
  | true, Some _ =>
      match build_alert level title message tag with
      | None => ret None
      | Some None => ret (Some false)
      | Some (Some a) => ok <- enqueue a;; ret (Some ok)
      end
  | _, _ => ret (Some false)
  end.

(** ** The notice of a new configuration *)

Definition markConfigAppliedNotice : M (F * list F) bool :=
  written <- act (fs_write CONFIG_APPLIED_NOTICE_PATH FIRMWARE_VERSION);;
  ret (match written with None | Some O => false | Some _ => true end).

(** The alert it becomes. *)
Definition notice : option QueuedAlert :=
  l ← strlcpy ALERT_LEVEL_SIZE (bytes "info" ++ [NUL]) 0;
  t ← strlcpy ALERT_TITLE_SIZE (bytes "ESP32 cfg.txt toegepast" ++ [NUL]) 0;
  m ← strlcpy ALERT_MESSAGE_SIZE
        (bytes "Nieuwe Minis cfg.txt is opgeslagen en na herstart toegepast." ++ [NUL]) 0;
  g ← strlcpy ALERT_TAG_SIZE (bytes "cfg-applied" ++ [NUL]) 0;
  Some (mkAlert l t m g true).

Definition queueConfigAppliedNoticeIfNeeded : AM (option bool) :=
  queue <- plane alertQueue;;
  marked <- on_files (exists_file CONFIG_APPLIED_NOTICE_PATH);;
  match queue with
  | None => ret (Some true)
  | Some q =>
      if negb marked then ret (Some true) else
      match notice with
      | None => ret None
      | Some a => ok <- send_to a q;; ret (Some ok)
      end
  end.

(** ** The heartbeat task *)

(** [LittleFS.exists(path) && !LittleFS.remove(path)]; its answer is only logged. *)
Definition clear_notice : AM unit :=
  marked <- on_files (exists_file CONFIG_APPLIED_NOTICE_PATH);;
  when marked (_ <- on_files (act (fs_remove CONFIG_APPLIED_NOTICE_PATH));; ret tt).

(** The part of [sendNextQueuedAlert] behind an answer 200. *)
Definition take_delivered : AM AlertSendResult :=
  queue <- plane alertQueue;;
  match queue with
  | None => ret NothingSent
  | Some q =>
      let '(received, q') := xQueueReceive q in
      change (fun p => p <| alertQueue := Some q' |>);;
      match received with
      | None => ret Deferred
      | Some delivered => when (clearConfigAppliedNotice delivered) clear_notice;; ret Sent
      end
  end.

Definition sendNextQueuedAlert (x : Exchange) : AM (option AlertSendResult) :=
  queue <- plane alertQueue;;
  match queue with
  | None => ret (Some NothingSent)
  | Some q =>
      match xQueuePeek q with
      | None => ret (Some NothingSent)
      | Some alert =>
          match performAlertPost clientSid alert x with
          | None => ret None
          | Some status =>
              change (fun p => p <| posts := posts p ++ [(alert, status)] |>);;
              for_each (ex_others x) (fun a => _ <- enqueue a;; ret tt);;
              if negb (status =? 200)%Z then ret (Some Deferred)
              else r <- take_delivered;; ret (Some r)
          end
      end
  end.

(** One round of the inner loop of [heartbeatTask]: [ulTaskNotifyTake(pdFALSE, ...)]
    takes one notification, [ulTaskNotifyTake(pdTRUE, 0)] all of them. *)
Definition wake (x : Exchange) : AM (option unit) :=
  notified <- plane notifications;;
  if 0 <? notified then
    change (fun p => p <| notifications := notified - 1 |>);;
    result <- sendNextQueuedAlert x;;
    match result with
    | None => ret None
    | Some Deferred => change (fun p => p <| notifications := 0 |>);; ret (Some tt)
    | Some _ => ret (Some tt)
    end
  else ret (Some tt).

(** The end of a round of the outer loop. *)
Definition beat (x : Exchange) : AM (option unit) :=
  result <- sendNextQueuedAlert x;;
  match result with
  | None => ret None
  | Some Sent =>
      queue <- plane alertQueue;;
      when (match queue with Some q => 0 <? uxQueueMessagesWaiting q | None => false end) xTaskNotifyGive;;
      ret (Some tt)
  | Some _ => ret (Some tt)
  end.

(** [startHeartbeatTask], given which of the two queues and the task can be
    created. *)
Definition startHeartbeatTask (creates_config creates_alerts creates_task : bool) (p : Plane) : bool * Plane :=
  if heartbeatTaskHandle p then (true, p) else
  if negb (managedConfigQueue p) && negb creates_config then (false, p) else
  let p := p <| managedConfigQueue := true |> in
  if bool_decide (alertQueue p = None) && negb creates_alerts then (false, p <| managedConfigQueue := false |>) else
  let p := p <| alertQueue := Some (default xQueueCreate (alertQueue p)) |> in
  if negb creates_task
  then (false, p <| heartbeatTaskHandle := false |> <| managedConfigQueue := false |> <| alertQueue := None |>)
  else (true, p <| heartbeatTaskHandle := true |>).

(** ** The cached heartbeat interval *)

Definition CACHED_CONFIG_PATH : path := "/minis.cfg".
Definition CACHED_CONFIG_TEMP_PATH : path := "/minis.cfg.tmp".
Definition CACHED_CONFIG_BACKUP_PATH : path := "/minis.cfg.bak".
Definition ONBOARDING_HEARTBEAT_INTERVAL_MIN : Z := 2.

Definition interval_text (intervalMin : Z) : list byte :=
  bytes "HB_INTERVAL_MIN=" ++ println (print_int intervalMin).

Definition writeCachedHeartbeatInterval (intervalMin : Z) : M (F * list F) bool :=
  removeIfExists CACHED_CONFIG_TEMP_PATH;;
  written <- act (fs_write CACHED_CONFIG_TEMP_PATH (interval_text intervalMin));;
  match written with
  | None => ret false
  | Some _ =>
      removeIfExists CACHED_CONFIG_BACKUP_PATH;;
      hadExistingConfig <- exists_file CACHED_CONFIG_PATH;;
      saved <- (if hadExistingConfig : bool
                then act (fs_rename CACHED_CONFIG_PATH CACHED_CONFIG_BACKUP_PATH) else ret true);;
      if negb saved then removeIfExists CACHED_CONFIG_TEMP_PATH;; ret false else
      moved <- act (fs_rename CACHED_CONFIG_TEMP_PATH CACHED_CONFIG_PATH);;
      if negb moved then
        when hadExistingConfig
          (_ <- act (fs_rename CACHED_CONFIG_BACKUP_PATH CACHED_CONFIG_PATH);; ret tt);;
        removeIfExists CACHED_CONFIG_TEMP_PATH;;
        ret false
      else
        removeIfExists CACHED_CONFIG_BACKUP_PATH;;
        ret true
  end.

(** The interval in a text that fits the array. *)
Definition cached_interval (text : list byte) : option (option Z) :=
  config ← store (zeros CONFIG_BUFFER_SIZE) 0 text;
  config ← store config (length text) [NUL];
  '(_, parsed, structurallyValid) ← parseConfig config;
  let h := heartbeatInterval parsed in
  Some (if structurallyValid && present h && valid h then Some (value h) else None).

(** [loadCachedHeartbeatInterval]: [heartbeatIntervalMin] after it. *)
Definition loadCachedHeartbeatInterval (heartbeatIntervalMin : Z) : M (F * list F) (option Z) :=
  file <- read_file CACHED_CONFIG_PATH;;
  ret (match file with
       | None => Some heartbeatIntervalMin
       | Some text =>
           if (length text =? 0) || (CONFIG_BUFFER_SIZE <=? length text) then Some heartbeatIntervalMin else
           default heartbeatIntervalMin <$> cached_interval text
       end).

End Tasks.
Arguments Plane Q : clear implicits.
Arguments new_plane {Q}.

(** ** The reference: what a server reads from the body *)

(** A value of a form: [+] is a blank, [%] two digits. *)
Fixpoint form_decode (s : list byte) : option (list byte) :=
  match s with
  | [] => Some []
  | c :: s' =>
      if Byte.eqb c PLUS then cons SP <$> form_decode s' else
      if negb (Byte.eqb c PERCENT) then cons c <$> form_decode s' else
      match s' with
      | h :: l :: s'' =>
          hi ← hexValue h; lo ← hexValue l;
          cons (byte_of (16 * hi + lo)) <$> form_decode s''
      | _ => None
      end
  end.

Definition form_field (s : list byte) : option (list byte * list byte) :=
  p ← index EQUALS s;
  v ← form_decode (drop (S p) s);
  Some (take p s, v).

(** The text between the separators. *)
Fixpoint split_at_byte (c : byte) (s : list byte) : list (list byte) :=
  match s with
  | [] => [[]]
  | b :: s' =>
      if Byte.eqb b c then [] :: split_at_byte c s' else
      match split_at_byte c s' with
      | [] => [[b]]
      | l :: ls => (b :: l) :: ls
      end
  end.

Definition parse_form (body : list byte) : option (list (list byte * list byte)) :=
  mapM form_field (split_at_byte AMPERSAND body).
