(* ===== verification/AlertsFacts.v ===== *)
(** * Alerts and notices of the firmware: proofs

    What an alert says reaches the server ([alert_roundtrip]), alerts are delivered in
    order and none is taken out of the queue before the server has it
    ([alerts_in_order]), the notice of a new configuration is kept over restarts until
    it has been delivered ([notice_until_delivered]), and a working server gets
    everything within two heartbeats ([queue_drains]). *)

From stdpp Require Import gmap.
From S2P Require Import Prelude HttpDiag HttpDiagFacts ManagedConfig ManagedConfigFacts.
From S2P Require Import Provisioning ProvisioningFacts IdentityFacts MinisHttp MinisHttpFacts Alerts.

#[local] Open Scope nat_scope.

(** ** The form *)

Lemma appendFormEncoded_text s t : NUL ∉ s -> forall out,
  appendFormEncoded out (s ++ NUL :: t) = Some (out ++ (s ≫= form_byte)).
Proof.
  induction s as [|b s IH]; intros Hs out; [by rewrite app_nil_r|].
  apply not_elem_of_cons in Hs as [Hb Hs]. cbn [app appendFormEncoded mbind list_bind].
  destruct (eqb_spec b NUL); [by subst|]. rewrite IH by done. by rewrite <- app_assoc.
Qed.

(** A character that ends neither a name, nor a value. *)
Definition form_plain (b : byte) : bool := negb (Byte.eqb b AMPERSAND || Byte.eqb b EQUALS).

Lemma form_unreserved_plain b : form_unreserved b = true ->
  Byte.eqb b PLUS = false /\ Byte.eqb b PERCENT = false /\ form_plain b = true.
Proof.
  intros H. pose proof (all_bytes_all (fun b => implb (form_unreserved b)
    (negb (Byte.eqb b PLUS) && negb (Byte.eqb b PERCENT) && form_plain b)) ltac:(by vm_compute) b) as E.
  cbv beta in E. rewrite H in E. simpl in E.
  by repeat (apply andb_prop in E as [E ?]); repeat match goal with H : negb _ = true |- _ => apply negb_true_iff in H end.
Qed.

Lemma form_byte_plain b : forallb form_plain (form_byte b) = true.
Proof. exact (all_bytes_all (fun b => forallb form_plain (form_byte b)) ltac:(by vm_compute) b). Qed.

Lemma form_text_plain s : forallb form_plain (s ≫= form_byte) = true.
Proof.
  induction s as [|b s IH]; [done|]. cbn [mbind list_bind]. by rewrite forallb_app, form_byte_plain.
Qed.

(** A value is decoded to what was encoded. *)
Lemma form_decode_encode s : form_decode (s ≫= form_byte) = Some s.
Proof.
  induction s as [|b s IH]; [done|]. cbn [mbind list_bind]. unfold form_byte at 1.
  destruct (form_unreserved b) eqn:E.
  - apply form_unreserved_plain in E as (E1 & E2 & _). cbn [app form_decode]. rewrite E1, E2.
    cbn [negb]. by rewrite IH.
  - destruct (eqb_spec b SP) as [->|Hb].
    + cbn [app form_decode]. change (Byte.eqb PLUS PLUS) with true. cbn iota. by rewrite IH.
    + cbn [app form_decode]. destruct (hex_digits b) as (-> & -> & _).
      change (Byte.eqb PERCENT PLUS) with false. change (Byte.eqb PERCENT PERCENT) with true.
      cbn [negb mbind option_bind]. rewrite IH. cbn [fmap option_fmap option_map].
      rewrite <- N.div_mod by done. unfold byte_of. by rewrite Byte.of_to_N.
Qed.

Lemma not_in_plain c s : (forall b, form_plain b = true -> b <> c) -> forallb form_plain s = true -> c ∉ s.
Proof.
  intros Hc Hs Hin%list_elem_of_In. rewrite forallb_forall in Hs. by apply (Hc c (Hs c Hin)).
Qed.

Lemma plain_ampersand s : forallb form_plain s = true -> AMPERSAND ∉ s.
Proof. apply not_in_plain. by intros b Hb ->. Qed.

Lemma plain_equals s : forallb form_plain s = true -> EQUALS ∉ s.
Proof. apply not_in_plain. by intros b Hb ->. Qed.

(** A field as it is written. *)
Definition field_text (f : list byte * list byte) : list byte := f.1 ++ [EQUALS] ++ (f.2 ≫= form_byte).

Lemma index_app_notin c s t : c ∉ s -> index c (s ++ c :: t) = Some (length s).
Proof.
  induction s as [|b s IH]; intros Hs; cbn [app index length].
  - by rewrite Byte.byte_dec_lb.
  - apply not_elem_of_cons in Hs as [Hb Hs]. destruct (eqb_spec b c); [by subst|]. by rewrite IH.
Qed.

Lemma form_field_text f : forallb form_plain f.1 = true -> form_field (field_text f) = Some f.
Proof.
  intros Hf. unfold form_field, field_text. cbn [app]. rewrite index_app_notin by by apply plain_equals.
  cbn [mbind option_bind].
  replace (S (length f.1)) with (length (f.1 ++ [EQUALS])) by (rewrite length_app; simpl; lia).
  replace (f.1 ++ EQUALS :: (f.2 ≫= form_byte)) with ((f.1 ++ [EQUALS]) ++ (f.2 ≫= form_byte))
    by by rewrite <- app_assoc.
  rewrite drop_app_length, form_decode_encode. cbn [mbind option_bind].
  rewrite <- app_assoc, take_app_length. by destruct f.
Qed.

Lemma split_plain c s : c ∉ s -> split_at_byte c s = [s].
Proof.
  induction s as [|b s IH]; intros Hs; [done|]. apply not_elem_of_cons in Hs as [Hb Hs].
  cbn [split_at_byte]. destruct (eqb_spec b c); [by subst|]. by rewrite IH.
Qed.

Lemma split_app c s t : c ∉ s -> split_at_byte c (s ++ c :: t) = s :: split_at_byte c t.
Proof.
  induction s as [|b s IH]; intros Hs; cbn [app split_at_byte].
  - by rewrite Byte.byte_dec_lb.
  - apply not_elem_of_cons in Hs as [Hb Hs]. destruct (eqb_spec b c); [by subst|]. by rewrite IH.
Qed.

(** The fields with their separators. *)
Fixpoint form_text (fs : list (list byte * list byte)) : list byte :=
  match fs with
  | [] => []
  | [f] => field_text f
  | f :: fs' => field_text f ++ [AMPERSAND] ++ form_text fs'
  end.

Lemma field_no_ampersand f : forallb form_plain f.1 = true -> AMPERSAND ∉ field_text f.
Proof.
  intros Hf. unfold field_text. rewrite !not_elem_of_app. split_and!; [by apply plain_ampersand| |].
  - by intros ?%list_elem_of_singleton.
  - apply plain_ampersand, form_text_plain.
Qed.

Lemma parse_form_text f fs : Forall (fun f => forallb form_plain f.1 = true) (f :: fs) ->
  parse_form (form_text (f :: fs)) = Some (f :: fs).
Proof.
  unfold parse_form. revert f. induction fs as [|g fs IH]; intros f HF; inversion HF as [|? ? Hf HF']; subst.
  - cbn [form_text]. rewrite split_plain by by apply field_no_ampersand. cbn [mapM]. by rewrite form_field_text.
  - change (form_text (f :: g :: fs)) with (field_text f ++ AMPERSAND :: form_text (g :: fs)).
    rewrite split_app by by apply field_no_ampersand. cbn [mapM]. rewrite form_field_text by done.
    cbn [mbind option_bind]. by rewrite IH.
Qed.

(** ** From the arguments to the body *)

Lemma field_text_nonempty f t : field_text f ++ t <> [].
Proof. unfold field_text. by destruct f as [[|] ?]. Qed.

Lemma form_text_snoc fs f : form_text (fs ++ [f]) =
  (if decide (fs = []) then [] else form_text fs ++ [AMPERSAND]) ++ field_text f.
Proof.
  induction fs as [|g fs IH]; [done|]. rewrite decide_False by done. destruct fs as [|h fs]; [by cbn [form_text app]; rewrite <- app_assoc|].
  change (form_text ((g :: h :: fs) ++ [f])) with (field_text g ++ [AMPERSAND] ++ form_text ((h :: fs) ++ [f])).
  rewrite IH, decide_False by done.
  change (form_text (g :: h :: fs)) with (field_text g ++ [AMPERSAND] ++ form_text (h :: fs)).
  by rewrite <- !app_assoc.
Qed.

(** One more field at the end of a form. *)
Lemma appendFormField_text fs name v t : NUL ∉ v ->
  appendFormField (form_text fs) name (v ++ NUL :: t) = Some (form_text (fs ++ [(name, v)])).
Proof.
  intros Hv. unfold appendFormField. rewrite appendFormEncoded_text by done. rewrite form_text_snoc.
  unfold field_text. cbn [fst snd]. f_equal. destruct fs as [|f fs];
    [rewrite bool_decide_true, decide_True by done; cbn [form_text app]; by rewrite <- app_assoc|].
  assert (form_text (f :: fs) <> []).
  { destruct fs; cbn [form_text]; [rewrite <- (app_nil_r (field_text f))|]; apply field_text_nonempty. }
  rewrite bool_decide_false, decide_False by done. by rewrite <- !app_assoc.
Qed.

(** Five fields with their texts make a body that is read back. *)
Lemma alert_body_fields sid l t m g tl tt tm tg clear :
  NUL ∉ sid -> NUL ∉ l -> NUL ∉ t -> NUL ∉ m -> NUL ∉ g -> exists body,
  alert_body sid (mkAlert (l ++ NUL :: tl) (t ++ NUL :: tt) (m ++ NUL :: tm) (g ++ NUL :: tg) clear) = Some body /\
  parse_form body = Some [(bytes "sid", sid); (bytes "alert_level", l); (bytes "alert_title", t);
    (bytes "alert_message", m); (bytes "alert_tag", g)].
Proof.
  intros. eexists. split; [|by apply parse_form_text; repeat constructor].
  unfold alert_body. cbn [al_level al_title al_message al_tag]. change (@nil byte) with (form_text []) at 1.
  by repeat (rewrite appendFormField_text by done; cbn [mbind option_bind app]).
Qed.

(** A string that [strlcpy] has cut to its array. *)
Lemma strlcpy_cut size m s : c_string m = Some s -> 0 < size -> exists t,
  strlcpy size m 0 = Some (take (size - 1) s ++ NUL :: t) /\ length t = size - 1 - length (take (size - 1) s).
Proof.
  intros Hs Hz. unfold strlcpy. rewrite drop_0, Hs. cbn [mbind option_bind]. set (u := take (size - 1) s).
  assert (Hu : length u <= size - 1) by (subst u; rewrite length_take; lia).
  rewrite store_prefix by lia. exists (zeros (size - 1 - length u)).
  replace (size - length u) with (S (size - 1 - length u)) by lia.
  split; [done|]. unfold zeros. by rewrite length_replicate.
Qed.

Lemma c_string_no_nul m s : c_string m = Some s -> NUL ∉ s.
Proof.
  revert s. induction m as [|b m IH]; intros s E; [done|]. cbn [c_string] in E.
  destruct (eqb_spec b NUL) as [->|Hb]; [injection E as <-; apply not_elem_of_nil|].
  destruct (c_string m) as [s'|]; [|done]. injection E as <-.
  apply not_elem_of_cons. split; [congruence|by apply IH].
Qed.

Lemma not_elem_take {A} (x : A) n l : x ∉ l -> x ∉ take n l.
Proof. intros Hx Hin. apply Hx. by eapply elem_of_take in Hin as (i & Hi & _); eapply list_elem_of_lookup_2. Qed.

(** The levels an alert can have. *)
Definition level_name (s : list byte) : option (list byte) :=
  if decide (s = bytes "info") then Some (bytes "info")
  else if decide (s ∈ [bytes "warn"; bytes "warning"]) then Some (bytes "warn")
  else if decide (s ∈ [bytes "critical"; bytes "error"]) then Some (bytes "critical") else None.

Lemma normalizedLevel_name m s : c_string m = Some s -> normalizedLevel m = Some (level_name s).
Proof.
  intros Hs. assert (Hat : str_at m 0 s) by (unfold str_at; by rewrite drop_0).
  unfold normalizedLevel, level_name, or_else.
  assert (Hq : forall key, NUL ∉ key -> strcmp_eq m 0 key = Some (bool_decide (s = key)))
    by (intros key Hk; by apply strcmp_eq_decide).
  rewrite !Hq by by apply index_None. cbn [mbind option_bind].
  destruct (decide (s = bytes "info")) as [->|N1]; [done|]. rewrite bool_decide_false by done.
  destruct (decide (s = bytes "warn")) as [->|N2]; [done|]. rewrite (bool_decide_false (s = bytes "warn")) by done.
  destruct (decide (s = bytes "warning")) as [->|N3]; [done|]. rewrite (bool_decide_false (s = bytes "warning")) by done.
  destruct (decide (s = bytes "critical")) as [->|N4]; [done|]. rewrite (bool_decide_false (s = bytes "critical")) by done.
  destruct (decide (s = bytes "error")) as [->|N5]; [done|]. rewrite (bool_decide_false (s = bytes "error")) by done.
  rewrite !decide_False; [done|..]; intros [|[|[]%elem_of_nil]%elem_of_cons]%elem_of_cons; done.
Qed.

Lemma level_name_short s name : level_name s = Some name -> length name <= ALERT_LEVEL_SIZE - 1 /\ NUL ∉ name.
Proof.
  unfold level_name. intros H. repeat case_decide; try done; injection H as <-;
    (split; [by vm_compute; lia|by apply index_None]).
Qed.

(** A pointer and the string it points to; null pointers have none. *)
Definition points_to (p s : option (list byte)) : Prop :=
  match p, s with
  | Some m, Some s => c_string m = Some s
  | None, None => True
  | _, _ => False
  end.

(** Every array holds a string. *)
Definition alert_ok (a : QueuedAlert) : Prop :=
  NUL ∈ al_level a /\ NUL ∈ al_title a /\ NUL ∈ al_message a /\ NUL ∈ al_tag a.

Lemma copy_field_cut size p s : points_to p s -> 0 < size -> exists t,
  copy_field size p = Some (take (size - 1) (default [] s) ++ NUL :: t).
Proof.
  intros Hp Hz. destruct p as [m|], s as [s|]; try done; cbn [copy_field default].
  - destruct (strlcpy_cut size m s Hp Hz) as (t & -> & _). by exists t.
  - exists (zeros (size - 1)). destruct size as [|n]; [lia|]. rewrite take_nil. cbn. by rewrite Nat.sub_0_r.
Qed.

Lemma points_to_no_nul p s : points_to p s -> NUL ∉ default [] s.
Proof.
  destruct p as [m|], s as [s|]; try done; cbn; [by apply c_string_no_nul|intros _; apply not_elem_of_nil].
Qed.

(** What [queueAlert] builds of its arguments. *)
Lemma build_alert_spec pl pt pm pg l t m g : points_to pl l -> points_to pt t -> points_to pm m -> points_to pg g ->
  (build_alert pl pt pm pg = Some None /\ (l = None \/ m = None \/ m = Some [] \/ l ≫= level_name = None)) \/
  exists name msg tl tt tm tg, l ≫= level_name = Some name /\ m = Some msg /\ msg <> [] /\
    build_alert pl pt pm pg = Some (Some (mkAlert (name ++ NUL :: tl)
      (take (ALERT_TITLE_SIZE - 1) (default [] t) ++ NUL :: tt)
      (take (ALERT_MESSAGE_SIZE - 1) msg ++ NUL :: tm)
      (take (ALERT_TAG_SIZE - 1) (default [] g) ++ NUL :: tg) false)).
Proof.
  intros Hl Ht Hm Hg. unfold build_alert.
  destruct pl as [pl|], l as [l|]; try done; [|left; by split; [|left]].
  destruct pm as [pm|], m as [m|]; try done; [|left; by split; [|right; left]].
  cbn in Hl, Hm. destruct pm as [|b pm]; [done|]. cbn [lookup list_lookup mbind option_bind].
  assert (Hb : Byte.eqb b NUL = bool_decide (m = [])).
  { cbn [c_string] in Hm. destruct (Byte.eqb b NUL); [by injection Hm as <-|].
    destruct (c_string pm); [|done]. by injection Hm as <-. }
  rewrite Hb. destruct (bool_decide_reflect (m = [])) as [->|Hne]; [left; split; [done|tauto]|].
  rewrite (normalizedLevel_name _ _ Hl). cbn [mbind option_bind].
  destruct (level_name l) as [name|] eqn:En; [right|left; split; [done|tauto]].
  destruct (level_name_short _ _ En) as [Hs Hn].
  destruct (strlcpy_cut ALERT_LEVEL_SIZE (name ++ [NUL]) name) as (tl & -> & _);
    [by apply c_string_text|unfold ALERT_LEVEL_SIZE; lia|].
  destruct (copy_field_cut ALERT_TITLE_SIZE pt t Ht) as (tt & ->); [unfold ALERT_TITLE_SIZE; lia|].
  destruct (strlcpy_cut ALERT_MESSAGE_SIZE (b :: pm) m Hm) as (tm & -> & _); [unfold ALERT_MESSAGE_SIZE; lia|].
  destruct (copy_field_cut ALERT_TAG_SIZE pg g Hg) as (tg & ->); [unfold ALERT_TAG_SIZE; lia|].
  cbn [mbind option_bind]. rewrite (take_ge name) by done. by exists name, m, tl, tt, tm, tg.
Qed.

(** C20: What an alert says reaches the server: for C strings (or null pointers) as
    arguments [queueAlert] stays inside its arrays and rejects exactly an alert
    without a level it knows or without a message; the form posted for an accepted one
    is read by a server as the name of the device, the level and the title, message
    and tag, each cut to its array, whatever characters they have. *)
Theorem alert_roundtrip sid pl pt pm pg l t m g : NUL ∉ sid ->
  points_to pl l -> points_to pt t -> points_to pm m -> points_to pg g ->
  exists r, build_alert pl pt pm pg = Some r /\
  match r with
  | None => l = None \/ m = None \/ m = Some [] \/ l ≫= level_name = None
  | Some a => exists name msg body, l ≫= level_name = Some name /\ m = Some msg /\ msg <> [] /\
      alert_body sid a = Some body /\
      parse_form body = Some [(bytes "sid", sid); (bytes "alert_level", name);
        (bytes "alert_title", take 96 (default [] t)); (bytes "alert_message", take 256 msg);
        (bytes "alert_tag", take 48 (default [] g))]
  end.
Proof.
  intros Hsid Hl Ht Hm Hg.
  destruct (build_alert_spec pl pt pm pg l t m g Hl Ht Hm Hg)
    as [[-> Hr]|(name & msg & tl & tt & tm & tg & En & -> & Hne & ->)]; [by eexists|].
  eexists. split; [done|].
  destruct (alert_body_fields sid name (take 96 (default [] t)) (take 256 msg) (take 48 (default [] g))
    tl tt tm tg false Hsid) as (body & Hb & Hp).
  - destruct l as [l|]; [|done]. by eapply level_name_short.
  - by eapply not_elem_take, points_to_no_nul.
  - apply not_elem_take. by apply points_to_no_nul in Hm.
  - by eapply not_elem_take, points_to_no_nul.
  - by exists name, msg, body.
Qed.

Lemma alert_roundtrip_witness : exists r,
  build_alert (Some (bytes "warning" ++ [NUL])) None (Some (bytes "50% & more" ++ [NUL])) (Some (bytes "t=1" ++ [NUL])) = Some r /\
  match r with
  | None => Some (bytes "warning") = None \/ Some (bytes "50% & more") = None \/ Some (bytes "50% & more") = Some [] \/
      Some (bytes "warning") ≫= level_name = None
  | Some a => exists name msg body, Some (bytes "warning") ≫= level_name = Some name /\
      Some (bytes "50% & more") = Some msg /\ msg <> [] /\
      alert_body (bytes "12345678") a = Some body /\
      parse_form body = Some [(bytes "sid", bytes "12345678"); (bytes "alert_level", name);
        (bytes "alert_title", take 96 (default [] None)); (bytes "alert_message", take 256 msg);
        (bytes "alert_tag", take 48 (default [] (Some (bytes "t=1"))))]
  end.
Proof. apply alert_roundtrip; try reflexivity. by apply index_None. Defined.

Example demo_alert_body : build_alert (Some (bytes "warning" ++ [NUL])) None (Some (bytes "50% & more" ++ [NUL]))
    (Some (bytes "t=1" ++ [NUL])) ≫= (fun r => r ≫= alert_body (bytes "12345678")) =
  Some (bytes "sid=12345678&alert_level=warn&alert_title=&alert_message=50%25+%26+more&alert_tag=t%3D1").
Proof. by vm_compute. Qed.

(** ** A post *)

Lemma appendFormEncoded_total v : NUL ∈ v -> forall out, is_Some (appendFormEncoded out v).
Proof.
  induction v as [|b v IH]; intros Hv out; [by apply not_elem_of_nil in Hv|]. cbn [appendFormEncoded].
  destruct (eqb_spec b NUL); [done|]. apply elem_of_cons in Hv as [Hv|Hv]; [congruence|by apply IH].
Qed.

Lemma alert_body_total sid a : alert_ok a -> is_Some (alert_body sid a).
Proof.
  intros (H1 & H2 & H3 & H4). unfold alert_body, appendFormField.
  edestruct (appendFormEncoded_total (sid ++ [NUL])) as [? ->]; [by apply elem_of_app; right; left|]. cbn [mbind option_bind].
  edestruct (appendFormEncoded_total _ H1) as [? ->]. cbn [mbind option_bind].
  edestruct (appendFormEncoded_total _ H2) as [? ->]. cbn [mbind option_bind].
  edestruct (appendFormEncoded_total _ H3) as [? ->]. cbn [mbind option_bind].
  by apply appendFormEncoded_total.
Qed.

Lemma performAlertPost_total sid a x : alert_ok a -> exists status, performAlertPost sid a x = Some status.
Proof.
  intros Ha. unfold performAlertPost. destruct (negb (ex_wifi x)); [by eexists|].
  destruct (negb (tlsMemoryAvailable _ _)); [by eexists|].
  destruct (alert_body_total sid a Ha) as [body ->]. cbn [mbind option_bind].
  destruct (negb _); [by eexists|]. destruct (sv_answer (ex_server x)) as [|[b|] s] eqn:Es; try by eexists.
  rewrite <- Es. destruct (readBytesUntil LF (LINE_SIZE - 1) (sv_answer (ex_server x))) as [bs s'] eqn:E.
  destruct (readBytesUntil_length _ _ _ _ _ E) as [Hl _]. unfold LINE_SIZE in Hl.
  rewrite line_array_ok by lia. cbn [mbind option_bind]. apply parseHttpStatus_total.
  rewrite length_app. lia.
Qed.

(** ** The order of delivery *)

(** [attempts ps l r]: the posts [ps] are attempts at the alerts [l] in their order,
    each tried until it is answered 200; [r] is left. *)
Inductive attempts : list (QueuedAlert * Z) -> list QueuedAlert -> list QueuedAlert -> Prop :=
  | attempts_none l : attempts [] l l
  | attempts_failed a z ps l r : z <> 200%Z -> attempts ps (a :: l) r -> attempts ((a, z) :: ps) (a :: l) r
  | attempts_done a ps l r : attempts ps l r -> attempts ((a, 200%Z) :: ps) (a :: l) r.

Lemma attempts_more ps l r b : attempts ps l r -> attempts ps (l ++ [b]) (r ++ [b]).
Proof. induction 1; cbn [app]; by constructor. Qed.

Lemma attempts_fail ps l a r z : attempts ps l (a :: r) -> z <> 200%Z -> attempts (ps ++ [(a, z)]) l (a :: r).
Proof.
  intros H Hz. remember (a :: r) as ar eqn:E. induction H; subst; cbn [app]; constructor; auto; constructor.
Qed.

Lemma attempts_succeed ps l a r : attempts ps l (a :: r) -> attempts (ps ++ [(a, 200%Z)]) l r.
Proof.
  intros H. remember (a :: r) as ar eqn:E. induction H; subst; cbn [app]; constructor; auto; constructor.
Qed.

(** The alerts answered 200, in the order of their posts. *)
Definition acknowledged (ps : list (QueuedAlert * Z)) : list QueuedAlert :=
  fst <$> List.filter (fun p => p.2 =? 200)%Z ps.

Lemma attempts_split ps l r : attempts ps l r -> l = acknowledged ps ++ r.
Proof.
  induction 1 as [|a z ps l r Hz H IH|a ps l r H IH]; [done| |].
  - unfold acknowledged in *. cbn [List.filter snd]. by rewrite (proj2 (Z.eqb_neq _ _)).
  - unfold acknowledged in *. cbn [List.filter snd]. rewrite Z.eqb_refl. cbn. by f_equal.
Qed.

Section Delivery.
Context {Q F : Type} `{AlertQueueLaws Q} `{FileSystemLaws F}.
Context (sid : list byte).
Implicit Types (s : Plane Q * (F * list F)) (x : Exchange).

(** Alerts other tasks may queue. *)
Definition queueable (a : QueuedAlert) : Prop := alert_ok a /\ clearConfigAppliedNotice a = false.

(** What may be in the queue: only the notice clears the marker. *)
Definition known (a : QueuedAlert) : Prop :=
  alert_ok a /\ (clearConfigAppliedNotice a = true -> notice = Some a).

Lemma queueable_known a : queueable a -> known a.
Proof. intros [Ha Hc]. split; [done|]. by rewrite Hc. Qed.

(** The state between two steps; [d] is an alert that has been delivered and is
    still at the head of the queue. *)
Record delivering (d : option QueuedAlert) s : Prop := {
  dl_queue : exists q r, alertQueue s.1 = Some q /\ contents q = option_list d ++ r /\
    attempts (posts s.1) (accepted s.1) r;
  dl_known : Forall known (accepted s.1);
  dl_head : forall a, d = Some a -> known a /\ (a, 200%Z) ∈ posts s.1
}.

Lemma delivering_known s q : delivering None s -> alertQueue s.1 = Some q -> Forall known (contents q).
Proof.
  intros [(q' & r & Hq & Hc & Ha) HF _] Hq'. rewrite Hq' in Hq. injection Hq as <-. cbn in Hc.
  rewrite Hc. apply attempts_split in Ha. rewrite Ha in HF. by apply List.Forall_app in HF as [_ ?].
Qed.

Lemma wp_send_to d a q s : delivering d s -> alertQueue s.1 = Some q -> known a ->
  wp (send_to a q) (fun ok s' => delivering d s' /\ s'.2 = s.2 /\ posts s'.1 = posts s.1 /\
    (length (contents q) < ALERT_QUEUE_DEPTH -> ok = true /\ a ∈ accepted s'.1)) s.
Proof.
  intros [(q' & r & Hq & Hc & Ha) HF Hh] Hq' Hk. rewrite Hq' in Hq. injection Hq as <-.
  unfold send_to. destruct (xQueueSend a q) as [ok q2] eqn:E.
  apply wp_bind, wp_modify, wp_ret. cbn [fst snd].
  destruct (decide (length (contents q) < ALERT_QUEUE_DEPTH)) as [Hr|Hr].
  - destruct (send_room a q Hr) as [E1 E2]. rewrite E in E1, E2. cbn in E1, E2. subst ok.
    split_and!; try done; [|intros _; split; [done|cbn; set_solver]]. constructor; cbn; [|by apply Forall_app_2; [|constructor]|done].
    exists q2, (r ++ [a]). rewrite E2, Hc, <- app_assoc. split_and!; [done..|by apply attempts_more].
  - destruct (send_full a q) as [E1 E2]; [lia|]. rewrite E in E1, E2. cbn in E1, E2. subst ok.
    split_and!; try done. constructor; cbn; rewrite ?app_nil_r; [|done..].
    exists q2, r. by rewrite E2.
Qed.

Lemma wp_enqueue d a s : delivering d s -> known a ->
  wp (enqueue a) (fun _ s' => delivering d s' /\ s'.2 = s.2 /\ posts s'.1 = posts s.1) s.
Proof.
  intros Hd Hk. destruct (dl_queue _ _ Hd) as (q & r & Hq & _). unfold enqueue, plane.
  apply wp_bind, wp_gets. rewrite Hq. apply wp_bind.
  eapply wp_conseq; [by apply (wp_send_to d)|]. intros ok s1 (D1 & D2 & D3 & _).
  apply wp_bind, wp_when; [intros _; apply wp_modify|intros _]; apply wp_ret; [|done].
  split_and!; [|done..]. destruct D1. by constructor.
Qed.

Lemma wp_others d xs s : delivering d s -> Forall queueable xs ->
  wp (for_each xs (fun a => _ <- enqueue (Q := Q) (F := F) a;; ret tt))
    (fun _ s' => delivering d s' /\ s'.2 = s.2 /\ posts s'.1 = posts s.1) s.
Proof.
  intros Hd HF. revert s Hd. induction HF as [|a xs Ha _ IH]; intros s Hd; [by apply wp_ret|].
  cbn [for_each]. apply wp_bind, wp_bind. eapply wp_conseq; [by apply (wp_enqueue d), queueable_known|].
  intros ok s1 (D1 & D2 & D3). apply wp_ret. eapply wp_conseq; [by apply IH|].
  cbn. intros _ s2 (D4 & -> & ->). by rewrite D2, D3.
Qed.

(** ** The notice *)

Definition marked (g : F) : Prop := fs_read CONFIG_APPLIED_NOTICE_PATH g <> None.

Variable f0 : F.

(** If the marker was there at first, it has been there all the time, or the server
    has the notice. *)
Definition told s : Prop :=
  marked f0 -> (forall g, g ∈ s.2.1 :: s.2.2 -> marked g) \/ exists a, notice = Some a /\ (a, 200%Z) ∈ posts s.1.

Lemma told_posts s s' : told s -> s'.2 = s.2 -> posts s'.1 = posts s.1 -> told s'.
Proof. unfold told. by intros Ht -> ->. Qed.

Lemma told_post s s' p : told s -> s'.2 = s.2 -> posts s'.1 = posts s.1 ++ [p] -> told s'.
Proof.
  unfold told. intros Ht -> -> Hm. destruct (Ht Hm) as [Ht'|(a & Ha & Hp)]; [by left|right]. exists a. split; [done|]. set_solver.
Qed.

Lemma wp_clear_notice s :
  wp (clear_notice (Q := Q)) (fun _ s' => s'.1 = s.1) s.
Proof.
  unfold clear_notice, on_files, bind, when, ret, exists_file, gets, act, wp. destruct s as [p [f log]]. cbn [fst snd].
  destruct (fs_read _ f); [|done]. cbn [fst snd]. by destruct (fs_remove _ f) as [b g].
Qed.

Lemma wp_take_delivered a s : delivering (Some a) s -> told s ->
  wp take_delivered (fun r s' => r = Sent /\ delivering None s' /\ told s' /\ posts s'.1 = posts s.1 /\
    notifications s'.1 = notifications s.1 /\
    forall q, alertQueue s.1 = Some q -> exists q', alertQueue s'.1 = Some q' /\ contents q' = tail (contents q)) s.
Proof.
  intros [(q & r & Hq & Hc & Ha) HF Hh] Ht. unfold take_delivered, plane. apply wp_bind, wp_gets. rewrite Hq.
  destruct (receive_head q) as [E1 E2]. destruct (xQueueReceive q) as [b q']. cbn in E1, E2, Hc.
  rewrite Hc in E1, E2. cbn in E1, E2. subst b. apply wp_bind, wp_modify.
  set (s1 := (_ : Plane Q, s.2)).
  assert (Hd : delivering None s1) by (constructor; [exists q', r; by cbn|done|done]).
  assert (Hq1 : forall q2, Some q = Some q2 -> exists q3, alertQueue s1.1 = Some q3 /\ contents q3 = tail (contents q2))
    by (intros q2 [= <-]; exists q'; by rewrite Hc).
  apply wp_bind, wp_when; [intros Hn|intros _; by apply wp_ret].
  destruct (Hh a eq_refl) as [[_ Hnote] Hp]. eapply wp_conseq; [apply wp_clear_notice|].
  intros u s2 E. cbn beta in E. apply wp_ret. rewrite E. split_and!; try done.
  - destruct Hd. constructor; by rewrite ?E.
  - intros _. right. exists a. split; [by apply Hnote|by rewrite E].
Qed.

Lemma wp_sendNext x s : delivering None s -> told s -> Forall queueable (ex_others x) ->
  wp (sendNextQueuedAlert sid x) (fun r s' => is_Some r /\ delivering None s' /\ told s') s.
Proof.
  intros Hd Ht Hx. destruct (dl_queue _ _ Hd) as (q & r & Hq & Hc & Ha).
  pose proof (delivering_known s q Hd Hq) as HF. unfold sendNextQueuedAlert, plane. apply wp_bind, wp_gets. rewrite Hq.
  rewrite peek_head. destruct (contents q) as [|a rest] eqn:Ec; cbn [head]; [by apply wp_ret|].
  inversion HF as [|? ? Hk HF']; subst. destruct (performAlertPost_total sid a x) as [status ->]; [by destruct Hk|].
  apply wp_bind, wp_modify. set (s1 := (_ : Plane Q, s.2)). cbn in Hc. subst r.
  assert (Hs : told s1) by by eapply told_post.
  destruct (Z.eqb_spec status 200) as [E|E]; cbn [negb].
  - subst status. assert (Hd1 : delivering (Some a) s1).
    { constructor; [|by destruct Hd|intros b [= <-]; split; [done|cbn; set_solver]].
      exists q, rest. split_and!; [done..|by apply attempts_succeed]. }
    apply wp_bind. eapply wp_conseq; [by apply (wp_others _ _ _ Hd1)|]. intros _ s2 (D1 & D2 & D3).
    apply wp_bind. eapply wp_conseq; [apply (wp_take_delivered a _ D1); by eapply told_posts|].
    intros r2 s3 (-> & D4 & D5 & _). by apply wp_ret.
  - assert (Hd1 : delivering None s1).
    { constructor; [|by destruct Hd|done]. exists q, (a :: rest). split_and!; [done..|by apply attempts_fail]. }
    apply wp_bind. eapply wp_conseq; [by apply (wp_others _ _ _ Hd1)|]. intros _ s2 (D1 & D2 & D3).
    apply wp_ret. split_and!; [done..|by eapply told_posts].
Qed.

(** Changing the notifications changes nothing of this. *)
Lemma delivering_notified d n s : delivering d s -> delivering d (s.1 <| notifications := n |>, s.2).
Proof. intros []. by constructor. Qed.

Lemma wp_wake x s : delivering None s -> told s -> Forall queueable (ex_others x) ->
  wp (wake sid x) (fun r s' => is_Some r /\ delivering None s' /\ told s') s.
Proof.
  intros Hd Ht Hx. unfold wake, plane. apply wp_bind, wp_gets, wp_if; [intros _|intros _; by apply wp_ret].
  apply wp_bind, wp_modify, wp_bind. eapply wp_conseq; [apply wp_sendNext; [by apply delivering_notified|done|done]|].
  intros r s1 ([r' ->] & D1 & D2). destruct r'; [by apply wp_ret..|].
  apply wp_bind, wp_modify, wp_ret. split_and!; [done|by apply delivering_notified|done].
Qed.

Lemma wp_beat x s : delivering None s -> told s -> Forall queueable (ex_others x) ->
  wp (beat sid x) (fun r s' => is_Some r /\ delivering None s' /\ told s') s.
Proof.
  intros Hd Ht Hx. unfold beat, plane. apply wp_bind. eapply wp_conseq; [by apply wp_sendNext|].
  intros r s1 ([r' ->] & D1 & D2). destruct r'; [by apply wp_ret| |by apply wp_ret].
  apply wp_bind, wp_gets, wp_bind, wp_when; [intros _; apply wp_modify|intros _]; apply wp_ret; [|done].
  split_and!; [done|by apply delivering_notified|done].
Qed.

(** ** What happens to the queue *)

(** Another task queues an alert; the heartbeat task takes a notification, or comes to
    a heartbeat. *)
Inductive event := Queues (a : QueuedAlert) | Wakes (x : Exchange) | Beats (x : Exchange).

Definition event_ok (e : event) : Prop :=
  match e with Queues a => queueable a | Wakes x | Beats x => Forall queueable (ex_others x) end.

Definition run_event (e : event) : M (Plane Q * (F * list F)) (option unit) :=
  match e with
  | Queues a => _ <- enqueue a;; ret (Some tt)
  | Wakes x => wake sid x
  | Beats x => beat sid x
  end.

(** [None] is an access outside an array. *)
Fixpoint run_events (es : list event) (s : Plane Q * (F * list F)) : option (Plane Q * (F * list F)) :=
  match es with
  | [] => Some s
  | e :: es' => let '(r, s') := run_event e s in match r with None => None | Some _ => run_events es' s' end
  end.

Lemma run_events_ok es : Forall event_ok es -> forall s, delivering None s -> told s ->
  exists s', run_events es s = Some s' /\ delivering None s' /\ told s'.
Proof.
  induction 1 as [|e es He _ IH]; intros s Hd Ht; [by exists s|]. cbn [run_events].
  assert (Hw : wp (run_event e) (fun r s' => is_Some r /\ delivering None s' /\ told s') s).
  { destruct e as [a|x|x]; cbn [run_event event_ok] in *; [|by apply wp_wake|by apply wp_beat].
    apply wp_bind. eapply wp_conseq; [by apply (wp_enqueue None), queueable_known|].
    intros ok s1 (D1 & D2 & D3). apply wp_ret. split_and!; [done..|by eapply told_posts]. }
  unfold wp in Hw. destruct (run_event e s) as [r s']. cbn in Hw. destruct Hw as ([u ->] & D1 & D2). by apply IH.
Qed.

(** An alert that has been accepted stays so. *)
Definition grows s s' : Prop := forall a, a ∈ accepted s.1 -> a ∈ accepted s'.1.

#[local] Instance grows_preorder : PreOrder grows.
Proof. split; [by intros s a|intros s1 s2 s3 R1 R2 a Ha; by apply R2, R1]. Qed.

Definition growing {A} (m : M (Plane Q * (F * list F)) A) : Prop := forall s, wp m (fun _ s' => grows s s') s.

Lemma growing_bind {A B} (m : M (Plane Q * (F * list F)) A) (k : A -> M (Plane Q * (F * list F)) B) :
  growing m -> (forall a, growing (k a)) -> growing (bind m k).
Proof.
  intros Hm Hk s. apply wp_bind. eapply wp_conseq; [apply Hm|]. intros a s1 R1. cbn in R1.
  eapply wp_conseq; [apply Hk|]. intros b s2 R2. cbn in R2. by etransitivity.
Qed.

Lemma growing_ret {A} (a : A) : growing (ret a).
Proof. intros s. apply wp_ret. reflexivity. Qed.

Lemma growing_plane {A} (f : Plane Q -> A) : growing (plane f).
Proof. intros s. apply wp_gets. reflexivity. Qed.

Lemma growing_change f : (forall p a, a ∈ accepted p -> a ∈ accepted (f p)) -> growing (change f).
Proof. intros Hf s. apply wp_modify. intros a. apply Hf. Qed.

Lemma growing_when b m : growing m -> growing (when b m).
Proof. destruct b; [done|intros _; apply growing_ret]. Qed.

Lemma growing_enqueue a : growing (enqueue a).
Proof.
  apply growing_bind; [apply growing_plane|]. intros [q|]; [|apply growing_ret].
  apply growing_bind; [|intros ok; apply growing_bind; [by apply growing_when, growing_change|intros _; apply growing_ret]].
  unfold send_to. destruct (xQueueSend a q). apply growing_bind; [|intros _; apply growing_ret].
  apply growing_change. intros p c Hc. cbn. set_solver.
Qed.

Lemma growing_send x : growing (sendNextQueuedAlert sid x).
Proof.
  apply growing_bind; [apply growing_plane|]. intros [q|]; [|apply growing_ret].
  destruct (xQueuePeek q) as [a|]; [|apply growing_ret]. destruct (performAlertPost sid a x) as [z|]; [|apply growing_ret].
  apply growing_bind; [by apply growing_change|]. intros _. apply growing_bind.
  - intros s. apply (wp_for_each grows). intros c s1 _. apply growing_bind; [apply growing_enqueue|intros _; apply growing_ret].
  - intros _. destruct (negb _); [apply growing_ret|]. apply growing_bind; [|intros r; apply growing_ret].
    apply growing_bind; [apply growing_plane|]. intros [q'|]; [|apply growing_ret].
    destruct (xQueueReceive q') as [[d|] q2]; (apply growing_bind; [by apply growing_change|intros _]); [|apply growing_ret].
    apply growing_bind; [apply growing_when|intros _; apply growing_ret].
    intros s1. eapply wp_conseq; [apply wp_clear_notice|]. intros u s2 E. cbn beta in E. intros c. by rewrite E.
Qed.

Lemma growing_event e : growing (run_event e).
Proof.
  destruct e as [a|x|x].
  - apply growing_bind; [apply growing_enqueue|intros _; apply growing_ret].
  - apply growing_bind; [apply growing_plane|]. intros n. destruct (0 <? n); [|apply growing_ret].
    apply growing_bind; [by apply growing_change|]. intros _. apply growing_bind; [apply growing_send|].
    intros [[]|]; try apply growing_ret. apply growing_bind; [by apply growing_change|intros _; apply growing_ret].
  - apply growing_bind; [apply growing_send|]. intros [[]|]; try apply growing_ret.
    apply growing_bind; [apply growing_plane|]. intros q.
    apply growing_bind; [by apply growing_when, growing_change|intros _; apply growing_ret].
Qed.

Lemma run_events_accepted es : forall s s', run_events es s = Some s' -> grows s s'.
Proof.
  induction es as [|e es IH]; intros s s' E; cbn [run_events] in E; [injection E as <-; reflexivity|].
  pose proof (growing_event e s) as R1. unfold wp in R1. destruct (run_event e s) as [[u|] s1]; [|done].
  cbn in R1. apply IH in E. by etransitivity.
Qed.

(** The device after [startHeartbeatTask]. *)
Definition started : Plane Q * (F * list F) := ((startHeartbeatTask true true true new_plane).2, (f0, [])).

Lemma started_ok : delivering None started /\ told started.
Proof.
  split.
  - constructor; [|constructor|done]. exists xQueueCreate, []. split_and!; [done| |constructor].
    by rewrite created_empty.
  - intros Hm. left. by intros g ->%list_elem_of_singleton.
Qed.

(** C18: Alerts are delivered in order and none is lost: whatever other tasks queue,
    also while a post is under way, and whatever the server answers, the posts are
    attempts at the accepted alerts in their order, each repeated until it is answered
    200; an alert leaves the queue when it has been, and only then. *)
Theorem alerts_in_order (es : list event) : Forall event_ok es ->
  exists s' q, run_events es started = Some s' /\ alertQueue s'.1 = Some q /\
    attempts (posts s'.1) (accepted s'.1) (contents q) /\
    accepted s'.1 = acknowledged (posts s'.1) ++ contents q.
Proof.
  intros He. destruct started_ok as [Hd Ht].
  destruct (run_events_ok es He started Hd Ht) as (s' & E & [(q & r & Hq & Hc & Ha) _ _] & _).
  cbn in Hc. subst r. exists s', q. by split_and!; [..|by apply attempts_split].
Qed.

Lemma notice_known : exists a, notice = Some a /\ known a.
Proof.
  eexists. split; [by vm_compute|]. split; [|done].
  repeat split; apply (bool_decide_unpack _); by vm_compute.
Qed.

Lemma queue_notice : marked f0 ->
  wp queueConfigAppliedNoticeIfNeeded (fun r s' => r = Some true /\ delivering None s' /\ told s' /\
    exists a, notice = Some a /\ a ∈ accepted s'.1) started.
Proof.
  intros Hm. destruct started_ok as [Hd Ht]. destruct notice_known as (a & Hn & Hk).
  unfold queueConfigAppliedNoticeIfNeeded, plane. apply wp_bind, wp_gets, wp_bind.
  assert (E : on_files (Q := Q) (exists_file CONFIG_APPLIED_NOTICE_PATH) started = (true, started)).
  { unfold on_files, exists_file, gets, started. cbn [fst snd]. unfold marked in Hm.
    by destruct (fs_read _ f0). }
  unfold wp at 1. rewrite E. cbn [fst snd]. change (alertQueue started.1) with (Some (xQueueCreate (Q := Q))).
  cbn [negb]. rewrite Hn. apply wp_bind. eapply wp_conseq; [by apply (wp_send_to None)|].
  intros ok s' (D1 & D2 & D3 & D4). apply wp_ret. rewrite created_empty in D4.
  destruct D4 as [-> Hin]; [unfold ALERT_QUEUE_DEPTH; simpl; lia|].
  split_and!; [done..|by eapply told_posts|by exists a].
Qed.

Lemma acknowledged_post a ps : a ∈ acknowledged ps -> (a, 200%Z) ∈ ps.
Proof.
  unfold acknowledged. intros ([b z] & -> & Hin%list_elem_of_In)%list_elem_of_fmap.
  apply filter_In in Hin as [Hin Hz]. cbn in *. apply Z.eqb_eq in Hz. subst z. by apply list_elem_of_In.
Qed.

(** C19: The notice of a new configuration is not lost: when the marker is there at the
    start, the notice is queued, and as long as the server has not answered 200 to it,
    it stays in the queue, and the marker is there in every state of the files, so that
    a restart or a power failure at any moment queues it again. *)
Theorem notice_until_delivered (es : list event) : marked f0 -> Forall event_ok es ->
  exists s' q a, (queueConfigAppliedNoticeIfNeeded started).1 = Some true /\
    run_events es (queueConfigAppliedNoticeIfNeeded started).2 = Some s' /\
    notice = Some a /\ alertQueue s'.1 = Some q /\
    ((a, 200%Z) ∈ posts s'.1 \/
     a ∈ contents q /\ forall g, g ∈ s'.2.1 :: s'.2.2 -> marked g).
Proof.
  intros Hm He. pose proof (queue_notice Hm) as Hw. unfold wp in Hw.
  destruct (queueConfigAppliedNoticeIfNeeded started) as [r s1]. cbn [fst snd] in *.
  destruct Hw as (-> & Hd & Ht & a & Hn & Hin).
  destruct (run_events_ok es He s1 Hd Ht) as (s' & E & [(q & r & Hq & Hc & Ha) _ _] & Ht').
  cbn in Hc. subst r. exists s', q, a. split_and!; [done..|].
  destruct (Ht' Hm) as [Hall|(b & Hb & Hp)]; [|left; congruence].
  assert (Hacc : a ∈ accepted s'.1) by (apply (run_events_accepted es _ _ E); exact Hin).
  rewrite (attempts_split _ _ _ Ha), elem_of_app in Hacc.
  destruct Hacc as [Hacc|Hacc]; [left; by apply acknowledged_post|by right].
Qed.

(** ** A working server *)

(** A server that answers every post with 200. *)
Definition receives x : Prop := forall a, alert_ok a -> performAlertPost sid a x = Some 200%Z.

Lemma performAlertPost_served a proto reason free largest t : alert_ok a -> tlsMemoryAvailable free largest = true ->
  SP ∉ proto -> fits (status_line proto reason) ->
  performAlertPost sid a (mkExchange true (mkServer free largest true
    (Arrives <$> (status_line proto reason ++ LF :: t))) []) = Some 200%Z.
Proof.
  intros Ha Hm Hp [Hlf Hl]. unfold performAlertPost. cbn [ex_wifi ex_server sv_freeHeap sv_largestBlock sv_connects sv_answer negb].
  rewrite Hm. cbn [negb]. destruct (alert_body_total sid a Ha) as [body ->]. cbn [mbind option_bind].
  assert (Hne : exists b u, status_line proto reason ++ LF :: t = b :: u) by (destruct (status_line proto reason); by eexists _, _).
  destruct Hne as (b & u & Hne). rewrite Hne at 1. cbn [fmap list_fmap].
  rewrite readBytesUntil_line by (done || unfold LINE_SIZE; lia). rewrite line_array_ok by lia.
  cbn [mbind option_bind]. by rewrite status_200.
Qed.

(** One post to it takes the head of the queue. *)
Lemma send_received x s q a rest : receives x -> ex_others x = [] -> alert_ok a ->
  alertQueue s.1 = Some q -> contents q = a :: rest -> exists s' q',
  sendNextQueuedAlert sid x s = (Some Sent, s') /\ alertQueue s'.1 = Some q' /\ contents q' = rest /\
  posts s'.1 = posts s.1 ++ [(a, 200%Z)] /\ notifications s'.1 = notifications s.1.
Proof.
  intros Hx Ho Ha Hq Hc.
  assert (Hw : wp (sendNextQueuedAlert sid x) (fun r s' => r = Some Sent /\ posts s'.1 = posts s.1 ++ [(a, 200%Z)] /\
    notifications s'.1 = notifications s.1 /\ exists q', alertQueue s'.1 = Some q' /\ contents q' = rest) s).
  { unfold sendNextQueuedAlert, plane. apply wp_bind, wp_gets. rewrite Hq, peek_head, Hc. cbn [head].
    rewrite Hx by done. apply wp_bind, wp_modify, wp_bind. rewrite Ho. cbn [for_each]. apply wp_ret.
    cbn [Z.eqb negb]. change (negb (200 =? 200)%Z) with false. cbn iota.
    unfold take_delivered, plane. apply wp_bind, wp_bind, wp_gets.
    match goal with |- wp match ?o with _ => _ end _ _ => change o with (alertQueue s.1) end. rewrite Hq.
    destruct (receive_head q) as [E1 E2]. destruct (xQueueReceive q) as [b q']. cbn in E1, E2.
    rewrite Hc in E1, E2. cbn in E1, E2. subst b. apply wp_bind, wp_modify.
    apply wp_bind, wp_when; [intros _|intros _; apply wp_ret, wp_ret; split_and!; [done..|by exists q']].
    eapply wp_conseq; [apply wp_clear_notice|]. intros u s' E. cbn beta in E. apply wp_ret, wp_ret.
    rewrite E. split_and!; [done..|by exists q']. }
  unfold wp in Hw. destruct (sendNextQueuedAlert sid x s) as [r s']. cbn in Hw.
  destruct Hw as (-> & Hp & Hn & q' & Hq' & Hc'). by exists s', q'.
Qed.

Lemma send_empty x s q : alertQueue s.1 = Some q -> contents q = [] ->
  sendNextQueuedAlert sid x s = (Some NothingSent, s).
Proof. intros Hq Hc. unfold sendNextQueuedAlert, plane, bind, gets. by rewrite Hq, peek_head, Hc. Qed.

(** What one wake with a notification does to the queue. *)
Lemma wake_received x s q : receives x -> ex_others x = [] -> alertQueue s.1 = Some q ->
  Forall alert_ok (contents q) -> exists s' q', wake sid x s = (Some tt, s') /\ alertQueue s'.1 = Some q' /\
  (0 < notifications s.1 -> contents q' = drop 1 (contents q) /\
     posts s'.1 = posts s.1 ++ ((fun a => (a, 200%Z)) <$> take 1 (contents q))) /\
  (contents q = [] -> contents q' = [] /\ posts s'.1 = posts s.1).
Proof.
  intros Hx Ho Hq HF. unfold wake, plane, bind at 1, gets.
  destruct (Nat.ltb_spec 0 (notifications s.1)) as [Hn|Hn].
  2:{ exists s, q. split_and!; [done..|intros; lia|done]. }
  unfold bind at 1, change, modify. set (s1 := (_ : Plane Q, s.2)).
  destruct (contents q) as [|a rest] eqn:Ec.
  - exists s1, q. unfold bind. rewrite (send_empty x s1 q) by done.
    split_and!; [done..|intros _; split; [done|by rewrite app_nil_r]|done].
  - inversion HF; subst. destruct (send_received x s1 q a rest) as (s2 & q2 & E & Hq2 & Hc2 & Hp2 & _); [done..|].
    exists s2, q2. unfold bind. rewrite E. split_and!; [done..| |done].
    intros _. cbn. by rewrite take_0.
Qed.

(** One heartbeat and the wake behind it deliver two alerts, if there are so many. *)
Lemma round_received x s q : receives x -> ex_others x = [] -> alertQueue s.1 = Some q ->
  Forall alert_ok (contents q) -> exists s' q', run_events [Beats x; Wakes x] s = Some s' /\
  alertQueue s'.1 = Some q' /\ contents q' = drop 2 (contents q) /\
  posts s'.1 = posts s.1 ++ ((fun a => (a, 200%Z)) <$> take 2 (contents q)).
Proof.
  intros Hx Ho Hq HF. cbn [run_events run_event]. destruct (contents q) as [|a rest] eqn:Ec.
  - unfold beat, bind at 1. rewrite (send_empty x s q) by done. unfold ret at 1.
    destruct (wake_received x s q) as (s2 & q2 & E & Hq2 & _ & Hc2); [done..|by rewrite Ec|].
    rewrite E. exists s2, q2. destruct (Hc2 Ec) as [-> ->]. split_and!; [done..|by rewrite app_nil_r].
  - inversion HF as [|? ? Ha HF']; subst.
    destruct (send_received x s q a rest) as (s2 & q2 & E & Hq2 & Hc2 & Hp2 & Hn2); [done..|].
    unfold beat, bind at 1. rewrite E. unfold plane, bind at 1, gets. rewrite Hq2, waiting_length, Hc2.
    destruct rest as [|b rest].
    + cbn [length Nat.ltb Nat.leb when]. unfold bind at 1, ret at 1 2.
      destruct (wake_received x s2 q2) as (s3 & q3 & E3 & Hq3 & _ & Hc3); [done..|by rewrite Hc2|].
      rewrite E3. exists s3, q3. destruct (Hc3 Hc2) as [-> ->]. by split_and!.
    + cbn [length]. change (0 <? S (length rest)) with true. cbn [when].
      unfold bind at 1, xTaskNotifyGive, change, modify, ret at 1. set (s3 := (_ : Plane Q, s2.2)).
      destruct (wake_received x s3 q2) as (s4 & q4 & E4 & Hq4 & Hc4 & _); [done..|by rewrite Hc2|].
      rewrite E4. exists s4, q4. destruct Hc4 as [Hc4 Hp4]; [subst s3; cbn; lia|].
      rewrite Hc2 in Hc4, Hp4. split_and!; [done..|]. rewrite Hp4. change (posts s3.1) with (posts s2.1).
      rewrite Hp2, <- app_assoc. by rewrite !firstn_cons, !take_0.
Qed.

Lemma run_events_app es1 es2 : forall s, run_events (es1 ++ es2) s = run_events es1 s ≫= run_events es2.
Proof.
  induction es1 as [|e es1 IH]; intros s; [done|]. cbn [app run_events].
  destruct (run_event e s) as [[u|] s']; [apply IH|done].
Qed.

(** C21: Against a server that answers 200 everything that is waiting is delivered, in
    order, within two heartbeats, whatever is left of earlier notifications; with more
    wakes in between it is delivered earlier. *)
Theorem queue_drains x s q : receives x -> ex_others x = [] -> alertQueue s.1 = Some q ->
  Forall alert_ok (contents q) -> length (contents q) <= ALERT_QUEUE_DEPTH ->
  exists s' q', run_events [Beats x; Wakes x; Beats x; Wakes x] s = Some s' /\ alertQueue s'.1 = Some q' /\
    contents q' = [] /\ posts s'.1 = posts s.1 ++ ((fun a => (a, 200%Z)) <$> contents q).
Proof.
  intros Hx Ho Hq HF Hl. unfold ALERT_QUEUE_DEPTH in Hl.
  destruct (round_received x s q Hx Ho Hq HF) as (s1 & q1 & E1 & Hq1 & Hc1 & Hp1).
  destruct (round_received x s1 q1 Hx Ho Hq1) as (s2 & q2 & E2 & Hq2 & Hc2 & Hp2);
    [rewrite Hc1; by apply Forall_drop|].
  exists s2, q2. rewrite (run_events_app [Beats x; Wakes x] [Beats x; Wakes x]), E1. cbn [mbind option_bind].
  split_and!; [done..|by rewrite Hc2, Hc1, drop_drop, drop_ge by lia|].
  rewrite Hp2, Hp1, Hc1, <- app_assoc, <- fmap_app. do 2 f_equal.
  rewrite (take_ge (drop 2 _)) by (rewrite length_drop; lia). apply take_drop.
Qed.

End Delivery.

(** ** A queue *)

#[export] Instance list_queue : AlertQueue (list QueuedAlert) := {
  xQueueCreate := [];
  xQueueSend a q := if length q <? ALERT_QUEUE_DEPTH then (true, q ++ [a]) else (false, q);
  xQueuePeek q := head q;
  xQueueReceive q := (head q, tail q);
  uxQueueMessagesWaiting q := length q
}.

#[export] Instance list_queue_laws : AlertQueueLaws (list QueuedAlert).
Proof.
  unshelve econstructor; [exact (fun q => q)|..].
  - done.
  - intros a q Hl. unfold xQueueSend, list_queue. by rewrite (proj2 (Nat.ltb_lt _ _)).
  - intros a q Hl. unfold xQueueSend, list_queue. by rewrite (proj2 (Nat.ltb_ge _ _)).
  - done.
  - done.
  - done.
Defined.

Definition demo_alert (text : string) : QueuedAlert :=
  mkAlert (bytes "info" ++ [NUL]) [NUL] (bytes text ++ [NUL]) [NUL] false.

Lemma demo_alert_queueable text : queueable (demo_alert text).
Proof. repeat split; cbn -[bytes]; set_solver. Qed.

(** A server that does not answer, one that has an error, and one that works. *)
Definition silent : Exchange := mkExchange true (mkServer 100000 40000 true []) [].
Definition failing : Exchange := mkExchange true (mkServer 100000 40000 true
  (Arrives <$> (bytes "HTTP/1.1 500 Error" ++ [CR; LF]))) [demo_alert "third"].
Definition working : Exchange := mkExchange true (mkServer 100000 40000 true
  (Arrives <$> (status_line (bytes "HTTP/1.1") (bytes " OK" ++ [CR]) ++ LF :: []))) [].

Definition demo_events : list event :=
  [Queues (demo_alert "first"); Wakes silent; Queues (demo_alert "second"); Beats failing; Beats working; Wakes working].

Lemma demo_events_ok : Forall event_ok demo_events.
Proof. repeat constructor; apply demo_alert_queueable. Qed.

Lemma alerts_in_order_witness : exists s' q,
  run_events (F := PlainFs) demo_sid demo_events (started (Q := list QueuedAlert) (mkPlain ∅)) = Some s' /\
  alertQueue s'.1 = Some q /\ attempts (posts s'.1) (accepted s'.1) (contents q) /\
  accepted s'.1 = acknowledged (posts s'.1) ++ contents q.
Proof. exact (alerts_in_order demo_sid (mkPlain ∅) demo_events demo_events_ok). Defined.

(** What the run comes to: the third alert waits. *)
Example demo_posts : exists s', run_events (F := PlainFs) demo_sid demo_events
    (started (Q := list QueuedAlert) (mkPlain ∅)) = Some s' /\
  posts s'.1 = [(demo_alert "first", (-1)%Z); (demo_alert "first", 500%Z); (demo_alert "first", 200%Z);
    (demo_alert "second", 200%Z)] /\ alertQueue s'.1 = Some [demo_alert "third"].
Proof. eexists. by vm_compute. Qed.

Definition marked_files : PlainFs := mkPlain {[ CONFIG_APPLIED_NOTICE_PATH := bytes "1.0" ]}.

Lemma notice_until_delivered_witness : marked marked_files /\ exists s' q a,
  (queueConfigAppliedNoticeIfNeeded (started (Q := list QueuedAlert) marked_files)).1 = Some true /\
  run_events demo_sid demo_events (queueConfigAppliedNoticeIfNeeded (started (Q := list QueuedAlert) marked_files)).2 = Some s' /\
  notice = Some a /\ alertQueue s'.1 = Some q /\
  ((a, 200%Z) ∈ posts s'.1 \/ a ∈ contents q /\ forall g, g ∈ s'.2.1 :: s'.2.2 -> marked g).
Proof.
  split; [by vm_compute|].
  apply (notice_until_delivered demo_sid marked_files demo_events); [by vm_compute|apply demo_events_ok].
Defined.

Lemma working_receives sid : receives sid working.
Proof.
  intros a Ha. apply (performAlertPost_served sid a (bytes "HTTP/1.1") (bytes " OK" ++ [CR]) 100000 40000 []); try done.
  - by apply index_None.
  - split; [by apply index_None|vm_compute; lia].
Qed.

Definition waiting_four : Plane (list QueuedAlert) :=
  mkPlane true true (Some (demo_alert <$> ["a"; "b"; "c"; "d"]%string)) 0 [] [].

Lemma queue_drains_witness : exists s' q',
  run_events demo_sid [Beats working; Wakes working; Beats working; Wakes working] (waiting_four, (mkPlain ∅, [])) = Some s' /\
  alertQueue s'.1 = Some q' /\ contents q' = [] /\
  posts s'.1 = [] ++ ((fun a => (a, 200%Z)) <$> contents (demo_alert <$> ["a"; "b"; "c"; "d"]%string)).
Proof.
  apply (queue_drains demo_sid working (waiting_four, (mkPlain ∅, [])) (demo_alert <$> ["a"; "b"; "c"; "d"]%string));
    [apply working_receives|done|done| |by vm_compute; lia].
  repeat constructor; try apply (proj1 (demo_alert_queueable _)); apply demo_alert_queueable.
Defined.

(** ** The life of the task's objects *)

(** [startHeartbeatTask] leaves all three objects or, when it fails for good, nothing
    it has made; after a failure it can be tried again. *)
Lemma startHeartbeatTask_all_or_none {Q} `{AlertQueue Q} c1 c2 c3 (p p' : Plane Q) ok :
  heartbeatTaskHandle p = false -> managedConfigQueue p = false -> alertQueue p = None ->
  startHeartbeatTask c1 c2 c3 p = (ok, p') ->
  ok = c1 && c2 && c3 /\ heartbeatTaskHandle p' = ok /\ managedConfigQueue p' = ok /\
  alertQueue p' = (if ok then Some xQueueCreate else None).
Proof.
  destruct p as [h m a n acc ps]. cbn. intros -> -> ->. unfold startHeartbeatTask.
  destruct c1, c2, c3; cbn; by intros [= <- <-].
Qed.

(** ** The cached interval *)

Lemma cached_interval_read n : (MIN_HEARTBEAT_INTERVAL_MIN <= n <= MAX_HEARTBEAT_INTERVAL_MIN)%Z ->
  cached_interval (interval_text n) = Some (Some n) /\ 0 < length (interval_text n) < CONFIG_BUFFER_SIZE.
Proof.
  unfold MIN_HEARTBEAT_INTERVAL_MIN, MAX_HEARTBEAT_INTERVAL_MIN. intros Hn.
  assert (Hall : forallb (fun k => let n := Z.of_nat k in bool_decide (cached_interval (interval_text n) = Some (Some n)) &&
    (0 <? length (interval_text n)) && (length (interval_text n) <? CONFIG_BUFFER_SIZE)) (seq 2 1439) = true) by by vm_compute.
  rewrite forallb_forall in Hall. specialize (Hall (Z.to_nat n)). cbv zeta in Hall. rewrite Z2Nat.id in Hall by lia.
  destruct (andb_prop _ _ (Hall ltac:(apply in_seq; lia))) as [[H1 H2]%andb_prop H3].
  apply bool_decide_eq_true in H1. apply Nat.ltb_lt in H2, H3. done.
Qed.

Section Cached.
Context {F : Type} `{FileSystemLaws F}.
Implicit Types (f g : F) (log : list F).

(** Removing another file. *)
Lemma wp_remove_other p q f log : q <> p ->
  wp (removeIfExists p) (fun _ s => fs_read q s.1 = fs_read q f) (f, log).
Proof. intros Hne. apply wp_removeIfExists. intros g log' E _ _. by apply E. Qed.

(** An interval that was stored whole is the one the next start uses. *)
Lemma cached_interval_roundtrip n k f log f' log' :
  (MIN_HEARTBEAT_INTERVAL_MIN <= n <= MAX_HEARTBEAT_INTERVAL_MIN)%Z ->
  (forall g m g', fs_write CACHED_CONFIG_TEMP_PATH (interval_text n) g = (Some m, g') -> m = length (interval_text n)) ->
  writeCachedHeartbeatInterval n (f, log) = (true, (f', log')) ->
  (loadCachedHeartbeatInterval k (f', log')).1 = Some n.
Proof.
  intros Hn Hw E. destruct (cached_interval_read n Hn) as [Hread Hlen].
  assert (Hwp : wp (writeCachedHeartbeatInterval n)
    (fun b s => b = true -> fs_read CACHED_CONFIG_PATH s.1 = Some (interval_text n)) (f, log)).
  { unfold writeCachedHeartbeatInterval. apply wp_bind. eapply wp_conseq; [by apply (wp_remove_other _ CACHED_CONFIG_PATH)|].
    intros u [f1 log1] _. apply wp_bind, wp_act. intros w g Ew. destruct w as [m|]; [|by apply wp_ret].
    pose proof (Hw _ _ _ Ew) as ->. destruct (write_ok _ _ _ _ _ Ew) as [Ht _]. rewrite take_ge in Ht by done.
    apply wp_bind. eapply wp_conseq; [by apply (wp_remove_other _ CACHED_CONFIG_TEMP_PATH)|].
    intros u2 [f2 log2] E2. cbn in E2. rewrite Ht in E2. apply wp_bind. unfold exists_file. apply wp_gets.
    set (had := match _ with Some _ => true | None => false end). apply wp_bind.
    assert (Hs : wp (if had then act (fs_rename CACHED_CONFIG_PATH CACHED_CONFIG_BACKUP_PATH) else ret true)
      (fun _ s => fs_read CACHED_CONFIG_TEMP_PATH s.1 = Some (interval_text n)) (f2, log2)).
    { apply wp_if; intros _; [|by apply wp_ret]. apply wp_act. intros b g2 Er. cbn [fst]. rewrite <- E2.
      destruct b; [|by apply (rename_failed _ _ _ _ _ Er)].
      destruct (rename_ok CACHED_CONFIG_PATH CACHED_CONFIG_BACKUP_PATH _ _ ltac:(done) Er) as (_ & _ & _ & Eo). by apply Eo. }
    eapply wp_conseq; [exact Hs|]. intros saved [f3 log3] E3. cbn [fst] in E3.
    destruct saved; cbn [negb]; [|apply wp_bind; eapply wp_conseq; [by apply (wp_remove_other _ CACHED_CONFIG_PATH)|]; by intros].
    apply wp_bind, wp_act. intros moved g3 Er. destruct moved; cbn [negb].
    - destruct (rename_ok CACHED_CONFIG_TEMP_PATH CACHED_CONFIG_PATH _ _ ltac:(done) Er) as (_ & Hr & _). apply wp_bind.
      eapply wp_conseq; [by apply (wp_remove_other _ CACHED_CONFIG_PATH)|]. intros u4 [f4 log4] E4.
      apply wp_ret. intros _. cbn in *. by rewrite E4, Hr.
    - apply wp_bind. eapply wp_conseq with (Q := fun _ _ => True); [by unfold wp|]. intros u4 [f4 log4] _.
      apply wp_bind. eapply wp_conseq; [by apply (wp_remove_other _ CACHED_CONFIG_PATH)|]. by intros. }
  unfold wp in Hwp. rewrite E in Hwp. unfold loadCachedHeartbeatInterval, read_file, gets, bind, ret. cbn [fst snd] in *.
  rewrite (Hwp eq_refl). rewrite (proj2 (Nat.eqb_neq _ _)), (proj2 (Nat.leb_gt _ _)) by lia.
  cbn [orb]. by rewrite Hread.
Qed.

End Cached.

(** The power fails while a new interval is stored, behind the first [rename]: the old
    interval is in the backup, and nothing reads it there. *)
Example cached_backup_ignored :
  let stored := (writeCachedHeartbeatInterval 15 (mkPlain ∅, [])).2.1 in
  let log := (writeCachedHeartbeatInterval 30 (stored, [])).2.2 in
  exists g, log !! 2 = Some g /\ fs_read CACHED_CONFIG_PATH g = None /\
    fs_read CACHED_CONFIG_BACKUP_PATH g = Some (interval_text 15) /\
    (loadCachedHeartbeatInterval ONBOARDING_HEARTBEAT_INTERVAL_MIN (g, [])).1 = Some 2%Z.
Proof. eexists. split; [by vm_compute|]. by vm_compute. Qed.

(** A second configuration is stored and marked while the notice of the first one still
    waits: its delivery removes the marker of both, and the restart finds none. *)
Example second_notice_lost :
  let boot := (queueConfigAppliedNoticeIfNeeded (started (Q := list QueuedAlert) marked_files)).2 in
  let '(ok, files) := markConfigAppliedNotice (bytes "1.1") boot.2 in
  ok = true /\ marked files.1 /\ exists s', run_events demo_sid [Beats working] (boot.1, files) = Some s' /\ ~ marked s'.2.1.
Proof.
  vm_compute. split; [done|]. split; [done|]. eexists. split; [reflexivity|]. vm_compute. intros Hm. by apply Hm.
Qed.
