(* ===== verification/Pages.v ===== *)
(** * The pages of the setup portal (examples/src/wifi_provisioning.cpp)

    A page is a list of chunks: text of the program, and values it puts in with
    [escapeHtml].  What the web server does with a page is outside the model. *)

From S2P Require Import Prelude HttpDiag Provisioning.

Abbreviation QUOTE := x22 (only parsing).

(** ** Escaping *)

Definition escape_char (c : byte) : list byte :=
  if Byte.eqb c x26 then bytes "&amp;"
  else if Byte.eqb c x3c then bytes "&lt;"
  else if Byte.eqb c x3e then bytes "&gt;"
  else if Byte.eqb c QUOTE then bytes "&quot;"
  else if Byte.eqb c x27 then bytes "&#39;"
  else [c].

Definition escapeHtml (value : list byte) : list byte := value ≫= escape_char.

(** ** Pages *)

Inductive chunk := Html (s : list byte) | Escaped (s : list byte).

Definition render_chunk (c : chunk) : list byte :=
  match c with Html s => s | Escaped s => escapeHtml s end.

Definition render (p : list chunk) : list byte := p ≫= render_chunk.

Definition pageStart (title : list byte) : list chunk :=
  [Html (bytes "<!doctype html><html><head><meta charset='utf-8'><meta name='viewport' " ++
      bytes "content='width=device-width,initial-scale=1'><style>body{font-family:" ++
      bytes "system-ui;max-width:620px;margin:32px auto;padding:0 " ++
      bytes "16px;background:#f5f7fa;color:#18212b}main{background:#fff;padding:24px;" ++
      bytes "border-radius:12px}label{display:block;margin-top:16px;font-weight:600}" ++
      bytes "select,input,textarea,button{box-sizing:border-box;width:100%;padding:" ++
      bytes "12px;margin-top:6px;border:1px solid " ++
      bytes "#aeb8c2;border-radius:8px;font:inherit}textarea{min-height:180px;font-" ++
      bytes "family:monospace}button{background:#1769aa;color:#fff;border:0;font-" ++
      bytes "weight:700}.note{color:#56616d}.error{color:#a61b1b;font-weight:700}." ++
      bytes "grid{display:grid;grid-template-columns:2fr " ++
      bytes "1fr;gap:12px}.hidden{display:none}@media(max-width:520px){.grid{grid-" ++
      bytes "template-columns:1fr}}</style></head><body><main><h1>");
   Html title; Html (bytes "</h1>")].

Definition addError (error : list byte) : list chunk :=
  if bool_decide (error = []) then [] else
  [Html (bytes "<p class='error'>"); Escaped error; Html (bytes "</p>")].

(** [" selected"] on the chosen option. *)
Definition selected (b : bool) : list chunk := if b then [Html (bytes " selected")] else [].

(** One network of the last scan: its name and its signal. *)
Definition network_option (network : list byte * Z) : list chunk :=
  [Html (bytes "<option value=" ++
      [QUOTE]); Escaped network.1; Html ([QUOTE] ++
      bytes ">"); Escaped network.1;
   Html (bytes " ("); Html (print_int network.2); Html (bytes " dBm)</option>")].

(** [sendWifiPage(error)], given the networks found. *)
Definition wifi_page (networks : list (list byte * Z)) (vendor : MacVendor) (error : list byte) : list chunk :=
  pageStart (bytes "esp32tun WiFi setup") ++
  [Html (bytes "<p>Select a WiFi network and enter its password.</p>")] ++
  addError error ++
  [Html (bytes "<form method='post' action='/save-wifi'><label>Detected " ++
      bytes "network</label><select name='ssid'>")] ++
  (networks ≫= network_option) ++
  [Html (bytes "</select><label>Hidden or custom SSID</label><input " ++
      bytes "name='custom_ssid' maxlength='32'><label>WiFi password</label><div " ++
      bytes "style='position:relative'><input id='wifi-password' name='password' " ++
      bytes "type='password' maxlength='63' style='padding-right:52px'><button " ++
      bytes "type='button' aria-label='Show or hide WiFi password' title='Show or " ++
      bytes "hide password' onclick='toggleWifiPassword()' " ++
      bytes "style='position:absolute;right:6px;top:6px;width:40px;padding:6px;" ++
      bytes "background:transparent;color:#56616d;border:0;font-size:20px'>&#" ++
      bytes "128065;</button></div><label>MAC vendor</label><select " ++
      bytes "name='mac_vendor'><option value='ORIGINAL'")] ++
  selected (bool_decide (vendor = Original)) ++
  [Html (bytes ">Original ESP32</option><option value='CISCO'")] ++
  selected (bool_decide (vendor = Cisco)) ++
  [Html (bytes ">Cisco</option><option value='HP'")] ++
  selected (bool_decide (vendor = HP)) ++
  [Html (bytes ">HP</option></select><p class='note'>Only the first three MAC octets " ++
      bytes "change; the final three remain device-specific.</p><button>Test and " ++
      bytes "continue</button></form><p class='note'>The network is tested before " ++
      bytes "it is stored. A changed MAC vendor is applied after " ++
      bytes "restart.</p><script>function toggleWifiPassword(){let " ++
      bytes "p=document.getElementById('wifi-password');p.type=p.type==='password'" ++
      bytes "?'text':'password'}</script></main></body></html>")].

(** [sendDevicePage(error)] *)
Definition device_page (c : DeviceRuntimeConfig) (error : list byte) : list chunk :=
  pageStart (bytes "esp32tun tunnel setup") ++
  [Html (bytes "<p>Configure the SSH server and one reverse tunnel.</p>")] ++
  addError error ++
  [Html (bytes "<form method='post' action='/save-device'><div " ++
      bytes "class='grid'><div><label>SSH server</label><input name='ssh_host' " ++
      bytes "required maxlength='253' value='");
   Escaped (dc_sshHost c);
   Html (bytes "'></div><div><label>SSH port</label><input name='ssh_port' " ++
      bytes "type='number' min='1' max='65535' value='");
   Html (print_int (dc_sshPort c));
   Html (bytes "'></div></div><label>SSH username</label><input name='ssh_user' " ++
      bytes "required maxlength='128' value='");
   Escaped (sshUsername c);
   Html (bytes "'><label>Authentication</label><select id='auth' name='ssh_auth' " ++
      bytes "onchange='toggleAuth()'><option value='password'")] ++
  selected (bool_decide (sshAuthMethod c = Password)) ++
  [Html (bytes ">Password</option><option value='key'")] ++
  selected (bool_decide (sshAuthMethod c = PrivateKey)) ++
  [Html (bytes ">Private key</option></select><div id='password-fields'><label>SSH " ++
      bytes "password</label><input name='ssh_password' type='password' " ++
      bytes "placeholder='Leave blank to keep the stored password'></div><div " ++
      bytes "id='key-fields' class='hidden'><label>Private key</label><textarea " ++
      bytes "name='ssh_private_key' maxlength='16384' placeholder='Leave blank to " ++
      bytes "keep the stored private key'></textarea><label>Public key " ++
      bytes "(recommended for ECDSA)</label><textarea name='ssh_public_key' " ++
      bytes "maxlength='4096' placeholder='Leave blank to keep the stored public " ++
      bytes "key unless replacing the private key'></textarea><label>Key " ++
      bytes "passphrase (optional)</label><input name='ssh_key_passphrase' " ++
      bytes "type='password' placeholder='Leave blank to keep the stored " ++
      bytes "passphrase'></div><h2>Reverse tunnel</h2><div " ++
      bytes "class='grid'><div><label>Remote bind address</label><input " ++
      bytes "name='remote_host' value='");
   Escaped (dc_remoteBindHost c);
   Html (bytes "'></div><div><label>Remote port</label><input name='remote_port' " ++
      bytes "type='number' min='1' max='65535' value='");
   Html (print_int (dc_remoteBindPort c));
   Html (bytes "'></div></div><div class='grid'><div><label>Local " ++
      bytes "target</label><input name='local_host' value='");
   Escaped (dc_localHost c);
   Html (bytes "'></div><div><label>Local port</label><input name='local_port' " ++
      bytes "type='number' min='1' max='65535' value='");
   Html (print_int (dc_localPort c));
   Html (bytes "'></div></div><button>Save and start tunnel</button></form><p " ++
      bytes "class='note'>Stored passwords and keys are never displayed. Leave " ++
      bytes "those fields empty to keep them unchanged.</p><script>function " ++
      bytes "toggleAuth(){let " ++
      bytes "k=document.getElementById('auth').value==='key';document." ++
      bytes "getElementById('password-fields').className=k?'hidden':'';document." ++
      bytes "getElementById('key-fields').className=k?'':'hidden'}toggleAuth()</" ++
      bytes "script></main></body></html>")].

(** ** The reference: what a browser reads *)

(** The characters that end a text or an attribute. *)
Definition is_markup (c : byte) : bool :=
  Byte.eqb c x3c || Byte.eqb c x3e || Byte.eqb c QUOTE || Byte.eqb c x27.

(** The references the escaping uses. *)
Definition html_entities : list (list byte * byte) :=
  [(bytes "&amp;", x26); (bytes "&lt;", x3c); (bytes "&gt;", x3e); (bytes "&quot;", QUOTE); (bytes "&#39;", x27)].

(** A text with its references resolved. *)
Fixpoint unescapeHtml (fuel : nat) (s : list byte) : list byte :=
  match fuel, s with
  | _, [] => []
  | O, _ => s
  | S fuel', c :: s' =>
      match List.find (fun e => is_prefix e.1 s) html_entities with
      | Some (e, b) => b :: unescapeHtml fuel' (drop (length e) s)
      | None => c :: unescapeHtml fuel' s'
      end
  end.
