(* ===== verification/Portal.v ===== *)
(** * The setup portal (examples/src/wifi_provisioning.cpp, mac_vendor.cpp)

    Without a configuration, or after a request to forget the WiFi network, the
    device opens an access point whose page asks for a network ([handleWifiSave]);
    on that network a second page asks for the SSH server and the tunnel
    ([save_device]).  What is stored is read at the next start ([begin]).

    The WiFi stack and the web server are third-party code: the arguments of a
    request are a function from their names, and the answers of the WiFi stack are
    arguments of the definitions that ask.  Files are those of Provisioning.v.

    [current] of the source is the configuration of main.cpp, [pt_config] here. *)

From S2P Require Import Prelude HttpDiag Provisioning Controls Pages.

#[local] Open Scope nat_scope.

(** ** The MAC address (mac_vendor.cpp) *)

Definition CISCO_OUI : list byte := [x00; x00; x0c].
Definition HP_OUI : list byte := [x3c; xd9; x2b].

(** [currentVendor], [stationPrepared], and the address the station has been given. *)
Record Mac := mkMac { currentVendor : MacVendor; stationPrepared : bool; station_mac : option (list byte) }.

#[export] Instance mac_eta : Eta Mac := fun m => mkMac (currentVendor m) (stationPrepared m) (station_mac m).

(** [prepareStation(vendor)], given the factory address, if it can be read, and
    whether a new address is taken. *)
Definition prepareStation (factory : option (list byte)) (takes : bool) (vendor : MacVendor) (m : Mac) : bool * Mac :=
  if stationPrepared m then (bool_decide (vendor = currentVendor m), m) else
  match factory with
  | None => (false, m)
  | Some mac =>
      if decide (vendor = Original) then (true, m <| currentVendor := vendor |> <| stationPrepared := true |>) else
      let mac := (if decide (vendor = Cisco) then CISCO_OUI else HP_OUI) ++ drop 3 mac in
      if negb takes then (false, m)
      else (true, m <| currentVendor := vendor |> <| stationPrepared := true |> <| station_mac := Some mac |>)
  end.

(** ** The portal *)

Inductive PortalMode := NoPortal | WifiPortal | DevicePortal.

#[export] Instance portal_mode_eq_dec : EqDecision PortalMode.
Proof. solve_decision. Defined.

Record Portal := mkPortal {
  pt_config : DeviceRuntimeConfig;
  mode : PortalMode;
  transitionPending : bool;
  transitionAt : Z;
  configEditRequested : bool;
  wifiResetRequested : bool;
  pt_mac : Mac
}.

#[export] Instance portal_eta : Eta Portal := fun p =>
  mkPortal (pt_config p) (mode p) (transitionPending p) (transitionAt p) (configEditRequested p)
    (wifiResetRequested p) (pt_mac p).

Definition new_portal : Portal :=
  mkPortal default_device NoPortal false 0 false false (mkMac Original false None).

(** What a handler does after its page: the device goes on, or restarts. *)
Inductive response :=
  | Page (p : list chunk)
  | PageThenRestart (p : list chunk).

Section Handlers.
Context {F : Type} `{FileSystem F}.
Abbreviation FsM A := (M (F * list F) A).

(** ** The tunnel page *)

(** [s.replace] of a carriage return with its line feed by a line feed. *)
Fixpoint replace_crlf (s : list byte) : list byte :=
  match s with
  | [] => []
  | b :: s' =>
      match s' with
      | c :: s'' => if Byte.eqb b CR && Byte.eqb c LF then LF :: replace_crlf s'' else b :: replace_crlf s'
      | [] => [b]
      end
  end.

(** What authentication the form asks for, on the stored configuration. *)
Definition submitted_auth (arg : string -> list byte) (stored c : DeviceRuntimeConfig) : DeviceRuntimeConfig :=
  let submittedPassword := arg "ssh_password"%string in
  let submittedKey := replace_crlf (arg "ssh_private_key"%string) in
  let submittedPublicKey := replace_crlf (arg "ssh_public_key"%string) in
  let submittedPassphrase := arg "ssh_key_passphrase"%string in
  match sshAuthMethod c with
  | Password =>
      if negb (bool_decide (submittedPassword = [])) || negb (bool_decide (sshAuthMethod stored = Password))
      then c <| sshPassword := submittedPassword |> else c
  | PrivateKey =>
      if negb (bool_decide (submittedKey = [])) then
        c <| sshPrivateKey := submittedKey |> <| sshPublicKey := submittedPublicKey |>
          <| sshKeyPassphrase := submittedPassphrase |>
      else if bool_decide (sshAuthMethod stored = PrivateKey) then
        let c := if bool_decide (submittedPublicKey = []) then c else c <| sshPublicKey := submittedPublicKey |> in
        if bool_decide (submittedPassphrase = []) then c else c <| sshKeyPassphrase := submittedPassphrase |>
      else c
  end.

(** The configuration the form asks for, when its ports are ports. *)
Definition submitted (arg : string -> list byte) (stored : DeviceRuntimeConfig) : option DeviceRuntimeConfig :=
  sshPort ← parsePort (arg "ssh_port"%string);
  remotePort ← parsePort (arg "remote_port"%string);
  localPort ← parsePort (arg "local_port"%string);
  let c := stored <| dc_sshHost := arg "ssh_host"%string |> <| sshUsername := arg "ssh_user"%string |>
    <| dc_remoteBindHost := arg "remote_host"%string |> <| dc_localHost := arg "local_host"%string |>
    <| dc_sshPort := sshPort |> <| dc_remoteBindPort := remotePort |> <| dc_localPort := localPort |>
    <| sshAuthMethod := if decide (arg "ssh_auth"%string = bytes "key") then PrivateKey else Password |> in
  Some ((submitted_auth arg stored c) <| setupComplete := true |> <| dc_tunnelEnabled := true |>).

Definition setup_complete_page : list chunk :=
  pageStart (bytes "Setup complete") ++
  [Html (bytes "<p>The device will restart and start the reverse tunnel.</p></main></body></html>")].

(** Storing the keys, or removing them; the configuration without the secrets it no
    longer needs, or the error to show. *)
Definition store_keys (c : DeviceRuntimeConfig) : FsM (option DeviceRuntimeConfig) :=
  match sshAuthMethod c with
  | PrivateKey =>
      ok <- saveKeys (sshPrivateKey c) (sshPublicKey c);;
      ret (if ok : bool then Some (c <| sshPassword := [] |>) else None)
  | Password =>
      removeIfExists KEY_PATH;;
      removeIfExists PUBLIC_KEY_PATH;;
      ret (Some (c <| sshPrivateKey := [] |> <| sshPublicKey := [] |> <| sshKeyPassphrase := [] |>))
  end.

(** The handler of [/save-device]. *)
Definition save_device (arg : string -> list byte) (p : Portal) : FsM (Portal * response) :=
  let error s := ret (p, Page (device_page (pt_config p) (bytes s))) in
  match submitted arg (pt_config p) with
  | None => error "Every port must be between 1 and 65535."%string
  | Some c =>
      if negb (validDeviceConfig c) then
        error (match sshAuthMethod c with
               | PrivateKey => "Enter a valid private key and optional OpenSSH public-key line."
               | Password => "Complete all fields and enter an SSH password."
               end)%string
      else
        stored <- store_keys c;;
        match stored with
        | None => error "The SSH keys could not be stored."%string
        | Some c =>
            ok <- writeConfig c;;
            if negb ok then error "The configuration could not be stored."%string else
            removeIfExists EDIT_REQUEST_PATH;;
            ret (p <| configEditRequested := false |>, PageThenRestart setup_complete_page)
        end
  end.

(** ** The network page *)

(** The page behind a network that works; [url] is the device on it. *)
Definition continue_page (url : list byte) : list chunk :=
  pageStart (bytes "WiFi connected") ++
  [Html (bytes "<p>Reconnect to the selected WiFi network, then open:</p><p><a href='"); Html url;
   Html (bytes "'>"); Html url;
   Html (bytes "</a></p><p class='note'>This page will continue automatically when the " ++
      bytes "device becomes reachable on that network.</p><script>const target='"); Html url;
   Html (bytes "';function " ++
      bytes "continueSetup(){fetch(target,{mode:'no-cors',cache:'no-store'}).then((" ++
      bytes ")=>location.replace(target)).catch(()=>setTimeout(continueSetup,1500))" ++
      bytes "}setTimeout(continueSetup,3500);</script></main></body></html>")].

Definition wifi_restart_page (vendorChanged : bool) : list chunk :=
  pageStart (if vendorChanged then bytes "WiFi and MAC updated" else bytes "WiFi updated") ++
  [Html (bytes "<p>The WiFi settings were stored. The selected MAC vendor will be " ++
      bytes "active after restart.</p><p>The device will restart and reconnect " ++
      bytes "automatically.</p></main></body></html>")].

(** What the WiFi stack does: whether the network can be joined, the networks it
    sees, the device's address there. *)
Record Radio := mkRadio { rd_joins : list byte -> list byte -> bool; rd_networks : list (list byte * Z); rd_address : list byte }.

(** [handleWifiSave], [now] being [millis()] at its end. *)
Definition handleWifiSave (radio : Radio) (now : Z) (arg : string -> list byte) (p : Portal) : FsM (Portal * response) :=
  let error p s := ret (p, Page (wifi_page (rd_networks radio) (dc_macVendor (pt_config p)) (bytes s))) in
  let ssid := if bool_decide (arg "custom_ssid"%string = []) then arg "ssid"%string else arg "custom_ssid"%string in
  let password := arg "password"%string in
  match parse_vendor (arg "mac_vendor"%string) with
  | None => error p "Select a valid MAC vendor."%string
  | Some selectedVendor =>
      if bool_decide (ssid = []) || (32 <? length ssid) then error p "The SSID is missing or too long."%string else
      if negb (bool_decide (password = [])) && ((length password <? 8) || (63 <? length password))
      then error p "A WiFi password must contain 8 to 63 characters."%string else
      if negb (rd_joins radio ssid password)
      then error p "Connection failed. Check the SSID and password."%string else
      let preserveDeviceConfig := wifiResetRequested p && setupComplete (pt_config p) in
      let vendorChanged := negb (bool_decide (selectedVendor = currentVendor (pt_mac p))) in
      let c := (pt_config p) <| wifiSsid := ssid |> <| wifiPassword := password |> <| dc_macVendor := selectedVendor |> in
      let c := if preserveDeviceConfig then c else c <| setupComplete := false |> in
      let p := p <| pt_config := c |> in
      ok <- writeConfig c;;
      if negb ok then error p "WiFi worked, but the configuration could not be stored."%string else
      when (wifiResetRequested p) (removeIfExists WIFI_RESET_REQUEST_PATH);;
      let p := p <| wifiResetRequested := false |> in
      if preserveDeviceConfig || vendorChanged then ret (p, PageThenRestart (wifi_restart_page vendorChanged))
      else ret (p <| transitionPending := true |> <| transitionAt := now |>,
                Page (continue_page (bytes "http://" ++ rd_address radio ++ bytes "/")))
  end.

(** ** Start and loop *)

(** [startDevicePortalInternal] *)
Definition startDevicePortalInternal (p : Portal) : bool * Portal := (true, p <| mode := DevicePortal |>).

Definition stopServices (p : Portal) : Portal := p <| mode := NoPortal |>.

(** [startWifiPortal], given whether the access point comes up. *)
Definition startWifiPortal (softAP : bool) (p : Portal) : bool * Portal :=
  if negb softAP then (false, p) else (true, p <| mode := WifiPortal |>).

(** [loop]: the transition from the first page to the second. *)
Definition portal_loop (now : Z) (p : Portal) : Portal :=
  if transitionPending p && (2500 <=? u32_sub now (transitionAt p))%Z then
    (startDevicePortalInternal (stopServices (p <| transitionPending := false |>))).2
  else p.

(** [mountStorage], given whether the storage can be mounted and, if it cannot, what
    formatting makes of it. *)
Definition mountStorage (mounts : bool) (formatted : option F) : FsM bool :=
  if mounts then ret true else
  match formatted with
  | Some f => act (fun _ => (true, f))
  | None => ret false
  end.

(** [begin]: its answer and the portal.  The arguments are those of [mountStorage],
    [prepareStation] and [startWifiPortal]. *)
Definition begin (mounts : bool) (formatted : option F) (factory : option (list byte)) (takes softAP : bool)
    (p : Portal) : FsM (bool * Portal) :=
  mounted <- mountStorage mounts formatted;;
  if negb mounted then ret (false, p) else
  r <- requests;;
  loaded <- loadConfig (pt_config p);;
  let '(configLoaded, config) := loaded in
  let p := p <| configEditRequested := r.1 |> <| wifiResetRequested := r.2 |> <| pt_config := config |> in
  let '(prepared, m) := prepareStation factory takes (dc_macVendor config) (pt_mac p) in
  let p := p <| pt_mac := m |> in
  if negb prepared then ret (false, p) else
  if wifiResetRequested p then ret (startWifiPortal softAP p) else
  if configLoaded : bool then ret (true, p) else ret (startWifiPortal softAP p).

(** [startDeviceSetup] *)
Definition startDeviceSetup (connected : bool) (p : Portal) : bool * Portal :=
  if connected then startDevicePortalInternal p else (false, p).

Definition isActive (p : Portal) : bool := negb (bool_decide (mode p = NoPortal)).
Definition editRequested (p : Portal) : bool := configEditRequested p.

End Handlers.
