(* ===== verification/PortalFacts.v ===== *)
(** * The setup portal: proofs

    Values put into a page add no markup to it and are read back by a browser
    ([pages_safe]); what a form submits is in force after the restart, or nothing
    changes in memory ([setup_in_force], [network_in_force]). *)

From stdpp Require Import gmap.
From S2P Require Import Prelude HttpDiag HttpDiagFacts ManagedConfigFacts Provisioning ProvisioningFacts.
From S2P Require Import IdentityFacts Controls ControlsFacts Pages Portal.

#[local] Open Scope nat_scope.

(** ** Pages *)

Lemma escape_no_markup b : forallb (fun c => negb (is_markup c)) (escape_char b) = true.
Proof. exact (all_bytes_all (fun b => forallb (fun c => negb (is_markup c)) (escape_char b)) ltac:(by vm_compute) b). Qed.

(** The markup characters of a text, in order. *)
Definition markup (s : list byte) : list byte := List.filter is_markup s.

Lemma markup_app s t : markup (s ++ t) = markup s ++ markup t.
Proof. apply filter_app. Qed.

Lemma markup_none s : forallb (fun c => negb (is_markup c)) s = true -> markup s = [].
Proof.
  unfold markup. induction s as [|b s IH]; [done|]. cbn [forallb List.filter].
  intros [Hb%negb_true_iff Hs]%andb_prop. by rewrite Hb, IH.
Qed.

Lemma markup_escaped v : markup (escapeHtml v) = [].
Proof.
  apply markup_none. induction v as [|b v IH]; [done|]. unfold escapeHtml in *. cbn [mbind list_bind].
  by rewrite forallb_app, escape_no_markup.
Qed.

Lemma digit_no_markup n : is_markup (byte_of (48 + n mod 10)) = false.
Proof.
  assert (n mod 10 < 10)%N as Hn by (apply N.mod_upper_bound; lia). revert Hn. generalize (n mod 10)%N. intros d Hd.
  assert (d = 0 \/ d = 1 \/ d = 2 \/ d = 3 \/ d = 4 \/ d = 5 \/ d = 6 \/ d = 7 \/ d = 8 \/ d = 9)%N as Hc by lia.
  by repeat (destruct Hc as [->|Hc]; [by vm_compute|]); subst d.
Qed.

Lemma print_digits_no_markup fuel : forall n, markup (print_digits fuel n) = [].
Proof.
  induction fuel as [|fuel IH]; intros n; [done|]. cbn [print_digits]. rewrite markup_app.
  destruct (n <? 10)%N; rewrite ?IH; unfold markup; cbn [List.filter app]; by rewrite digit_no_markup.
Qed.

Lemma print_int_no_markup z : markup (print_int z) = [].
Proof. unfold print_int. destruct (z <? 0)%Z; [|apply print_digits_no_markup]. apply print_digits_no_markup. Qed.

Lemma markup_render p q : markup (render (p ++ q)) = markup (render p) ++ markup (render q).
Proof. unfold render. by rewrite bind_app, markup_app. Qed.

Lemma markup_render_cons c p : markup (render (c :: p)) = markup (render_chunk c) ++ markup (render p).
Proof. unfold render. cbn [mbind list_bind]. by rewrite markup_app. Qed.

Lemma markup_chunk_escaped v : markup (render_chunk (Escaped v)) = [].
Proof. apply markup_escaped. Qed.

Lemma markup_chunk_number z : markup (render_chunk (Html (print_int z))) = [].
Proof. apply print_int_no_markup. Qed.

Lemma markup_error e e' : (e = [] <-> e' = []) -> markup (render (addError e)) = markup (render (addError e')).
Proof.
  intros He. unfold addError. destruct (bool_decide_reflect (e = [])), (bool_decide_reflect (e' = [])); try tauto.
  by rewrite !markup_render_cons, !markup_chunk_escaped.
Qed.

(** What was escaped is read as it was. *)
Lemma find_no_reference c t : c <> x26 -> List.find (fun e => is_prefix e.1 (c :: t)) html_entities = None.
Proof.
  intros Hc. assert (H0 : forall e, is_prefix (x26 :: e) (c :: t) = false).
  { intros e. cbn [is_prefix]. destruct (eqb_spec x26 c) as [E|_]; [by destruct Hc|done]. }
  change html_entities with [(x26 :: bytes "amp;", x26); (x26 :: bytes "lt;", x3c); (x26 :: bytes "gt;", x3e);
    (x26 :: bytes "quot;", QUOTE); (x26 :: bytes "#39;", x27)].
  cbn [List.find fst]. by rewrite !H0.
Qed.

Lemma unescape_escape v : forall fuel, length (escapeHtml v) <= fuel -> unescapeHtml fuel (escapeHtml v) = v.
Proof.
  induction v as [|b v IH]; intros fuel Hl; [by destruct fuel|].
  unfold escapeHtml in *. cbn [mbind list_bind] in *. rewrite length_app in Hl. unfold escape_char at 1 in Hl.
  unfold escape_char at 1.
  destruct (eqb_spec b x26) as [->|N1]; [destruct fuel as [|fuel]; [simpl in Hl; lia|]; cbn; f_equal; apply IH; simpl in Hl; lia|].
  destruct (eqb_spec b x3c) as [->|N2]; [destruct fuel as [|fuel]; [simpl in Hl; lia|]; cbn; f_equal; apply IH; simpl in Hl; lia|].
  destruct (eqb_spec b x3e) as [->|N3]; [destruct fuel as [|fuel]; [simpl in Hl; lia|]; cbn; f_equal; apply IH; simpl in Hl; lia|].
  destruct (eqb_spec b QUOTE) as [->|N4]; [destruct fuel as [|fuel]; [simpl in Hl; lia|]; cbn; f_equal; apply IH; simpl in Hl; lia|].
  destruct (eqb_spec b x27) as [->|N5]; [destruct fuel as [|fuel]; [simpl in Hl; lia|]; cbn; f_equal; apply IH; simpl in Hl; lia|].
  destruct fuel as [|fuel]; [simpl in Hl; lia|]. cbn [app unescapeHtml]. rewrite find_no_reference by done.
  f_equal. apply IH. simpl in Hl. lia.
Qed.

Lemma markup_networks ns ns' : length ns = length ns' ->
  markup (render (ns ≫= network_option)) = markup (render (ns' ≫= network_option)).
Proof.
  revert ns'. induction ns as [|n ns IH]; intros [|n' ns'] Hl; try done. cbn [mbind list_bind].
  rewrite !markup_render. f_equal; [|apply IH; by injection Hl].
  unfold network_option. by rewrite !markup_render_cons, !markup_chunk_escaped, !markup_chunk_number.
Qed.

(** C24: Values cannot change the pages: the markup characters of a page are the same
    whatever is stored in the device, sent with a request or announced by networks
    around it; a browser reads each value as it is; and the device page does not
    depend on any password or key. *)
Theorem pages_safe (c c' : DeviceRuntimeConfig) (vendor : MacVendor) (e e' : list byte)
    (ns ns' : list (list byte * Z)) : (e = [] <-> e' = []) ->
  (sshAuthMethod c = sshAuthMethod c' -> markup (render (device_page c e)) = markup (render (device_page c' e'))) /\
  (length ns = length ns' -> markup (render (wifi_page ns vendor e)) = markup (render (wifi_page ns' vendor e'))) /\
  (forall v, unescapeHtml (length (escapeHtml v)) (escapeHtml v) = v) /\
  (forall wifi pw priv pub phrase, device_page (c <| wifiPassword := wifi |> <| sshPassword := pw |>
     <| sshPrivateKey := priv |> <| sshPublicKey := pub |> <| sshKeyPassphrase := phrase |>) e = device_page c e).
Proof.
  intros He. split_and!.
  - intros Ha. unfold device_page. rewrite Ha, !markup_render, (markup_error e e' He).
    by rewrite !markup_render_cons, !markup_chunk_escaped, !markup_chunk_number.
  - intros Hn. unfold wifi_page. by rewrite !markup_render, (markup_error e e' He), (markup_networks ns ns' Hn).
  - intros v. by apply unescape_escape.
  - by destruct c.
Qed.

Lemma pages_safe_witness : let evil := bytes "'><script>" in
  (sshAuthMethod default_device = sshAuthMethod (default_device <| dc_sshHost := evil |>) ->
   markup (render (device_page default_device [])) = markup (render (device_page (default_device <| dc_sshHost := evil |>) []))) /\
  (length [(bytes "home", (-40)%Z)] = length [(evil, (-50)%Z)] ->
   markup (render (wifi_page [(bytes "home", (-40)%Z)] Original [])) = markup (render (wifi_page [(evil, (-50)%Z)] Original []))) /\
  (forall v, unescapeHtml (length (escapeHtml v)) (escapeHtml v) = v) /\
  (forall wifi pw priv pub phrase, device_page (default_device <| wifiPassword := wifi |> <| sshPassword := pw |>
     <| sshPrivateKey := priv |> <| sshPublicKey := pub |> <| sshKeyPassphrase := phrase |>) [] = device_page default_device []).
Proof. intros evil. by apply pages_safe. Defined.

(** ** The MAC address *)

(** A new address keeps the last three octets, and none is set twice. *)
Lemma prepareStation_once factory factory' takes takes' vendor vendor' m ok ok' m' m'' :
  prepareStation factory takes vendor m = (ok, m') -> prepareStation factory' takes' vendor' m' = (ok', m'') ->
  ok = true -> m'' = m' /\ (ok' = true <-> vendor' = vendor).
Proof.
  intros E1 E2 ->. assert (H : stationPrepared m' = true /\ currentVendor m' = vendor).
  { revert E1. unfold prepareStation. destruct (stationPrepared m) eqn:Es; [intros [= Hv <-]; apply bool_decide_eq_true in Hv; by subst|].
    destruct factory as [mac|]; [|done]. case_decide; [intros [= <-]; by subst|]. destruct takes; cbn [negb]; by intros [= <-]. }
  destruct H as [Hp <-]. unfold prepareStation in E2. rewrite Hp in E2. injection E2 as <- <-.
  split; [done|]. apply bool_decide_eq_true.
Qed.

Lemma prepareStation_keeps_device mac vendor m' a : length mac = 6 ->
  prepareStation (Some mac) true vendor (mkMac Original false None) = (true, m') -> station_mac m' = Some a ->
  length a = 6 /\ drop 3 a = drop 3 mac /\ take 3 a = (if decide (vendor = Cisco) then CISCO_OUI else HP_OUI).
Proof.
  intros Hl. unfold prepareStation. cbn [stationPrepared]. case_decide; [intros [= <-]; done|]. cbn [negb].
  intros [= <-]. cbn. intros [= <-]. assert (Ho : length (if decide (vendor = Cisco) then CISCO_OUI else HP_OUI) = 3) by by case_decide.
  set (oui := if decide (vendor = Cisco) then CISCO_OUI else HP_OUI) in *. rewrite <- Ho at 1.
  rewrite length_app, length_drop, Hl, Ho, drop_app_length', take_app_length' by done. done.
Qed.

(** ** Programs do not look at their log *)

Section Handlers.
Context {F : Type} `{FileSystemLaws F}.
Implicit Types (f g : F) (log : list F) (c : DeviceRuntimeConfig) (p : Portal).

Definition log_free {A} (m : M (F * list F) A) : Prop :=
  forall f log, m (f, log) = ((m (f, [])).1, ((m (f, [])).2.1, (m (f, [])).2.2 ++ log)).

Lemma log_free_ret {A} (a : A) : log_free (ret a).
Proof. done. Qed.

Lemma log_free_act {A} (op : F -> A * F) : log_free (act op).
Proof. intros f log. unfold act. cbn. by destruct (op f). Qed.

Lemma log_free_exists q : log_free (exists_file q).
Proof. done. Qed.

Lemma log_free_bind {A B} (m : M (F * list F) A) (k : A -> M (F * list F) B) :
  log_free m -> (forall a, log_free (k a)) -> log_free (bind m k).
Proof.
  intros Hm Hk f log. unfold bind. rewrite (Hm f log). destruct (m (f, [])) as [a [g log1]]. cbn [fst snd].
  rewrite (Hk a g (log1 ++ log)), (Hk a g log1). cbn. by rewrite app_assoc.
Qed.

Lemma log_free_when b m : log_free m -> log_free (when b m).
Proof. by destruct b. Qed.

Lemma log_free_remove q : log_free (removeIfExists q).
Proof.
  apply log_free_bind; [apply log_free_exists|]. intros b. apply log_free_when, log_free_bind; [apply log_free_act|done].
Qed.

Lemma log_free_writeConfig c : log_free (writeConfig c).
Proof.
  apply log_free_bind; [apply log_free_act|]. intros [n|]; [|apply log_free_ret].
  apply log_free_bind; [apply log_free_remove|]. intros _. apply log_free_bind; [apply log_free_exists|]. intros had.
  apply log_free_bind; [destruct had; [apply log_free_act|apply log_free_ret]|]. intros saved.
  destruct saved; cbn [negb]; [|apply log_free_bind; [apply log_free_remove|done]].
  apply log_free_bind; [apply log_free_act|]. intros moved. destruct moved; cbn [negb].
  - apply log_free_bind; [apply log_free_remove|done].
  - apply log_free_bind; [apply log_free_when, log_free_bind; [apply log_free_act|done]|]. intros _.
    apply log_free_bind; [apply log_free_remove|done].
Qed.

(** Files a handler does not touch. *)
Definition others_kept (touched : list path) f g : Prop := forall q, q ∉ touched -> fs_read q g = fs_read q f.

(** A program that touches no other files. *)
Definition touches {A} (T : list path) (m : M (F * list F) A) : Prop := forall s, others_kept T s.1 (m s).2.1.

Lemma touches_ret {A} T (a : A) : touches T (ret a).
Proof. by intros s q Hq. Qed.

Lemma touches_bind {A B} T (m : M (F * list F) A) (k : A -> M (F * list F) B) :
  touches T m -> (forall a, touches T (k a)) -> touches T (bind m k).
Proof.
  intros Hm Hk s q Hq. unfold bind. pose proof (Hm s q Hq) as E. destruct (m s) as [a s1]. by rewrite (Hk a s1 q Hq).
Qed.

Lemma touches_when T b m : touches T m -> touches T (when b m).
Proof. by destruct b. Qed.

Lemma touches_rename T a b : a <> b -> a ∈ T -> b ∈ T -> touches T (act (fs_rename a b)).
Proof.
  intros Hne Ha Hb [f log] q Hq. unfold act. cbn [fst snd]. destruct (fs_rename a b f) as [[|] g] eqn:E.
  - destruct (rename_ok _ _ _ _ Hne E) as (_ & _ & _ & Eo). apply Eo; set_solver.
  - by apply (rename_failed _ _ _ _ q E).
Qed.

Lemma touches_write T a v : a ∈ T -> touches T (act (fs_write a v)).
Proof.
  intros Ha [f log] q Hq. unfold act. cbn [fst snd]. destruct (fs_write a v f) as [[n|] g] eqn:E.
  - destruct (write_ok _ _ _ _ _ E) as [_ Eo]. apply Eo. set_solver.
  - by apply (write_failed _ _ _ _ q E).
Qed.

Lemma touches_remove T a : a ∈ T -> touches T (removeIfExists a).
Proof.
  intros Ha. apply touches_bind; [by intros s q Hq|]. intros b. apply touches_when, touches_bind; [|intros c; apply touches_ret].
  intros [f log] q Hq. unfold act. cbn [fst snd]. destruct (fs_remove a f) as [[|] g] eqn:E.
  - destruct (remove_ok _ _ _ E) as [_ Eo]. apply Eo. set_solver.
  - by apply (remove_failed _ _ _ q E).
Qed.

Definition config_files : list path := [CONFIG_PATH; CONFIG_TEMP; CONFIG_BACKUP].

Lemma touches_writeConfig c : touches config_files (writeConfig c).
Proof.
  assert (Hr : forall a, a ∈ config_files -> touches config_files (removeIfExists a)) by apply touches_remove.
  assert (Hm : forall a b, a <> b -> a ∈ config_files -> b ∈ config_files -> touches config_files (act (fs_rename a b)))
    by apply touches_rename.
  assert (Hret : forall A (a : A), touches config_files (ret a)) by by intros; apply touches_ret.
  assert (H1 : CONFIG_PATH ∈ config_files /\ CONFIG_TEMP ∈ config_files /\ CONFIG_BACKUP ∈ config_files) by set_solver.
  destruct H1 as (I1 & I2 & I3). apply touches_bind; [by apply touches_write|]. intros [n|]; [|apply Hret].
  apply touches_bind; [by apply Hr|]. intros _. apply touches_bind; [by intros s q Hq|]. intros had.
  apply touches_bind; [destruct had; [by apply Hm|apply Hret]|]. intros saved.
  destruct saved; cbn [negb]; [|by apply touches_bind; [apply Hr|intros; apply Hret]].
  apply touches_bind; [by apply Hm|]. intros moved. destruct moved; cbn [negb].
  - by apply touches_bind; [apply Hr|intros; apply Hret].
  - apply touches_bind; [by apply touches_when, touches_bind; [apply Hm|intros; apply Hret]|]. intros _.
    by apply touches_bind; [apply Hr|intros; apply Hret].
Qed.

(** [writeConfig] from any log: it stores the configuration whole, or leaves the
    stored one. *)
Lemma under_writeConfig c f log (Q : bool -> F * list F -> Prop) : settled f ->
  (forall b g log', others_kept config_files f g ->
     (b = true -> fs_read CONFIG_PATH g = Some (config_text c)) -> Q b (g, log')) ->
  under serves (writeConfig c) Q (f, log).
Proof.
  intros Hset HQ Hf _. change (wp (writeConfig c) Q (f, log)). unfold wp.
  pose proof (touches_writeConfig c (f, [])) as Ht. cbn [fst] in *.
  rewrite (log_free_writeConfig c f log).
  assert (Hw : complete_write (config_text c) f) by (intros n g; apply (sv_writes f Hf)).
  pose proof (writeConfig_safe c f Hset Hw) as Hs. unfold wp in Hs.
  destruct (writeConfig c (f, [])) as [b [g log']]. cbn [fst snd] in *. destruct Hs as [_ _ Hs]. cbn in *.
  apply HQ; [done|]. by intros ->.
Qed.

Lemma under_rm q (Q : unit -> F * list F -> Prop) f log :
  (forall g log', fs_read q g = None -> others_kept [q] f g -> Q tt (g, log')) ->
  under serves (removeIfExists q) Q (f, log).
Proof.
  intros HQ. apply under_remove; [by intros Hf; apply sv_removes|]. intros g log' En E _. apply HQ; [done|].
  intros q' Hq'. apply E. set_solver.
Qed.

Lemma wp_key_file q key (Q : bool -> F * list F -> Prop) f log :
  (forall b g log', others_kept [q] f g -> (b = true -> fs_read q g = Some key) -> Q b (g, log')) ->
  wp (writeKeyFile q key) Q (f, log).
Proof.
  intros HQ. unfold writeKeyFile. apply wp_bind, wp_act. intros [n|] g E; apply wp_ret, HQ.
  - destruct (write_ok _ _ _ _ _ E) as [_ Eo]. intros q' Hq'. apply Eo. set_solver.
  - destruct (write_ok _ _ _ _ _ E) as [Ew _]. intros En%Nat.eqb_eq. by rewrite Ew, En, take_ge.
  - intros q' _. by apply (write_failed _ _ _ _ _ E).
  - done.
Qed.

Lemma wp_mv a b (Q : bool -> F * list F -> Prop) f log : a <> b ->
  (forall g, fs_read b g = fs_read a f -> others_kept [a; b] f g -> Q true (g, g :: log)) ->
  (forall g, others_kept [] f g -> Q false (g, g :: log)) -> wp (act (fs_rename a b)) Q (f, log).
Proof.
  intros Hne HT HF. apply wp_rename; [done|..].
  - intros g E1 _ E2. apply HT; [done|]. intros q Hq. apply E2; set_solver.
  - intros g E. apply HF. intros q _. apply E.
Qed.

Lemma others_trans t1 t2 f g h : others_kept t1 f g -> others_kept t2 g h -> others_kept (t1 ++ t2) f h.
Proof. intros E1 E2 q Hq. rewrite E2, E1; [done|set_solver..]. Qed.

Definition key_files : list path := [KEY_PATH; KEY_TEMP; PUBLIC_KEY_PATH; PUBLIC_KEY_TEMP].

(** Reading a file that the steps in between do not touch. *)
Ltac kept := intros q Hq; unfold key_files in Hq; repeat match goal with
  | E : others_kept _ ?g ?h |- context [fs_read q ?h] => rewrite (E q) by set_solver
  end; done.

(** The next step of a program. *)
Ltac run_under H := apply under_bind; [apply _..|]; apply H.
Ltac run_wp H := apply under_bind; [apply _..|]; apply under_wp, H.

Ltac untouched E := rewrite E by (apply (bool_decide_unpack _); by vm_compute).

#[local] Instance logs_key_file q key : Logs (writeKeyFile q key).
Proof. unfold writeKeyFile. apply _. Qed.

#[local] Instance logs_saveKeys priv pub : Logs (saveKeys priv pub).
Proof. unfold saveKeys. apply _. Qed.

#[local] Instance logs_store_keys c : Logs (store_keys c).
Proof. unfold store_keys. destruct (sshAuthMethod c); apply _. Qed.

(** [saveKeys] touches the key files only; when it answers [true] they hold the
    pair. *)
Lemma under_saveKeys priv pub f log (Q : bool -> F * list F -> Prop) :
  (forall b g log', others_kept key_files f g ->
     (b = true -> fs_read KEY_PATH g = Some priv /\
        fs_read PUBLIC_KEY_PATH g = if bool_decide (pub = []) then None else Some pub) -> Q b (g, log')) ->
  under serves (saveKeys priv pub) Q (f, log).
Proof.
  intros HQ. unfold saveKeys.
  run_under under_rm. intros g1 log1 _ K1. run_under under_rm. intros g2 log2 _ K2.
  run_wp wp_key_file. intros b3 g3 log3 K3 W3. destruct b3; cbn [negb]; [|apply under_ret, HQ; [kept|done]].
  specialize (W3 eq_refl). apply under_bind, under_wp; [apply _..|].
  assert (Hp : wp (if negb (bool_decide (pub = [])) then writeKeyFile PUBLIC_KEY_TEMP pub else ret true)
    (fun b s => others_kept [PUBLIC_KEY_TEMP] g3 s.1 /\ (b = true -> pub <> [] -> fs_read PUBLIC_KEY_TEMP s.1 = Some pub)) (g3, log3)).
  { case_bool_decide as Hpub; cbn [negb]; [by apply wp_ret|]. apply wp_key_file. intros b g log' K W. by split; [|intros Hb _; apply W]. }
  eapply wp_conseq; [exact Hp|]. intros b4 [g4 log4] [K4 W4]. cbn [fst] in K4, W4.
  destruct b4; cbn [negb]; [|run_under under_rm; intros g5 log5 _ K5; apply under_ret, HQ; [kept|done]].
  specialize (W4 eq_refl). run_under under_rm. intros g5 log5 _ K5. apply under_bind, under_wp; [apply _..|].
  apply wp_mv; [done|..].
  2:{ intros g6 K6. cbn [negb]. run_under under_rm. intros g7 log7 _ K7. apply under_ret, HQ; [kept|done]. }
  intros g6 E6 K6. cbn [negb]. assert (Ek : fs_read KEY_PATH g6 = Some priv) by (rewrite E6; untouched K5; untouched K4; done).
  run_under under_rm. intros g7 log7 E7 K7. case_bool_decide as Hpub; cbn [negb].
  - apply under_ret, HQ; [kept|]. intros _. split; [by untouched K7|done].
  - apply under_wp, wp_mv; [done|..].
    + intros g8 E8 K8. apply HQ; [kept|]. intros _. split; [untouched K8; by untouched K7|].
      rewrite E8. untouched K7. untouched K6. untouched K5. by apply W4.
    + intros g8 K8. apply HQ; [kept|done].
Qed.

(** ** The next start *)

Lemma begin_in_force c f log mac softAP : fs_read WIFI_RESET_REQUEST_PATH f = None ->
  (loadConfig default_device (f, log)).1 = (true, c) ->
  exists q, (begin true None (Some mac) true softAP new_portal (f, log)).1 = (true, q) /\
    pt_config q = c /\ mode q = NoPortal /\
    (fs_read EDIT_REQUEST_PATH f = None -> configEditRequested q = false).
Proof.
  intros Hw Hc. unfold begin, mountStorage, requests, exists_file, gets, bind, ret. cbn [fst snd negb].
  rewrite Hw. change (pt_config new_portal) with default_device.
  destruct (loadConfig default_device (f, log)) as [[ok c'] s]. cbn in Hc. injection Hc as -> ->.
  unfold prepareStation. cbn [pt_mac new_portal upd stationPrepared].
  destruct (decide (dc_macVendor c = Original)); cbn [negb fst snd];
    (eexists; split; [reflexivity|]; split_and!; [done|done|intros He; cbn; by rewrite He]).
Qed.

(** The configuration without the secrets of the other kind of authentication. *)
Definition in_force c : DeviceRuntimeConfig :=
  match sshAuthMethod c with
  | PrivateKey => c <| sshPassword := [] |>
  | Password => c <| sshPrivateKey := [] |> <| sshPublicKey := [] |> <| sshKeyPassphrase := [] |>
  end.

(** A network that the first page lets through. *)
Definition network_ok c : Prop := 1 <= length (wifiSsid c) <= 32 /\ length (wifiPassword c) <= 63.

Lemma submitted_parts arg d c : submitted arg d = Some c ->
  wifiSsid c = wifiSsid d /\ wifiPassword c = wifiPassword d /\ setupComplete c = true.
Proof.
  unfold submitted. intros E.
  apply bind_Some in E as (p1 & _ & E). apply bind_Some in E as (p2 & _ & E). apply bind_Some in E as (p3 & _ & E).
  injection E as <-. unfold submitted_auth. destruct d. cbn. by repeat case_match.
Qed.

Lemma in_force_storable g c : network_ok c -> setupComplete c = true -> validDeviceConfig c = true ->
  keys_stored g (in_force c) -> storable g (in_force c).
Proof.
  intros [Hs Hp] Hc Hv Hk. unfold in_force in *. destruct c as [? ? ? ? ? ? ? auth]. destruct auth; cbn in *;
    (constructor; [done|done|]); cbn; subst; by split.
Qed.

Lemma settled_kept touched f g : others_kept touched f g -> CONFIG_PATH ∉ touched -> CONFIG_BACKUP ∉ touched ->
  settled f -> settled g.
Proof. intros E H3 H4. unfold settled. by rewrite !E. Qed.

Lemma in_force_wifi c : wifiSsid (in_force c) = wifiSsid c /\ wifiPassword (in_force c) = wifiPassword c.
Proof. unfold in_force. by destruct (sshAuthMethod c). Qed.

(** The keys of a valid configuration are stored, or the answer is an error. *)
Lemma under_store_keys c f log (Q : option DeviceRuntimeConfig -> F * list F -> Prop) :
  (forall r g log', others_kept key_files f g ->
     match r with Some c' => c' = in_force c /\ keys_stored g (in_force c) | None => True end -> Q r (g, log')) ->
  under serves (store_keys c) Q (f, log).
Proof.
  intros HQ. unfold store_keys, in_force, keys_stored in *. destruct (sshAuthMethod c) eqn:Ea.
  - run_under under_rm. intros g1 log1 _ K1. run_under under_rm. intros g2 log2 _ K2.
    apply under_ret, HQ; [kept|]. split; [done|]. destruct c. cbn in *. subst. by cbn.
  - run_under under_saveKeys. intros b g log' K W. apply under_ret, HQ; [done|]. destruct b; [|done].
    split; [done|]. destruct c. cbn in *. subst. by apply W.
Qed.

Definition refused arg p : Prop :=
  match submitted arg (pt_config p) with Some c => validDeviceConfig c = false | None => True end.

(** C22: What the tunnel page submits is in force after the restart.  The device has a
    network ([network_ok]) and no request to forget it, its files are as a start leaves
    them ([settled]), and in the states of this run the storage removes what it is
    asked to remove and no write stops short ([serves]; opening and renaming may fail).
    Then, if the device restarts, the
    form was valid, and the next start finds exactly its configuration, with the key
    pair in its files and without the secrets of the other authentication, and opens no
    portal; otherwise the device keeps its configuration in memory, and a form that is
    refused leaves the files alone. *)
Theorem setup_in_force arg p f p' r f' log' :
  settled f -> network_ok (pt_config p) -> fs_read WIFI_RESET_REQUEST_PATH f = None ->
  save_device arg p (f, []) = ((p', r), (f', log')) -> Forall serves (f :: log') ->
  match r with
  | Page _ => p' = p /\ (refused arg p -> f' = f)
  | PageThenRestart _ => exists c, submitted arg (pt_config p) = Some c /\ validDeviceConfig c = true /\
      forall mac softAP log'', exists q,
        (begin true None (Some mac) true softAP new_portal (f', log'')).1 = (true, q) /\
        pt_config q = in_force c /\ mode q = NoPortal /\ configEditRequested q = false
  end.
Proof.
  intros Hset Hnet Hreset E HF. revert E HF.
  cut (under serves (save_device arg p) (fun a s => match a.2 with
    | Page _ => a.1 = p /\ (refused arg p -> s.1 = f)
    | PageThenRestart _ => exists c, submitted arg (pt_config p) = Some c /\ validDeviceConfig c = true /\
        forall mac softAP log'', exists q, (begin true None (Some mac) true softAP new_portal (s.1, log'')).1 = (true, q) /\
        pt_config q = in_force c /\ mode q = NoPortal /\ configEditRequested q = false end) (f, [])).
  { intros Hu E HF. exact (under_run _ _ _ _ _ _ _ Hu E HF). }
  unfold save_device, refused. destruct (submitted arg (pt_config p)) as [c|] eqn:Es; [|by apply under_ret].
  destruct (submitted_parts _ _ _ Es) as (P1 & P2 & P3).
  destruct (validDeviceConfig c) eqn:Ev; cbn [negb]; [|by apply under_ret].
  run_under under_store_keys. intros [c1|] g1 log1 K1 Hk; [|by apply under_ret]. destruct Hk as [-> Hk].
  run_under under_writeConfig; [eapply settled_kept; [exact K1|by apply (bool_decide_unpack _); vm_compute..|done]|].
  intros b g2 log2 K2 Hcfg. destruct b; cbn [negb]; [|by apply under_ret]. specialize (Hcfg eq_refl).
  run_under under_rm. intros g3 log3 E3 K3. apply under_ret. cbn [fst snd]. exists c. split_and!; [done..|].
  intros mac softAP log''.
  assert (Hst : storable g3 (in_force c)).
  { apply (storable_same g1); [|apply in_force_storable; [by destruct Hnet; split; rewrite ?P1, ?P2|done..]].
    split; untouched K3; by untouched K2. }
  destruct (begin_in_force (in_force c) g3 log'' mac softAP) as (q & Eq & Hq1 & Hq2 & Hq3).
  - untouched K3. untouched K2. by untouched K1.
  - assert (Et : fs_read CONFIG_PATH g3 = Some (config_text (in_force c))) by by untouched K3.
    by destruct (load_written (in_force c) g3 log'' Et Hst) as [-> _].
  - exists q. split_and!; auto.
Qed.

(** What the network page stores: a new network for the device as it is, or for a
    device that is to be set up. *)
Definition with_network ssid password vendor c : DeviceRuntimeConfig :=
  c <| wifiSsid := ssid |> <| wifiPassword := password |> <| dc_macVendor := vendor |>.

Definition stored_network (reset : bool) ssid password vendor c : DeviceRuntimeConfig :=
  if reset && setupComplete c then with_network ssid password vendor c
  else network_only ssid password vendor.

Lemma network_storable f reset ssid password vendor c : 1 <= length ssid <= 32 -> length password <= 63 ->
  storable f c -> storable f (stored_network reset ssid password vendor c).
Proof.
  intros Hs Hp [_ _ Ht]. unfold stored_network. destruct (reset && setupComplete c) eqn:E.
  - apply andb_prop in E as [_ E]. rewrite E in Ht. constructor; [by destruct c|by destruct c|].
    unfold with_network. destruct c. cbn in *. subst. exact Ht.
  - by constructor.
Qed.

(** The last choice of a handler. *)
Ltac answer_page := lazymatch goal with |- under _ (if ?b then _ else _) _ _ => destruct b end; apply under_ret; left.

(** The text has the network only when the setup is not complete. *)
Lemma network_text reset ssid password vendor c :
  config_text (if reset && setupComplete c then with_network ssid password vendor c
               else (with_network ssid password vendor c) <| setupComplete := false |>) =
  config_text (stored_network reset ssid password vendor c).
Proof. unfold stored_network. by destruct (reset && setupComplete c). Qed.

(** C23: What the network page stores is in force after the restart: when it was
    stored, the network could be joined and the name, the password and the vendor were
    valid; the next start finds them, with the whole setup of the device when only the
    network was to be forgotten and with nothing else otherwise, and opens no access
    point again.  This is for a device whose configuration could be stored
    ([storable]), with files as a start leaves them ([settled]) and no transition to the
    tunnel page under way, and provided that in the states of this run the storage
    removes what it is asked to remove and no write stops short ([serves]; opening and
    renaming may fail). *)
Theorem network_in_force radio now arg p f p' r f' log' :
  settled f -> storable f (pt_config p) -> (wifiResetRequested p = false -> fs_read WIFI_RESET_REQUEST_PATH f = None) ->
  handleWifiSave radio now arg p (f, []) = ((p', r), (f', log')) -> Forall serves (f :: log') ->
  transitionPending p' = true \/ (exists pg, r = PageThenRestart pg) -> transitionPending p = false ->
  exists ssid password vendor, rd_joins radio ssid password = true /\ 1 <= length ssid <= 32 /\
    (password = [] \/ 8 <= length password <= 63) /\ parse_vendor (arg "mac_vendor"%string) = Some vendor /\
    forall mac softAP log'', exists q,
      (begin true None (Some mac) true softAP new_portal (f', log'')).1 = (true, q) /\
      pt_config q = stored_network (wifiResetRequested p) ssid password vendor (pt_config p) /\ mode q = NoPortal.
Proof.
  intros Hset Hst Hreset E HF Hdone Hp.
  set (good := fun s : F * list F => exists ssid password vendor, rd_joins radio ssid password = true /\ 1 <= length ssid <= 32 /\
    (password = [] \/ 8 <= length password <= 63) /\ parse_vendor (arg "mac_vendor"%string) = Some vendor /\
    forall mac softAP log'', exists q, (begin true None (Some mac) true softAP new_portal (s.1, log'')).1 = (true, q) /\
      pt_config q = stored_network (wifiResetRequested p) ssid password vendor (pt_config p) /\ mode q = NoPortal).
  assert (Hwp : under serves (handleWifiSave radio now arg p) (fun a s =>
    good s \/ (transitionPending a.1 = false /\ exists pg, a.2 = Page pg)) (f, [])).
  2:{ pose proof (under_run _ _ _ _ _ _ _ Hwp E HF) as Hr. cbn [fst snd] in Hr.
      destruct Hr as [Hg|[H1 [pg ->]]]; [exact Hg|].
      destruct Hdone as [Hd|[pg' Hd]]; [by rewrite H1 in Hd|done]. }
  unfold handleWifiSave. cbv zeta. destruct (parse_vendor _) as [vendor|] eqn:Ev; [|apply under_ret; right; split; [done|by eexists]].
  set (ssid := if bool_decide _ then _ else _). set (password := arg "password"%string).
  destruct (bool_decide (ssid = []) || (32 <? length ssid)) eqn:Es; [apply under_ret; right; split; [done|by eexists]|].
  destruct (negb (bool_decide (password = [])) && _) eqn:Epw; [apply under_ret; right; split; [done|by eexists]|].
  destruct (rd_joins radio ssid password) eqn:Ej; cbn [negb]; [|apply under_ret; right; split; [done|by eexists]].
  apply orb_false_elim in Es as [Es1%bool_decide_eq_false Es2%Nat.ltb_ge].
  assert (Hs : 1 <= length ssid <= 32) by (split; [destruct ssid; [done|simpl; lia]|done]).
  assert (Hpw : password = [] \/ 8 <= length password <= 63).
  { destruct (bool_decide_reflect (password = [])) as [Hn|Hn]; [by left|right]. cbn [negb andb] in Epw. apply orb_false_elim in Epw as [?%Nat.ltb_ge ?%Nat.ltb_ge]. lia. }
  assert (Hl : length password <= 63) by (destruct Hpw as [->|?]; simpl; lia).
  run_under under_writeConfig; [done|]. intros b g1 log1 K1 Hcfg.
  destruct b; cbn [negb]; [|apply under_ret; right; split; [done|by eexists]]. specialize (Hcfg eq_refl).
  assert (Hgood : forall g log', others_kept [WIFI_RESET_REQUEST_PATH] g1 g -> fs_read WIFI_RESET_REQUEST_PATH g = None ->
    good (g, log')).
  { intros g log2 K2 Hn. exists ssid, password, vendor. do 4 (split; [done|]). intros mac softAP log''.
    set (c := stored_network (wifiResetRequested p) ssid password vendor (pt_config p)).
    assert (Et : fs_read CONFIG_PATH g = Some (config_text c)).
    { untouched K2. rewrite Hcfg. f_equal. unfold c. by rewrite <- network_text. }
    assert (Hc : storable g c).
    { apply (storable_same f); [split; untouched K2; by untouched K1|by apply network_storable]. }
    destruct (begin_in_force c g log'' mac softAP) as (q & Eq & Hq1 & Hq2 & _); [done| |by exists q].
    by destruct (load_written c g log'' Et Hc) as [-> _]. }
  apply under_bind; [apply _..|]. cbn [wifiResetRequested upd]. destruct (wifiResetRequested p) eqn:Hr; cbn [when].
  - apply under_rm. intros g2 log2 E2 K2. answer_page; by apply (Hgood g2 log2).
  - assert (Hn : fs_read WIFI_RESET_REQUEST_PATH g1 = None) by (untouched K1; by apply Hreset).
    apply under_ret. answer_page; by apply (Hgood g1 log1).
Qed.

End Handlers.

(** ** Concrete requests *)

Lemma plain_all_serve (l : list PlainFs) : Forall serves l.
Proof. apply Forall_forall. intros g _. apply plain_serves. Qed.

(** A form, as the list of its arguments. *)
Definition form (fields : list (string * list byte)) (name : string) : list byte :=
  match List.find (fun f => bool_decide (f.1 = name)) fields with Some f => f.2 | None => [] end.

Definition password_form : string -> list byte :=
  form [("ssh_host", bytes "ssh.example.org"); ("ssh_port", bytes "2222"); ("ssh_user", bytes "pi");
    ("ssh_auth", bytes "password"); ("ssh_password", bytes "p&ss=w%rd"); ("remote_host", bytes "127.0.0.1");
    ("remote_port", bytes "8080"); ("local_host", bytes "192.168.1.1"); ("local_port", bytes "80")]%string.

Definition demo_portal : Portal := new_portal <| pt_config := demo_device |> <| configEditRequested := true |>.

Definition demo_factory : list byte := [x24; x0a; xc4; x01; x02; x03].

(** A device that is asked to open its settings. *)
Definition edit_files : PlainFs := mkPlain (<[EDIT_REQUEST_PATH := bytes "1"]> demo_files).

Lemma setup_in_force_witness :
  let run := save_device password_form demo_portal (edit_files, []) in
  match run.1.2 with
  | Page _ => run.1.1 = demo_portal /\ (refused password_form demo_portal -> run.2.1 = edit_files)
  | PageThenRestart _ => exists c, submitted password_form demo_device = Some c /\ validDeviceConfig c = true /\
      forall mac softAP log'', exists q,
        (begin true None (Some mac) true softAP new_portal (run.2.1, log'')).1 = (true, q) /\
        pt_config q = in_force c /\ mode q = NoPortal /\ configEditRequested q = false
  end.
Proof.
  intros run. assert (E : run = ((run.1.1, run.1.2), (run.2.1, run.2.2))) by by vm_compute.
  apply (setup_in_force password_form demo_portal edit_files run.1.1 run.1.2
    run.2.1 run.2.2); [by vm_compute|split; vm_compute; lia|done|exact E|apply plain_all_serve].
Defined.

Example setup_restarts : exists pg, (save_device password_form demo_portal (edit_files, [])).1.2 = PageThenRestart pg.
Proof. eexists. by vm_compute. Qed.

(** The handler removes the key files before the configuration is stored: when that
    fails, the page says so, and the device has lost its setup at the next start. *)
Lemma password_save_loses_setup :
  let before := demo_fs [Works; Works; Fails] in
  let run := save_device password_form demo_portal (before, []) in
  (exists pg, run.1.2 = Page pg) /\ run.1.1 = demo_portal /\
  setupComplete (loadConfig default_device (before, [])).1.2 = true /\
  setupComplete (loadConfig default_device (run.2.1, [])).1.2 = false.
Proof. split; [by eexists; vm_compute|]. by vm_compute. Qed.

Definition wifi_form : string -> list byte :=
  form [("ssid", bytes "cafe"); ("password", bytes "12345678"); ("mac_vendor", bytes "hp")]%string.

Definition demo_radio : Radio := mkRadio (fun _ _ => true) [(bytes "cafe", (-60)%Z)] (bytes "10.0.0.7").

(** A device that is to forget its network only. *)
Definition reset_files : PlainFs := mkPlain (<[WIFI_RESET_REQUEST_PATH := bytes "1"]> demo_files).

Definition reset_portal : Portal := new_portal <| pt_config := demo_device |> <| wifiResetRequested := true |>.

Lemma reset_storable : storable reset_files demo_device.
Proof. constructor; [split; apply Nat.leb_le; by vm_compute|apply Nat.leb_le; by vm_compute|]. split; [by vm_compute|by split]. Qed.

Lemma network_in_force_witness :
  let run := handleWifiSave demo_radio 0 wifi_form reset_portal (reset_files, []) in
  (exists pg, run.1.2 = PageThenRestart pg) /\
  exists ssid password vendor, rd_joins demo_radio ssid password = true /\ 1 <= length ssid <= 32 /\
    (password = [] \/ 8 <= length password <= 63) /\ parse_vendor (wifi_form "mac_vendor"%string) = Some vendor /\
    forall mac softAP log'', exists q,
      (begin true None (Some mac) true softAP new_portal (run.2.1, log'')).1 = (true, q) /\
      pt_config q = stored_network true ssid password vendor demo_device /\ mode q = NoPortal.
Proof.
  intros run. assert (Hr : exists pg, run.1.2 = PageThenRestart pg) by (eexists; by vm_compute).
  split; [exact Hr|]. assert (E : run = ((run.1.1, run.1.2), (run.2.1, run.2.2))) by by vm_compute.
  apply (network_in_force demo_radio 0 wifi_form reset_portal reset_files
    run.1.1 run.1.2 run.2.1 run.2.2); [by vm_compute|exact reset_storable|discriminate|exact E|
    apply plain_all_serve|right; exact Hr|reflexivity].
Defined.
