(* ===== verification/Limits.v ===== *)
(** * Bounds, deadlines and termination of the pump

    The write loop of phase 3 ends and stays within its budget; step 2 of
    phase 4 abandons exactly the channels stuck past the hard deadline;
    back-pressure is a hysteresis between 25% and 75%; the round-robin order
    visits every slot once; what a small or an oversized working buffer does. *)

From S2P Require Import Prelude Platform Policies Prepend Ring Breaker Config Net Channel Lock Transport Flow Cycle.

Section Limits.
Context {R : Type} {BR : ByteRing R} {BL : ByteRingLaws R} {Env : Type} {P : Platform Env} {T : Target}.
Implicit Types s : ChannelSlot R.
Implicit Types q : Pump R * world Env.

(** ** The write loop *)

(** A round either ends the loop or spends budget. *)
Lemma write_chunk_spends bufSize budget c (x : Cell R * world Env) :
  0 < budget -> fst (write_chunk bufSize budget c x) < budget.
Proof.
  intros Hb. change (wp (write_chunk bufSize budget c) (fun b _ => b < budget) x).
  destruct x as [x w]. unfold write_chunk, count_error, begin_close, slot_beginClose, assign, add_moved.
  wp_go; lia.
Qed.

Lemma write_rounds_enough fuel fuel' bufSize budget c (x : Cell R * world Env) :
  budget <= Z.of_nat fuel -> (fuel <= fuel')%nat ->
  write_rounds fuel' bufSize budget c x = write_rounds fuel bufSize budget c x.
Proof.
  revert fuel' budget x. induction fuel as [|fuel IH]; intros [|fuel'] budget x Hb Hle; try lia.
  - done.
  - cbn [write_rounds]. destruct (Z.ltb_spec 0 budget); [lia|done].
  - cbn [write_rounds]. destruct (Z.ltb_spec 0 budget) as [Hpos|]; [|done].
    pose proof (write_chunk_spends bufSize budget c x Hpos) as Hs. unfold bind.
    destruct (write_chunk bufSize budget c x) as [b' x']. cbn [fst] in Hs. apply IH; lia.
Qed.

(** C38: the unbounded [while] loop that drains a ring into an SSH channel ends:
    every round but the last spends budget, so running it with any more rounds
    than the budget of 16384 changes nothing. *)
Theorem write_loop_terminates bufSize c fuel (x : Cell R * world Env) :
  (Z.to_nat MAX_WRITE_PER_CHANNEL <= fuel)%nat ->
  write_rounds fuel bufSize MAX_WRITE_PER_CHANNEL c x =
  write_rounds (S (Z.to_nat MAX_WRITE_PER_CHANNEL)) bufSize MAX_WRITE_PER_CHANNEL c x.
Proof.
  intros Hf. rewrite (write_rounds_enough (Z.to_nat MAX_WRITE_PER_CHANNEL) fuel) by (done || lia).
  symmetry. apply write_rounds_enough; lia.
Qed.

(** ** Step 2 of phase 4 *)

Definition stuck (now : Z) s : bool :=
  active s && bool_decide (state s = Draining) && (HARD_ABANDON_TIMEOUT_MS <? u32_sub now (closeStartMs s)).

Lemma drain_verdict_hard now s :
  drain_verdict now s = HardAbandon <-> (HARD_ABANDON_TIMEOUT_MS <? u32_sub now (closeStartMs s)) = true.
Proof.
  unfold drain_verdict. destruct (HARD_ABANDON_TIMEOUT_MS <? _); [done|]. split; [|done].
  repeat match goal with |- context [if ?b then _ else _] => destruct b end; done.
Qed.

Lemma hard_abandon_ok i q :
  mgr_inv (manager q.1) -> holds i (manager q.1) ->
  wp (hard_abandon i) (fun _ q' =>
    manager q'.1 = given_up i (reset_fields (getSlot i (manager q.1))) (manager q.1) /\
    sessionDegraded_ (pump q'.1) = true) q.
Proof.
  intros Hi [Hr Ha]. destruct q as [p w]. cbn [fst] in *. unfold hard_abandon, on_manager, push_event.
  wp_step. wp_step. wp_step. apply wp_focus_pair.
  eapply wp_conseq; [exact (abandonSlot_ok i _ (manager p, w) Hi Hr Ha)|].
  intros u [m' w'] (rc & Hm & _). cbn [fst snd] in *. subst m'. by wp_go.
Qed.

(** What the scan of the slots [l] does. *)
Definition scanned (now : Z) (l : list Z) (p p' : Pump R) : Prop :=
  mgr_inv (manager p') /\ maxSlots_ (manager p') = maxSlots_ (manager p) /\
  (forall j, out_of_range j (manager p) = false ->
    getSlot j (manager p') =
      if bool_decide (j ∈ l) && stuck now (getSlot j (manager p))
      then reset_fields (getSlot j (manager p)) else getSlot j (manager p)) /\
  sessionDegraded_ (pump p') =
    sessionDegraded_ (pump p) || existsb (fun i => stuck now (getSlot i (manager p))) l.

Lemma in_cons_ne (i j : Z) l : j <> i -> bool_decide (j ∈ i :: l) = bool_decide (j ∈ l).
Proof. intros Hne. apply bool_decide_ext. rewrite elem_of_cons. naive_solver. Qed.

Lemma drain_scan_ok now arrSize l eofs closes q :
  mgr_inv (manager q.1) -> NoDup l -> Forall (fun i => out_of_range i (manager q.1) = false) l ->
  wp (drain_scan now arrSize l eofs closes) (fun _ q' => scanned now l q.1 q'.1) q.
Proof.
  revert eofs closes q. induction l as [|i l IH]; intros eofs closes q Hi Hnd Hl.
  { apply wp_ret. split_and!; try done. by rewrite orb_false_r. }
  apply Forall_cons_iff in Hl as [Hr Hl]. inversion_clear Hnd as [|? ? Hni Hnd'].
  simpl. apply wp_bind, wp_get.
  (* a slot that is not stuck is only classified *)
  assert (stuck now (getSlot i (manager q.1)) = false -> forall eofs closes,
    wp (drain_scan now arrSize l eofs closes) (fun _ q' => scanned now (i :: l) q.1 q'.1) q) as Hskip.
  { intros Hs e1 c1. eapply wp_conseq; [by apply IH|]. intros a q' (H1 & H2 & H3 & H4).
    split_and!; [done|done| |by simpl; rewrite Hs, H4].
    intros j Hj. rewrite (H3 j Hj). destruct (decide (j = i)) as [->|Hne].
    - by rewrite Hs, !andb_false_r.
    - by rewrite in_cons_ne. }
  unfold stuck in Hskip at 1.
  destruct (active (getSlot i (manager q.1))) eqn:Ha; cbn [negb orb]; [|by apply Hskip].
  destruct (decide (state (getSlot i (manager q.1)) = Draining)) as [Hd|Hd];
    [rewrite (bool_decide_eq_true_2 _ Hd) in *|rewrite (bool_decide_eq_false_2 _ Hd) in *];
    cbn [negb andb] in *; [|by apply Hskip].
  destruct (drain_verdict now (getSlot i (manager q.1))) eqn:Ev.
  1-3: apply Hskip; destruct (HARD_ABANDON_TIMEOUT_MS <? _) eqn:E; [|done];
    by apply drain_verdict_hard in E; congruence.
  apply drain_verdict_hard in Ev. assert (holds i (manager q.1)) as Hh by done.
  apply wp_bind. eapply wp_conseq; [by apply hard_abandon_ok|]. intros u q1 [E1 Hdeg].
  destruct (given_up_ok i (reset_fields (getSlot i (manager q.1))) (manager q.1) Hi Hr Ha eq_refl
    (reset_inactive _)) as (G1 & _ & G3 & G4 & _).
  assert (forall j, out_of_range j (manager q1.1) = out_of_range j (manager q.1)) as Hrange
    by (intros j; by rewrite E1).
  assert (forall j, j <> i -> out_of_range j (manager q.1) = false ->
    getSlot j (manager q1.1) = getSlot j (manager q.1)) as Hother.
  { intros j Hne Hj. rewrite E1. apply G3; [|done]. by apply out_of_range_nonneg in Hj as [? _]. }
  eapply wp_conseq; [apply IH; [by rewrite E1|done|]|].
  { eapply Forall_impl; [|exact Hl]. intros j Hj. by rewrite Hrange. }
  intros a q' (H1 & H2 & H3 & H4). split_and!; [done|by rewrite H2, E1| |].
  - intros j Hj. rewrite H3 by (by rewrite Hrange). destruct (decide (j = i)) as [->|Hne].
    + rewrite (bool_decide_eq_false_2 _ Hni), bool_decide_eq_true_2 by by left.
      unfold stuck. rewrite Ha, (bool_decide_eq_true_2 _ Hd), Ev. simpl. by rewrite E1.
    + rewrite (Hother j Hne Hj). by rewrite in_cons_ne.
  - rewrite H4, Hdeg. simpl. unfold stuck at 1. rewrite Ha, (bool_decide_eq_true_2 _ Hd), Ev. simpl.
    by rewrite orb_true_r.
Qed.

(** The hard deadline is exact: step 2 of [checkCloses] gives up precisely
    the channels that have been draining for more than 30 s on the wrapping
    clock, resets their slots, leaves every other slot alone, and marks the
    session degraded when, and only when, it gave one up. *)
Theorem hard_deadline_exact now arrSize q :
  let m := manager q.1 in
  mgr_inv m ->
  let q' := snd (drain_scan now arrSize (seqZ 0 (maxSlots_ m)) [] [] q) in
  (forall j, out_of_range j m = false ->
     getSlot j (manager q'.1) =
       if stuck now (getSlot j m) then reset_fields (getSlot j m) else getSlot j m) /\
  sessionDegraded_ (pump q'.1) =
    sessionDegraded_ (pump q.1) ||
      existsb (fun i => stuck now (getSlot i m)) (seqZ 0 (maxSlots_ m)).
Proof.
  intros m Hi q'. pose proof (drain_scan_ok now arrSize (seqZ 0 (maxSlots_ m)) [] [] q Hi) as H.
  unfold wp in H. fold m q' in H. destruct H as (_ & _ & H3 & H4).
  - apply NoDup_seqZ.
  - apply Forall_forall. intros i Hin%list_elem_of_In%elem_of_seqZ. fold m. unfold out_of_range.
    by rewrite (proj2 (Z.ltb_ge i 0)), (proj2 (Z.leb_gt _ i)) by lia.
  - split.
    + intros j Hj. rewrite H3 by done. rewrite bool_decide_eq_true_2; [done|].
      apply elem_of_seqZ. by apply out_of_range_nonneg in Hj.
    + exact H4.
Qed.

(** ** Back-pressure *)

(** Reading the local socket is a hysteresis on the fill of [toRemote]:
    after the check it is paused above 75% of the ring's capacity, resumed below
    25%, unchanged in between; and a paused channel makes no call on its socket
    in step B. *)
Theorem backpressure_hysteresis bufSize s b :
  toRemote s = Some b -> Ring.inv b -> capacity b * 75 < 2 ^ 32 ->
  let s' := backpressure_check s in
  let used := zlen (Ring.content b) in
  (capacity b * 75 / 100 < used -> localReadPaused s' = true) /\
  (used < capacity b * 25 / 100 -> localReadPaused s' = false) /\
  (capacity b * 25 / 100 <= used <= capacity b * 75 / 100 -> localReadPaused s' = localReadPaused s) /\
  (localReadPaused s' = true -> forall x (w : world Env),
     slot x = s' -> fill_remote bufSize (x, w) = (tt, (x, w))).
Proof.
  intros Hb Hi Hcap s' used.
  assert (Ring.size b = used) as Hu by (by apply size_ok).
  pose proof Hi as (_ & Hc & _).
  assert (percent (Ring.capacityBytes b) BACKPRESSURE_HIGH_PCT = capacity b * 75 / 100) as E1
    by (unfold percent, BACKPRESSURE_HIGH_PCT; unfold Ring.capacityBytes; rewrite u32_small by lia; done).
  assert (percent (Ring.capacityBytes b) BACKPRESSURE_LOW_PCT = capacity b * 25 / 100) as E2
    by (unfold percent, BACKPRESSURE_LOW_PCT; unfold Ring.capacityBytes; rewrite u32_small by lia; done).
  assert (capacity b * 25 / 100 <= capacity b * 75 / 100) as Hle by (apply Z.div_le_mono; lia).
  unfold s', backpressure_check. rewrite Hb, Hu, E1, E2. split_and!.
  - intros H. destruct (localReadPaused s) eqn:Ep.
    + by rewrite (proj2 (Z.ltb_ge used _)) by lia.
    + by rewrite (proj2 (Z.ltb_lt _ used)).
  - intros H. destruct (localReadPaused s) eqn:Ep.
    + by rewrite (proj2 (Z.ltb_lt used _)).
    + by rewrite (proj2 (Z.ltb_ge _ used)) by lia.
  - intros H. destruct (localReadPaused s) eqn:Ep.
    + by rewrite (proj2 (Z.ltb_ge used _)) by lia.
    + by rewrite (proj2 (Z.ltb_ge _ used)) by lia.
  - intros Hp x w Hx. rewrite <- Hx in Hp. unfold fill_remote, bind, get, gets. cbn [fst]. rewrite Hp.
    destruct (toRemote (slot x)); [|done]. by destruct (localEof (slot x)).
Qed.

(** ** Round-robin *)

(** While the offset has not wrapped, a cycle visits every slot exactly
    once, starting at the offset. *)
Theorem round_robin_fair offset n :
  0 <= offset -> 0 < n -> n + offset <= 2 ^ 32 ->
  rr_order offset n ≡ₚ seqZ 0 n /\ head (rr_order offset n) = Some (offset mod n).
Proof.
  intros Ho Hn Hw. assert (forall k, 0 <= k < n -> u32 (k + offset) = k + offset) as Hu
    by (intros; apply u32_small; lia).
  split.
  - apply NoDup_Permutation_bis.
    + apply NoDup_ListNoDup. unfold rr_order. apply NoDup_fmap_2_strong; [|apply NoDup_seqZ].
      intros i j Hi%elem_of_seqZ Hj%elem_of_seqZ. rewrite !Hu by lia. intros E.
      pose proof (Z.div_mod (i + offset) n ltac:(lia)). pose proof (Z.div_mod (j + offset) n ltac:(lia)).
      assert ((i + offset) / n = (j + offset) / n) by nia. nia.
    + unfold rr_order. by rewrite length_fmap.
    + intros i Hi%list_elem_of_In. unfold rr_order in Hi.
      apply list_elem_of_fmap in Hi as (k & -> & Hk%elem_of_seqZ). apply list_elem_of_In, elem_of_seqZ. rewrite Z.add_0_l. apply Z.mod_pos_bound. lia.
  - unfold rr_order. rewrite seqZ_cons by lia. simpl. by rewrite u32_small by lia.
Qed.


(** ** The shared buffer *)

(** The read that keeps a paused channel's transport moving asks libssh2 for
    64 bytes whatever the size of [rxBuf_] it reads into: with a working buffer
    of fewer than 64 bytes, which the validators accept, it is an overrun. *)
Theorem paused_read_ignores_buffer bufSize c fd b (x : Cell R) (w : world Env) :
  ready c fd (slot x) -> toLocal (slot x) = Some b -> remoteEof (slot x) = false ->
  sshReadPaused (slot x) = true -> 64 <= Ring.available b ->
  percent (Ring.capacityBytes b) BACKPRESSURE_LOW_PCT <= Ring.size b ->
  exists r evs, ran (x, w) (Event (ChannelRead c 64) r :: evs) (snd (pump_slot bufSize (x, w))).
Proof.
  intros Hr Hb He Hp Hav Hsz.
  change (wp (pump_slot bufSize) (fun _ t => exists r evs,
    ran (x, w) (Event (ChannelRead c 64) r :: evs) t) (x, w)).
  unfold pump_slot. apply wp_bind, wp_get. cbn [fst].
  rewrite (rd_active _ _ _ Hr), (rd_chan _ _ _ Hr), He, Hp. cbn [negb].
  apply wp_bind. unfold paused_read. apply wp_bind, wp_get. cbn [fst]. rewrite Hb.
  rewrite (proj2 (Z.ltb_ge _ _)), (proj2 (Z.ltb_lt 0 _)), (proj2 (Z.ltb_ge _ 64)) by lia.
  apply wp_bind, (wp_sys_pair (ChannelRead c 64)). intros [rc bs] e _.
  unfold accept_rx, mark_read, assign, add_moved, count_error, begin_close, slot_beginClose, assign.
  wp_go; try discriminate; eexists _, _; ran_done.
Qed.

(** Putting unsent bytes back keeps the order only while they fit the
    prepend buffer.  With a working buffer larger than that the fallback appends
    them behind bytes that came later, although the ring has room for all. *)
Theorem oversized_restore_reorders len n b :
  Ring.inv b -> is_Some (handle b) -> 0 <= len < 2 ^ 32 ->
  let '(bs, b1) := Ring.read len b in
  0 <= n -> SSH_TUNNEL_PREPEND_CAPACITY < zlen (zdrop n bs) ->
  zlen (zdrop n bs) <= Ring.available b1 ->
  let '(k, b2) := restoreUnsent b1 (zdrop n bs) in
  k = zlen (zdrop n bs) /\ Ring.content b = bs ++ Ring.content b1 /\
  Ring.content b2 = Ring.content b1 ++ zdrop n bs.
Proof.
  intros Hi Hs Hl. pose proof (read_ok len b Hi Hl) as Hr. destruct (Ring.read len b) as [bs b1].
  destruct Hr as (Hi1 & [_ Hs1] & Hc & Hle & _). intros Hn Hbig Hfit.
  set (data := zdrop n bs) in *. assert (zlen data < 2 ^ 32) as Hd by (unfold data in *; zlia).
  unfold restoreUnsent. pose proof prepend_capacity_range.
  destruct (Z.eqb_spec (zlen data) 0); [lia|].
  assert (Ring.available (snd (writeToFront data b1)) = Ring.available b1) as Hav
    by (unfold writeToFront; by destruct (Prepend.writeToFront _ _)).
  pose proof (writeToFront_ok data b1 Hi1 Hd) as Hw. destruct (writeToFront data b1) as [k b2].
  destruct Hw as (Hi2 & Hs2 & Hw). cbn [snd] in Hav.
  rewrite (proj2 (Z.leb_gt _ _)), andb_false_r in Hw by zlia. destruct Hw as [-> Hc2].
  destruct (Z.eqb_spec 0 (zlen data)); [lia|].
  destruct (write_all data b2 Hi2) as (b3 & Hw3 & _ & Hc3); [lia|]. rewrite Hw3.
  split_and!; [done|done|]. by rewrite Hc3, Hc2.
Qed.

End Limits.

(** ** Concrete runs *)
Section Variants.
Context {R : Type} {BR : ByteRing R} {BL : ByteRingLaws R} {T : Target}.
Lemma active_slot_inv i (m : ChannelManager R) :
  mgr_inv m -> out_of_range i m = false -> active (getSlot i m) = true -> slot_active_inv (getSlot i m).
Proof. intros Hi Hr Ha. pose proof (mgr_inv_slot i m Hi Hr) as Hs. unfold slot_inv in Hs. by rewrite Ha in Hs. Qed.

Lemma slot_inv_active (s : ChannelSlot R) : active s = true -> slot_active_inv s -> slot_inv s.
Proof. unfold slot_inv. by intros ->. Qed.

Lemma set_draining_inv t (s : ChannelSlot R) :
  slot_active_inv s -> slot_active_inv (s <| state := Draining |> <| closeStartMs := t |>).
Proof. intros []. by constructor. Qed.

Lemma set_rings_ready c fd b (s : ChannelSlot R) :
  Ring.inv b -> ready c fd s ->
  ready c fd (s <| toRemote := Some b |> <| toLocal := Some b |> <| sshReadPaused := true |>).
Proof.
  intros Hb [H1 H2 H3 []]. constructor; try done. constructor; try done; by exists b.
Qed.
End Variants.

Section Example.
#[local] Existing Instance esp32_target.

(** Channel 7 bound in slot 0, its close begun at time 0 with bytes to flush. *)
Definition draining_slot : ChannelSlot wrap_ring :=
  (getSlot 0 (manager example_pump.1)) <| state := Draining |> <| closeStartMs := 0 |>.
Definition draining_pump : Pump wrap_ring * world script :=
  (example_pump.1 <| manager := setSlot 0 draining_slot (manager example_pump.1) |>, example_pump.2).

Lemma example_manager : manager example_pump.1 = example_bound.1.
Proof. by unfold example_pump. Qed.

Lemma example_slot_inv : slot_active_inv (getSlot 0 (manager example_pump.1)).
Proof.
  pose proof example_bound_inv as Hi. rewrite <- example_manager in Hi.
  assert (out_of_range 0 (manager example_pump.1) = false) as Hr by (by vm_compute).
  apply (active_slot_inv 0 _ Hi Hr). by vm_compute.
Qed.

Lemma draining_pump_inv : mgr_inv (manager draining_pump.1).
Proof.
  pose proof example_bound_inv as Hi. rewrite <- example_manager in Hi.
  apply (mgr_inv_setSlot_same 0 draining_slot (manager example_pump.1) Hi); [by vm_compute| |by vm_compute].
  apply slot_inv_active; [by vm_compute|]. apply set_draining_inv, example_slot_inv.
Qed.

Lemma draining_pump_slot : getSlot 0 (manager draining_pump.1) = draining_slot.
Proof.
  pose proof example_bound_inv as Hi. rewrite <- example_manager in Hi.
  apply (getSlot_setSlot 0 draining_slot (manager example_pump.1) Hi). by vm_compute.
Qed.

Lemma hard_deadline_exact_witness :
  let q' n := snd (drain_scan n 8 (seqZ 0 (maxSlots_ (manager draining_pump.1))) [] [] draining_pump) in
  getSlot 0 (manager (q' 30000).1) = draining_slot /\
  getSlot 0 (manager (q' 30001).1) = reset_fields draining_slot /\
  sessionDegraded_ (pump (q' 30001).1) = true.
Proof.
  pose proof (hard_deadline_exact 30000 8 draining_pump draining_pump_inv) as H.
  pose proof (hard_deadline_exact 30001 8 draining_pump draining_pump_inv) as H'.
  cbv zeta in H, H' |- *. destruct H as [H _], H' as [H' Hd].
  assert (out_of_range 0 (manager draining_pump.1) = false) as Hr by (by vm_compute).
  assert (stuck 30000 draining_slot = false) as S1 by (by vm_compute).
  assert (stuck 30001 draining_slot = true) as S2 by (by vm_compute).
  assert (seqZ 0 (maxSlots_ (manager draining_pump.1)) = [0; 1]) as Hs by (by vm_compute).
  specialize (H 0 Hr). specialize (H' 0 Hr). rewrite draining_pump_slot, S1 in H.
  rewrite draining_pump_slot, S2 in H'. split; [exact H|]. split; [exact H'|].
  rewrite Hd, Hs. cbn [existsb]. by rewrite draining_pump_slot, S2, orb_true_r.
Defined.

Lemma write_loop_terminates_witness :
  let x := (mkCell (getSlot 0 (manager example_pump.1)) 0 false, example_pump.2) in
  (Z.to_nat MAX_WRITE_PER_CHANNEL <= Z.to_nat 20000)%nat /\
  write_rounds (Z.to_nat 20000) 1024 MAX_WRITE_PER_CHANNEL 7 x =
  write_rounds (S (Z.to_nat MAX_WRITE_PER_CHANNEL)) 1024 MAX_WRITE_PER_CHANNEL 7 x.
Proof.
  cbv zeta. split; [unfold MAX_WRITE_PER_CHANNEL; lia|].
  apply write_loop_terminates. unfold MAX_WRITE_PER_CHANNEL. lia.
Defined.

Lemma round_robin_fair_witness : rr_order 7 4 = [3; 0; 1; 2] /\ rr_order 7 4 ≡ₚ seqZ 0 4.
Proof. split; [by vm_compute|]. apply (round_robin_fair 7 4); lia. Defined.

(** The same slot with [n] bytes waiting in both directions. *)
Definition full_ring (n : nat) : DataRingBuffer wrap_ring :=
  snd (Ring.write (replicate n x00) (assemble true true true 1024)).
Definition full_slot (n : nat) : ChannelSlot wrap_ring :=
  (getSlot 0 (manager example_pump.1)) <| toRemote := Some (full_ring n) |>
    <| toLocal := Some (full_ring n) |> <| sshReadPaused := true |>.

Lemma full_ring_inv n : (n < 1000)%nat -> Ring.inv (full_ring n).
Proof.
  intros Hn. unfold full_ring. pose proof (write_ok (replicate n x00) (assemble (R := wrap_ring) true true true 1024)) as H.
  destruct (Ring.write _ _) as [k b]. apply H; [by apply assemble_ok|]. rewrite length_replicate. lia.
Qed.

Lemma backpressure_hysteresis_witness :
  localReadPaused (backpressure_check (full_slot 800)) = true /\
  localReadPaused (backpressure_check (full_slot 200)) = false.
Proof.
  pose proof (backpressure_hysteresis 1024 (full_slot 800) (full_ring 800) eq_refl (full_ring_inv 800 ltac:(lia)) eq_refl) as H.
  pose proof (backpressure_hysteresis 1024 (full_slot 200) (full_ring 200) eq_refl (full_ring_inv 200 ltac:(lia)) eq_refl) as H'.
  destruct H as (H & _), H' as (_ & H' & _). split; [apply H|apply H']; by vm_compute.
Defined.

Lemma full_slot_ready n : (n < 1000)%nat -> ready 7 50 (full_slot n).
Proof.
  intros Hn. apply (set_rings_ready 7 50 (full_ring n) _ (full_ring_inv n Hn)).
  constructor; [by vm_compute|by vm_compute|by vm_compute|exact example_slot_inv].
Qed.

Lemma paused_read_ignores_buffer_witness :
  let x := (mkCell (full_slot 300) 0 false, example_pump.2) in
  isValidBufferSize 32 = true /\
  exists r evs, ran x (Event (ChannelRead 7 64) r :: evs) (snd (pump_slot 32 x)).
Proof.
  split; [by vm_compute|].
  apply (paused_read_ignores_buffer 32 7 50 (full_ring 300)); [apply full_slot_ready; lia|..]; by vm_compute.
Defined.
End Example.

Section SmallPrepend.

(** A build with a two-byte prepend buffer. *)
#[local] Instance small_prepend : Target := {|
  LIBSSH2_ERROR_EAGAIN := -37; LIBSSH2_ERROR_CHANNEL_UNKNOWN := -23;
  LIBSSH2_ERROR_CHANNEL_CLOSED := -26; LIBSSH2_ERROR_SOCKET_SEND := -7;
  LIBSSH2_ERROR_SOCKET_DISCONNECT := -13;
  EAGAIN := 11; EWOULDBLOCK := 11; EINPROGRESS := 119;
  LIBSSH2_HOSTKEY_TYPE_RSA := 1; LIBSSH2_HOSTKEY_TYPE_DSS := 2;
  LIBSSH2_HOSTKEY_TYPE_ECDSA_256 := 3; LIBSSH2_HOSTKEY_TYPE_ECDSA_384 := 4;
  LIBSSH2_HOSTKEY_TYPE_ECDSA_521 := 5; LIBSSH2_HOSTKEY_TYPE_ED25519 := 6;
  pdMS_TO_TICKS ms := ms; portMAX_DELAY := 4294967295; O_NONBLOCK := 1;
  sizeof_StaticRingbuffer := 60; sizeof_ChannelSlot := 280;
  SSH_TUNNEL_PREPEND_CAPACITY := 2;
  eagain_negative := ltac:(lia);
  prepend_capacity_range := ltac:(lia);
|}.

Definition six_bytes : DataRingBuffer wrap_ring :=
  snd (Ring.write [x01; x02; x03; x04; x05; x06] (assemble true true true 8)).

Lemma oversized_restore_reorders_witness :
  Ring.content six_bytes = [x01; x02; x03; x04; x05; x06] /\
  let '(bs, b1) := Ring.read 4 six_bytes in
  Ring.content (snd (restoreUnsent b1 (zdrop 1 bs))) = [x05; x06; x02; x03; x04].
Proof.
  split; [by vm_compute|].
  assert (Ring.inv six_bytes) as Hi.
  { unfold six_bytes.
    pose proof (write_ok [x01; x02; x03; x04; x05; x06] (assemble (R := wrap_ring) true true true 8)) as H.
    destruct (Ring.write _ _) as [k b]. by apply H; [apply assemble_ok|]. }
  pose proof (oversized_restore_reorders 4 1 six_bytes Hi) as H.
  specialize (H ltac:(by eexists) ltac:(lia)).
  assert (Ring.read 4 six_bytes = ([x01; x02; x03; x04], snd (Ring.read 4 six_bytes))) as E
    by (by vm_compute).
  rewrite E in H |- *. specialize (H ltac:(lia) ltac:(by vm_compute) ltac:(by vm_compute)).
  destruct (restoreUnsent _ _) as [k b2]. destruct H as (_ & _ & H). cbn [snd]. rewrite H. by vm_compute.
Defined.
End SmallPrepend.
