(* ===== verification/Fingerprint.v ===== *)
(** * Host-key fingerprints (ssh_session.cpp)

    The encodings of a SHA-256 digest ([encodeFingerprintHex],
    [encodeFingerprintBase64]), the normalisation of the fingerprint the user
    configured, and the comparison [verifyHostKey] makes.  Arduino's [String]
    operations are written out; a [String] holds no NUL byte. *)

From Stdlib Require Import Ascii.
From S2P Require Import Prelude Platform Config.

#[local] Open Scope string_scope.
#[local] Open Scope Z_scope.

(** ** Arduino String operations *)

(** [value += c], as a string of one character. *)
Definition chr (c : ascii) : String := String.String c EmptyString.

(** [isspace] of the C locale. *)
Definition isspace (c : ascii) : bool :=
  let n := Z.of_N (N_of_ascii c) in (n =? 32) || ((9 <=? n) && (n <=? 13)).

Definition tolower (c : ascii) : ascii :=
  let n := N_of_ascii c in
  if (65 <=? Z.of_N n) && (Z.of_N n <=? 90) then ascii_of_N (n + 32) else c.

Definition isxdigit (c : ascii) : bool :=
  let n := Z.of_N (N_of_ascii c) in
  ((48 <=? n) && (n <=? 57)) || ((65 <=? n) && (n <=? 70)) || ((97 <=? n) && (n <=? 102)).

Fixpoint toLowerCase (s : String) : String :=
  match s with
  | EmptyString => EmptyString
  | String.String c s' => String.String (tolower c) (toLowerCase s')
  end.

(** [s.replace(c, "")] *)
Fixpoint remove_char (c : ascii) (s : String) : String :=
  match s with
  | EmptyString => EmptyString
  | String.String d s' =>
      if Ascii.eqb d c then remove_char c s' else String.String d (remove_char c s')
  end.

Fixpoint trim_left (s : String) : String :=
  match s with
  | EmptyString => EmptyString
  | String.String c s' => if isspace c then trim_left s' else s
  end.

(** Drop the longest suffix of characters that satisfy [p]. *)
Fixpoint drop_suffix (p : ascii -> bool) (s : String) : String :=
  match s with
  | EmptyString => EmptyString
  | String.String c s' =>
      match drop_suffix p s' with
      | EmptyString => if p c then EmptyString else chr c
      | t => String.String c t
      end
  end.

Definition trim (s : String) : String := drop_suffix isspace (trim_left s).

Definition startsWith (p s : String) : bool := String.prefix p s.

(** [s.substring(n)] and [s.remove(0, n)] *)
Definition string_from (n : Z) (s : String) : String :=
  String.substring (Z.to_nat n) (String.length s - Z.to_nat n) s.

(** ** The encodings *)

(** [table[i]] *)
Definition char_at (table : String) (i : Z) : String :=
  match String.get (Z.to_nat i) table with Some c => chr c | None => EmptyString end.

Definition byte_val (b : byte) : Z := Z.of_N (Byte.to_N b).

Definition kHexDigits : String := "0123456789abcdef".

Fixpoint encodeFingerprintHex (data : list byte) : String :=
  match data with
  | [] => EmptyString
  | value :: data' =>
      char_at kHexDigits (Z.land (Z.shiftr (byte_val value) 4) 0x0F) +:+
      char_at kHexDigits (Z.land (byte_val value) 0x0F) +:+
      encodeFingerprintHex data'
  end.

Definition kBase64Table : String :=
  "ABCDEFGHIJKLMNOPQRSTUVWXYZabcdefghijklmnopqrstuvwxyz0123456789+/".

(** One round: up to three bytes, four characters. *)
Definition base64_group (a : byte) (b c : option byte) : String :=
  let octet o := match o with Some x => byte_val x | None => 0 end in
  let triple := Z.lor (Z.lor (Z.shiftl (byte_val a) 16) (Z.shiftl (octet b) 8)) (octet c) in
  char_at kBase64Table (Z.land (Z.shiftr triple 18) 0x3F) +:+
  char_at kBase64Table (Z.land (Z.shiftr triple 12) 0x3F) +:+
  (match b with Some _ => char_at kBase64Table (Z.land (Z.shiftr triple 6) 0x3F) | None => "=" end) +:+
  (match c with Some _ => char_at kBase64Table (Z.land triple 0x3F) | None => "=" end).

Fixpoint base64_groups (data : list byte) : String :=
  match data with
  | [] => EmptyString
  | [a] => base64_group a None None
  | [a; b] => base64_group a (Some b) None
  | a :: b :: c :: data' => base64_group a (Some b) (Some c) +:+ base64_groups data'
  end.

Definition encodeFingerprintBase64 (data : list byte) : String :=
  drop_suffix (Ascii.eqb "=") (base64_groups data).

Fixpoint all_chars (p : ascii -> bool) (s : String) : bool :=
  match s with
  | EmptyString => true
  | String.String c s' => p c && all_chars p s'
  end.

Definition isValidHexFingerprint (value : String) : bool :=
  if negb (str_len value =? 64) then false else all_chars isxdigit value.

(** FNV-1a of the key, as sixteen hexadecimal digits. *)
Fixpoint fnv_hash (hash : Z) (key : String) : Z :=
  match key with
  | EmptyString => hash
  | String.String c key' =>
      fnv_hash ((Z.lxor hash (Z.of_N (N_of_ascii c)) * 1099511628211) mod 2 ^ 64) key'
  end.

(** [%08lx] *)
Definition hex32 (v : Z) : String :=
  foldr (fun k s => char_at kHexDigits (Z.land (Z.shiftr v (4 * k)) 0x0F) +:+ s) EmptyString
    [7; 6; 5; 4; 3; 2; 1; 0].

Definition publicKeyDiagnosticTag (key : String) : String :=
  let hash := fnv_hash 1469598103934665603 key in
  hex32 (Z.shiftr hash 32) +:+ hex32 (Z.land hash 0xffffffff).

(** ** The comparison *)

(** [expectedRaw] after [trim] and the removal of line ends. *)
Definition clean_expected (s : String) : String :=
  remove_char "010" (remove_char "013" (trim s)).

(** [expectedIsBase64] and the [expectedComparable] chosen first. *)
Definition classify_expected (expectedRaw : String) : bool * String :=
  if startsWith "sha256:" (toLowerCase expectedRaw) then
    (true, string_from (indexOf ":" expectedRaw + 1) expectedRaw)
  else
    let candidateLower := toLowerCase (remove_char ":" (remove_char " " expectedRaw)) in
    if isValidHexFingerprint candidateLower then (false, candidateLower)
    else (true, expectedRaw).

Definition strip_prefix (s : String) : String :=
  if startsWith "SHA256:" s then string_from 7 s
  else if startsWith "sha256:" s then string_from 7 s
  else s.

(** [expectedIsBase64] and the final [expectedComparable]. *)
Definition comparable (expectedRaw : String) : bool * String :=
  let '(isBase64, s) := classify_expected expectedRaw in
  if isBase64 then
    (true, remove_char "=" (remove_char "010" (remove_char "013" (remove_char " "
             (strip_prefix (trim s))))))
  else (false, remove_char ":" (remove_char " " (toLowerCase s))).

Definition fingerprintsMatch (expectedRaw : String) (digest : list byte) : bool :=
  let '(isBase64, s) := comparable expectedRaw in
  if isBase64 then bool_decide (s = encodeFingerprintBase64 digest)
  else bool_decide (s = encodeFingerprintHex digest).

Definition fingerprintOpenSSH (digest : list byte) : String :=
  "SHA256:" +:+ encodeFingerprintBase64 digest.

(** ** Decoding *)

(** Read a character back from its table. *)
Fixpoint char_index (table : String) (c : ascii) : option Z :=
  match table with
  | EmptyString => None
  | String.String d t => if Ascii.eqb d c then Some 0 else n ← char_index t c; Some (n + 1)
  end.

Definition byte_of (n : Z) : option byte := Byte.of_N (Z.to_N n).

Fixpoint decodeHex (s : String) : option (list byte) :=
  match s with
  | EmptyString => Some []
  | String.String c (String.String d s') =>
      h ← char_index kHexDigits c; l ← char_index kHexDigits d;
      b ← byte_of (16 * h + l); bs ← decodeHex s'; Some (b :: bs)
  | _ => None
  end.

(** The unpadded encoding: a final group of two or three characters. *)
Fixpoint decodeBase64 (s : String) : option (list byte) :=
  match s with
  | EmptyString => Some []
  | String.String c1 (String.String c2 s') =>
      x1 ← char_index kBase64Table c1; x2 ← char_index kBase64Table c2;
      a ← byte_of (4 * x1 + x2 / 16);
      match s' with
      | EmptyString => Some [a]
      | String.String c3 s'' =>
          x3 ← char_index kBase64Table c3; b ← byte_of (x2 mod 16 * 16 + x3 / 4);
          match s'' with
          | EmptyString => Some [a; b]
          | String.String c4 t =>
              x4 ← char_index kBase64Table c4; c ← byte_of (x3 mod 4 * 64 + x4);
              bs ← decodeBase64 t; Some (a :: b :: c :: bs)
          end
      end
  | _ => None
  end.

Lemma byte_of_val b : byte_of (byte_val b) = Some b.
Proof. by destruct b. Qed.

Lemma byte_val_range b : 0 <= byte_val b < 256.
Proof. by destruct b. Qed.

(** ** Strings over a set of characters *)

Lemma append_cons c (s t : String) : String.String c s +:+ t = String.String c (s +:+ t).
Proof. done. Qed.

Lemma append_empty (t : String) : EmptyString +:+ t = t.
Proof. done. Qed.

Ltac str_simpl := cbn; rewrite ?append_cons, ?append_empty; cbn.

Lemma append_nil (s : String) : s +:+ EmptyString = s.
Proof. induction s as [|c s IH]; [done|]. str_simpl. by f_equal. Qed.

Lemma append_assoc (s t u : String) : (s +:+ t) +:+ u = s +:+ (t +:+ u).
Proof. induction s as [|c s IH]; [done|]. str_simpl. by f_equal. Qed.

Lemma all_chars_app p s t : all_chars p (s +:+ t) = all_chars p s && all_chars p t.
Proof. induction s as [|c s IH]; [done|]. str_simpl. by rewrite IH, andb_assoc. Qed.

Lemma all_chars_impl (p q : ascii -> bool) s :
  (forall c, p c = true -> q c = true) -> all_chars p s = true -> all_chars q s = true.
Proof.
  intros Hpq. induction s as [|c s IH]; [done|]. cbn. intros [Hc Hs]%andb_true_iff.
  by rewrite Hpq, IH.
Qed.

Lemma remove_char_none c s : all_chars (fun d => negb (Ascii.eqb d c)) s = true -> remove_char c s = s.
Proof.
  induction s as [|d s IH]; [done|]. cbn. intros [Hd Hs]%andb_true_iff.
  destruct (Ascii.eqb d c); [done|]. by rewrite IH.
Qed.

Lemma drop_suffix_none p s : all_chars (fun c => negb (p c)) s = true -> drop_suffix p s = s.
Proof.
  induction s as [|c s IH]; [done|]. cbn. intros [Hc Hs]%andb_true_iff. rewrite IH by done.
  destruct s; [|done]. destruct (p c); done.
Qed.

Lemma drop_suffix_app p s t :
  all_chars p t = true -> all_chars (fun c => negb (p c)) s = true -> drop_suffix p (s +:+ t) = s.
Proof.
  intros Ht Hs. assert (drop_suffix p t = EmptyString) as Et.
  { clear Hs. induction t as [|c t IH]; [done|]. cbn in *. apply andb_true_iff in Ht as [Hc Ht].
    rewrite IH by done. by rewrite Hc. }
  induction s as [|c s IH]; [done|]. str_simpl. cbn in Hs. apply andb_true_iff in Hs as [Hc Hs].
  rewrite IH by done. destruct s; [|done]. destruct (p c); done.
Qed.

Lemma trim_none s : all_chars (fun c => negb (isspace c)) s = true -> trim s = s.
Proof.
  intros Hs. unfold trim. assert (trim_left s = s) as ->.
  { destruct s as [|c s]; [done|]. cbn in *. apply andb_true_iff in Hs as [Hc _]. by destruct (isspace c). }
  by apply drop_suffix_none.
Qed.

Lemma toLowerCase_none s : all_chars (fun c => Ascii.eqb (tolower c) c) s = true -> toLowerCase s = s.
Proof.
  induction s as [|c s IH]; [done|]. cbn. intros [Hc%Ascii.eqb_eq Hs]%andb_true_iff. by rewrite IH, Hc.
Qed.

Lemma prefix_chars p (s t : String) :
  String.prefix s t = true -> all_chars p t = true -> all_chars p s = true.
Proof.
  revert t. induction s as [|c s IH]; intros [|d t]; try done. cbn.
  destruct (ascii_dec c d) as [->|]; [|done]. intros Hpre [Hd Ht]%andb_true_iff.
  rewrite Hd. by apply (IH t).
Qed.

Lemma substring_all s : String.substring 0 (String.length s) s = s.
Proof. induction s as [|c s IH]; [done|]. str_simpl. by f_equal. Qed.

(** Case analysis over all 256 characters. *)
Ltac all_ascii := intros [[] [] [] [] [] [] [] []]; vm_compute; done.

Definition in_table (table : String) (c : ascii) : bool := bool_decide (is_Some (char_index table c)).

Lemma base64_char c : in_table kBase64Table c = true ->
  negb (isspace c) && negb (Ascii.eqb c " ") && negb (Ascii.eqb c "010") && negb (Ascii.eqb c "013") &&
  negb (Ascii.eqb c ":") && negb (Ascii.eqb c "=") && negb (Ascii.eqb "=" c) = true.
Proof. revert c. all_ascii. Qed.

Lemma hex_char c : in_table kHexDigits c = true ->
  negb (isspace c) && negb (Ascii.eqb c " ") && negb (Ascii.eqb c "010") && negb (Ascii.eqb c "013") &&
  negb (Ascii.eqb c ":") && isxdigit c && Ascii.eqb (tolower c) c && negb (Ascii.eqb c "s") = true.
Proof. revert c. all_ascii. Qed.

(** Weaken what is known of the characters of a string. *)
Ltac weaken_chars H :=
  eapply all_chars_impl; [|exact H];
  let c := fresh in let Hc := fresh in intros c Hc;
  first [apply base64_char in Hc | apply hex_char in Hc];
  rewrite ?andb_true_iff in Hc; by destruct_and! Hc.

(** ** The encodings are injective: they can be decoded *)

Lemma hex_cons b d : exists c1 c2 h l,
  encodeFingerprintHex (b :: d) = String.String c1 (String.String c2 (encodeFingerprintHex d)) /\
  char_index kHexDigits c1 = Some h /\ char_index kHexDigits c2 = Some l /\
  byte_of (16 * h + l) = Some b.
Proof. destruct b; eexists _, _, _, _; split_and!; reflexivity. Qed.

Lemma decode_encode_hex d : decodeHex (encodeFingerprintHex d) = Some d.
Proof.
  induction d as [|b d IH]; [done|]. destruct (hex_cons b d) as (c1 & c2 & h & l & -> & H1 & H2 & Hb).
  cbn [decodeHex]. by rewrite H1, H2; cbn [mbind option_bind]; rewrite Hb, IH.
Qed.

Lemma hex_chars d :
  all_chars (in_table kHexDigits) (encodeFingerprintHex d) = true /\
  str_len (encodeFingerprintHex d) = 2 * zlen d.
Proof.
  induction d as [|b d [IH1 IH2]]; [done|]. split.
  - destruct (hex_cons b d) as (c1 & c2 & h & l & -> & H1 & H2 & _).
    cbn [all_chars]. unfold in_table at 1 2. by rewrite H1, H2, IH1.
  - destruct (hex_cons b d) as (c1 & c2 & h & l & -> & _). unfold str_len in *.
    cbn [String.length length]. lia.
Qed.

(** The 64 characters of the table. *)
Definition table_entry (i : Z) : bool :=
  match String.get (Z.to_nat i) kBase64Table with
  | Some c => bool_decide (char_index kBase64Table c = Some i)
  | None => false
  end.

Lemma table_entries i : 0 <= i < 64 -> exists c,
  char_at kBase64Table i = chr c /\ char_index kBase64Table c = Some i.
Proof.
  intros Hi. assert (forallb table_entry (seqZ 0 64) = true) as H by (by vm_compute).
  rewrite forallb_forall in H. specialize (H i). unfold table_entry in H. unfold char_at.
  destruct (String.get (Z.to_nat i) kBase64Table) as [c|].
  - exists c. split; [done|]. eapply bool_decide_eq_true_1, H, list_elem_of_In, elem_of_seqZ. lia.
  - discriminate H. apply list_elem_of_In, elem_of_seqZ. lia.
Qed.

Lemma low_bits_add a b n : 0 <= n -> 0 <= b < 2 ^ n -> Z.lor (Z.shiftl a n) b = a * 2 ^ n + b.
Proof.
  intros Hn Hb. rewrite <- Z.shiftl_mul_pow2 by done. rewrite <- Z.add_lor_land.
  assert (Z.land (Z.shiftl a n) b = 0) as ->; [|lia].
  apply Z.bits_inj'. intros k Hk. rewrite Z.land_spec, Z.shiftl_spec, Z.bits_0 by done.
  destruct (Z_lt_ge_dec k n).
  - rewrite Z.testbit_neg_r by lia. done.
  - destruct (decide (b = 0)) as [->|]; [by rewrite Z.bits_0, andb_false_r|].
    assert (2 ^ n <= 2 ^ k) by (apply Z.pow_le_mono_r; lia).
    assert (Z.log2 b < k) by (apply Z.log2_lt_pow2; lia).
    rewrite (Z.bits_above_log2 b) by lia.
    by rewrite andb_false_r.
Qed.

(** The four six-bit digits of a group. *)
Lemma group_digits a b c :
  0 <= a < 256 -> 0 <= b < 256 -> 0 <= c < 256 ->
  let triple := Z.lor (Z.lor (Z.shiftl a 16) (Z.shiftl b 8)) c in
  Z.land (Z.shiftr triple 18) 0x3F = a / 4 /\
  Z.land (Z.shiftr triple 12) 0x3F = a mod 4 * 16 + b / 16 /\
  Z.land (Z.shiftr triple 6) 0x3F = b mod 16 * 4 + c / 64 /\
  Z.land triple 0x3F = c mod 64.
Proof.
  intros Ha Hb Hc triple.
  assert (triple = a * 65536 + b * 256 + c) as ->.
  { unfold triple. change (Z.shiftl a 16) with (Z.shiftl a (8 + 8)). rewrite <- (Z.shiftl_shiftl a 8 8), <- Z.shiftl_lor by lia.
    rewrite !low_bits_add by lia. lia. }
  change 0x3F with (Z.ones 6). rewrite !Z.land_ones, !Z.shiftr_div_pow2 by lia.
  change (2 ^ 6) with 64. change (2 ^ 12) with 4096. change (2 ^ 18) with 262144.
  split_and!; Z.to_euclidean_division_equations; lia.
Qed.

(** One group decodes to the bytes it came from. *)
Lemma base64_group_full a b c t :
  exists c1 c2 c3 c4, base64_group a (Some b) (Some c) +:+ t =
    String.String c1 (String.String c2 (String.String c3 (String.String c4 t))) /\
  all_chars (in_table kBase64Table) (String.String c1 (String.String c2 (String.String c3 (chr c4)))) = true /\
  forall bs, decodeBase64 t = Some bs ->
    decodeBase64 (String.String c1 (String.String c2 (String.String c3 (String.String c4 t)))) =
      Some (a :: b :: c :: bs).
Proof.
  pose proof (byte_val_range a) as Ra. pose proof (byte_val_range b) as Rb.
  pose proof (byte_val_range c) as Rc.
  destruct (group_digits (byte_val a) (byte_val b) (byte_val c)) as (E1 & E2 & E3 & E4); [done..|].
  unfold base64_group. cbv zeta. rewrite E1, E2, E3, E4.
  destruct (table_entries (byte_val a / 4)) as (c1 & -> & H1); [Z.to_euclidean_division_equations; lia|].
  destruct (table_entries (byte_val a mod 4 * 16 + byte_val b / 16)) as (c2 & -> & H2);
    [Z.to_euclidean_division_equations; lia|].
  destruct (table_entries (byte_val b mod 16 * 4 + byte_val c / 64)) as (c3 & -> & H3);
    [Z.to_euclidean_division_equations; lia|].
  destruct (table_entries (byte_val c mod 64)) as (c4 & -> & H4); [Z.to_euclidean_division_equations; lia|].
  exists c1, c2, c3, c4. split; [done|]. split.
  { cbn [all_chars chr]. unfold in_table. by rewrite H1, H2, H3, H4. }
  intros bs Ht. cbn [decodeBase64]. rewrite H1, H2, H3, H4, Ht. cbn [mbind option_bind].
  replace (4 * _ + _) with (byte_val a) by (Z.to_euclidean_division_equations; lia).
  rewrite byte_of_val. cbn [mbind option_bind].
  replace (_ mod 16 * 16 + _) with (byte_val b) by (Z.to_euclidean_division_equations; lia).
  rewrite byte_of_val. cbn [mbind option_bind].
  replace (_ mod 4 * 64 + _) with (byte_val c) by (Z.to_euclidean_division_equations; lia).
  by rewrite byte_of_val.
Qed.

Lemma base64_group_two a b :
  exists c1 c2 c3, base64_group a (Some b) None = String.String c1 (String.String c2 (chr c3)) +:+ "=" /\
  all_chars (in_table kBase64Table) (String.String c1 (String.String c2 (chr c3))) = true /\
  decodeBase64 (String.String c1 (String.String c2 (chr c3))) = Some [a; b].
Proof.
  pose proof (byte_val_range a) as Ra. pose proof (byte_val_range b) as Rb.
  destruct (group_digits (byte_val a) (byte_val b) 0) as (E1 & E2 & E3 & _); [done..|].
  unfold base64_group. cbv zeta. rewrite E1, E2, E3.
  destruct (table_entries (byte_val a / 4)) as (c1 & -> & H1); [Z.to_euclidean_division_equations; lia|].
  destruct (table_entries (byte_val a mod 4 * 16 + byte_val b / 16)) as (c2 & -> & H2);
    [Z.to_euclidean_division_equations; lia|].
  destruct (table_entries (byte_val b mod 16 * 4 + 0 / 64)) as (c3 & -> & H3);
    [Z.to_euclidean_division_equations; lia|].
  exists c1, c2, c3. split; [done|]. split.
  { cbn [all_chars chr]. unfold in_table. by rewrite H1, H2, H3. }
  cbn [decodeBase64 chr]. rewrite H1, H2, H3. cbn [mbind option_bind].
  replace (4 * _ + _) with (byte_val a) by (Z.to_euclidean_division_equations; lia).
  rewrite byte_of_val. cbn [mbind option_bind].
  replace (_ mod 16 * 16 + _) with (byte_val b) by (Z.to_euclidean_division_equations; lia).
  by rewrite byte_of_val.
Qed.

Lemma base64_group_one a :
  exists c1 c2, base64_group a None None = String.String c1 (chr c2) +:+ "==" /\
  all_chars (in_table kBase64Table) (String.String c1 (chr c2)) = true /\
  decodeBase64 (String.String c1 (chr c2)) = Some [a].
Proof.
  pose proof (byte_val_range a) as Ra.
  destruct (group_digits (byte_val a) 0 0) as (E1 & E2 & _); [done..|].
  unfold base64_group. cbv zeta. rewrite E1, E2.
  destruct (table_entries (byte_val a / 4)) as (c1 & -> & H1); [Z.to_euclidean_division_equations; lia|].
  destruct (table_entries (byte_val a mod 4 * 16 + 0 / 16)) as (c2 & -> & H2);
    [Z.to_euclidean_division_equations; lia|].
  exists c1, c2. split; [done|]. split.
  { cbn [all_chars chr]. unfold in_table. by rewrite H1, H2. }
  cbn [decodeBase64 chr]. rewrite H1, H2. cbn [mbind option_bind].
  replace (4 * _ + _) with (byte_val a) by (Z.to_euclidean_division_equations; lia).
  by rewrite byte_of_val.
Qed.

Lemma base64_groups_ok d : exists s pad,
  base64_groups d = s +:+ pad /\ all_chars (Ascii.eqb "=") pad = true /\
  all_chars (in_table kBase64Table) s = true /\ decodeBase64 s = Some d.
Proof.
  remember (length d) as n eqn:En. assert (length d <= n)%nat as Hn by lia. clear En.
  revert d Hn. induction n as [|n IH]; intros [|a [|b [|c d]]] Hn; cbn [length] in Hn; try lia.
  1,2: by exists EmptyString, EmptyString.
  - destruct (base64_group_one a) as (c1 & c2 & H1 & H2 & H3). by eexists _, _.
  - destruct (base64_group_two a b) as (c1 & c2 & c3 & H1 & H2 & H3). by eexists _, _.
  - destruct (IH d) as (s & pad & E & Hp & Hs & Hd); [lia|]. cbn [base64_groups]. rewrite E.
    destruct (base64_group_full a b c (s +:+ pad)) as (c1 & c2 & c3 & c4 & Eg & Ht & _).
    destruct (base64_group_full a b c s) as (d1 & d2 & d3 & d4 & Eg' & _ & Hdec).
    assert (String.String c1 (String.String c2 (String.String c3 (String.String c4 (s +:+ pad)))) =
      String.String d1 (String.String d2 (String.String d3 (String.String d4 (s +:+ pad))))) as Eq.
    { rewrite <- Eg, <- append_assoc, Eg'. done. }
    injection Eq as -> -> -> ->.
    exists (String.String d1 (String.String d2 (String.String d3 (String.String d4 s)))), pad.
    split; [by rewrite Eg|]. split; [done|]. split; [|by apply Hdec].
    change (all_chars (in_table kBase64Table)
      (String.String d1 (String.String d2 (String.String d3 (chr d4))) +:+ s) = true).
    by rewrite all_chars_app, Ht.
Qed.

Lemma base64_chars d :
  all_chars (in_table kBase64Table) (encodeFingerprintBase64 d) = true /\
  decodeBase64 (encodeFingerprintBase64 d) = Some d.
Proof.
  destruct (base64_groups_ok d) as (s & pad & E & Hp & Hs & Hd). unfold encodeFingerprintBase64.
  rewrite E, drop_suffix_app by (done || weaken_chars Hs). done.
Qed.

(** ** What a configured fingerprint accepts *)

(** C7: a configured fingerprint accepts at most one key: whatever the user
    wrote, if two digests pass the comparison they are equal. *)
Theorem fingerprint_accepts_one raw d1 d2 :
  fingerprintsMatch (clean_expected raw) d1 = true ->
  fingerprintsMatch (clean_expected raw) d2 = true -> d1 = d2.
Proof.
  unfold fingerprintsMatch. destruct (comparable (clean_expected raw)) as [[] s];
    intros ->%bool_decide_eq_true_1 E%bool_decide_eq_true_1.
  - pose proof (proj2 (base64_chars d1)) as H1. rewrite E, (proj2 (base64_chars d2)) in H1. by injection H1.
  - pose proof (decode_encode_hex d1) as H1. rewrite E, decode_encode_hex in H1. by injection H1.
Qed.

Lemma remove_keeps_head c d s : negb (Ascii.eqb c d) = true ->
  remove_char d (String.String c s) = String.String c (remove_char d s).
Proof. intros H. cbn. by destruct (Ascii.eqb c d). Qed.

(** The user wrote the digest in hexadecimal, in either case, with blanks and
    colons anywhere. *)
Lemma hex_accepted s d :
  length d = 32%nat ->
  toLowerCase (remove_char ":" (remove_char " " s)) = encodeFingerprintHex d ->
  fingerprintsMatch s d = true.
Proof.
  intros Hd Hs. destruct (hex_chars d) as [Hc Hl]. unfold fingerprintsMatch, comparable, classify_expected.
  assert (startsWith "sha256:" (toLowerCase s) = false) as ->.
  { destruct (startsWith "sha256:" (toLowerCase s)) eqn:E; [|done]. exfalso.
    destruct s as [|c s]; [done|]. unfold startsWith in E. cbn [toLowerCase String.prefix] in E.
    destruct (ascii_dec "s" (tolower c)) as [Ec|]; [|done].
    assert (negb (Ascii.eqb c " ") = true /\ negb (Ascii.eqb c ":") = true) as [N1 N2].
    { clear -Ec. revert c Ec. intros [[] [] [] [] [] [] [] []]; vm_compute; done. }
    rewrite (remove_keeps_head c " ") in Hs by done. rewrite (remove_keeps_head c ":") in Hs by done.
    cbn [toLowerCase] in Hs. rewrite <- Hs, <- Ec in Hc. by vm_compute in Hc. }
  cbv zeta. rewrite Hs. unfold isValidHexFingerprint. rewrite Hl, Hd. cbn [Z.of_nat Z.eqb negb].
  assert (all_chars isxdigit (encodeFingerprintHex d) = true) as -> by weaken_chars Hc.
  change (negb (2 * Z.of_nat 32 =? 64)) with false. cbv beta iota.
  rewrite toLowerCase_none by weaken_chars Hc.
  rewrite (remove_char_none " ") by weaken_chars Hc. rewrite (remove_char_none ":") by weaken_chars Hc.
  by apply bool_decide_eq_true_2.
Qed.

(** The clean-up of a base64 fingerprint leaves the encoding alone. *)
Lemma base64_cleanup d :
  let s := encodeFingerprintBase64 d in
  remove_char "=" (remove_char "010" (remove_char "013" (remove_char " " (strip_prefix (trim s))))) = s.
Proof.
  intros s. destruct (base64_chars d) as [Hc _]. fold s in Hc.
  rewrite trim_none by weaken_chars Hc.
  assert (strip_prefix s = s) as ->.
  { unfold strip_prefix, startsWith.
    destruct (String.prefix "SHA256:" s) eqn:E1; [by apply (prefix_chars _ _ _ E1) in Hc|].
    destruct (String.prefix "sha256:" s) eqn:E2; [by apply (prefix_chars _ _ _ E2) in Hc|]. done. }
  rewrite (remove_char_none " ") by weaken_chars Hc. rewrite (remove_char_none "013") by weaken_chars Hc.
  rewrite (remove_char_none "010") by weaken_chars Hc. by rewrite (remove_char_none "=") by weaken_chars Hc.
Qed.

Lemma openssh_accepted d : fingerprintsMatch (fingerprintOpenSSH d) d = true.
Proof.
  unfold fingerprintsMatch, comparable, classify_expected, fingerprintOpenSSH.
  assert (startsWith "sha256:" (toLowerCase ("SHA256:" +:+ encodeFingerprintBase64 d)) = true) as ->.
  { unfold startsWith. change ("SHA256:" +:+ encodeFingerprintBase64 d) with
      (String.String "S" (String.String "H" (String.String "A" (String.String "2" (String.String "5"
        (String.String "6" (String.String ":" (encodeFingerprintBase64 d)))))))).
    by cbn; destruct (toLowerCase _). }
  assert (string_from (indexOf ":" ("SHA256:" +:+ encodeFingerprintBase64 d) + 1)
    ("SHA256:" +:+ encodeFingerprintBase64 d) = encodeFingerprintBase64 d) as ->.
  { assert (indexOf ":" ("SHA256:" +:+ encodeFingerprintBase64 d) = 6) as ->
      by (unfold indexOf; cbn; by destruct (encodeFingerprintBase64 d)).
    unfold string_from. change (Z.to_nat (6 + 1)) with 7%nat.
    change (String.length ("SHA256:" +:+ encodeFingerprintBase64 d)) with
      (7 + String.length (encodeFingerprintBase64 d))%nat.
    rewrite Nat.add_sub_swap, Nat.sub_diag by lia. apply substring_all. }
  cbv beta iota zeta. rewrite base64_cleanup. by apply bool_decide_eq_true_2.
Qed.

(** The printed fingerprints survive the clean-up of line ends and blanks. *)
Lemma clean_none s :
  all_chars (fun c => negb (isspace c)) s = true -> clean_expected s = s.
Proof.
  intros Hs. unfold clean_expected. rewrite trim_none by done.
  assert (forall d, isspace d = true -> remove_char d s = s) as Hr.
  { intros d Hd. apply remove_char_none. eapply all_chars_impl; [|exact Hs]. intros c Hc.
    destruct (Ascii.eqb_spec c d) as [->|]; [by rewrite Hd in Hc|done]. }
  rewrite (Hr "013"%char) by done. by apply Hr.
Qed.

(** what [verifyHostKey] prints can be stored and is accepted: both the
    hexadecimal form (with any upper case, blanks and colons) and the OpenSSH
    form of a digest match that digest, with or without the line end that
    comes from copying it. *)
Theorem printed_fingerprint_accepted d :
  length d = 32%nat ->
  fingerprintsMatch (clean_expected (fingerprintOpenSSH d)) d = true /\
  fingerprintsMatch (clean_expected (encodeFingerprintHex d)) d = true /\
  (forall raw,
     toLowerCase (remove_char ":" (remove_char " " (clean_expected raw))) = encodeFingerprintHex d ->
     fingerprintsMatch (clean_expected raw) d = true).
Proof.
  intros Hd. destruct (hex_chars d) as [Hc _]. destruct (base64_chars d) as [Hb _]. split_and!.
  - rewrite clean_none; [apply openssh_accepted|]. unfold fingerprintOpenSSH.
    rewrite all_chars_app. cbn [all_chars andb negb]. apply andb_true_iff. split; [done|weaken_chars Hb].
  - rewrite clean_none by weaken_chars Hc. apply hex_accepted; [done|].
    rewrite (remove_char_none " ") by weaken_chars Hc. rewrite (remove_char_none ":") by weaken_chars Hc.
    apply toLowerCase_none. weaken_chars Hc.
  - intros raw. by apply hex_accepted.
Qed.

(** ** Witnesses *)

Definition example_digest : list byte := replicate 31 xff ++ [x0a].

Lemma fingerprint_accepts_one_witness :
  fingerprintsMatch (clean_expected "  SHA256://///////////////////////////////////////wo=
") example_digest = true /\
  forall d, fingerprintsMatch (clean_expected "  SHA256://///////////////////////////////////////wo=
") d = true -> d = example_digest.
Proof.
  split; [by vm_compute|]. intros d H.
  exact (fingerprint_accepts_one _ d example_digest H ltac:(by vm_compute)).
Defined.

Lemma printed_fingerprint_accepted_witness :
  encodeFingerprintHex (replicate 32 xab) =
    "abababababababababababababababababababababababababababababababab" /\
  fingerprintsMatch (clean_expected "AB:AB:ab:ab ab:ab:ab:ab ab:ab:ab:ab ab:ab:ab:ab ab:ab:ab:ab ab:ab:ab:ab ab:ab:ab:ab ab:ab:ab:AB")
    (replicate 32 xab) = true.
Proof.
  split; [by vm_compute|].
  apply (printed_fingerprint_accepted (replicate 32 xab)); [done|by vm_compute].
Defined.
