(* ===== verification/Session.v ===== *)
(** * ssh_session.h, ssh_session.cpp: the SSH connection

    [SSHSession] owns the TCP socket, the libssh2 session and the reverse
    listeners.  The configuration it points to is an argument [cfg] of the
    operations that read it ([config_] records whether the pointer is set);
    nothing here changes it.  [session_] is [None] when the pointer is null;
    the steps of [connect] after the handshake take the session as an argument,
    read from the member as the source does.  Log output, the
    [TUNNEL_DIAG_LOG_ONLY] statistics and the [TUNNEL_LIBSSH2_TRACE] hook are not
    modelled; the destructor is [disconnect] plus the deletion of the mutex. *)

From S2P Require Import Prelude Platform Policies Config Net Lock Fingerprint.

(** ** Data *)

Record ListenerEntry := mkListenerEntry {
  le_listener : option listener;
  le_mapping : TunnelConfig;
  le_boundPort : Z;
}.

Definition no_listener : ListenerEntry := mkListenerEntry None default_mapping 0.

Record SSHSession := mkSSHSession {
  session_ : option sess;
  socketfd_ : Z;
  sessionMutex_ : bool;                    (* false = NULL *)
  config_ : bool;                          (* false = NULL *)
  listeners_ : list ListenerEntry;
  boundPort_ : Z;
  keepAliveFailures_ : Z;
  sessionConnectedMs_ : Z;
  lastKeepaliveOkMs_ : Z;
  lastKeepaliveAttemptMs_ : Z;
  lastChannelUnknownLogMs_ : Z;
  channelUnknownTotal_ : Z;
  lastAcceptError_ : Z;
  consecutiveFatalAcceptErrors_ : Z;
  libssh2Initialized_ : bool;
}.
#[export] Instance SSHSession_eta : Eta SSHSession := fun s =>
  mkSSHSession (session_ s) (socketfd_ s) (sessionMutex_ s) (config_ s) (listeners_ s) (boundPort_ s)
    (keepAliveFailures_ s) (sessionConnectedMs_ s) (lastKeepaliveOkMs_ s) (lastKeepaliveAttemptMs_ s)
    (lastChannelUnknownLogMs_ s) (channelUnknownTotal_ s) (lastAcceptError_ s)
    (consecutiveFatalAcceptErrors_ s) (libssh2Initialized_ s).

Definition new_session : SSHSession :=
  mkSSHSession None (-1) false false [] (-1) 0 0 0 0 0 0 0 0 false.

Definition isConnected (s : SSHSession) : bool :=
  match session_ s with Some _ => 0 <=? socketfd_ s | None => false end.

Definition getActiveListenerCount (s : SSHSession) : Z :=
  zlen (filter (fun e => is_Some (le_listener e)) (listeners_ s)).

Definition resetAcceptState (s : SSHSession) : SSHSession :=
  s <| lastAcceptError_ := 0 |> <| consecutiveFatalAcceptErrors_ := 0 |>.
Definition recordAcceptSuccess (s : SSHSession) : SSHSession :=
  s <| lastAcceptError_ := 0 |> <| consecutiveFatalAcceptErrors_ := 0 |>.

Section Operations.
Context {Env : Type} {P : Platform Env} {T : Target}.
Abbreviation SM A := (M (SSHSession * world Env) A).

Definition isFatalAcceptError (err : Z) : bool :=
  AcceptError.isFatal err LIBSSH2_ERROR_EAGAIN LIBSSH2_ERROR_CHANNEL_UNKNOWN
    LIBSSH2_ERROR_CHANNEL_CLOSED LIBSSH2_ERROR_SOCKET_SEND LIBSSH2_ERROR_SOCKET_DISCONNECT.

Definition recordAcceptNoChannel (err : Z) (s : SSHSession) : SSHSession :=
  if isFatalAcceptError err then
    s <| lastAcceptError_ := err |>
      <| consecutiveFatalAcceptErrors_ := s32 (consecutiveFatalAcceptErrors_ s + 1) |>
  else s <| lastAcceptError_ := err |> <| consecutiveFatalAcceptErrors_ := 0 |>.

Definition hasFatalAcceptFailure (s : SSHSession) : bool :=
  AcceptError.shouldReconnectAfterConsecutiveErrors (consecutiveFatalAcceptErrors_ s)
    (lastAcceptError_ s) LIBSSH2_ERROR_EAGAIN LIBSSH2_ERROR_CHANNEL_UNKNOWN
    LIBSSH2_ERROR_CHANNEL_CLOSED LIBSSH2_ERROR_SOCKET_SEND LIBSSH2_ERROR_SOCKET_DISCONNECT.

Definition slock (ticks : Z) : SM bool := m <- get sessionMutex_;; lock m ticks.
Definition sunlock : SM unit := m <- get sessionMutex_;; unlock m.

Definition init : SM bool :=
  s <- get (fun s => s);;
  ok <- (if sessionMutex_ s then ret true else
    made <- sys (SemCreate SessionMutex);;
    put (fun s => s <| sessionMutex_ := made |>);;
    ret made);;
  if negb ok then ret false else
  if libssh2Initialized_ s then ret true else
  rc <- sys LibInit;;
  if negb (rc =? 0) then ret false else
  put (fun s => s <| libssh2Initialized_ := true |>);;
  ret true.

(** ** Listeners *)

Definition cancelListener (e : ListenerEntry) : SM unit :=
  match le_listener e with
  | None => ret tt
  | Some l =>
      ok <- slock (pdMS_TO_TICKS 500);;
      when ok (_ <- sys (ForwardCancel l);; sunlock)
  end.

(** Every entry's handle is nulled, then the vector is cleared. *)
Definition cancelAllListeners : SM unit :=
  l <- get listeners_;;
  for_each l cancelListener;;
  put (fun s => s <| listeners_ := [] |> <| boundPort_ := -1 |>).

(** The attempts of [createListenerForMapping]. *)
Fixpoint listen_attempts (n : nat) (s : sess) (bindHost : String) (bindPort maxlisten : Z)
  : SM (option listener * Z) :=
  match n with
  | O => ret (None, 0)
  | Datatypes.S n' =>
      ok <- slock (pdMS_TO_TICKS 500);;
      if negb ok then
        sys (TaskDelay (pdMS_TO_TICKS 10));;
        listen_attempts n' s bindHost bindPort maxlisten
      else
        let* (handle, boundPortResult) := sys (ForwardListen s bindHost bindPort maxlisten) in
        sunlock;;
        match handle with
        | Some _ => ret (handle, boundPortResult)
        | None =>
            sys (TaskDelay (pdMS_TO_TICKS 10));;
            listen_attempts n' s bindHost bindPort maxlisten
        end
  end.

Definition maxAttempts : nat := 50.

Definition createListenerForMapping (s : sess) (cfg : SSHConfiguration) (mapping : TunnelConfig)
  : SM (option ListenerEntry) :=
  hasConfig <- get config_;;
  let maxlisten := if hasConfig then Z.max 1 (maxChannels (connectionConfig cfg)) else 8 in
  let* (handle, boundPortResult) :=
    listen_attempts maxAttempts s (c_str (remoteBindHost mapping)) (remoteBindPort mapping) maxlisten in
  match handle with
  | Some l => ret (Some (mkListenerEntry (Some l) mapping boundPortResult))
  | None =>
      ok <- slock (pdMS_TO_TICKS 100);;
      when ok (_ <- sys (SessionLastError s);; sunlock);;
      ret None
  end.

(** One listener per mapping; the first failure cancels those made. *)
Fixpoint create_each (s : sess) (cfg : SSHConfiguration) (mappings : list TunnelConfig) : SM bool :=
  match mappings with
  | [] => ret true
  | mapping :: rest =>
      entry <- createListenerForMapping s cfg mapping;;
      match entry with
      | None => cancelAllListeners;; ret false
      | Some e =>
          put (fun x => x <| listeners_ := listeners_ x ++ [e] |>
            <| boundPort_ := if boundPort_ x <? 0 then le_boundPort e else boundPort_ x |>);;
          create_each s cfg rest
      end
  end.

Definition createListeners (s : sess) (cfg : SSHConfiguration) : SM bool :=
  cancelAllListeners;;
  put (fun x => x <| boundPort_ := -1 |>);;
  let mappings := tunnelMappings cfg in
  if bool_decide (mappings = []) then ret false else
  let desired := Z.min (maxReverseListeners (connectionConfig cfg)) (zlen mappings) in
  if desired <=? 0 then ret false else
  ok <- create_each s cfg (ztake desired mappings);;
  if negb ok then ret false else
  l <- get listeners_;;
  ret (negb (bool_decide (l = []))).

(** ** cleanupSession, disconnect *)

(** [libssh2_session_free] again while it answers EAGAIN. *)
Fixpoint free_retries (n : nat) (s : sess) (freeRc : Z) : SM Z :=
  match n with
  | O => ret freeRc
  | Datatypes.S n' =>
      if freeRc =? LIBSSH2_ERROR_EAGAIN then
        sys (TaskDelay (pdMS_TO_TICKS 1));;
        rc <- sys (SessionFree s);;
        free_retries n' s rc
      else ret freeRc
  end.

Definition close_socket : SM unit :=
  fd <- get socketfd_;;
  _ <- sys (ShutdownRdWr fd);;
  _ <- sys (CloseFd fd);;
  put (fun s => s <| socketfd_ := -1 |>).

Definition free_session (s : sess) : SM unit :=
  locked <- slock (pdMS_TO_TICKS 2000);;
  _ <- sys (SessionDisconnect s);;
  rc <- sys (SessionFree s);;
  fd <- get socketfd_;;
  freeRc <- (if (rc =? LIBSSH2_ERROR_EAGAIN) && (0 <=? fd) then
               close_socket;; free_retries 8 s rc
             else ret rc);;
  when (freeRc =? 0) (put (fun s => s <| session_ := None |>));;
  when locked sunlock.

Definition forget_connection (s : SSHSession) : SSHSession :=
  resetAcceptState (s <| keepAliveFailures_ := 0 |> <| sessionConnectedMs_ := 0 |>
    <| lastKeepaliveOkMs_ := 0 |> <| lastKeepaliveAttemptMs_ := 0 |>
    <| lastChannelUnknownLogMs_ := 0 |> <| channelUnknownTotal_ := 0 |>).

Definition cleanupSession : SM unit :=
  _ <- millis;;
  cancelAllListeners;;
  s <- get session_;;
  (match s with Some s => free_session s | None => ret tt end);;
  fd <- get socketfd_;;
  when (0 <=? fd) close_socket;;
  put forget_connection;;
  _ <- millis;;
  ret tt.

Definition disconnect : SM unit := cancelAllListeners;; cleanupSession.

(** ** connect *)

Definition fail_socket (fd : Z) : SM bool :=
  _ <- sys (CloseFd fd);;
  put (fun s => s <| socketfd_ := -1 |>);;
  ret false.

Definition tcpConnect (c : SSHServerConfig) : SM bool :=
  fd <- sys Socket;;
  put (fun s => s <| socketfd_ := fd |>);;
  if fd =? -1 then ret false else
  _ <- optimizeSSHSocket fd;;
  found <- sys (GetHostByName (c_str (host c)));;
  if negb found then fail_socket fd else
  let* (rc, _) := sys (Connect fd (c_str (host c)) (port c mod 2 ^ 16)) in
  if negb (rc =? 0) then fail_socket fd else ret true.

Definition handshake : SM bool :=
  made <- sys SessionInit;;
  put (fun s => s <| session_ := made |>);;
  match made with
  | None => ret false
  | Some s =>
      ok <- slock (pdMS_TO_TICKS 5000);;
      if negb ok then
        _ <- sys (SessionFree s);;
        put (fun x => x <| session_ := None |>);;
        ret false
      else
        fd <- get socketfd_;;
        rc <- sys (SessionHandshake s fd);;
        if negb (rc =? 0) then
          _ <- sys (SessionFree s);;
          put (fun x => x <| session_ := None |>);;
          sunlock;;
          ret false
        else sunlock;; ret true
  end.

Definition configureKeepalive (s : sess) (c : ConnectionConfig) : SM bool :=
  if negb (libssh2KeepAliveEnabled c) then ret true else
  ok <- slock (pdMS_TO_TICKS 200);;
  if ok then
    sys (KeepaliveConfig s 0 (libssh2KeepAliveIntervalSec c));;
    sunlock;;
    ret true
  else ret false.

Definition keyTypeName (host_key_type : Z) : String :=
  if host_key_type =? LIBSSH2_HOSTKEY_TYPE_RSA then "ssh-rsa"%string
  else if host_key_type =? LIBSSH2_HOSTKEY_TYPE_DSS then "ssh-dss"%string
  else if host_key_type =? LIBSSH2_HOSTKEY_TYPE_ECDSA_256 then "ecdsa-sha2-nistp256"%string
  else if host_key_type =? LIBSSH2_HOSTKEY_TYPE_ECDSA_384 then "ecdsa-sha2-nistp384"%string
  else if host_key_type =? LIBSSH2_HOSTKEY_TYPE_ECDSA_521 then "ecdsa-sha2-nistp521"%string
  else if host_key_type =? LIBSSH2_HOSTKEY_TYPE_ED25519 then "ssh-ed25519"%string
  else "unknown"%string.

(** The mismatch callback, with the texts it is given. *)
Definition report_mismatch (c : SSHServerConfig) (expectedRaw keyTypeStr : String) (digest : list byte)
  : SM unit :=
  match onHostKeyMismatch c with
  | None => ret tt
  | Some handler =>
      let actual := if fst (comparable expectedRaw) then fingerprintOpenSSH digest
                    else encodeFingerprintHex digest in
      sys (CallHandler handler [] [expectedRaw; actual; keyTypeStr] (hostKeyMismatchContext c))
  end.

Definition verifyHostKey (s : sess) (c : SSHServerConfig) : SM bool :=
  if negb (verifyHostKey c) then ret true else
  ok <- slock (pdMS_TO_TICKS 200);;
  if negb ok then ret false else
  let* (host_key, host_key_type) := sys (SessionHostkey s) in
  fingerprint_raw <- sys (HostkeyHashSha256 s);;
  sunlock;;
  match host_key, fingerprint_raw with
  | Some (_ :: _), Some digest =>
      let keyTypeStr := keyTypeName host_key_type in
      if (0 <? str_len (hostKeyType c)) && negb (bool_decide (hostKeyType c = keyTypeStr)) then ret false
      else if str_len (expectedHostKeyFingerprint c) =? 0 then ret true
      else
        let expectedRaw := clean_expected (expectedHostKeyFingerprint c) in
        if negb (fingerprintsMatch expectedRaw digest) then
          report_mismatch c expectedRaw keyTypeStr digest;; ret false
        else ret true
  | _, _ => ret false
  end.

(** Run an operation of the configuration object, which it leaves alone. *)
Definition on_config {A} (cfg : SSHConfiguration) (m : M (SSHConfiguration * world Env) A) : SM A :=
  zoom (fun s => (cfg, s.2)) (fun t s => (s.1, t.2)) m.

Definition auth_password (s : sess) (c : SSHServerConfig) : SM bool :=
  ok <- slock (pdMS_TO_TICKS 1000);;
  if negb ok then ret false else
  rc <- sys (UserauthPassword s (c_str (username c)) (c_str (password c)));;
  sunlock;;
  ret (rc =? 0).

Definition auth_publickey (s : sess) (c : SSHServerConfig) : SM bool :=
  let publicKey := if str_len (publicKeyData c) =? 0 then None else Some (publicKeyData c) in
  let passphrase := if 0 <? str_len (password c) then Some (c_str (password c)) else None in
  ok <- slock (pdMS_TO_TICKS 1000);;
  if negb ok then ret false else
  rc <- sys (UserauthPublickey s (c_str (username c)) publicKey (privateKeyData c) passphrase);;
  when (negb (rc =? 0)) (_ <- sys (SessionLastError s);; ret tt);;
  sunlock;;
  ret (rc =? 0).

Definition authenticate (s : sess) (cfg : SSHConfiguration) : SM bool :=
  let c := sshConfig cfg in
  ok <- slock (pdMS_TO_TICKS 500);;
  if negb ok then ret false else
  methods <- sys (UserauthList s (c_str (username c)));;
  sunlock;;
  match methods with
  | None =>
      ok <- slock (pdMS_TO_TICKS 200);;
      when ok (_ <- sys (SessionLastError s);; sunlock);;
      ret false
  | Some _ =>
      if negb (useSSHKey c) then auth_password s c else
      hasConfig <- get config_;;
      when hasConfig (on_config cfg diagnoseSSHKeys);;
      if 0 <? str_len (privateKeyData c) then
        valid <- (if hasConfig then on_config cfg validateSSHKeys else ret true);;
        if negb valid then ret false else auth_publickey s c
      else ret false
  end.

(** [cleanupSession(); return false;] *)
Definition fail_connect : SM bool := cleanupSession;; ret false.

Definition mark_connected (now : Z) (s : SSHSession) : SSHSession :=
  s <| sessionConnectedMs_ := now |> <| lastKeepaliveOkMs_ := now |>
    <| lastKeepaliveAttemptMs_ := 0 |> <| lastChannelUnknownLogMs_ := 0 |>
    <| channelUnknownTotal_ := 0 |>.

(** After the handshake, on the session it made. *)
Definition setup_session (s : sess) (cfg : SSHConfiguration) : SM bool :=
  ok <- verifyHostKey s (sshConfig cfg);;
  if negb ok then fail_connect else
  ok <- authenticate s cfg;;
  if negb ok then fail_connect else
  _ <- configureKeepalive s (connectionConfig cfg);;
  ok <- createListeners s cfg;;
  if negb ok then fail_connect else
  sys (SessionSetBlocking s 0);;
  now <- millis;;
  put (mark_connected now);;
  ret true.

Definition open_session (cfg : SSHConfiguration) : SM bool :=
  ok <- tcpConnect (sshConfig cfg);;
  if negb ok then ret false else
  ok <- handshake;;
  if negb ok then fail_connect else
  s <- get session_;;
  match s with Some s => setup_session s cfg | None => fail_connect end.

Definition connect (cfg : SSHConfiguration) : SM bool :=
  put (fun s => resetAcceptState (s <| config_ := true |>));;
  _ <- millis;;
  s <- get session_;;
  match s with
  | None => open_session cfg
  | Some _ =>
      cleanupSession;;
      s <- get session_;;
      match s with Some _ => ret false | None => open_session cfg end
  end.

(** ** Keepalive and health *)

Definition keepalive_result (nowMs rc : Z) (s : SSHSession) : bool * SSHSession :=
  if rc =? 0 then (true, s <| keepAliveFailures_ := 0 |> <| lastKeepaliveOkMs_ := nowMs |>)
  else if rc =? LIBSSH2_ERROR_SOCKET_SEND then
    let n := s32 (keepAliveFailures_ s + 1) in
    if 3 <=? n then (false, s <| keepAliveFailures_ := 0 |>)
    else (true, s <| keepAliveFailures_ := n |>)
  else if negb (rc =? LIBSSH2_ERROR_EAGAIN) then (true, s <| keepAliveFailures_ := 0 |>)
  else (true, s).

Definition sendKeepalive : SM bool :=
  s <- get session_;;
  match s with
  | None => ret false
  | Some s =>
      nowMs <- millis;;
      put (fun x => x <| lastKeepaliveAttemptMs_ := nowMs |>);;
      ok <- slock (pdMS_TO_TICKS 200);;
      if negb ok then ret true else
      rc <- sys (KeepaliveSend s);;
      when (negb (rc =? 0) && negb (rc =? LIBSSH2_ERROR_EAGAIN))
        (_ <- sys (SessionLastError s);; ret tt);;
      sunlock;;
      fd <- get socketfd_;;
      when (negb (rc =? 0) && (0 <=? fd)) (_ <- sys (GetSockOptError fd);; ret tt);;
      x <- get (fun x => x);;
      put (fun x => snd (keepalive_result nowMs rc x));;
      ret (fst (keepalive_result nowMs rc x))
  end.

Definition checkConnection : SM bool :=
  s <- get (fun s => s);;
  match session_ s with
  | None => ret false
  | Some _ =>
      if socketfd_ s <? 0 then ret false else
      let* (retval, error) := sys (GetSockOptError (socketfd_ s)) in
      ret ((retval =? 0) && (error =? 0))
  end.

(** ** acceptChannel *)

Definition note_unknown (now : Z) (s : SSHSession) : SSHSession :=
  let s := s <| channelUnknownTotal_ := u32 (channelUnknownTotal_ s + 1) |> in
  if 1000 <=? u32_sub now (lastChannelUnknownLogMs_ s) then s <| lastChannelUnknownLogMs_ := now |> else s.

(** Poll one listener after another; the first channel is the answer. *)
Fixpoint accept_each (s : sess) (l : list ListenerEntry) : SM (option (chan * TunnelConfig)) :=
  match l with
  | [] => ret None
  | entry :: rest =>
      match le_listener entry with
      | None => accept_each s rest
      | Some h =>
          ok <- slock (pdMS_TO_TICKS 50);;
          if negb ok then accept_each s rest else
          ch <- sys (ForwardAccept h);;
          acceptErr <- (match ch with Some _ => ret 0 | None => sys (SessionLastErrno s) end);;
          when (acceptErr =? LIBSSH2_ERROR_CHANNEL_UNKNOWN) (_ <- sys (SessionLastError s);; ret tt);;
          sunlock;;
          match ch with
          | Some c => put recordAcceptSuccess;; ret (Some (c, le_mapping entry))
          | None =>
              put (recordAcceptNoChannel acceptErr);;
              when (acceptErr =? LIBSSH2_ERROR_CHANNEL_UNKNOWN) (
                now <- millis;; put (note_unknown now));;
              accept_each s rest
          end
      end
  end.

Definition acceptChannel : SM (option (chan * TunnelConfig)) :=
  s <- get session_;;
  l <- get listeners_;;
  match s with
  | None => ret None
  | Some s => if bool_decide (l = []) then ret None else accept_each s l
  end.

End Operations.
