(* ===== verification/SessionFacts.v ===== *)
(** * What the SSH connection guarantees

    Sockets and handles of the connection sequence, the order of host-key check,
    authentication and listeners, the lock discipline, the failure counters of
    [acceptChannel] and [sendKeepalive]. *)

From S2P Require Import Prelude Platform Handles Policies Config Net Lock Fingerprint Session.

(** ** The order of the connection steps

    An automaton over the calls of a run, for a given server configuration.
    [None] is a violation: credentials sent, or a listener requested, too
    early. *)
Inductive auth_phase :=
  | Raw        (* no handshake on this session yet *)
  | Keyed      (* handshake done, host key not looked at *)
  | Typed      (* the key's type is the expected one *)
  | Trusted    (* the key passed verification, or none is configured *)
  | Authed.    (* the server accepted the credentials *)

Section Automaton.
Context {T : Target}.

Definition type_ok (c : SSHServerConfig) (t : Z) : bool :=
  negb ((0 <? str_len (hostKeyType c)) && negb (bool_decide (hostKeyType c = keyTypeName t))).

Definition digest_ok (c : SSHServerConfig) (d : list byte) : bool :=
  (str_len (expectedHostKeyFingerprint c) =? 0) ||
  fingerprintsMatch (clean_expected (expectedHostKeyFingerprint c)) d.

Definition after_handshake (c : SSHServerConfig) : auth_phase :=
  if Config.verifyHostKey c then Keyed else Trusted.

(** Credentials may be sent to a trusted server only. *)
Definition credentials (p : auth_phase) (rc : Z) : option auth_phase :=
  match p with Trusted => Some (if rc =? 0 then Authed else Trusted) | _ => None end.

Definition auth_step (c : SSHServerConfig) (p : auth_phase) (ev : event) : option auth_phase :=
  if negb (no_channel ev) then None else
  match ev with
  | Event cl r =>
      match cl return ret_of cl -> option auth_phase with
      | SessionInit => fun _ => Some Raw
      | SessionHandshake _ _ => fun rc => Some (if rc =? 0 then after_handshake c else p)
      | SessionHostkey _ => fun '(key, t) =>
          Some (match p, key with
                | Keyed, Some (_ :: _) => if type_ok c t then Typed else Keyed
                | _, _ => p end)
      | HostkeyHashSha256 _ => fun h =>
          Some (match p, h with
                | Typed, Some d => if digest_ok c d then Trusted else Keyed
                | _, _ => p end)
      | UserauthList _ _ => fun _ => match p with Trusted => Some p | _ => None end
      | UserauthPassword _ _ _ => fun rc => credentials p rc
      | UserauthPublickey _ _ _ _ _ => fun rc => credentials p rc
      | ForwardListen _ _ _ _ => fun _ => match p with Authed => Some p | _ => None end
      | _ => fun _ => Some p
      end r
  end.

Fixpoint auth_run (c : SSHServerConfig) (p : auth_phase) (evs : list event) : option auth_phase :=
  match evs with
  | [] => Some p
  | ev :: evs' => p' ← auth_step c p ev; auth_run c p' evs'
  end.

Lemma auth_run_app c p l1 l2 : auth_run c p (l1 ++ l2) = p' ← auth_run c p l1; auth_run c p' l2.
Proof.
  revert p. induction l1 as [|ev l1 IH]; intros p; [done|].
  simpl. destruct (auth_step c p ev); simpl; auto.
Qed.

(** Calls the automaton ignores. *)
Definition plain (ev : event) : bool :=
  match ev_call ev with
  | SessionInit | SessionHandshake _ _ | SessionHostkey _ | HostkeyHashSha256 _ | UserauthList _ _
  | UserauthPassword _ _ _ | UserauthPublickey _ _ _ _ _ | ForwardListen _ _ _ _ => false
  | _ => no_channel ev
  end.

(** The automaton allows no use of a channel, and no channel to be accepted. *)
Lemma auth_run_no_channel c p evs p' :
  auth_run c p evs = Some p' -> Forall (fun ev => no_channel ev = true) evs.
Proof.
  revert p. induction evs as [|ev evs IH]; intros p H; [constructor|]. cbn [auth_run] in H.
  destruct (auth_step c p ev) as [p1|] eqn:E; [|discriminate H]. constructor; [|by eapply IH].
  unfold auth_step in E. by destruct (no_channel ev).
Qed.

Lemma auth_run_plain c p evs : Forall (fun ev => plain ev = true) evs -> auth_run c p evs = Some p.
Proof.
  induction 1 as [|[cl r] evs Hev _ IH]; [done|]. cbn [auth_run].
  assert (auth_step c p (Event cl r) = Some p) as ->; [|exact IH]. by destruct cl.
Qed.

End Automaton.

(** ** Runs that keep the lock discipline and open or close no socket *)

Definition side (evs : list event) : Prop :=
  lock_run false evs = Some false /\ opened evs = [] /\ closed evs = [] /\ forallb gentle evs = true.

Lemma side_nil : side [].
Proof. done. Qed.

Lemma side_app e1 e2 : side e1 -> side e2 -> side (e1 ++ e2).
Proof.
  intros (H1 & H2 & H3 & H4) (K1 & K2 & K3 & K4). split_and!.
  - by rewrite lock_run_app, H1.
  - by rewrite opened_app, H2, K2.
  - by rewrite closed_app, H3, K3.
  - by rewrite forallb_app, H4, K4.
Qed.

(** The sockets held by a session with descriptor [fd]. *)
Definition held (fd : Z) : list Z := if fd <? 0 then [] else [fd].

(** No socket is lost: what was held or opened is closed or still held. *)
Definition conserves (fd : Z) (evs : list event) (fd' : Z) : Prop :=
  held fd ++ opened evs = closed evs ++ held fd'.

Lemma conserves_app fd e1 fd1 e2 fd2 :
  conserves fd e1 fd1 -> conserves fd1 e2 fd2 -> conserves fd (e1 ++ e2) fd2.
Proof.
  unfold conserves. intros H1 H2. by rewrite opened_app, closed_app, app_assoc, H1, <- !app_assoc, H2.
Qed.

Lemma conserves_side fd evs : side evs -> conserves fd evs fd.
Proof. intros (_ & Ho & Hc & _). unfold conserves. by rewrite Ho, Hc, app_nil_r. Qed.

Section Steps.
Context {Env : Type} {P : Platform Env} {T : Target}.
Implicit Types x : SSHSession.
Implicit Types q : SSHSession * world Env.

Lemma wp_slock ticks (Q : bool -> SSHSession * world Env -> Prop) x (w : world Env) :
  (sessionMutex_ x = false -> Q false (x, w)) ->
  (forall t b e, sessionMutex_ x = true -> Q b (x, log (SemTake SessionMutex t) b e w)) ->
  wp (slock ticks) Q (x, w).
Proof.
  intros H1 H2. unfold slock, lock. apply wp_bind, wp_get. cbn [fst].
  destruct (sessionMutex_ x); cbn [negb]; [|by apply wp_ret, H1].
  apply (wp_sys_pair (SemTake SessionMutex _)). intros r e _. by apply H2.
Qed.

Lemma wp_on_config {A} cfg (m : M (SSHConfiguration * world Env) A)
    (Q : A -> SSHSession * world Env -> Prop) x (w : world Env) :
  wp m (fun a t => Q a (x, t.2)) (cfg, w) -> wp (on_config cfg m) Q (x, w).
Proof. intros H. unfold on_config. by apply wp_zoom. Qed.

Lemma wp_sunlock (Q : unit -> SSHSession * world Env -> Prop) x (w : world Env) :
  sessionMutex_ x = true ->
  (forall u e, Q u (x, log (SemGive SessionMutex) u e w)) -> wp sunlock Q (x, w).
Proof.
  intros Hm H. unfold sunlock, unlock. apply wp_bind, wp_get. cbn [fst]. rewrite Hm. cbn [when].
  apply (wp_sys_pair (SemGive SessionMutex)). intros u e _. apply H.
Qed.
End Steps.

(** Symbolic execution with the mutex: the answer of every lock attempt is
    split at once. *)
Ltac sess_step :=
  lazymatch goal with
  | |- wp (slock _) _ _ =>
      let ok := fresh "ok" in
      apply wp_slock; [intros ?|intros ? ok ? ?; destruct ok]; cbv beta; cbn [negb when]
  | |- wp (when true ?m) ?Q ?q => change (wp m Q q)
  | |- wp (when false _) _ _ => apply wp_ret; cbv beta
  | |- wp (on_config _ _) _ _ => apply wp_on_config; cbv beta
  | |- wp sunlock _ _ => apply wp_sunlock; [done|intros ? ?]; cbv beta
  | |- _ => wp_step
  end.
Ltac sess_go := repeat sess_step.
(** Close [side] of an explicit trace. *)
Ltac trace_done := first [apply ran_nil | ran_done].
Ltac side_done := split_and!; reflexivity.

Section Components.
Context {Env : Type} {P : Platform Env} {T : Target}.
Implicit Types x : SSHSession.
Implicit Types q : SSHSession * world Env.

(** The run leaves the state alone and makes no call that matters to the
    automaton. *)
Definition idle {A} (m : M (SSHSession * world Env) A) q : Prop :=
  wp m (fun _ q' => q'.1 = q.1 /\ exists evs, ran q evs q' /\ side evs /\
    Forall (fun ev => plain ev = true) evs) q.

Lemma cancelListener_idle e q : idle (cancelListener e) q.
Proof.
  destruct q as [x w]. unfold idle, cancelListener. sess_go; split; try done; eexists;
    (split; [trace_done|split; [side_done|by events]]).
Qed.

Lemma for_each_idle {A} (l : list A) (body : A -> M (SSHSession * world Env) unit) :
  (forall a q, idle (body a) q) -> forall q, idle (for_each l body) q.
Proof.
  intros Hb. induction l as [|a l IH]; intros q; unfold idle; cbn [for_each].
  - apply wp_ret. split; [done|]. exists []. destruct q. split_and!; [apply ran_nil|done|constructor].
  - apply wp_bind. eapply wp_conseq; [apply Hb|]. intros u q1 (E1 & e1 & R1 & S1 & P1).
    eapply wp_conseq; [apply IH|]. intros u' q2 (E2 & e2 & R2 & S2 & P2). split; [congruence|].
    exists (e1 ++ e2). split_and!; [by eapply ran_app|by apply side_app|by apply Forall_app].
Qed.

Lemma cancelAllListeners_ok q :
  wp cancelAllListeners (fun _ q' =>
    q'.1 = q.1 <| listeners_ := [] |> <| boundPort_ := -1 |> /\
    exists evs, ran q evs q' /\ side evs /\ Forall (fun ev => plain ev = true) evs) q.
Proof.
  unfold cancelAllListeners. apply wp_bind, wp_get, wp_bind.
  eapply wp_conseq; [apply for_each_idle, cancelListener_idle|].
  intros u [x1 w1] (E & evs & R1 & S1 & P1). cbn [fst] in E. subst x1. apply wp_put_pair.
  split; [done|]. by exists evs.
Qed.

Lemma free_retries_ok n s rc q :
  wp (free_retries n s rc) (fun _ q' => q'.1 = q.1 /\ exists evs, ran q evs q' /\
    opened evs = [] /\ closed evs = [] /\ Forall (fun ev => plain ev = true) evs) q.
Proof.
  revert rc q. induction n as [|n IH]; intros rc [x w]; cbn [free_retries].
  { apply wp_ret. split; [done|]. exists []. split_and!; [apply ran_nil|done|done|constructor]. }
  destruct (rc =? LIBSSH2_ERROR_EAGAIN).
  2:{ apply wp_ret. split; [done|]. exists []. split_and!; [apply ran_nil|done|done|constructor]. }
  sess_step. sess_step. sess_step. sess_step. eapply wp_conseq; [apply IH|].
  intros a q' (E & evs & R1 & O1 & C1 & P1). split; [done|].
  eexists. split; [eapply ran_app; [|exact R1]; ran_done|].
  rewrite opened_app, closed_app, O1, C1. split_and!; [done|done|].
  apply Forall_app. split; [by events|done].
Qed.

(** ** Cleanup *)

(** What survives a cleanup, and what is left of the connection. *)
Definition cleaned x x' : Prop :=
  socketfd_ x' = -1 /\ listeners_ x' = [] /\ boundPort_ x' = -1 /\
  (session_ x' = None \/ session_ x' = session_ x) /\
  sessionMutex_ x' = sessionMutex_ x /\ config_ x' = config_ x /\
  consecutiveFatalAcceptErrors_ x' = 0 /\ lastAcceptError_ x' = 0 /\ keepAliveFailures_ x' = 0.

Definition plain_run (fd : Z) (evs : list event) (fd' : Z) : Prop :=
  conserves fd evs fd' /\ Forall (fun ev => plain ev = true) evs.

Lemma plain_run_app fd e1 fd1 e2 fd2 :
  plain_run fd e1 fd1 -> plain_run fd1 e2 fd2 -> plain_run fd (e1 ++ e2) fd2.
Proof. intros [H1 H2] [K1 K2]. split; [by eapply conserves_app|by apply Forall_app]. Qed.

Lemma plain_run_side fd evs : side evs -> Forall (fun ev => plain ev = true) evs -> plain_run fd evs fd.
Proof. intros H1 H2. split; [by apply conserves_side|done]. Qed.

Lemma plain_run_silent fd evs :
  opened evs = [] -> closed evs = [] -> Forall (fun ev => plain ev = true) evs -> plain_run fd evs fd.
Proof. intros Ho Hc H. split; [|done]. unfold conserves. by rewrite Ho, Hc, app_nil_r. Qed.

Lemma close_socket_ok q :
  0 <= socketfd_ q.1 ->
  wp close_socket (fun _ q' => q'.1 = q.1 <| socketfd_ := -1 |> /\ exists evs, ran q evs q' /\
    plain_run (socketfd_ q.1) evs (-1)) q.
Proof.
  intros Hfd. destruct q as [x w]. unfold close_socket. sess_go. split; [done|].
  eexists. split; [ran_done|]. split; [|by events]. unfold conserves, held, opened, closed. cbn.
  by rewrite (proj2 (Z.ltb_ge _ 0)).
Qed.

Lemma free_session_ok s q :
  wp (free_session s) (fun _ q' => exists o fd, q'.1 = q.1 <| session_ := o |> <| socketfd_ := fd |> /\
    (o = None \/ o = session_ q.1) /\ (fd = -1 \/ fd = socketfd_ q.1) /\
    exists evs, ran q evs q' /\ plain_run (socketfd_ q.1) evs fd /\ session_freed evs = true) q.
Proof.
  destruct q as [x w]. unfold free_session.
  (* the end: forget the session when it was freed, give the mutex back *)
  assert (forall (b : bool) rc x1 w1 e1 fd, x1 = x <| socketfd_ := fd |> -> (b = true -> sessionMutex_ x = true) ->
    (fd = -1 \/ fd = socketfd_ x) -> ran (x, w) e1 (x1, w1) -> plain_run (socketfd_ x) e1 fd ->
    session_freed e1 = true ->
    wp (when (rc =? 0) (put (fun s0 : SSHSession => s0 <| session_ := None |>));; when b sunlock)
      (fun _ q' => exists o fd, q'.1 = x <| session_ := o |> <| socketfd_ := fd |> /\
        (o = None \/ o = session_ x) /\ (fd = -1 \/ fd = socketfd_ x) /\
        exists evs, ran (x, w) evs q' /\ plain_run (socketfd_ x) evs fd /\ session_freed evs = true)
      (x1, w1)) as Hend.
  { intros b rc x1 w1 e1 fd -> Hb Hfd R1 H1 F1. destruct b.
    - specialize (Hb eq_refl). sess_go.
      + exists None, fd. split_and!; [done|by left|done|]. eexists.
        split; [eapply ran_app; [exact R1|ran_done]|]. split; [|by rewrite session_freed_app, F1].
        eapply plain_run_app; [exact H1|]. apply plain_run_silent; [done|done|by events].
      + exists (session_ x), fd. split_and!; [by destruct x|by right|done|]. eexists.
        split; [eapply ran_app; [exact R1|ran_done]|]. split; [|by rewrite session_freed_app, F1].
        eapply plain_run_app; [exact H1|]. apply plain_run_silent; [done|done|by events].
    - sess_go.
      + exists None, fd. split_and!; [done|by left|done|]. exists e1. by split_and!.
      + exists (session_ x), fd. split_and!; [by destruct x|by right|done|]. exists e1. by split_and!. }
  apply wp_bind. eapply (wp_conseq _ (fun b q1 => q1.1 = x /\ (b = true -> sessionMutex_ x = true) /\
    exists e0, ran (x, w) e0 q1 /\ plain_run (socketfd_ x) e0 (socketfd_ x))).
  { apply wp_slock; [intros Hm|intros t b e Hm].
    - split_and!; [done|done|]. exists []. split; [apply ran_nil|]. by apply plain_run_silent.
    - split_and!; [done|done|]. eexists. split; [ran_done|]. apply plain_run_silent; [done|done|by events]. }
  intros b [x0 w0] (E0 & Hb & e0 & R0 & P0). cbn [fst] in E0. subst x0.
  sess_step. sess_step. sess_step. sess_step. sess_step. sess_step.
  destruct ((r0 =? LIBSSH2_ERROR_EAGAIN) && (0 <=? socketfd_ x)) eqn:Ec.
  - apply andb_true_iff in Ec as [_ Hfd%Z.leb_le]. sess_step. sess_step.
    eapply wp_conseq; [by apply close_socket_ok|]. intros u [x2 w2] (E2 & e2 & R2 & P2). cbn [fst] in *.
    eapply wp_conseq; [apply free_retries_ok|]. intros rc [x3 w3] (E3 & e3 & R3 & O3 & C3 & P3).
    cbn [fst] in *. subst x3 x2. eapply (Hend b rc _ w3 _ (-1)); [done|done|by left|..].
    + eapply ran_app; [exact R0|]. eapply ran_app; [|eapply ran_app; [exact R2|exact R3]]. ran_done.
    + eapply plain_run_app; [exact P0|]. eapply plain_run_app; [|eapply plain_run_app; [exact P2|]].
      * apply plain_run_silent; [done|done|by events].
      * by apply plain_run_silent.
    + by rewrite session_freed_app, orb_true_r.
  - sess_step. sess_step. eapply (Hend b r0 _ _ _ (socketfd_ x)); [by destruct x|done|by right|..].
    + eapply ran_app; [exact R0|]. ran_done.
    + eapply plain_run_app; [exact P0|]. apply plain_run_silent; [done|done|by events].
    + by rewrite session_freed_app, orb_true_r.
Qed.

Lemma cleanupSession_ok q :
  -1 <= socketfd_ q.1 ->
  wp cleanupSession (fun _ q' => cleaned q.1 q'.1 /\ exists evs, ran q evs q' /\
    plain_run (socketfd_ q.1) evs (-1) /\ (session_ q.1 <> None -> session_freed evs = true)) q.
Proof.
  intros Hfd. destruct q as [x w]. cbn [fst] in Hfd. unfold cleanupSession. sess_step. sess_step.
  sess_step. sess_step. eapply wp_conseq; [apply cancelAllListeners_ok|].
  intros u [x1 w1] (E1 & e1 & R1 & S1 & P1). cbn [fst] in *. sess_step. sess_step.
  apply wp_bind. eapply (wp_conseq _ (fun _ q' => exists o fd,
    q'.1 = x1 <| session_ := o |> <| socketfd_ := fd |> /\
    (o = None \/ o = session_ x) /\ (fd = -1 \/ fd = socketfd_ x) /\
    exists evs, ran (x1, w1) evs q' /\ plain_run (socketfd_ x) evs fd /\
      (session_ x <> None -> session_freed evs = true))).
  { subst x1. destruct (session_ x) as [s|] eqn:Es; cbn; rewrite Es.
    - eapply wp_conseq; [apply free_session_ok|]. intros v q' (o & fd & E & Ho & Hf & H).
      exists o, fd. cbn in *. rewrite Es in Ho. destruct H as (evs & R2 & P2 & F2).
      split_and!; [done|done|done|]. exists evs. by split_and!.
    - apply wp_ret. exists None, (socketfd_ x). split_and!; [by destruct x; cbn in *; subst|by left|by right|].
      exists []. split; [apply ran_nil|]. split; [by apply plain_run_silent|done]. }
  intros u2 [x2 w2] (o & fd & E2 & Ho & Hf & e2 & R2 & P2 & F2). cbn [fst] in E2. sess_step. sess_step.
  assert (forall x3 w3 e3, x3 = x2 <| socketfd_ := -1 |> -> ran (x2, w2) e3 (x3, w3) ->
    plain_run fd e3 (-1) ->
    wp (put forget_connection;; _ <- millis;; ret tt) (fun _ q' => cleaned x q'.1 /\
      exists evs, ran (x, w) evs q' /\ plain_run (socketfd_ x) evs (-1) /\
        (session_ x <> None -> session_freed evs = true)) (x3, w3)) as Hend.
  { intros x3 w3 e3 E3 R3 P3. sess_go. subst x3 x2 x1. split; [by split_and!|].
    eexists. split.
    - eapply ran_app; [|eapply ran_app; [exact R1|eapply ran_app; [exact R2|eapply ran_app; [exact R3|ran_done]]]].
      ran_done.
    - split; [|intros Hs; by rewrite !session_freed_app, (F2 Hs), !orb_true_r].
      eapply plain_run_app; [|eapply plain_run_app; [by apply plain_run_side|
        eapply plain_run_app; [exact P2|eapply plain_run_app; [exact P3|]]]];
      apply plain_run_silent; by events || done. }
  assert (socketfd_ x2 = fd) as Efd by (by subst x2). rewrite Efd.
  sess_step. sess_step.
  - apply Z.leb_le in H. rewrite <- Efd in H. eapply wp_conseq; [by apply close_socket_ok|].
    intros u3 [x3 w3] (E3 & e3 & R3 & P3). cbn [fst] in *. rewrite Efd in P3. by eapply Hend.
  - apply Z.leb_gt in H. assert (fd = -1) as Hm by (destruct Hf; lia).
    eapply (Hend x2 w2 []); [by rewrite E2, Hm|apply ran_nil|].
    rewrite Hm. by apply plain_run_silent.
Qed.

(** ** The steps of connect *)

Lemma setsockopt_plain fd evs :
  Forall (fun ev => exists o v, ev_call ev = SetSockOpt fd o v) evs ->
  Forall (fun ev => plain ev = true) evs.
Proof. apply Forall_impl. intros [cl r] (o & v & E). cbn in E. by subst cl. Qed.

Lemma tcpConnect_ok c q :
  socketfd_ q.1 = -1 ->
  wp (tcpConnect c) (fun ok q' => exists fd, q'.1 = q.1 <| socketfd_ := fd |> /\
    (if ok then 0 <= fd else fd = -1) /\ exists evs, ran q evs q' /\ (exists n, Event Socket n ∈ evs) /\
      plain_run (-1) evs fd) q.
Proof.
  destruct q as [x w]. cbn [fst]. intros Hfd. unfold tcpConnect, fail_socket.
  sess_step. sess_step. sess_step. sess_step. rename r into fd. cbn [ret_of] in fd.
  destruct (Z.eqb_spec fd (-1)) as [->|Hne].
  { apply wp_ret. exists (-1). split_and!; [done|done|]. eexists.
    split; [ran_done|]. split; [by eexists; left|]. apply plain_run_silent; [done|done|by events]. }
  assert (0 <= fd) as Hpos by lia.
  assert (opened [Event Socket fd] = [fd]) as Ho
    by (unfold opened; cbn; by rewrite (proj2 (Z.ltb_ge fd 0))).
  assert (held fd = [fd]) as Hh by (unfold held; by rewrite (proj2 (Z.ltb_ge fd 0))).
  sess_step. eapply wp_conseq; [apply optimizeSSHSocket_ok|].
  intros b [x1 w1] (E1 & e1 & R1 & S1). cbn [fst] in E1. subst x1.
  pose proof (setsockopt_plain _ _ S1) as P1. apply setsockopt_sockets in S1 as (O1 & C1 & _).
  sess_go; (eexists; split; [done|split; [done|]]);
    (eexists; split; [eapply ran_app; [|eapply ran_app; [exact R1|trace_done]]; ran_done|]);
    (split; [by eexists; left|]); (split; [|apply Forall_app; split; [by events|apply Forall_app; split; [done|by events]]]);
    unfold conserves; rewrite !opened_app, !closed_app, O1, C1, Ho, ?Hh; done.
Qed.

Lemma handshake_ok c p q :
  wp handshake (fun ok q' => exists o, q'.1 = q.1 <| session_ := o |> /\
    (if ok then is_Some o else o = None) /\
    exists evs, ran q evs q' /\ opened evs = [] /\ closed evs = [] /\
      auth_run c p evs = Some (if ok then after_handshake c else Raw)) q.
Proof.
  destruct q as [x w]. unfold handshake. sess_go.
  all: eexists; split; [reflexivity|]; split; [first [reflexivity|by eexists]|].
  all: eexists; split; [ran_done|]; split; [reflexivity|]; split; [reflexivity|].
  all: cbn [app auth_run auth_step no_channel ev_call call_chan negb mbind option_bind]; try reflexivity.
  all: destruct (r0 =? 0); (discriminate || reflexivity).
Qed.

(** A run under the session lock that keeps the state and moves the automaton
    from [p]. *)
Definition steps {A} (c : SSHServerConfig) (p : auth_phase) (m : M (SSHSession * world Env) A)
    (Q : A -> auth_phase -> SSHSession -> Prop) q : Prop :=
  wp m (fun a q' => exists evs p', ran q evs q' /\ side evs /\ auth_run c p evs = Some p' /\
    Q a p' q'.1) q.

Lemma steps_idle {A} c p (m : M (SSHSession * world Env) A) q :
  idle m q -> steps c p m (fun _ p' x' => p' = p /\ x' = q.1) q.
Proof.
  unfold steps, idle, wp. intros (E & evs & R1 & S1 & P1). exists evs, p. split_and!; [done|done|by apply auth_run_plain|done|done].
Qed.

Lemma steps_bind {A B} c p (m : M (SSHSession * world Env) A) (k : A -> M (SSHSession * world Env) B) Q1 Q q :
  steps c p m Q1 q -> (forall a p1 q1, Q1 a p1 q1.1 -> steps c p1 (k a) Q q1) ->
  steps c p (bind m k) Q q.
Proof.
  unfold steps, wp, bind. intros Hm Hk. destruct (m q) as [a q1]. cbn [fst snd] in *.
  destruct Hm as (e1 & p1 & R1 & S1 & A1 & H1). specialize (Hk a p1 q1 H1).
  destruct (k a q1) as [b q2]. destruct Hk as (e2 & p2 & R2 & S2 & A2 & H2). exists (e1 ++ e2), p2.
  split_and!; [by eapply ran_app|by apply side_app|by rewrite auth_run_app, A1|done].
Qed.

Lemma steps_ret {A} c p (a : A) (Q : A -> auth_phase -> SSHSession -> Prop) q :
  Q a p q.1 -> steps c p (ret a) Q q.
Proof. intros H. apply wp_ret. exists [], p. destruct q. split_and!; [apply ran_nil|done|done|done]. Qed.

Lemma verifyHostKey_ok s c q :
  steps c (after_handshake c) (verifyHostKey s c)
    (fun ok p' x' => x' = q.1 /\ (ok = true -> p' = Trusted)) q.
Proof.
  destruct q as [x w]. unfold steps, verifyHostKey, after_handshake, report_mismatch.
  sess_go; try (apply negb_true_iff in Heqb as E; rewrite E);
    try (apply negb_false_iff in Heqb as E; rewrite E);
    (eexists _, _; split; [trace_done|]; split; [side_done|]; split; [reflexivity|]; split; [done|]);
    intros Ha; try discriminate Ha; try done;
    cbn [fst snd] in *; unfold type_ok, digest_ok; subst;
    repeat match goal with
    | H : (_ && _) = false |- _ => rewrite H
    | H : (str_len _ =? 0) = _ |- _ => rewrite H
    | H : negb (fingerprintsMatch _ _) = _ |- _ => apply negb_false_iff in H; rewrite H
    end; done.
Qed.

Lemma authenticate_ok s cfg q :
  steps (sshConfig cfg) Trusted (authenticate s cfg)
    (fun ok p' x' => x' = q.1 /\ (ok = true -> p' = Authed)) q.
Proof.
  destruct q as [x w]. unfold steps, authenticate, auth_password, auth_publickey, diagnoseSSHKeys,
    validateSSHKeys, lockConfig, unlockConfig. sess_go.
  all: eexists _, _; split; [trace_done|]; split; [side_done|]; split; [reflexivity|]; split; [done|];
    intros Ha; try discriminate Ha; cbn; try rewrite Ha; try done.
Qed.

Lemma configureKeepalive_idle s c q : idle (configureKeepalive s c) q.
Proof.
  destruct q as [x w]. unfold idle, configureKeepalive. sess_go; split; try done; eexists;
    (split; [trace_done|split; [side_done|by events]]).
Qed.

(** ** Listeners *)

(** The attempts for one mapping: a handle only when the server granted one, no
    state change, at most [n] requests. *)
Definition is_listen (ev : event) : bool :=
  match ev_call ev with ForwardListen _ _ _ _ => true | _ => false end.
Definition requests (evs : list event) : Z := zlen (List.filter is_listen evs).

Lemma requests_app l1 l2 : requests (l1 ++ l2) = requests l1 + requests l2.
Proof. unfold requests. rewrite List.filter_app, length_app. lia. Qed.

Definition within {A} (c : SSHServerConfig) (n : Z) (m : M (SSHSession * world Env) A)
    (Q : A -> SSHSession -> Prop) q : Prop :=
  wp m (fun a q' => exists evs, ran q evs q' /\ side evs /\ auth_run c Authed evs = Some Authed /\
    requests evs <= n /\ Q a q'.1) q.

Lemma within_bind {A B} c n1 n2 (m : M (SSHSession * world Env) A)
    (k : A -> M (SSHSession * world Env) B) Q1 Q q :
  within c n1 m Q1 q -> (forall a q1, Q1 a q1.1 -> within c n2 (k a) Q q1) ->
  within c (n1 + n2) (bind m k) Q q.
Proof.
  unfold within, wp, bind. intros Hm Hk. destruct (m q) as [a q1]. cbn [fst snd] in *.
  destruct Hm as (e1 & R1 & S1 & A1 & N1 & H1). specialize (Hk a q1 H1).
  destruct (k a q1) as [b q2]. destruct Hk as (e2 & R2 & S2 & A2 & N2 & H2). exists (e1 ++ e2).
  split_and!; [by eapply ran_app|by apply side_app|by rewrite auth_run_app, A1|rewrite requests_app; lia|done].
Qed.

Lemma within_ret {A} c n (a : A) (Q : A -> SSHSession -> Prop) q : 0 <= n -> Q a q.1 -> within c n (ret a) Q q.
Proof.
  intros Hn H. apply wp_ret. exists []. destruct q. split_and!; [apply ran_nil|done|done|done|done].
Qed.

Lemma within_get {A B} c n (f : SSHSession -> A) (k : A -> M (SSHSession * world Env) B) Q q :
  within c n (k (f q.1)) Q q -> within c n (bind (get f) k) Q q.
Proof. done. Qed.

Lemma within_idle {A} c (m : M (SSHSession * world Env) A) (f : SSHSession -> SSHSession) q :
  wp m (fun _ q' => q'.1 = f q.1 /\ exists evs, ran q evs q' /\ side evs /\
    Forall (fun ev => plain ev = true) evs) q ->
  within c 0 m (fun _ x' => x' = f q.1) q.
Proof.
  unfold within, wp. intros (E & evs & R1 & S1 & P1). exists evs.
  split_and!; [done|done|by apply auth_run_plain| |done]. unfold requests.
  assert (List.filter is_listen evs = []) as ->; [|done].
  clear -P1. induction P1 as [|[cl r] evs Hev _ IH]; [done|]. by destruct cl.
Qed.

Lemma within_put c (f : SSHSession -> SSHSession) q : within c 0 (put f) (fun _ x' => x' = f q.1) q.
Proof.
  apply within_idle, wp_put. destruct q. split; [done|]. exists [].
  split; [apply ran_nil|]. split; [apply side_nil|constructor].
Qed.

Lemma within_weaken {A} c n n' (m : M (SSHSession * world Env) A) (Q Q' : A -> SSHSession -> Prop) q :
  within c n m Q q -> n <= n' -> (forall a x, Q a x -> Q' a x) -> within c n' m Q' q.
Proof.
  unfold within, wp. intros (evs & R1 & S1 & A1 & N1 & H1) Hn HQ. exists evs. split_and!; try done; [lia|auto].
Qed.

Lemma listen_attempts_ok c n s h p ml q :
  within c (Z.of_nat n) (listen_attempts n s h p ml) (fun _ x' => x' = q.1) q.
Proof.
  revert q. induction n as [|n IH]; intros q; cbn [listen_attempts]; [by apply within_ret|].
  replace (Z.of_nat (S n)) with (1 + Z.of_nat n) by lia. destruct q as [x w].
  (* one attempt, then the rest *)
  assert (forall evs x1 w1, ran (x, w) evs (x1, w1) -> x1 = x -> side evs ->
    auth_run c Authed evs = Some Authed -> requests evs <= 1 ->
    wp (listen_attempts n s h p ml) (fun a q' => exists evs, ran (x, w) evs q' /\ side evs /\
      auth_run c Authed evs = Some Authed /\ requests evs <= 1 + Z.of_nat n /\ q'.1 = x) (x1, w1)) as Hrest.
  { intros evs x1 w1 R1 -> S1 A1 N1. eapply wp_conseq; [apply IH|].
    intros a q' (e2 & R2 & S2 & A2 & N2 & E2). exists (evs ++ e2).
    split_and!; [by eapply ran_app|by apply side_app|by rewrite auth_run_app, A1|rewrite requests_app; lia|done]. }
  unfold within. apply wp_bind, wp_slock; [intros Hm|intros t [] e Hm]; cbn [negb].
  - sess_step. sess_step. eapply Hrest; [ran_done|done|side_done|done|done].
  - sess_step. sess_step. sess_step. sess_step. sess_step. sess_step.
    + sess_step. eexists. split; [ran_done|]. split; [side_done|]. split; [done|]. split; [change (1 <= 1 + Z.of_nat n); lia|done].
    + sess_step. sess_step. eapply Hrest; [ran_done|done|side_done|done|done].
  - sess_step. sess_step. eapply Hrest; [ran_done|done|side_done|done|done].
Qed.

(** An entry that serves a mapping. *)
Definition serves (m : TunnelConfig) (e : ListenerEntry) : Prop :=
  le_mapping e = m /\ is_Some (le_listener e).

Lemma createListenerForMapping_ok c s cfg m q :
  within c 50 (createListenerForMapping s cfg m)
    (fun r x' => x' = q.1 /\ forall e, r = Some e -> serves m e) q.
Proof.
  unfold createListenerForMapping. apply within_get. replace 50 with (50 + 0) by lia.
  eapply within_bind; [apply listen_attempts_ok|]. intros [[l|] bp] [x1 w1] E1; cbn [fst] in E1; subst x1.
  - apply within_ret; [done|]. split; [done|]. intros e [= <-]. split; [done|by eexists].
  - unfold within. sess_go; (eexists; split; [trace_done|]; split; [side_done|]; split; [done|];
      split; [done|]; split; [done|by intros ?]).
Qed.

(** [boundPort_] after adding the entries: the first port that is not negative. *)
Definition first_port (p : Z) (l : list ListenerEntry) : Z :=
  foldl (fun p e => if p <? 0 then le_boundPort e else p) p l.

Definition without_listeners x : SSHSession := x <| listeners_ := [] |> <| boundPort_ := -1 |>.
Definition with_listeners (l : list ListenerEntry) x : SSHSession :=
  x <| listeners_ := listeners_ x ++ l |> <| boundPort_ := first_port (boundPort_ x) l |>.

Lemma within_cancel c q : within c 0 cancelAllListeners (fun _ x' => x' = without_listeners q.1) q.
Proof. exact (within_idle c _ without_listeners q (cancelAllListeners_ok q)). Qed.

Lemma create_each_ok c s cfg ms q :
  within c (50 * zlen ms) (create_each s cfg ms) (fun ok x' =>
    if ok : bool then exists l, Forall2 serves ms l /\ x' = with_listeners l q.1
    else x' = without_listeners q.1) q.
Proof.
  revert q. induction ms as [|m ms IH]; intros q; cbn [create_each].
  { apply within_ret; [done|]. exists []. split; [constructor|]. unfold with_listeners. rewrite app_nil_r.
    by destruct q as [[] w]. }
  replace (50 * zlen (m :: ms)) with (50 + 50 * zlen ms) by (cbn [length]; lia).
  eapply within_bind; [apply createListenerForMapping_ok|].
  intros [e|] [x1 w1] [E1 He]; cbn [fst] in E1; subst x1.
  - specialize (He e eq_refl). replace (50 * zlen ms) with (0 + 50 * zlen ms) by lia.
    eapply within_bind; [apply within_put|].
    intros u [x2 w2] E2. cbn [fst] in E2. eapply within_weaken; [apply IH|done|].
    intros [] x3; [|by subst x2; intros ->]. intros (l & Hl & ->). exists (e :: l).
    split; [by constructor|]. subst x2. unfold with_listeners, first_port. cbn. by rewrite <- app_assoc.
  - eapply (within_weaken c (0 + 0) (50 * zlen ms)); [|lia|].
    + eapply within_bind; [apply within_cancel|]. intros u q2 E2.
      apply (within_ret c 0 false (fun ok x' => ok = false /\ x' = without_listeners q.1)); [done|]. by split.
    + by intros a x [-> ->].
Qed.

(** The mappings that get a listener. *)
Definition desired_mappings (cfg : SSHConfiguration) : list TunnelConfig :=
  ztake (Z.min (maxReverseListeners (connectionConfig cfg)) (zlen (tunnelMappings cfg))) (tunnelMappings cfg).

Lemma createListeners_ok s cfg q :
  within (sshConfig cfg) (50 * zlen (desired_mappings cfg)) (createListeners s cfg) (fun ok x' =>
    if ok : bool then exists l, l <> [] /\ Forall2 serves (desired_mappings cfg) l /\
      x' = with_listeners l (without_listeners q.1)
    else x' = without_listeners q.1) q.
Proof.
  unfold createListeners. set (N := 50 * zlen (desired_mappings cfg)).
  replace N with (0 + (0 + N)) by lia.
  eapply within_bind; [apply within_cancel|]. intros u [x1 w1] E1. cbn [fst] in E1.
  eapply within_bind; [apply within_put|].
  intros u2 [x2 w2] E2. cbn [fst] in E2. assert (x2 = without_listeners q.1) as E by (by subst x1).
  destruct (bool_decide (tunnelMappings cfg = [])); [apply within_ret; [unfold N; lia|done]|].
  destruct (Z.leb_spec (Z.min (maxReverseListeners (connectionConfig cfg)) (zlen (tunnelMappings cfg))) 0);
    [apply within_ret; [unfold N; lia|done]|].
  replace N with (N + 0) by lia. eapply within_bind; [apply create_each_ok|].
  intros [] q3 H3; cbn [negb]; [|apply within_ret; [done|by rewrite H3, E]].
  destruct H3 as (l & Hl & E3). apply within_get, within_ret; [done|].
  assert (listeners_ q3.1 = l) as El by (by rewrite E3, E). rewrite El.
  assert (l <> []) as Hne.
  { intros ->. apply Forall2_nil_inv_r in Hl. apply (f_equal length) in Hl. unfold ztake in Hl.
    rewrite length_take in Hl. cbn in Hl. lia. }
  rewrite bool_decide_eq_false_2 by done. cbn [negb]. exists l. split_and!; [done|done|by rewrite E3, E].
Qed.

(** ** The whole connection *)

Definition link (c : SSHServerConfig) (fd : Z) (p : auth_phase) (evs : list event) (fd' : Z)
    (p' : auth_phase) : Prop := conserves fd evs fd' /\ auth_run c p evs = Some p'.

Lemma link_app c fd p e1 fd1 p1 e2 fd2 p2 :
  link c fd p e1 fd1 p1 -> link c fd1 p1 e2 fd2 p2 -> link c fd p (e1 ++ e2) fd2 p2.
Proof.
  intros [H1 H2] [K1 K2]. split; [by eapply conserves_app|by rewrite auth_run_app, H2].
Qed.

Lemma link_plain c fd p evs fd' : plain_run fd evs fd' -> link c fd p evs fd' p.
Proof. intros [H1 H2]. split; [done|by apply auth_run_plain]. Qed.

Lemma link_side c fd p evs p' : side evs -> auth_run c p evs = Some p' -> link c fd p evs fd p'.
Proof. intros H1 H2. split; [by apply conserves_side|done]. Qed.

Definition torn_down x : Prop := socketfd_ x = -1 /\ listeners_ x = [] /\ boundPort_ x = -1.

(** A session's well-formedness between operations. *)
Record sess_inv x : Prop := {
  si_fd : -1 <= socketfd_ x;
  si_none : session_ x = None -> torn_down x;
  si_listeners : Forall (fun e => is_Some (le_listener e)) (listeners_ x);
}.

Record connected_to (cfg : SSHConfiguration) x : Prop := {
  ct_session : is_Some (session_ x);
  ct_socket : 0 <= socketfd_ x;
  ct_some : listeners_ x <> [];
  ct_listeners : Forall2 serves (desired_mappings cfg) (listeners_ x);
  ct_port : boundPort_ x = first_port (-1) (listeners_ x);
  ct_accept : consecutiveFatalAcceptErrors_ x = 0 /\ lastAcceptError_ x = 0;
}.

Lemma serves_inv ms l : Forall2 serves ms l -> Forall (fun e => is_Some (le_listener e)) l.
Proof. induction 1 as [|m e ms l [_ He] _ IH]; by constructor. Qed.

Lemma connected_inv cfg x : connected_to cfg x -> sess_inv x.
Proof.
  intros [[s Hs] Hf Hn Hl _ _]. constructor; [lia|rewrite Hs; discriminate|by eapply serves_inv].
Qed.

Lemma cleaned_inv x x' : cleaned x x' -> sess_inv x' /\ torn_down x'.
Proof.
  intros (H1 & H2 & H3 & _). split; [|done]. constructor; [lia|intros _; by split_and!|by rewrite H2].
Qed.

(** The outcome of a phase of [connect] that starts in state [x] and phase [p]. *)
Definition connects (cfg : SSHConfiguration) (p : auth_phase) (m : M (SSHSession * world Env) bool) q : Prop :=
  wp m (fun ok q' => exists evs p', ran q evs q' /\
    link (sshConfig cfg) (socketfd_ q.1) p evs (socketfd_ q'.1) p' /\
    if ok then p' = Authed /\ connected_to cfg q'.1 else sess_inv q'.1 /\ torn_down q'.1) q.

Lemma connects_fail cfg p q : -1 <= socketfd_ q.1 -> connects cfg p fail_connect q.
Proof.
  intros Hfd. unfold connects, fail_connect. apply wp_bind. eapply wp_conseq; [by apply cleanupSession_ok|].
  intros u q' (Hc & evs & R1 & P1 & _). apply wp_ret. pose proof (cleaned_inv _ _ Hc) as [Hi Ht].
  exists evs, p. split; [done|]. split; [|done]. rewrite (proj1 Ht). by apply link_plain.
Qed.

(** Sequencing a step that keeps the socket. *)
Lemma connects_after {A} cfg p (m : M (SSHSession * world Env) A) k
    (Q : A -> auth_phase -> SSHSession -> Prop) q :
  steps (sshConfig cfg) p m Q q ->
  (forall a p1 q1, Q a p1 q1.1 -> socketfd_ q1.1 = socketfd_ q.1 /\ connects cfg p1 (k a) q1) ->
  connects cfg p (bind m k) q.
Proof.
  unfold steps, connects, wp, bind. intros Hm Hk. destruct (m q) as [a q1]. cbn [fst snd] in *.
  destruct Hm as (e1 & p1 & R1 & S1 & A1 & H1). destruct (Hk a p1 q1 H1) as [Ef Hk1].
  destruct (k a q1) as [b q2]. destruct Hk1 as (e2 & p2 & R2 & L2 & H2). exists (e1 ++ e2), p2.
  split; [by eapply ran_app|]. split; [|done]. eapply link_app; [by apply link_side|]. by rewrite <- Ef.
Qed.

Lemma setup_session_ok s cfg q :
  session_ q.1 = Some s -> 0 <= socketfd_ q.1 ->
  consecutiveFatalAcceptErrors_ q.1 = 0 /\ lastAcceptError_ q.1 = 0 ->
  connects cfg (after_handshake (sshConfig cfg)) (setup_session s cfg) q.
Proof.
  intros Hs Hfd Ha. unfold setup_session.
  eapply connects_after; [apply verifyHostKey_ok|]. intros ok p1 q1 [E1 H1]. rewrite E1. split; [done|].
  destruct ok; cbn [negb]; [rewrite (H1 eq_refl)|apply connects_fail; rewrite E1; lia].
  eapply connects_after; [apply authenticate_ok|]. intros ok p2 q2 [E2 H2]. rewrite E2. split; [done|].
  rewrite E1 in E2. clear q1 E1 H1.
  destruct ok; cbn [negb]; [rewrite (H2 eq_refl)|apply connects_fail; rewrite E2; lia].
  eapply connects_after; [apply steps_idle, configureKeepalive_idle|].
  intros b p3 q3 [-> E3]. rewrite E3. split; [done|]. rewrite E2 in E3. clear q2 E2 H2.
  unfold connects. apply wp_bind. eapply wp_conseq; [apply createListeners_ok|].
  intros ok q4 (e4 & R4 & S4 & A4 & _ & H4). destruct ok; cbn [negb].
  2:{ eapply wp_conseq; [apply connects_fail; rewrite H4, E3; cbn; lia|].
    intros ok q5 (e5 & p5 & R5 & L5 & H5). exists (e4 ++ e5), p5. split; [by eapply ran_app|].
    split; [|done]. eapply link_app; [by apply link_side|].
    replace (socketfd_ q3.1) with (socketfd_ q4.1) by (by rewrite H4). done. }
  destruct H4 as (l & Hn & Hl & E4). destruct q4 as [x4 w4]. cbn [fst] in E4. sess_go.
  eexists _, Authed. split; [eapply ran_app; [exact R4|ran_done]|]. split.
  - eapply link_app; [by apply link_side|]. rewrite E4, E3. by apply link_plain, plain_run_silent; [..|events].
  - split; [done|]. subst x4. rewrite E3. destruct q as [x w]. cbn in *. constructor; cbn; try done; by eexists.
Qed.

(** A socket was asked for; or the attempt failed because the last session is still
    there, although libssh2 was asked to free it. *)
Definition asked (evs : list event) : Prop := exists n, Event Socket n ∈ evs.

Definition dialed (ok : bool) x' (evs : list event) : Prop :=
  asked evs \/ (ok = false /\ is_Some (session_ x') /\ session_freed evs = true).

Lemma dialed_first ok x' e1 e2 : dialed ok x' e1 -> dialed ok x' (e1 ++ e2).
Proof.
  intros [[n H]|(H1 & H2 & H3)]; [left; exists n; apply elem_of_app; by left|].
  right. by rewrite session_freed_app, H3.
Qed.
Lemma dialed_last ok x' e1 e2 : dialed ok x' e2 -> dialed ok x' (e1 ++ e2).
Proof.
  intros [[n H]|(H1 & H2 & H3)]; [left; exists n; apply elem_of_app; by right|].
  right. by rewrite session_freed_app, H3, orb_true_r.
Qed.

Definition opens (cfg : SSHConfiguration) (p : auth_phase) (m : M (SSHSession * world Env) bool) q : Prop :=
  wp m (fun ok q' => exists evs p', ran q evs q' /\ dialed ok q'.1 evs /\
    link (sshConfig cfg) (socketfd_ q.1) p evs (socketfd_ q'.1) p' /\
    if ok then p' = Authed /\ connected_to cfg q'.1 else sess_inv q'.1 /\ torn_down q'.1) q.

Lemma open_session_ok cfg p q :
  session_ q.1 = None -> sess_inv q.1 ->
  consecutiveFatalAcceptErrors_ q.1 = 0 /\ lastAcceptError_ q.1 = 0 ->
  opens cfg p (open_session cfg) q.
Proof.
  intros Hs Hi Ha. destruct (si_none _ Hi Hs) as (Hfd & Hl & Hb). unfold opens, open_session.
  apply wp_bind. eapply wp_conseq; [by apply tcpConnect_ok|].
  intros ok q1 (fd & E1 & Hok & e1 & R1 & D1 & P1). destruct ok; cbn [negb].
  2:{ apply wp_ret. exists e1, p. split; [done|]. split; [by left|]. rewrite E1, Hfd, Hok. subst fd. cbn.
    split; [by apply link_plain|]. split; [|by split_and!]. constructor; cbn; [lia|intros _; by split_and!|by rewrite Hl]. }
  apply wp_bind. eapply wp_conseq; [apply (handshake_ok (sshConfig cfg) p)|].
  intros ok q2 (o & E2 & Ho & e2 & R2 & O2 & C2 & A2). rewrite E1 in E2.
  assert (socketfd_ q2.1 = fd) as Ef by (by rewrite E2).
  (* what happened so far, and what follows *)
  assert (forall p2 (m : M (SSHSession * world Env) bool), auth_run (sshConfig cfg) p e2 = Some p2 ->
    connects cfg p2 m q2 ->
    wp m (fun ok q' => exists evs p', ran q evs q' /\ dialed ok q'.1 evs /\
      link (sshConfig cfg) (socketfd_ q.1) p evs (socketfd_ q'.1) p' /\
      if ok then p' = Authed /\ connected_to cfg q'.1 else sess_inv q'.1 /\ torn_down q'.1) q2) as Hthen.
  { unfold connects, wp. intros p2 m Hp2 (e3 & p3 & R3 & L3 & H3).
    exists (e1 ++ e2 ++ e3), p3. split; [eapply ran_app; [exact R1|by eapply ran_app]|].
    split; [by apply dialed_first; left|]. split; [|done].
    rewrite Hfd. eapply link_app; [by apply link_plain|]. rewrite Ef in L3. eapply link_app; [|exact L3].
    split; [|done]. unfold conserves. by rewrite O2, C2, app_nil_r. }
  destruct ok; cbn [negb].
  - apply wp_bind, wp_get. destruct Ho as [s ->].
    replace (session_ q2.1) with (Some s) by (by rewrite E2).
    apply (Hthen (after_handshake (sshConfig cfg))); [done|].
    apply setup_session_ok; rewrite E2; done.
  - apply (Hthen Raw); [done|]. apply connects_fail. rewrite Ef. cbn in Hok. lia.
Qed.

Lemma connect_opens cfg p q :
  sess_inv q.1 -> opens cfg p (connect cfg) q.
Proof.
  intros Hi. unfold opens, connect. destruct q as [x w]. cbn [fst] in *.
  do 5 sess_step. set (x0 := resetAcceptState _).
  match goal with |- wp _ _ (_, ?v) => set (w0 := v) end.
  assert (socketfd_ x0 = socketfd_ x /\ session_ x0 = session_ x /\ listeners_ x0 = listeners_ x /\
    boundPort_ x0 = boundPort_ x) as (F1 & F2 & F3 & F4) by done.
  assert (sess_inv x0) as Hi0.
  { destruct Hi as [I1 I2 I3]. constructor; [by rewrite F1|unfold torn_down; by rewrite F1, F2, F3, F4|by rewrite F3]. }
  assert (ran (x, w) [Event Millis r] (x0, w0)) as R0 by ran_done.
  assert (forall fd p0, link (sshConfig cfg) fd p0 [Event Millis r] fd p0) as L0
    by (intros; by apply link_plain, plain_run_silent; [..|events]).
  sess_step. sess_step. rewrite F2. destruct (session_ x) as [s|] eqn:Es.
  - sess_step. eapply wp_conseq; [apply cleanupSession_ok, si_fd; by rewrite ?F1|].
    intros u q1 (Hc & e1 & R1 & P1 & Hf). cbn [fst] in *. rewrite F1 in P1.
    pose proof (cleaned_inv _ _ Hc) as [Hi1 Ht1]. sess_step. sess_step.
    assert (link (sshConfig cfg) (socketfd_ x) p ([Event Millis r] ++ e1) (socketfd_ q1.1) p) as L1.
    { eapply link_app; [apply L0|]. rewrite (proj1 Ht1). by apply link_plain. }
    destruct (session_ q1.1) as [s1|] eqn:Es1.
    + apply wp_ret. exists ([Event Millis r] ++ e1), p. split; [by eapply ran_app|].
      split; [right; split_and!; [done|by eexists|rewrite session_freed_app, Hf, orb_true_r; [done|by rewrite F2]]|]. by split.
    + eapply wp_conseq; [apply (open_session_ok cfg p q1 Es1 Hi1); unfold cleaned in Hc; tauto|].
      intros ok q2 (e2 & p2 & R2 & D2 & L2 & H2). exists (([Event Millis r] ++ e1) ++ e2), p2.
      split; [eapply ran_app; [by eapply ran_app|done]|]. split; [by apply dialed_last|]. split; [by eapply link_app|done].
  - eapply wp_conseq; [apply (open_session_ok cfg p (x0, w0)); [exact F2|done|done]|].
    intros ok q2 (e2 & p2 & R2 & D2 & L2 & H2). cbn [fst] in L2. rewrite F1 in L2.
    exists ([Event Millis r] ++ e2), p2. split; [by eapply ran_app|]. split; [by apply dialed_last|]. split; [by eapply link_app; [apply L0|]|done].
Qed.

Lemma connect_ok cfg p q : sess_inv q.1 -> connects cfg p (connect cfg) q.
Proof.
  intros Hi. eapply wp_conseq; [by apply connect_opens|]. intros ok q' (evs & p' & R1 & _ & L1 & H1).
  by exists evs, p'.
Qed.

(** ** acceptChannel, sendKeepalive *)

(** The outcome of each poll of a listener: [None] for a channel, [Some err]
    when there was none. *)
Definition ev_poll (ev : event) : list (option Z) :=
  match ev with
  | Event cl r =>
      match cl return ret_of cl -> list (option Z) with
      | ForwardAccept _ => fun ch => match ch with Some _ => [None] | None => [] end
      | SessionLastErrno _ => fun err => [Some err]
      | _ => fun _ => []
      end r
  end.
Definition polls (evs : list event) : list (option Z) := evs ≫= ev_poll.

Lemma polls_app l1 l2 : polls (l1 ++ l2) = polls l1 ++ polls l2.
Proof. apply bind_app. Qed.

Definition fatal (p : option Z) : bool := match p with Some err => isFatalAcceptError err | None => false end.

(** The length of the longest run of fatal outcomes at the end. *)
Definition fatal_suffix (n : Z) (l : list (option Z)) : Z :=
  foldl (fun n p => if fatal p then n + 1 else 0) n l.

Lemma fatal_suffix_app n l1 l2 : fatal_suffix n (l1 ++ l2) = fatal_suffix (fatal_suffix n l1) l2.
Proof. apply foldl_app. Qed.

Lemma fatal_suffix_bound n l : 0 <= n -> 0 <= fatal_suffix n l <= n + zlen l.
Proof.
  revert n. induction l as [|p l IH]; intros n Hn; [cbn; lia|]. cbn [fatal_suffix foldl length].
  destruct (fatal p); [specialize (IH (n + 1))|specialize (IH 0)]; unfold fatal_suffix in IH; lia.
Qed.

Lemma fatal_suffix_three l :
  3 <= fatal_suffix 0 l <-> exists l0 p1 p2 p3, l = l0 ++ [p1; p2; p3] /\
    fatal p1 = true /\ fatal p2 = true /\ fatal p3 = true.
Proof.
  assert (forall l p n, 0 <= n -> n + 1 <= fatal_suffix 0 (l ++ [p]) <-> fatal p = true /\ n <= fatal_suffix 0 l) as Hstep.
  { intros l1 p n Hn. rewrite fatal_suffix_app. cbn [fatal_suffix foldl]. fold (fatal_suffix 0 l1).
    destruct (fatal p); split; [intros; split; [done|lia]|lia|lia|by intros []]. }
  assert (fatal_suffix 0 [] = 0) as H0 by done. split.
  - intros H. destruct l as [|p3 l _] using rev_ind; [lia|]. apply (Hstep l p3 2) in H as [H3 H]; [|lia].
    destruct l as [|p2 l _] using rev_ind; [lia|]. apply (Hstep l p2 1) in H as [H2 H]; [|lia].
    destruct l as [|p1 l _] using rev_ind; [lia|]. apply (Hstep l p1 0) in H as [H1 _]; [|lia].
    exists l, p1, p2, p3. by rewrite <- !app_assoc.
  - intros (l0 & p1 & p2 & p3 & -> & H1 & H2 & H3).
    change [p1; p2; p3] with ([p1] ++ [p2] ++ [p3]). rewrite !app_assoc.
    apply (Hstep _ _ 2); [lia|]. split; [done|]. apply (Hstep _ _ 1); [lia|]. split; [done|].
    apply (Hstep _ _ 0); [lia|]. split; [done|]. apply fatal_suffix_bound. lia.
Qed.

(** The connection is untouched by polling and keepalives. *)
Definition same_link x x' : Prop :=
  session_ x' = session_ x /\ socketfd_ x' = socketfd_ x /\ listeners_ x' = listeners_ x /\
  boundPort_ x' = boundPort_ x /\ sessionMutex_ x' = sessionMutex_ x.

#[local] Instance same_link_preorder : PreOrder same_link.
Proof. split; unfold same_link; [intros x; tauto|intros x y z; intuition congruence]. Qed.

(** The counter and the last error follow the polls, while the counter fits an
    [int]. *)
Definition counts (x : SSHSession) (ps : list (option Z)) (x' : SSHSession) : Prop :=
  0 <= consecutiveFatalAcceptErrors_ x -> consecutiveFatalAcceptErrors_ x + zlen ps < 2 ^ 31 ->
  consecutiveFatalAcceptErrors_ x' = fatal_suffix (consecutiveFatalAcceptErrors_ x) ps /\
  (ps = [] \/ fatal (Some (lastAcceptError_ x')) = fatal (List.last ps None)) /\
  (ps = [] -> lastAcceptError_ x' = lastAcceptError_ x).

Lemma counts_refl x : counts x [] x.
Proof. intros _ _. split_and!; [done|by left|done]. Qed.

Lemma last_app {A} (l1 l2 : list A) d : l2 <> [] -> List.last (l1 ++ l2) d = List.last l2 d.
Proof.
  intros Hn. induction l1 as [|a l1 IH]; [done|]. cbn. rewrite <- IH.
  destruct (l1 ++ l2) eqn:E; [|done]. by apply app_eq_nil in E as [_ ->].
Qed.

Lemma counts_app x p1 x1 p2 x2 : counts x p1 x1 -> counts x1 p2 x2 -> counts x (p1 ++ p2) x2.
Proof.
  intros H1 H2 Hn Hb. rewrite length_app in Hb.
  destruct (H1 Hn ltac:(lia)) as (E1 & L1 & N1).
  pose proof (fatal_suffix_bound (consecutiveFatalAcceptErrors_ x) p1 Hn).
  destruct (H2 ltac:(lia) ltac:(lia)) as (E2 & L2 & N2). split_and!.
  - by rewrite E2, E1, fatal_suffix_app.
  - destruct L2 as [->|L2].
    + rewrite app_nil_r. destruct L1 as [->|L1]; [by left|]. right. by rewrite N2.
    + destruct p2 as [|p p2]; [rewrite app_nil_r|].
      * destruct L1 as [->|L1]; [by left|]. right. by rewrite N2.
      * right. by rewrite last_app.
  - intros [-> ->]%app_eq_nil. by rewrite N2, N1.
Qed.

Lemma counts_one err x : isFatalAcceptError 0 = false ->
  counts x [Some err] (recordAcceptNoChannel err x).
Proof.
  intros _ Hn Hb. cbn [length] in Hb. unfold recordAcceptNoChannel, fatal_suffix. cbn [foldl fatal List.last].
  destruct (isFatalAcceptError err) eqn:E; cbn; rewrite ?E.
  - split_and!; [|by right|done]. unfold s32. rewrite u32_small by lia. by rewrite (proj2 (Z.ltb_lt _ _)) by lia.
  - split_and!; [done|by right|done].
Qed.

Lemma counts_note x ps x1 now : counts x ps x1 -> counts x ps (note_unknown now x1).
Proof.
  intros H. unfold counts. replace (consecutiveFatalAcceptErrors_ (note_unknown now x1)) with
    (consecutiveFatalAcceptErrors_ x1) by (unfold note_unknown; by case_match).
  replace (lastAcceptError_ (note_unknown now x1)) with (lastAcceptError_ x1)
    by (unfold note_unknown; by case_match). exact H.
Qed.

Lemma note_link err now x : same_link x (recordAcceptNoChannel err x) /\ same_link x (note_unknown now x).
Proof. unfold recordAcceptNoChannel, note_unknown. split; by case_match. Qed.

Lemma benign_zero : isFatalAcceptError 0 = false.
Proof. done. Qed.

(** What one round of polling guarantees. *)
Definition polled (l : list ListenerEntry) q (r : option (chan * TunnelConfig)) q' : Prop :=
  same_link q.1 q'.1 /\ exists evs, ran q evs q' /\ side evs /\ counts q.1 (polls evs) q'.1 /\
    accepted evs = option_list (fst <$> r) /\
    forall c m, r = Some (c, m) -> exists e h, e ∈ l /\ le_mapping e = m /\ le_listener e = Some h /\
      Event (ForwardAccept h) (Some c) ∈ evs.

Lemma accept_each_ok s l q : wp (accept_each s l) (fun r q' => polled l q r q') q.
Proof.
  revert q. induction l as [|entry l IH]; intros [x w]; cbn [accept_each].
  { apply wp_ret. split; [done|]. exists []. split; [apply ran_nil|]. split; [apply side_nil|].
    split; [apply counts_refl|]. split; [done|]. done. }
  (* the rest, after a poll of this entry that gave no channel *)
  assert (forall evs x1 w1, ran (x, w) evs (x1, w1) -> same_link x x1 -> side evs -> counts x (polls evs) x1 ->
    accepted evs = [] ->
    wp (accept_each s l) (fun r q' => polled (entry :: l) (x, w) r q') (x1, w1)) as Hrest.
  { intros evs x1 w1 R1 L1 S1 C1 A1. eapply wp_conseq; [apply IH|].
    intros r q' (L2 & e2 & R2 & S2 & C2 & A2 & H2). split; [by etransitivity|]. exists (evs ++ e2).
    split; [by eapply ran_app|]. split; [by apply side_app|]. split; [rewrite polls_app; by eapply counts_app|].
    split; [by rewrite accepted_app, A1|].
    intros c m Hr. destruct (H2 c m Hr) as (e & h & He & Hm & Hh & Hin). exists e, h.
    split_and!; [by right|done|done|]. apply elem_of_app. by right. }
  assert (wp (accept_each s l) (fun r q' => polled (entry :: l) (x, w) r q') (x, w)) as Hskip
    by (apply (Hrest [] x w); [apply ran_nil|done|apply side_nil|apply counts_refl|done]).
  destruct (le_listener entry) as [h|] eqn:Eh; [|done].
  apply wp_bind, wp_slock; [intros Hm|intros t [] e Hm]; cbn [negb].
  - exact Hskip.
  - sess_step. sess_step. sess_step. destruct r as [c|].
    + cbn. sess_go; (split; [done|]; eexists; split; [ran_done|]; split; [side_done|]; split;
        [intros _ _; split_and!; [done|by right|done]
        |split; [done|]; intros c' m [= <- <-]; exists entry, h; split; [by left|]; split; [done|]; split; [done|];
         apply list_elem_of_In; cbn; auto 10]).
    + sess_step. destruct (r =? LIBSSH2_ERROR_CHANNEL_UNKNOWN) eqn:Eu.
      * sess_go. eapply Hrest; [ran_done| |side_done| |].
        { transitivity (recordAcceptNoChannel r x); [apply (note_link r 0)|exact (proj2 (note_link 0 _ _))]. }
        { apply counts_note, (counts_one _ x benign_zero). }
        done.
      * sess_go. eapply Hrest; [ran_done|apply (note_link r 0)|side_done|apply (counts_one _ x benign_zero)|done].
  - eapply Hrest; [ran_done|done|side_done|apply counts_refl|done].
Qed.

Lemma acceptChannel_ok q : wp acceptChannel (fun r q' => polled (listeners_ q.1) q r q') q.
Proof.
  unfold acceptChannel. apply wp_bind, wp_get, wp_bind, wp_get. destruct q as [x w]. cbn [fst].
  assert (polled (listeners_ x) (x, w) None (x, w)) as Hnone.
  { split; [done|]. exists []. split; [apply ran_nil|]. split; [apply side_nil|]. split; [apply counts_refl|]. split; [done|]. done. }
  destruct (session_ x); [|by apply wp_ret]. destruct (bool_decide _); [by apply wp_ret|apply accept_each_ok].
Qed.

(** The answers libssh2 gave to keepalives. *)
Definition ev_keepalive (ev : event) : list Z :=
  match ev with
  | Event cl r => match cl return ret_of cl -> list Z with
                  | KeepaliveSend _ => fun rc => [rc] | _ => fun _ => [] end r
  end.
Definition keepalives (evs : list event) : list Z := evs ≫= ev_keepalive.

(** What one answer does to the failure counter, and whether the connection is
    to be given up. *)
Definition strike (n rc : Z) : bool * Z :=
  if rc =? 0 then (true, 0)
  else if rc =? LIBSSH2_ERROR_SOCKET_SEND then if n =? 2 then (false, 0) else (true, n + 1)
  else if rc =? LIBSSH2_ERROR_EAGAIN then (true, n)
  else (true, 0).

Definition kept_alive q (ok : bool) q' : Prop :=
  same_link q.1 q'.1 /\ consecutiveFatalAcceptErrors_ q'.1 = consecutiveFatalAcceptErrors_ q.1 /\
  lastAcceptError_ q'.1 = lastAcceptError_ q.1 /\
  exists evs, ran q evs q' /\ side evs /\ polls evs = [] /\
    (0 <= keepAliveFailures_ q.1 <= 2 ->
     match keepalives evs with
     | [] => ok = bool_decide (is_Some (session_ q.1)) /\ keepAliveFailures_ q'.1 = keepAliveFailures_ q.1
     | rc :: _ => (ok, keepAliveFailures_ q'.1) = strike (keepAliveFailures_ q.1) rc
     end).

Lemma keepalive_result_ok now rc x :
  same_link x (snd (keepalive_result now rc x)) /\
  consecutiveFatalAcceptErrors_ (snd (keepalive_result now rc x)) = consecutiveFatalAcceptErrors_ x /\
  lastAcceptError_ (snd (keepalive_result now rc x)) = lastAcceptError_ x /\
  (0 <= keepAliveFailures_ x <= 2 ->
   (fst (keepalive_result now rc x), keepAliveFailures_ (snd (keepalive_result now rc x))) =
     strike (keepAliveFailures_ x) rc).
Proof.
  unfold keepalive_result, strike. destruct (rc =? 0); [by split_and!|].
  destruct (rc =? LIBSSH2_ERROR_SOCKET_SEND).
  - assert (0 <= keepAliveFailures_ x <= 2 -> s32 (keepAliveFailures_ x + 1) = keepAliveFailures_ x + 1) as Hs.
    { intros H. unfold s32. rewrite u32_small by lia. by rewrite (proj2 (Z.ltb_lt _ _)) by lia. }
    destruct (Z.leb_spec 3 (s32 (keepAliveFailures_ x + 1))); (split_and!; [done..|]); cbn; intros Hr;
      rewrite Hs in * by done; destruct (Z.eqb_spec (keepAliveFailures_ x) 2); try lia; done.
  - destruct (rc =? LIBSSH2_ERROR_EAGAIN); cbn; by split_and!.
Qed.

Lemma sendKeepalive_ok q : wp sendKeepalive (fun ok q' => kept_alive q ok q') q.
Proof.
  destruct q as [x w]. unfold sendKeepalive, kept_alive. sess_step. sess_step.
  destruct (session_ x) as [s|] eqn:Es; rewrite ?Es.
  2:{ apply wp_ret. split; [done|]. split; [done|]. split; [done|]. exists [].
    split; [apply ran_nil|]. split; [apply side_nil|]. split; [done|]. intros _. cbn. by rewrite Es. }
  do 5 sess_step. set (x0 := x <| lastKeepaliveAttemptMs_ := r |>).
  assert (same_link x x0) as L0 by done. apply wp_bind, wp_slock; [intros Hm|intros t [] e0 Hm]; cbn [negb].
  1,3: apply wp_ret; split; [exact L0|]; split; [done|]; split; [done|]; eexists;
    split; [ran_done|]; split; [side_done|]; split; [done|];
    intros _; cbn; rewrite Es; by split.
  (* after the answer: the error text, unlock, SO_ERROR *)
  do 2 sess_step. rename r0 into rc. destruct (keepalive_result_ok r rc x0) as (K1 & K2 & K3 & K4).
  destruct (rc =? 0) eqn:E0; [|destruct (rc =? LIBSSH2_ERROR_EAGAIN) eqn:Ee]; cbn [negb andb]; sess_go.
  all: split; [exact K1|]; split; [exact K2|]; split; [exact K3|]; eexists; split; [ran_done|];
    split; [side_done|]; split; [done|]; exact K4.
Qed.

Lemma checkConnection_ok q :
  wp checkConnection (fun ok q' => q'.1 = q.1 /\ exists evs, ran q evs q' /\ side evs /\ polls evs = [] /\
    (ok = true -> isConnected q.1 = true)) q.
Proof.
  destruct q as [x w]. unfold checkConnection, isConnected. sess_go; split; try done; eexists;
    (split; [trace_done|]; split; [side_done|]; split; [done|]); intros Hok'; try discriminate; cbn in *;
    rewrite Heqo; by apply Z.leb_le, Z.ltb_ge.
Qed.

Lemma disconnect_ok q :
  -1 <= socketfd_ q.1 ->
  wp disconnect (fun _ q' => cleaned q.1 q'.1 /\ exists evs, ran q evs q' /\
    plain_run (socketfd_ q.1) evs (-1) /\ (session_ q.1 <> None -> session_freed evs = true)) q.
Proof.
  intros Hfd. destruct q as [x w]. cbn [fst] in Hfd. unfold disconnect. apply wp_bind.
  eapply wp_conseq; [apply cancelAllListeners_ok|]. intros u [x1 w1] (E1 & e1 & R1 & S1 & P1). cbn [fst] in E1.
  assert (socketfd_ x1 = socketfd_ x) as Ef by (by subst x1).
  eapply wp_conseq; [apply cleanupSession_ok; cbn; by rewrite Ef|].
  intros u2 q2 (Hc & e2 & R2 & P2 & F2). cbn [fst] in *. rewrite Ef in P2. split.
  - unfold cleaned in *. by subst x1.
  - exists (e1 ++ e2). split; [by eapply ran_app|]. split; [eapply plain_run_app; [by apply plain_run_side|done]|].
    intros Hs. rewrite session_freed_app, F2; [by rewrite orb_true_r|]. by subst x1.
Qed.

(** ** Properties *)

(** The operations of the class, as its clients call them. *)
Inductive session_op :=
  | SConnect (cfg : SSHConfiguration) | SDisconnect | SAccept | SKeepalive | SCheck.

Definition run_session (o : session_op) : M (SSHSession * world Env) unit :=
  match o with
  | SConnect cfg => _ <- connect cfg;; ret tt
  | SDisconnect => disconnect
  | SAccept => _ <- acceptChannel;; ret tt
  | SKeepalive => _ <- sendKeepalive;; ret tt
  | SCheck => _ <- checkConnection;; ret tt
  end.

Lemma same_link_inv x x' : same_link x x' -> sess_inv x -> sess_inv x'.
Proof.
  intros (E1 & E2 & E3 & E4 & _) [I1 I2 I3]. constructor.
  - by rewrite E2.
  - unfold torn_down. by rewrite E1, E2, E3, E4.
  - by rewrite E3.
Qed.

(** One operation keeps the invariant and loses no socket. *)
Definition keeps_sockets q q' : Prop :=
  sess_inv q'.1 /\ exists evs, ran q evs q' /\ conserves (socketfd_ q.1) evs (socketfd_ q'.1).

Lemma same_link_keeps q q' :
  sess_inv q.1 -> same_link q.1 q'.1 -> (exists evs, ran q evs q' /\ side evs) -> keeps_sockets q q'.
Proof.
  intros Hi L (evs & R1 & S1). split; [by eapply same_link_inv|]. exists evs. split; [done|].
  destruct L as (_ & -> & _). by apply conserves_side.
Qed.

Lemma run_session_keeps o q : sess_inv q.1 -> wp (run_session o) (fun _ q' => keeps_sockets q q') q.
Proof.
  intros Hi. destruct o as [cfg| | | |]; cbn [run_session].
  - apply wp_bind. eapply wp_conseq; [apply (connect_ok cfg Raw q Hi)|].
    intros ok q' (evs & p' & R1 & [C1 _] & H). apply wp_ret. split; [|by exists evs].
    destruct ok; [by eapply connected_inv, H|apply H].
  - eapply wp_conseq; [apply disconnect_ok, (si_fd _ Hi)|]. intros u q' (Hc & evs & R1 & [C1 _] & _).
    pose proof (cleaned_inv _ _ Hc) as [Hi' Ht]. split; [done|]. exists evs. split; [done|].
    by rewrite (proj1 Ht).
  - apply wp_bind. eapply wp_conseq; [apply acceptChannel_ok|]. intros r q' (L & evs & R1 & S1 & _).
    apply wp_ret. apply same_link_keeps; [done|done|by exists evs].
  - apply wp_bind. eapply wp_conseq; [apply sendKeepalive_ok|]. intros r q' (L & _ & _ & evs & R1 & S1 & _).
    apply wp_ret. apply same_link_keeps; [done|done|by exists evs].
  - apply wp_bind. eapply wp_conseq; [apply checkConnection_ok|]. intros r q' (E & evs & R1 & S1 & _).
    apply wp_ret. apply same_link_keeps; [done|by rewrite E|by exists evs].
Qed.

Definition run_session_all (os : list session_op) : M (SSHSession * world Env) unit := for_each os run_session.

(** C31: over any sequence of connects, disconnects, polls and keepalives, and
    whatever fails, no TCP socket is lost or closed twice: the descriptors that
    were held or opened are, in order, those closed and the one still held; and
    without a libssh2 session there is no socket and no listener. *)
Theorem session_keeps_sockets os q :
  sess_inv q.1 ->
  let q' := snd (run_session_all os q) in
  sess_inv q'.1 /\ exists evs, ran q evs q' /\
    held (socketfd_ q.1) ++ opened evs = closed evs ++ held (socketfd_ q'.1).
Proof.
  cbn zeta. revert q. induction os as [|o os IH]; intros q Hi; cbn [run_session_all for_each].
  - split; [done|]. exists []. destruct q. split; [apply ran_nil|apply app_nil_r].
  - pose proof (run_session_keeps o q Hi) as H. unfold wp in H. unfold bind.
    destruct (run_session o q) as [u q1]. destruct H as (Hi1 & e1 & R1 & C1).
    destruct (IH q1 Hi1) as (Hi2 & e2 & R2 & C2). split; [done|]. exists (e1 ++ e2).
    split; [by eapply ran_app|by eapply conserves_app].
Qed.

(** C30: [connect] is all or nothing.  When it succeeds there is a session on an
    open socket and one listener per requested mapping, in order, each granted by
    the server, and the reported port is that of the first; when it fails no
    socket and no listener is left. *)
Theorem connect_outcome cfg q :
  sess_inv q.1 ->
  let '(ok, q') := connect cfg q in
  if ok then connected_to cfg q'.1 /\ isConnected q'.1 = true
  else torn_down q'.1 /\ isConnected q'.1 = false.
Proof.
  intros Hi. pose proof (connect_ok cfg Raw q Hi) as H. unfold connects, wp in H.
  destruct (connect cfg q) as [ok q']. destruct H as (evs & p' & _ & _ & H). unfold isConnected.
  destruct ok.
  - destruct H as [_ Hc]. split; [done|]. destruct (ct_session _ _ Hc) as [s Hs]. cbn in Hs. cbn. rewrite Hs.
    by apply Z.leb_le, (ct_socket _ _ Hc).
  - cbn [fst snd] in H. destruct H as [_ Ht]. split; [done|]. destruct (session_ q'.1); [|done].
    by rewrite (proj1 Ht).
Qed.

(** Calls that carry the user name or the credentials. *)
Definition sends_credentials (ev : event) : bool :=
  match ev_call ev with
  | UserauthList _ _ | UserauthPassword _ _ _ | UserauthPublickey _ _ _ _ _ => true
  | _ => false
  end.

(** The server has shown a key of the expected type, and its digest is the expected
    one; a type or a fingerprint that is not configured expects nothing. *)
Definition type_shown (c : SSHServerConfig) (evs : list event) : Prop :=
  exists s key t, Event (SessionHostkey s) (Some key, t) ∈ evs /\ type_ok c t = true.
Definition digest_shown (c : SSHServerConfig) (evs : list event) : Prop :=
  exists s d, Event (HostkeyHashSha256 s) (Some d) ∈ evs /\ digest_ok c d = true.

Definition phase_shows (c : SSHServerConfig) (p : auth_phase) (evs : list event) : Prop :=
  match p with
  | Raw | Keyed => True
  | Typed => type_shown c evs
  | Trusted | Authed => type_shown c evs /\ digest_shown c evs
  end.

Lemma type_shown_more c e1 e2 : type_shown c e1 -> type_shown c (e1 ++ e2).
Proof. intros (s & key & t & H & Ht). exists s, key, t. split; [apply elem_of_app; by left|done]. Qed.

Lemma phase_shows_more c p e1 e2 : phase_shows c p e1 -> phase_shows c p (e1 ++ e2).
Proof.
  assert (digest_shown c e1 -> digest_shown c (e1 ++ e2)).
  { intros (s & d & H & Hd). exists s, d. split; [apply elem_of_app; by left|done]. }
  destruct p; cbn; try done; [by apply type_shown_more|..]; intros [? ?]; split; auto using type_shown_more.
Qed.

Lemma auth_step_shows c p ev p' evs : Config.verifyHostKey c = true -> phase_shows c p evs ->
  auth_step c p ev = Some p' -> phase_shows c p' (evs ++ [ev]).
Proof.
  intros Hv Hp. pose proof (phase_shows_more c p evs [ev] Hp) as Hm. unfold auth_step.
  destruct (no_channel ev); [cbn [negb]|done].
  assert (Hlast : forall e, e = ev -> e ∈ evs ++ [ev]) by (intros e ->; apply elem_of_app; right; by left).
  destruct ev as [cl r]. destruct cl; try (intros [= <-]; exact Hm).
  all: cbn [ret_of] in r; try (by destruct p; intros [= <-]).
  - unfold after_handshake. rewrite Hv. destruct (r =? 0); intros [= <-]; [done|exact Hm].
  - destruct r as [[[|b key]|] t]; destruct p; try (intros [= <-]; exact Hm).
    destruct (type_ok c t) eqn:Et; intros [= <-]; [|exact Hm]. exists s, (b :: key), t. split; [by apply Hlast|done].
  - destruct r as [d|]; destruct p; try (intros [= <-]; exact Hm).
    destruct (digest_ok c d) eqn:Ed; intros [= <-]; [|done]. split; [exact Hm|]. exists s, d. split; [by apply Hlast|done].
  - unfold credentials. destruct p; try done. destruct (r =? 0); intros [= <-]; exact Hm.
  - unfold credentials. destruct p; try done. destruct (r =? 0); intros [= <-]; exact Hm.
Qed.

Lemma auth_run_shows c evs p : Config.verifyHostKey c = true -> auth_run c Raw evs = Some p -> phase_shows c p evs.
Proof.
  intros Hv. revert p. induction evs as [|ev evs IH] using rev_ind; intros p; [by intros [= <-]|].
  rewrite auth_run_app. destruct (auth_run c Raw evs) as [p1|]; [|done]. cbn [mbind option_bind auth_run].
  destruct (auth_step c p1 ev) as [p2|] eqn:E; [|done]. cbn [mbind option_bind]. intros [= <-].
  eapply auth_step_shows; [done|by apply IH|done].
Qed.

(** With verification on, everything before the credentials shows a good key. *)
Lemma credentials_after_key c p l1 ev l2 : Config.verifyHostKey c = true -> sends_credentials ev = true ->
  auth_run c Raw (l1 ++ ev :: l2) = Some p -> type_shown c l1 /\ digest_shown c l1.
Proof.
  intros Hv Hs. rewrite auth_run_app. destruct (auth_run c Raw l1) as [p1|] eqn:E1; [|done].
  cbn [mbind option_bind auth_run]. destruct (auth_step c p1 ev) as [p2|] eqn:E; [|done]. intros _.
  pose proof (auth_run_shows c l1 p1 Hv E1) as H. unfold auth_step in E.
  destruct (no_channel ev); [cbn [negb] in E|done]. destruct ev as [cl r]. destruct cl; try done; by destruct p1.
Qed.

(** C3: on every run of [connect], the calls come in the order [auth_run] accepts: the
    user name and the credentials go to the server only after the handshake and, when
    host-key verification is on, only after the server has shown a key of the
    configured type whose SHA-256 digest matches the configured fingerprint (what is
    not configured is not compared).  When verification is off, which is the
    default, the handshake alone decides.  Listeners are requested only after the
    server accepted the credentials, and [connect] answers [true] only after that. *)
Theorem connect_auth_order cfg q :
  sess_inv q.1 ->
  let '(ok, q') := connect cfg q in
  exists evs p, ran q evs q' /\ auth_run (sshConfig cfg) Raw evs = Some p /\ (ok = true -> p = Authed) /\
    (Config.verifyHostKey (sshConfig cfg) = true ->
     forall l1 ev l2, evs = l1 ++ ev :: l2 -> sends_credentials ev = true ->
     type_shown (sshConfig cfg) l1 /\ digest_shown (sshConfig cfg) l1).
Proof.
  intros Hi. pose proof (connect_ok cfg Raw q Hi) as H. unfold connects, wp in H.
  destruct (connect cfg q) as [ok q']. destruct H as (evs & p' & R1 & [_ A1] & H). exists evs, p'.
  split_and!; [done|done|intros ->; apply H|]. intros Hv l1 ev l2 -> Hev. exact (credentials_after_key _ _ _ _ _ Hv Hev A1).
Qed.

(** The operations that bracket all their libssh2 calls with the mutex. *)
Inductive locked_op :=
  | LVerify (s : sess) (c : SSHServerConfig) | LAuthenticate (s : sess) (cfg : SSHConfiguration)
  | LKeepaliveConfig (s : sess) (c : ConnectionConfig) | LListeners (s : sess) (cfg : SSHConfiguration)
  | LCancel | LAccept | LKeepalive | LCheck.

Definition run_locked (o : locked_op) : M (SSHSession * world Env) unit :=
  match o with
  | LVerify s c => _ <- verifyHostKey s c;; ret tt
  | LAuthenticate s cfg => _ <- authenticate s cfg;; ret tt
  | LKeepaliveConfig s c => _ <- configureKeepalive s c;; ret tt
  | LListeners s cfg => _ <- createListeners s cfg;; ret tt
  | LCancel => cancelAllListeners
  | LAccept => _ <- acceptChannel;; ret tt
  | LKeepalive => _ <- sendKeepalive;; ret tt
  | LCheck => _ <- checkConnection;; ret tt
  end.

(** C32: host-key check, authentication, keepalives, listener management and
    polling make every libssh2 call while holding the session mutex, never take
    it twice and always give it back, on every error path. *)
Theorem session_lock_discipline o q :
  let q' := snd (run_locked o q) in
  exists evs, ran q evs q' /\ lock_run false evs = Some false.
Proof.
  cbn zeta. change (wp (run_locked o) (fun _ q' => exists evs, ran q evs q' /\ lock_run false evs = Some false) q).
  assert (forall A (m : M (SSHSession * world Env) A),
    wp m (fun _ q' => exists evs, ran q evs q' /\ side evs) q ->
    wp (_ <- m;; ret tt) (fun _ q' => exists evs, ran q evs q' /\ lock_run false evs = Some false) q) as Hr.
  { intros A m H. apply wp_bind. eapply wp_conseq; [exact H|]. intros a q' (evs & R1 & S1). apply wp_ret.
    exists evs. split; [done|apply S1]. }
  destruct o; cbn [run_locked]; try apply Hr.
  - eapply wp_conseq; [apply verifyHostKey_ok|]. intros a q' (evs & p' & R1 & S1 & _). by exists evs.
  - eapply wp_conseq; [apply authenticate_ok|]. intros a q' (evs & p' & R1 & S1 & _). by exists evs.
  - eapply wp_conseq; [apply configureKeepalive_idle|]. intros a q' (_ & evs & R1 & S1 & _). by exists evs.
  - eapply wp_conseq; [apply createListeners_ok|]. intros a q' (evs & R1 & S1 & _). by exists evs.
  - eapply wp_conseq; [apply cancelAllListeners_ok|]. intros a q' (_ & evs & R1 & S1 & _).
    exists evs. split; [done|apply S1].
  - eapply wp_conseq; [apply acceptChannel_ok|]. intros a q' (_ & evs & R1 & S1 & _). by exists evs.
  - eapply wp_conseq; [apply sendKeepalive_ok|]. intros a q' (_ & _ & _ & evs & R1 & S1 & _). by exists evs.
  - eapply wp_conseq; [apply checkConnection_ok|]. intros a q' (_ & evs & R1 & S1 & _). by exists evs.
Qed.

(** [createListeners] asks the server at most 50 times per mapping, and
    leaves either one granted listener for every requested mapping, in order,
    or none. *)
Theorem listeners_all_or_none s cfg q :
  let '(ok, q') := createListeners s cfg q in
  (exists evs, ran q evs q' /\ requests evs <= 50 * zlen (desired_mappings cfg)) /\
  if ok then listeners_ q'.1 <> [] /\ Forall2 serves (desired_mappings cfg) (listeners_ q'.1)
  else listeners_ q'.1 = [].
Proof.
  pose proof (createListeners_ok s cfg q) as H. unfold within, wp in H.
  destruct (createListeners s cfg q) as [ok q']. destruct H as (evs & R1 & _ & _ & N1 & H).
  cbn [fst snd] in *. split; [by exists evs|]. destruct ok; [|by rewrite H].
  destruct H as (l & Hn & Hl & ->). done.
Qed.

Definition accepts (k : nat) : M (SSHSession * world Env) unit :=
  for_each (replicate k tt) (fun _ => _ <- acceptChannel;; ret tt).

Lemma accepts_ok k q : wp (accepts k) (fun _ q' => exists evs, ran q evs q' /\ counts q.1 (polls evs) q'.1) q.
Proof.
  unfold accepts. revert q. induction k as [|k IH]; intros q; cbn [replicate for_each].
  - apply wp_ret. exists []. destruct q. split; [apply ran_nil|apply counts_refl].
  - apply wp_bind, wp_bind. eapply wp_conseq; [apply acceptChannel_ok|]. intros r q1 (_ & e1 & R1 & _ & C1 & _).
    apply wp_ret. eapply wp_conseq; [apply IH|]. intros u q2 (e2 & R2 & C2). exists (e1 ++ e2).
    split; [by eapply ran_app|]. rewrite polls_app. by eapply counts_app.
Qed.

(** a reconnect is asked for exactly when the last three polls of any
    listener failed fatally: from a fresh connection and over any number of
    [acceptChannel] calls (with fewer than 2^31 polls), the counter is the
    length of the run of fatal polls at the end, which a channel, EAGAIN or any
    other error ends. *)
Theorem accept_failure_window k q :
  consecutiveFatalAcceptErrors_ q.1 = 0 ->
  let q' := snd (accepts k q) in
  exists evs, ran q evs q' /\ (zlen (polls evs) < 2 ^ 31 ->
    consecutiveFatalAcceptErrors_ q'.1 = fatal_suffix 0 (polls evs) /\
    (hasFatalAcceptFailure q'.1 = true <->
     exists l p1 p2 p3, polls evs = l ++ [p1; p2; p3] /\ fatal p1 = true /\ fatal p2 = true /\ fatal p3 = true)).
Proof.
  intros H0 q'. pose proof (accepts_ok k q) as H. unfold wp in H. fold q' in H.
  destruct H as (evs & R1 & C1). exists evs. split; [done|]. intros Hb. unfold counts in C1. rewrite H0 in C1.
  destruct (C1 ltac:(lia) ltac:(lia)) as (E & L & _). split; [done|].
  rewrite <- fatal_suffix_three, <- E. unfold hasFatalAcceptFailure, AcceptError.shouldReconnectAfterConsecutiveErrors.
  rewrite andb_true_iff, Z.leb_le. split; [by intros []|]. intros H3. split; [done|].
  rewrite E in H3. apply fatal_suffix_three in H3 as (l & p1 & p2 & p3 & Ep & _ & _ & F3).
  destruct L as [L|L]; [by rewrite L in Ep; destruct l|]. rewrite Ep, last_app in L by done. cbn [List.last] in L.
  rewrite F3 in L. exact L.
Qed.

(** [sendKeepalive] gives the connection up exactly on the third
    [SOCKET_SEND] failure since the counter was last reset; a refused lock or
    EAGAIN leaves the counter alone, and success but also every other error
    resets it. *)
Theorem keepalive_three_strikes q :
  0 <= keepAliveFailures_ q.1 <= 2 ->
  let '(ok, q') := sendKeepalive q in
  0 <= keepAliveFailures_ q'.1 <= 2 /\
  exists evs, ran q evs q' /\
    match keepalives evs with
    | [] => ok = bool_decide (is_Some (session_ q.1)) /\ keepAliveFailures_ q'.1 = keepAliveFailures_ q.1
    | rc :: _ => (ok, keepAliveFailures_ q'.1) = strike (keepAliveFailures_ q.1) rc
    end.
Proof.
  intros Hr. pose proof (sendKeepalive_ok q) as H. unfold wp in H. destruct (sendKeepalive q) as [ok q'].
  destruct H as (_ & _ & _ & evs & R1 & _ & _ & H). cbn [fst snd] in *. specialize (H Hr). split; [|by exists evs].
  destruct (keepalives evs) as [|rc l]; [by rewrite (proj2 H)|]. unfold strike in H.
  repeat case_match; injection H as _ ->; lia || (destruct (Z.eqb_spec (keepAliveFailures_ q.1) 2); [done|lia]).
Qed.
End Components.

(** ** Concrete runs *)

Lemma ran_fresh {Env T1 T2} (q : T1 * world Env) (q' : T2 * world Env) evs :
  w_trace q.2 = [] -> ran q evs q' -> evs = w_trace q'.2.
Proof. unfold ran. by intros -> ->. Qed.

Section Example.
#[local] Existing Instance esp32_target.

(** A server with password login whose key is pinned by its SHA-256 hash. *)
Definition example_server : SSHServerConfig :=
  default_server <| Config.host := "host"%string |> <| username := "user"%string |>
    <| password := "secret"%string |> <| Config.verifyHostKey := true |>
    <| expectedHostKeyFingerprint :=
         "SHA256:AAAAAAAAAAAAAAAAAAAAAAAAAAAAAAAAAAAAAAAAAAA"%string |>.
Definition example_cfg : SSHConfiguration :=
  mkSSHConfiguration example_server [mkTunnelConfig "0.0.0.0" 8080 "127.0.0.1" 80]
    default_connection default_debug true.

Definition example_idle : SSHSession * world script :=
  (new_session <| sessionMutex_ := true |>, World idle_script []).
Definition example_connected : SSHSession * world script := snd (connect example_cfg example_idle).

Lemma example_idle_inv : sess_inv example_idle.1.
Proof. constructor; [done| |constructor]. intros _. by split_and!. Qed.

Lemma session_keeps_sockets_witness :
  let q' := snd (run_session_all [SConnect example_cfg; SAccept; SKeepalive; SDisconnect] example_idle) in
  socketfd_ q'.1 = -1 /\ opened (w_trace q'.2) = [50] /\ closed (w_trace q'.2) = [50].
Proof.
  intros q'. assert (socketfd_ q'.1 = -1) as Ef by (by vm_compute).
  assert (opened (w_trace q'.2) = [50]) as Eo by (by vm_compute). split_and!; [done|done|].
  pose proof (session_keeps_sockets [SConnect example_cfg; SAccept; SKeepalive; SDisconnect] example_idle
    example_idle_inv) as H. cbn zeta in H. fold q' in H. destruct H as (_ & evs & R1 & H).
  assert (evs = w_trace q'.2) as Ee by exact (ran_fresh example_idle _ _ eq_refl R1). rewrite Ee, Ef, Eo in H.
  unfold held in H. cbn in H. by rewrite app_nil_r in H.
Defined.

Lemma connect_outcome_witness :
  fst (connect example_cfg example_idle) = true /\ isConnected example_connected.1 = true.
Proof.
  assert (fst (connect example_cfg example_idle) = true) as E by (by vm_compute). split; [done|].
  pose proof (connect_outcome example_cfg example_idle example_idle_inv) as H. unfold example_connected.
  destruct (connect example_cfg example_idle) as [ok q']. cbn [fst snd] in *. subst ok. apply H.
Defined.

(** The same server with another key: nothing is sent to it. *)
Definition impostor : SSHSession * world script :=
  (example_idle.1, World (idle_script <| sc_other := fun c =>
     match c with HostkeyHashSha256 _ => Some (replicate 32 xff) | c' => all_succeed c' end |>) []).

Lemma connect_auth_order_witness :
  fst (connect example_cfg impostor) = false /\
  exists evs p, ran impostor evs (snd (connect example_cfg impostor)) /\
    auth_run example_server Raw evs = Some p.
Proof.
  split; [by vm_compute|]. pose proof (connect_auth_order example_cfg impostor example_idle_inv) as H.
  destruct (connect example_cfg impostor) as [ok q']. destruct H as (evs & p & R1 & H & _ & _). by exists evs, p.
Defined.

(** A session with one listener. *)
Definition example_live : SSHSession :=
  new_session <| sessionMutex_ := true |> <| session_ := Some 9000 |> <| socketfd_ := 50 |>
    <| listeners_ := [mkListenerEntry (Some 8000) default_mapping 8080] |>.

(** Every poll finds an unknown channel. *)
Definition failing : SSHSession * world script :=
  (example_live, World (idle_script <| sc_other := fun c =>
     match c with SessionLastErrno _ => -23 | c' => all_succeed c' end |>) []).

Lemma accept_failure_window_witness :
  hasFatalAcceptFailure (snd (accepts 2 failing)).1 = false /\
  hasFatalAcceptFailure (snd (accepts 3 failing)).1 = true.
Proof.
  split; [by vm_compute|].
  assert (consecutiveFatalAcceptErrors_ failing.1 = 0) as H0 by (by vm_compute).
  pose proof (accept_failure_window 3 failing H0) as H. cbn zeta in H. destruct H as (evs & R1 & H).
  assert (evs = w_trace (snd (accepts 3 failing)).2) as E by exact (ran_fresh failing _ _ eq_refl R1).
  assert (polls (w_trace (snd (accepts 3 failing)).2) = [Some (-23); Some (-23); Some (-23)]) as Ep
    by (by vm_compute).
  rewrite E, Ep in H. apply H; [done|]. exists [], (Some (-23)), (Some (-23)), (Some (-23)).
  split_and!; reflexivity.
Defined.

Definition dead_line : SSHSession * world script :=
  (example_live <| keepAliveFailures_ := 2 |>, World (idle_script <| sc_other := fun c =>
     match c with KeepaliveSend _ => -7 | c' => all_succeed c' end |>) []).

Lemma keepalive_three_strikes_witness : fst (sendKeepalive dead_line) = false.
Proof.
  assert (0 <= keepAliveFailures_ dead_line.1 <= 2) as Hr by (by vm_compute).
  assert (keepAliveFailures_ dead_line.1 = 2) as E2 by (by vm_compute).
  pose proof (keepalive_three_strikes dead_line Hr) as H. rewrite E2 in H.
  assert (keepalives (w_trace (snd (sendKeepalive dead_line)).2) = [-7]) as Ek by (by vm_compute).
  destruct (sendKeepalive dead_line) as [ok q']. destruct H as (_ & evs & R1 & H). cbn [fst snd] in *.
  assert (evs = w_trace q'.2) as E by exact (ran_fresh dead_line _ _ eq_refl R1). rewrite E, Ek in H.
  unfold strike in H. cbn in H. by injection H.
Defined.

(** The class comment says that all libssh2 calls are serialised through
    [lock] and [unlock]; [connect] switches the session to non-blocking mode
    without the mutex, so its own trace breaks the discipline. *)
Example connect_unlocked_call :
  fst (connect example_cfg example_idle) = true /\
  lock_run false (w_trace example_connected.2) = None.
Proof. split; by vm_compute. Qed.
End Example.
