(* ===== verification/Tunnel.v ===== *)
(** * ssh_tunnel.h, ssh_tunnel.cpp: the tunnel facade

    [SSHTunnel] embeds the session, the channel manager and the transport pump,
    and adds the state machine, reconnection with back-off, the queue of accepted
    channels that wait for a slot and the queue of channels whose close had to be
    put off.  Both queues are the source's arrays with a count; the loops that
    drain them compact the array in place.  [globalSSHConfig] is a field beside
    the object.  Event handlers are opaque function pointers ([CallHandler]) that
    do not call back into the tunnel.  Log output and the instrumented builds are
    not modelled; the destructor is [disconnect] plus the deletion of the mutex. *)

From S2P Require Import Prelude Platform Policies Ring Breaker Config Net Channel Lock Transport Session.

(** ** Data *)

Inductive TunnelState := TUNNEL_DISCONNECTED | TUNNEL_CONNECTING | TUNNEL_CONNECTED | TUNNEL_ERROR.
#[export] Instance TunnelState_eq_dec : EqDecision TunnelState.
Proof. solve_decision. Defined.

Record SSHTunnelEvents := mkEvents {
  onSessionConnected : option Z;
  onSessionDisconnected : option Z;
  onChannelOpened : option Z;
  onChannelClosed : option Z;
  onError : option Z;
}.

Definition no_events : SSHTunnelEvents := mkEvents None None None None None.

Inductive Action := ActBind | ActClose.
#[export] Instance Action_eq_dec : EqDecision Action.
Proof. solve_decision. Defined.

Record PendingChannel := mkPending {
  pc_channel : option chan;
  pc_mapping : TunnelConfig;
  pc_queuedAtMs : Z;
  pc_action : Action;
}.
#[export] Instance PendingChannel_eta : Eta PendingChannel := fun p =>
  mkPending (pc_channel p) (pc_mapping p) (pc_queuedAtMs p) (pc_action p).

Definition no_pending : PendingChannel := mkPending None default_mapping 0 ActBind.

Definition MAX_PENDING : Z := 8.
Definition MAX_DEFERRED_CLOSE : Z := 4.
Definition PENDING_TIMEOUT_MS : Z := 5000.
Definition CLOSE_RETRY_TIMEOUT_MS : Z := 5000.

Record SSHTunnel (R : Type) := mkTunnel {
  session_ : SSHSession;
  channels_ : ChannelManager R;
  transport_ : TransportPump;
  state_ : TunnelState;
  lastKeepAlive_ : Z;
  lastConnectionAttempt_ : Z;
  reconnectAttempts_ : Z;
  socketHealthFailures_ : Z;
  statsMutex_ : bool;                      (* false = NULL *)
  bytesReceived_ : Z;
  bytesSent_ : Z;
  bytesDropped_ : Z;
  config_ : bool;                          (* false = NULL *)
  pendingQueue_ : list PendingChannel;
  pendingCount_ : Z;
  deferredCloseQueue_ : list PendingChannel;
  deferredCloseCount_ : Z;
  eventHandlers_ : SSHTunnelEvents;
  globalSSHConfig : SSHConfiguration;
}.
Arguments mkTunnel {R}.
Arguments session_ {R} _.
Arguments channels_ {R} _.
Arguments transport_ {R} _.
Arguments state_ {R} _.
Arguments lastKeepAlive_ {R} _.
Arguments lastConnectionAttempt_ {R} _.
Arguments reconnectAttempts_ {R} _.
Arguments socketHealthFailures_ {R} _.
Arguments statsMutex_ {R} _.
Arguments bytesReceived_ {R} _.
Arguments bytesSent_ {R} _.
Arguments bytesDropped_ {R} _.
Arguments config_ {R} _.
Arguments pendingQueue_ {R} _.
Arguments pendingCount_ {R} _.
Arguments deferredCloseQueue_ {R} _.
Arguments deferredCloseCount_ {R} _.
Arguments eventHandlers_ {R} _.
Arguments globalSSHConfig {R} _.
#[export] Instance SSHTunnel_eta R : Eta (SSHTunnel R) := fun t =>
  mkTunnel (session_ t) (channels_ t) (transport_ t) (state_ t) (lastKeepAlive_ t)
    (lastConnectionAttempt_ t) (reconnectAttempts_ t) (socketHealthFailures_ t) (statsMutex_ t)
    (bytesReceived_ t) (bytesSent_ t) (bytesDropped_ t) (config_ t) (pendingQueue_ t)
    (pendingCount_ t) (deferredCloseQueue_ t) (deferredCloseCount_ t) (eventHandlers_ t)
    (globalSSHConfig t).

Definition new_tunnel {R} (cfg : SSHConfiguration) : SSHTunnel R :=
  mkTunnel new_session new_manager new_pump TUNNEL_DISCONNECTED 0 0 0 0 false 0 0 0 false
    (replicate (Z.to_nat MAX_PENDING) no_pending) 0
    (replicate (Z.to_nat MAX_DEFERRED_CLOSE) no_pending) 0 no_events cfg.

(** The values of the enumeration, as handlers receive them. *)
Definition reason_code (r : ChannelCloseReason) : Z :=
  match r with
  | Unknown => 0 | RemoteClosed => 1 | LocalClosed => 2 | Error => 3 | CloseTimeout => 4 | Manual => 5
  end.

Definition getStateString {R} (t : SSHTunnel R) : String :=
  match state_ t with
  | TUNNEL_DISCONNECTED => "Disconnected"%string
  | TUNNEL_CONNECTING => "Connecting"%string
  | TUNNEL_CONNECTED => "Connected"%string
  | TUNNEL_ERROR => "Error"%string
  end.

Definition isConnected {R} (t : SSHTunnel R) : bool :=
  bool_decide (state_ t = TUNNEL_CONNECTED) && Session.isConnected (session_ t).

Section Operations.
Context {R : Type} {BR : ByteRing R} {Env : Type} {P : Platform Env} {T : Target}.
Abbreviation tunnel := (SSHTunnel R).
Abbreviation TM A := (M (SSHTunnel R * world Env) A).

(** ** The embedded objects *)

Definition on_session {A} (m : M (SSHSession * world Env) A) : TM A :=
  focus session_ (fun s t => t <| session_ := s |>) m.
Definition on_channels {A} (m : M (ChannelManager R * world Env) A) : TM A :=
  focus channels_ (fun c t => t <| channels_ := c |>) m.
(** The pump works on the channels and the session's mutex it was attached to. *)
Definition on_transport {A} (m : M (Pump R * world Env) A) : TM A :=
  focus (fun t => mkPump (transport_ t) (channels_ t) (sessionMutex_ (session_ t)) false)
    (fun p t => t <| transport_ := pump p |> <| channels_ := manager p |>) m.
Definition on_config {A} (m : M (SSHConfiguration * world Env) A) : TM A :=
  focus globalSSHConfig (fun c t => t <| globalSSHConfig := c |>) m.

Definition tlock (ticks : Z) : TM bool := m <- get (fun t => sessionMutex_ (session_ t));; lock m ticks.
Definition tunlock : TM unit := m <- get (fun t => sessionMutex_ (session_ t));; unlock m.

(** ** Events *)

Definition emit (handler : SSHTunnelEvents -> option Z) (ints : list Z) (texts : list string) : TM unit :=
  h <- get (fun t => handler (eventHandlers_ t));;
  match h with Some h => sys (CallHandler h ints texts None) | None => ret tt end.

Definition emitSessionConnected : TM unit := emit onSessionConnected [] [].
Definition emitSessionDisconnected : TM unit := emit onSessionDisconnected [] [].
Definition emitChannelOpened (i : Z) : TM unit := emit onChannelOpened [i] [].
Definition emitChannelClosed (i : Z) (reason : ChannelCloseReason) : TM unit :=
  emit onChannelClosed [i; reason_code reason] [].
Definition emitErrorEvent (code : Z) (detail : string) : TM unit := emit onError [code] [detail].

Definition setEventHandlers (handlers : SSHTunnelEvents) : TM unit :=
  put (fun t => t <| eventHandlers_ := handlers |>).

(** ** Statistics *)

Definition updateStats : TM unit :=
  m <- get statsMutex_;;
  if negb m then ret tt else
  ok <- sys (SemTake StatsMutex (pdMS_TO_TICKS 5));;
  when ok (
    put (fun t => t <| bytesReceived_ := getTotalBytesReceived (channels_ t) |>
      <| bytesSent_ := getTotalBytesSent (channels_ t) |>
      <| bytesDropped_ := getTotalBytesDropped (channels_ t) |>);;
    sys (SemGive StatsMutex)).

Definition init : TM bool :=
  put (fun t => t <| config_ := true |>);;
  made <- get statsMutex_;;
  ok <- (if made then ret true else
    ok <- sys (SemCreate StatsMutex);;
    put (fun t => t <| statsMutex_ := ok |>);;
    ret ok);;
  if negb ok then ret false else
  ok <- on_session Session.init;;
  if negb ok then ret false else
  conn <- get (fun t => connectionConfig (globalSSHConfig t));;
  let bufSize := if 0 <? bufferSize conn then bufferSize conn else 4096 in
  if SSH_TUNNEL_PREPEND_CAPACITY <? bufSize then ret false else
  let perDirectionSize :=
    if tunnelRingBufferSize conn <? 8192 then 8192 else tunnelRingBufferSize conn in
  ok <- on_channels (Channel.init (maxChannels conn) perDirectionSize (Config.channelTimeoutMs conn));;
  if negb ok then ret false else
  ok <- on_transport (Transport.init bufSize (Config.channelTimeoutMs conn));;
  if negb ok then ret false else
  on_transport (attach true true);;
  put (fun t => t <| state_ := TUNNEL_DISCONNECTED |> <| bytesReceived_ := 0 |>
    <| bytesSent_ := 0 |> <| bytesDropped_ := 0 |>);;
  ret true.

(** ** Accepted channels *)

Inductive BindResult := Bound | Failed | LockUnavailable.

(** [closeAcceptedChannel] on a channel that is not null. *)
Definition closeAcceptedChannel (c : chan) (lockTicks : Z) : TM bool :=
  ok <- tlock lockTicks;;
  if ok then
    _ <- sys (ChannelClose c);;
    _ <- sys (ChannelFree c);;
    tunlock;;
    ret true
  else ret false.

Definition bindAcceptedChannel (slot : Z) (c : chan) (mapping : TunnelConfig) (lockTicks : Z)
  : TM BindResult :=
  ok <- tlock lockTicks;;
  if negb ok then ret LockUnavailable else
  bound <- on_channels (bindChannel slot c mapping);;
  tunlock;;
  ret (if bound : bool then Bound else Failed).

(** ** The queues *)

Inductive queue := PendingQueue | DeferredQueue.

Definition q_array (k : queue) (t : tunnel) : list PendingChannel :=
  match k with PendingQueue => pendingQueue_ t | DeferredQueue => deferredCloseQueue_ t end.
Definition q_count (k : queue) (t : tunnel) : Z :=
  match k with PendingQueue => pendingCount_ t | DeferredQueue => deferredCloseCount_ t end.
Definition q_write (k : queue) (i : nat) (p : PendingChannel) (t : tunnel) : tunnel :=
  match k with
  | PendingQueue => t <| pendingQueue_ := <[i := p]> (pendingQueue_ t) |>
  | DeferredQueue => t <| deferredCloseQueue_ := <[i := p]> (deferredCloseQueue_ t) |>
  end.
Definition q_set_count (k : queue) (n : Z) (t : tunnel) : tunnel :=
  match k with
  | PendingQueue => t <| pendingCount_ := n |>
  | DeferredQueue => t <| deferredCloseCount_ := n |>
  end.
Definition q_read (k : queue) (i : nat) (t : tunnel) : PendingChannel :=
  default no_pending (q_array k t !! i).

(** Fill the entry at the end of the array's live part and count it. *)
Definition q_push (k : queue) (p : PendingChannel) : TM unit :=
  put (fun t => q_set_count k (q_count k t + 1) (q_write k (Z.to_nat (q_count k t)) p t)).

Definition enqueueDeferredClose (c : chan) (mapping : TunnelConfig) : TM bool :=
  closed <- closeAcceptedChannel c (pdMS_TO_TICKS 200);;
  if closed then ret true else
  n <- get deferredCloseCount_;;
  if MAX_DEFERRED_CLOSE <=? n then ret false else
  now <- millis;;
  q_push DeferredQueue (mkPending (Some c) mapping now ActClose);;
  ret true.

(** The loop over entries [i], [i+1], ...: [step] answers the entry to keep, or
    nothing when the channel is gone, which nulls it.  What is kept moves up to
    [writeIdx]. *)
Fixpoint compact (k : queue) (step : PendingChannel -> chan -> TM (option PendingChannel))
    (n i writeIdx : nat) : TM nat :=
  match n with
  | O => ret writeIdx
  | Datatypes.S n' =>
      pending <- get (q_read k i);;
      match pc_channel pending with
      | None => compact k step n' (S i) writeIdx
      | Some c =>
          r <- step pending c;;
          match r with
          | None =>
              put (fun t => q_write k i ((q_read k i t) <| pc_channel := None |>) t);;
              compact k step n' (S i) writeIdx
          | Some p' =>
              put (q_write k i p');;
              when (negb (writeIdx =? i)%nat) (put (q_write k writeIdx p'));;
              compact k step n' (S i) (S writeIdx)
          end
      end
  end.

Definition drain_queue (k : queue) (step : PendingChannel -> chan -> TM (option PendingChannel)) : TM unit :=
  n <- get (q_count k);;
  w <- compact k step (Z.to_nat n) 0 0;;
  put (q_set_count k (Z.of_nat w)).

(** Close and free now; keep the entry [p'] when the mutex is not available. *)
Definition close_or_keep (c : chan) (ticks : Z) (p' : PendingChannel) : TM (option PendingChannel) :=
  closed <- closeAcceptedChannel c ticks;;
  ret (if closed : bool then None else Some p').

(** An entry whose close is due: after the retry period it is forced with a
    shorter wait for the mutex. *)
Definition close_step (now : Z) (p : PendingChannel) (c : chan) : TM (option PendingChannel) :=
  if CLOSE_RETRY_TIMEOUT_MS <? u32_sub now (pc_queuedAtMs p) then close_or_keep c (pdMS_TO_TICKS 100) p
  else close_or_keep c (pdMS_TO_TICKS 200) p.

Definition pending_step (now : Z) (p : PendingChannel) (c : chan) : TM (option PendingChannel) :=
  if bool_decide (pc_action p = ActClose) then close_step now p c
  else if PENDING_TIMEOUT_MS <? u32_sub now (pc_queuedAtMs p) then
    close_or_keep c (pdMS_TO_TICKS 200) (p <| pc_action := ActClose |>)
  else
    slot <- on_channels allocateSlot;;
    if 0 <=? slot then
      r <- bindAcceptedChannel slot c (pc_mapping p) (pdMS_TO_TICKS 200);;
      match r with
      | Bound => emitChannelOpened slot;; ret None
      | LockUnavailable => ret (Some p)
      | Failed => close_or_keep c (pdMS_TO_TICKS 200) (p <| pc_action := ActClose |>)
      end
    else ret (Some p).

Definition expire_step (now : Z) (p : PendingChannel) (c : chan) : TM (option PendingChannel) :=
  if bool_decide (pc_action p = ActBind) && (PENDING_TIMEOUT_MS <? u32_sub now (pc_queuedAtMs p)) then
    close_or_keep c (pdMS_TO_TICKS 200) (p <| pc_action := ActClose |>)
  else ret (Some p).

Definition drainPendingQueue : TM unit := now <- millis;; drain_queue PendingQueue (pending_step now).
Definition drainDeferredCloseQueue : TM unit := now <- millis;; drain_queue DeferredQueue (close_step now).
Definition cleanExpiredPending : TM unit := now <- millis;; drain_queue PendingQueue (expire_step now).

(** Close and free entry [i] under the mutex. *)
Definition clear_entry (k : queue) (i : nat) : TM unit :=
  p <- get (q_read k i);;
  match pc_channel p with
  | None => ret tt
  | Some c =>
      _ <- sys (ChannelClose c);;
      _ <- sys (ChannelFree c);;
      put (fun t => q_write k i ((q_read k i t) <| pc_channel := None |>) t)
  end.

Definition clear_queue (k : queue) : TM bool :=
  n <- get (q_count k);;
  if n =? 0 then ret true else
  ok <- tlock (pdMS_TO_TICKS 500);;
  if negb ok then ret false else
  for_each (seq 0 (Z.to_nat n)) (clear_entry k);;
  tunlock;;
  put (q_set_count k 0);;
  ret true.

Definition clearPendingQueue : TM bool := clear_queue PendingQueue.
Definition clearDeferredCloseQueue : TM bool := clear_queue DeferredQueue.

(** [for (...) queue[i].channel = nullptr; count = 0;] *)
Definition drop_queue (k : queue) : TM unit :=
  n <- get (q_count k);;
  for_each (seq 0 (Z.to_nat n))
    (fun i => put (fun t => q_write k i ((q_read k i t) <| pc_channel := None |>) t));;
  put (q_set_count k 0).

(** ** Teardown *)

Definition slot_indices : TM (list Z) := get (fun t => seqZ 0 (maxSlots_ (channels_ t))).

Definition abandon_all (reason : ChannelCloseReason) : TM unit :=
  l <- slot_indices;;
  for_each l (fun i => on_channels (abandonSlot i reason)).

(** After the session is gone: free what is left of slots and queues. *)
Definition drop_all (reason : ChannelCloseReason) : TM unit :=
  abandon_all reason;;
  drop_queue PendingQueue;;
  drop_queue DeferredQueue.

(** One slot of the loops that release the channels: with the mutex, close it
    properly, otherwise give it up. *)
Definition release_slot (locked : bool) (reason : ChannelCloseReason -> ChannelCloseReason) (i : Z) : TM unit :=
  s <- get (fun t => getSlot i (channels_ t));;
  when (active s) (
    let r := reason (closeReason s) in
    (if locked then _ <- on_channels (finalizeClose i);; ret tt
     else on_channels (abandonSlot i r));;
    emitChannelClosed i r).

Definition disconnect : TM unit :=
  _ <- clearPendingQueue;;
  _ <- clearDeferredCloseQueue;;
  connected <- get (fun t => Session.isConnected (session_ t));;
  locked <- (if connected : bool then tlock (pdMS_TO_TICKS 2000) else ret false);;
  l <- slot_indices;;
  for_each l (release_slot locked (fun _ => Manual));;
  when locked tunlock;;
  on_session Session.disconnect;;
  drop_all Manual;;
  updateStats;;
  st <- get state_;;
  when (bool_decide (st = TUNNEL_CONNECTED)) emitSessionDisconnected;;
  put (fun t => t <| socketHealthFailures_ := 0 |> <| state_ := TUNNEL_DISCONNECTED |>).

(** [Unknown] is reported as [Error]. *)
Definition error_reason (r : ChannelCloseReason) : ChannelCloseReason :=
  match r with Unknown => Error | r => r end.

Definition enterErrorState : TM unit :=
  _ <- clearPendingQueue;;
  _ <- clearDeferredCloseQueue;;
  locked <- tlock (pdMS_TO_TICKS 500);;
  l <- slot_indices;;
  for_each l (release_slot locked error_reason);;
  when locked tunlock;;
  on_session Session.disconnect;;
  drop_all Error;;
  updateStats;;
  put (fun t => t <| state_ := TUNNEL_ERROR |> <| socketHealthFailures_ := 0 |>);;
  now <- millis;;
  put (fun t => t <| lastConnectionAttempt_ := now |>);;
  emitSessionDisconnected.

(** ** Connecting *)

Definition connectSSH : TM bool :=
  st <- get state_;;
  if bool_decide (st = TUNNEL_CONNECTED) then ret true else
  put (fun t => t <| state_ := TUNNEL_CONNECTING |>);;
  now <- millis;;
  put (fun t => t <| lastConnectionAttempt_ := now |>);;
  cfg <- get globalSSHConfig;;
  ok <- on_session (Session.connect cfg);;
  if negb ok then
    put (fun t => t <| state_ := TUNNEL_ERROR |>);;
    emitErrorEvent (-1) "SSH connection failed"%string;;
    ret false
  else
    put (fun t => t <| state_ := TUNNEL_CONNECTED |> <| reconnectAttempts_ := 0 |>
      <| socketHealthFailures_ := 0 |>);;
    now <- millis;;
    put (fun t => t <| lastKeepAlive_ := now |>);;
    emitSessionConnected;;
    ret true.

Definition requestReconnect : TM unit :=
  st <- get state_;;
  if bool_decide (st = TUNNEL_CONNECTED) || bool_decide (st = TUNNEL_CONNECTING) ||
     bool_decide (st = TUNNEL_ERROR) then ret tt else
  put (fun t => t <| reconnectAttempts_ := 0 |>);;
  now <- millis;;
  put (fun t => t <| lastConnectionAttempt_ := now |> <| state_ := TUNNEL_ERROR |>).

(** [for (i = 0; i < attempts && delay < 60000; ++i) delay *= 2], at most
    sixteen doublings of a positive delay. *)
Fixpoint double_delay (fuel : nat) (attempts delay : Z) : Z :=
  match fuel with
  | O => delay
  | Datatypes.S fuel' =>
      if (0 <? attempts) && (delay <? 60000) then double_delay fuel' (attempts - 1) (u32 (delay * 2))
      else delay
  end.

Definition backoff_delay (baseDelay attempts : Z) : Z :=
  let delay := double_delay (Z.to_nat attempts) attempts (u32 baseDelay) in
  if 60000 <? delay then 60000 else delay.

(** The attempt itself, once it is due. *)
Definition attempt_reconnect : TM unit :=
  _ <- clearPendingQueue;;
  _ <- clearDeferredCloseQueue;;
  on_session Session.disconnect;;
  drop_all Error;;
  put (fun t => t <| reconnectAttempts_ := s32 (reconnectAttempts_ t + 1) |>);;
  ok <- connectSSH;;
  when ok (put (fun t => t <| reconnectAttempts_ := 0 |>)).

Definition reconnect_when_due : TM unit :=
  now <- millis;;
  baseDelay <- get (fun t => reconnectDelayMs (connectionConfig (globalSSHConfig t)));;
  attempts <- get reconnectAttempts_;;
  last <- get lastConnectionAttempt_;;
  if u32_sub now last <? backoff_delay baseDelay attempts then ret tt else attempt_reconnect.

Definition handleReconnection : TM unit :=
  maxAttempts <- get (fun t => maxReconnectAttempts (connectionConfig (globalSSHConfig t)));;
  attempts <- get reconnectAttempts_;;
  if maxAttempts <=? attempts then
    now <- millis;;
    last <- get lastConnectionAttempt_;;
    if u32_sub now last <? 60000 then ret tt
    else put (fun t => t <| reconnectAttempts_ := 0 |>);; reconnect_when_due
  else reconnect_when_due.

(** ** New connections *)

(** Queue the channel for a later bind when there is room; answers whether. *)
Definition queue_for_bind (c : chan) (mapping : TunnelConfig) : TM bool :=
  n <- get pendingCount_;;
  if n <? MAX_PENDING then
    now <- millis;;
    q_push PendingQueue (mkPending (Some c) mapping now ActBind);;
    ret true
  else ret false.

(** An accepted channel for which [allocateSlot] found a slot; answers whether
    it was bound. *)
Definition bind_new (slot : Z) (c : chan) (mapping : TunnelConfig) : TM bool :=
  r <- bindAcceptedChannel slot c mapping (pdMS_TO_TICKS 200);;
  match r with
  | Bound => emitChannelOpened slot;; ret true
  | LockUnavailable =>
      queued <- queue_for_bind c mapping;;
      if queued : bool then ret false else
      _ <- enqueueDeferredClose c mapping;; ret false
  | Failed => _ <- enqueueDeferredClose c mapping;; ret false
  end.

(** No slot: queue the channel, or reject it. *)
Definition reject_new (c : chan) (mapping : TunnelConfig) : TM bool :=
  queued <- queue_for_bind c mapping;;
  if queued : bool then ret false else
  closed <- closeAcceptedChannel c (pdMS_TO_TICKS 500);;
  if closed : bool then ret false else
  deferred <- enqueueDeferredClose c mapping;;
  if deferred : bool then ret false else
  _ <- closeAcceptedChannel c (pdMS_TO_TICKS 1000);; ret false.

Definition handleNewConnection : TM bool :=
  accepted <- on_session acceptChannel;;
  match accepted with
  | None =>
      fatal <- get (fun t => hasFatalAcceptFailure (session_ t));;
      when fatal enterErrorState;;
      ret false
  | Some (c, mapping) =>
      now <- millis;;
      off <- get (fun t => isMappingBackedOff (remoteBindPort mapping) now (channels_ t));;
      if off : bool then
        closed <- closeAcceptedChannel c (pdMS_TO_TICKS 200);;
        if closed : bool then ret false else
        _ <- enqueueDeferredClose c mapping;; ret false
      else
        slot <- on_channels allocateSlot;;
        if 0 <=? slot then bind_new slot c mapping else reject_new c mapping
  end.

(** ** loop *)

(** [while (handleNewConnection()) {}]; every round but the last binds a
    channel to a free slot. *)
Definition accept_all : TM unit :=
  n <- get (fun t => maxSlots_ (channels_ t));;
  loop (S (Z.to_nat n)) handleNewConnection.

(** The check of the socket's health; answers whether to go on. *)
Definition check_health : TM bool :=
  ok <- on_session checkConnection;;
  if negb ok then
    put (fun t => t <| socketHealthFailures_ := s32 (socketHealthFailures_ t + 1) |>);;
    n <- get socketHealthFailures_;;
    if 3 <=? n then enterErrorState;; ret false else ret true
  else put (fun t => t <| socketHealthFailures_ := 0 |>);; ret true.

Definition keep_alive : TM bool :=
  now <- millis;;
  sec <- get (fun t => keepAliveIntervalSec (connectionConfig (globalSSHConfig t)));;
  last <- get lastKeepAlive_;;
  let keepAliveInterval := s32 (sec * 1000) in
  if (0 <? keepAliveInterval) && (u32 keepAliveInterval <=? u32_sub now last) then
    ok <- on_session sendKeepalive;;
    if negb ok then enterErrorState;; ret false
    else put (fun t => t <| lastKeepAlive_ := now |>);; ret true
  else ret true.

Definition drain_deferred : TM unit :=
  n <- get deferredCloseCount_;; when (0 <? n) drainDeferredCloseQueue.

(** From the accept loop on. *)
Definition serve : TM unit :=
  drain_deferred;;
  accept_all;;
  _ <- on_transport pumpAll;;
  t <- get transport_;;
  let '(events, _) := fst (consumeCloseEvents MAX_CLOSE_EVENTS t) in
  put (fun x => x <| transport_ := snd (consumeCloseEvents MAX_CLOSE_EVENTS t) |>);;
  for_each events (fun e => emitChannelClosed (ce_slot e) (ce_reason e));;
  degraded <- get (fun t => sessionDegraded (transport_ t));;
  if degraded : bool then
    put (fun t => t <| transport_ := clearSessionDegraded (transport_ t) |>);;
    enterErrorState
  else
    n <- get pendingCount_;;
    when (0 <? n) (cleanExpiredPending;; drainPendingQueue);;
    drain_deferred;;
    updateStats.

Definition tunnel_loop : TM unit :=
  st <- get state_;;
  match st with
  | TUNNEL_ERROR => handleReconnection
  | TUNNEL_DISCONNECTED => ret tt
  | _ =>
      up <- get (fun t => Session.isConnected (session_ t));;
      if negb up then enterErrorState else
      ok <- check_health;;
      if negb ok then ret tt else
      ok <- keep_alive;;
      if negb ok then ret tt else serve
  end.

(** ** Accessors and dynamic mappings *)

Definition getState (t : tunnel) : TunnelState := state_ t.
Definition getBoundPort (t : tunnel) : Z := boundPort_ (session_ t).
Definition getBytesReceived (t : tunnel) : Z := bytesReceived_ t.
Definition getBytesSent (t : tunnel) : Z := bytesSent_ t.
Definition getBytesDropped (t : tunnel) : Z := bytesDropped_ t.
Definition getActiveChannels (t : tunnel) : Z := activeCount_ (channels_ t).
Definition getBreakerTrips (t : tunnel) : Z := Channel.getBreakerTrips (channels_ t).
Definition hasAnyBackpressure (t : tunnel) : bool :=
  Transport.hasAnyBackpressure (mkPump (transport_ t) (channels_ t) (sessionMutex_ (session_ t)) false).

Definition addReverseTunnel (mapping : TunnelConfig) : TM bool :=
  on_config (addTunnelMapping mapping);; ret true.

(** The index of the first mapping with this remote end. *)
Fixpoint find_mapping (remoteHost : String) (remotePort : Z) (i : Z) (l : list TunnelConfig) : option Z :=
  match l with
  | [] => None
  | m :: l' =>
      if bool_decide (remoteBindHost m = remoteHost) && (remoteBindPort m =? remotePort) then Some i
      else find_mapping remoteHost remotePort (i + 1) l'
  end.

Definition removeReverseTunnel (remoteHost : String) (remotePort : Z) : TM bool :=
  mappings <- get (fun t => tunnelMappings (globalSSHConfig t));;
  match find_mapping remoteHost remotePort 0 mappings with
  | Some i => _ <- on_config (removeTunnelMapping i);; ret true
  | None => ret false
  end.

End Operations.
