(* ===== verification/TunnelOwns.v ===== *)
(** * What the tunnel owns

    The tunnel owns what its slots own, the channels waiting in its two queues
    and the session's socket ([tunnel_own]).  [keeps] is the specification of
    the tunnel's programs: started with some channels in hand they end with
    others in hand, and everything else they do moves the assets without
    misusing a channel, losing a socket or accepting a channel.  [trel] relates
    the states between two calls of the public operations. *)

From S2P Require Import Prelude Platform Handles Policies Ring Breaker Config Net Channel Lock Transport Flow Cycle Owners Session SessionFacts Tunnel.

Section State.
Context {R : Type} {BR : ByteRing R} {BL : ByteRingLaws R} {Env : Type} {P : Platform Env} {T : Target}.
Implicit Types t : SSHTunnel R.

Definition q_cap (k : queue) : Z :=
  match k with PendingQueue => MAX_PENDING | DeferredQueue => MAX_DEFERRED_CLOSE end.

(** Both queues keep their live entries in front. *)
Definition queue_wf (k : queue) t : Prop :=
  length (q_array k t) = Z.to_nat (q_cap k) /\ 0 <= q_count k t <= q_cap k.

Definition queue_chans (k : queue) t : list chan :=
  omap pc_channel (take (Z.to_nat (q_count k t)) (q_array k t)).

(** Holds at every point of the tunnel's programs. *)
Record base t : Prop := {
  b_sess : sess_inv (session_ t);
  b_mgr : mgr_inv (channels_ t);
  b_buf : 0 < bufSize_ (transport_ t) <= SSH_TUNNEL_PREPEND_CAPACITY;
  b_queue : forall k, queue_wf k t;
}.

(** Slots and socket; the queues besides. *)
Definition core_own t : assets := also (Assets [] (held (socketfd_ (session_ t)))) (own (channels_ t)).
Definition queues_own t : assets :=
  Assets (queue_chans PendingQueue t ++ queue_chans DeferredQueue t) [].
Definition tunnel_own t : assets := also (queues_own t) (core_own t).

(** What a program leaves alone that neither connects nor disconnects. *)
Record same_run t t' : Prop := {
  sr_state_ : state_ t' = state_ t;
  sr_link : same_link (session_ t) (session_ t');
  sr_max : maxSlots_ (channels_ t') = maxSlots_ (channels_ t);
}.

Definition same_queues t t' : Prop :=
  forall k, q_array k t' = q_array k t /\ q_count k t' = q_count k t.

Lemma same_run_refl t : same_run t t.
Proof. split; [done|by unfold same_link|done]. Qed.
Lemma same_run_trans t1 t2 t3 : same_run t1 t2 -> same_run t2 t3 -> same_run t1 t3.
Proof.
  intros [A1 B1 C1] [A2 B2 C2]. split; [congruence| |congruence].
  unfold same_link in *. intuition congruence.
Qed.

(** Between two public operations. *)
Definition is_idle t : Prop := a_chans (tunnel_own t) = [] /\ torn_down (session_ t).

Record tinv t : Prop := {
  ti_base : base t;
  ti_settled : state_ t <> TUNNEL_CONNECTING;
  ti_up : state_ t = TUNNEL_CONNECTED -> is_Some (Session.session_ (session_ t));
  ti_idle : state_ t <> TUNNEL_CONNECTED -> is_idle t;
}.

(** What the world knows about the tunnel's channels. *)
Definition known (C : lives) t : Prop :=
  coherent C (a_chans (tunnel_own t)) /\ (state_ t <> TUNNEL_CONNECTED -> forall c, C c = Dead).

Record trel t (evs : list event) t' : Prop := {
  tr_inv : tinv t';
  tr_socks : sock_moves (a_fds (tunnel_own t)) evs (a_fds (tunnel_own t'));
  tr_known : forall C, known C t -> fresh C evs -> known (after C evs) t';
}.

#[export] Instance trel_order : TraceOrder tinv trel.
Proof.
  split.
  - intros t Hi. split; [done| |by intros C Hk _]. unfold sock_moves. by rewrite app_nil_r.
  - intros t1 t2 t3 e1 e2 [I1 S1 K1] [I2 S2 K2]. split; [done|by eapply sock_moves_trans|].
    intros C Hk Hf. apply fresh_app in Hf as [F1 F2]. destruct (K2 _ (K1 C Hk F1) F2) as [H1 H2].
    split; [eapply coherent_ext; [intros c; apply after_app|done]|]. intros Hs c. rewrite after_app. by apply H2.
  - by intros t e t' [].
Qed.

End State.

(** ** Programs *)

(** The part of the assets in view, and what a program leaves alone. *)
Record view (R : Type) := View {
  v_own : SSHTunnel R -> assets;
  v_same : SSHTunnel R -> SSHTunnel R -> Prop;
  v_order :: PreOrder v_same;
}.
Arguments View {R} _ _ _.
Arguments v_own {R} _ _.
Arguments v_same {R} _ _ _.

Section Runs.
Context {R : Type} {BR : ByteRing R} {BL : ByteRingLaws R} {Env : Type} {P : Platform Env} {T : Target}.
Implicit Types t : SSHTunnel R.
Implicit Types q : SSHTunnel R * world Env.
Abbreviation TM A := (M (SSHTunnel R * world Env) A).

Context (V : view R).

Record gmoves (k : assets) t (evs : list event) (k' : assets) t' : Prop := {
  gm_base : base t';
  gm_same : v_same V t t';
  gm_moves : moves (also k (v_own V t)) evs (also k' (v_own V t'));
}.

(** From [q], with [k] in hand: [m] leaves [k' a] in hand when it answers [a]. *)
Definition runs {A} (k : assets) (k' : A -> assets) (m : TM A) q : Prop :=
  base q.1 -> wp m (fun a q' => exists evs, ran q evs q' /\ gmoves k q.1 evs (k' a) q'.1) q.

Lemma runs_ret {A} k k' (a : A) q : aequiv k (k' a) -> runs k k' (ret a) q.
Proof.
  intros E Hb. apply wp_ret. exists []. destruct q as [t w]. split; [apply ran_nil|].
  split; [done|reflexivity|]. cbn [fst]. rewrite E. apply moves_refl.
Qed.

(** Sequencing, where the second part knows what the first left alone. *)
Lemma runs_bind_from {A B} k1 (k2 : A -> assets) (k3 : B -> assets) (m : TM A) (f : A -> TM B) q :
  runs k1 k2 m q -> (forall a q', v_same V q.1 q'.1 -> runs (k2 a) k3 (f a) q') -> runs k1 k3 (bind m f) q.
Proof.
  intros Hm Hf Hb. specialize (Hm Hb). unfold wp, bind in *. destruct (m q) as [a q1]. cbn [fst snd] in *.
  destruct Hm as (e1 & R1 & [B1 S1 M1]). specialize (Hf a q1 S1 B1). unfold wp in Hf.
  destruct (f a q1) as [b q2]. destruct Hf as (e2 & R2 & [B2 S2 M2]). exists (e1 ++ e2).
  split; [by eapply ran_app|]. split; [done|by etrans|by eapply moves_trans].
Qed.

Lemma runs_bind {A B} k1 (k2 : A -> assets) (k3 : B -> assets) (m : TM A) (f : A -> TM B) q :
  runs k1 k2 m q -> (forall a q', runs (k2 a) k3 (f a) q') -> runs k1 k3 (bind m f) q.
Proof. intros Hm Hf. eapply runs_bind_from; [exact Hm|]. intros a q' _. apply Hf. Qed.

(** The answer of the first part does not matter. *)
Lemma runs_then {A B} k1 k2 (k3 : B -> assets) (m : TM A) (f : A -> TM B) q :
  runs k1 (fun _ => k2) m q -> (forall a q', runs k2 k3 (f a) q') -> runs k1 k3 (bind m f) q.
Proof. apply runs_bind. Qed.

Lemma runs_get {A B} k (k' : B -> assets) (g : SSHTunnel R -> A) (f : A -> TM B) q :
  runs k k' (f (g q.1)) q -> runs k k' (bind (get g) f) q.
Proof. intros H Hb. by apply wp_bind, wp_get, H. Qed.

Lemma runs_when k (b : bool) (m : TM unit) q :
  (b = true -> runs k (fun _ => k) m q) -> runs k (fun _ => k) (when b m) q.
Proof. destruct b; intros H; [by apply H|by apply runs_ret]. Qed.

Lemma runs_for_each_from {A} k (l : list A) (body : A -> TM unit) q :
  (forall x q', x ∈ l -> v_same V q.1 q'.1 -> runs k (fun _ => k) (body x) q') ->
  runs k (fun _ => k) (for_each l body) q.
Proof.
  revert q. induction l as [|x l IH]; intros q Hb; [by apply runs_ret|].
  cbn [for_each]. eapply runs_bind_from; [apply Hb; [left|reflexivity]|]. intros u q1 H1.
  apply IH. intros y q' Hy H2. apply Hb; [by right|by etrans].
Qed.

Lemma runs_for_each {A} k (l : list A) (body : A -> TM unit) q :
  (forall x q', runs k (fun _ => k) (body x) q') -> runs k (fun _ => k) (for_each l body) q.
Proof. intros Hb. apply runs_for_each_from. intros x q' _ _. apply Hb. Qed.

(** An assignment to a field that is not looked at. *)
Lemma runs_put k (f : SSHTunnel R -> SSHTunnel R) q :
  (base q.1 -> base (f q.1)) -> v_same V q.1 (f q.1) -> v_own V (f q.1) = v_own V q.1 -> runs k (fun _ => k) (put f) q.
Proof.
  intros H1 H2 H3 Hb. apply wp_put. exists []. destruct q. split; [apply ran_nil|]. split; [by apply H1|done|].
  cbn [fst] in *. rewrite H3. apply moves_refl.
Qed.

(** A call that concerns neither channels nor sockets. *)
Lemma runs_sys k c q : (forall r, calm (Event c r) = true /\ ev_opened (Event c r) = [] /\ ev_closed (Event c r) = []) ->
  runs k (fun _ => k) (sys c) q.
Proof.
  intros Hc Hb. destruct q as [t w]. apply wp_sys_pair. intros r e _. destruct (Hc r) as (H1 & H2 & H3).
  exists [Event c r]. split; [ran_done|]. split; [done|reflexivity|].
  apply moves_silent; [by constructor|unfold opened|unfold closed]; cbn [mbind list_bind]; by rewrite ?H2, ?H3.
Qed.

Lemma runs_tlock k ticks q : runs k (fun _ => k) (tlock ticks) q.
Proof.
  unfold tlock. apply runs_get. unfold lock. destruct (negb _); [by apply runs_ret|].
  by apply (runs_sys k (SemTake SessionMutex _)).
Qed.
Lemma runs_tunlock k q : runs k (fun _ => k) tunlock q.
Proof. unfold tunlock. apply runs_get, runs_when. intros _. by apply (runs_sys k (SemGive SessionMutex)). Qed.
Lemma runs_emit k h ints texts q : runs k (fun _ => k) (emit h ints texts) q.
Proof.
  unfold emit. apply runs_get. destruct (h _) as [f|]; [|by apply runs_ret].
  by apply (runs_sys k (CallHandler f ints texts None)).
Qed.
Lemma runs_millis k q : runs k (fun _ => k) millis q.
Proof. by apply (runs_sys k Millis). Qed.

Lemma also_also j x a : also (also j x) a = also j (also x a).
Proof. unfold also. cbn. by rewrite !app_assoc. Qed.

Lemma also_hand c a : a_chans (also (hand c) a) ≡ₚ c :: a_chans a.
Proof. apply Permutation_app_comm. Qed.

(** Using and freeing a channel in hand. *)
Lemma runs_use c cl q : (forall r, uses c (Event cl r) = true /\ ev_opened (Event cl r) = [] /\ ev_closed (Event cl r) = []) ->
  runs (hand c) (fun _ => hand c) (sys cl) q.
Proof.
  intros Hc Hb. destruct q as [t w]. apply wp_sys_pair. intros r e _. destruct (Hc r) as (H1 & H2 & H3).
  exists [Event cl r]. split; [ran_done|]. split; [done|reflexivity|]. split.
  - rewrite !also_hand. by apply chan_moves_use; constructor.
  - unfold sock_moves, opened, closed. cbn [mbind list_bind]. by rewrite H2, H3, app_nil_r.
  - by apply (uses_accepted c); constructor.
Qed.

Lemma runs_close c q : runs (hand c) (fun _ => hand c) (sys (ChannelClose c)) q.
Proof.
  apply (runs_use c (ChannelClose c)). intros r. split_and!; [|done|done]. apply bool_decide_eq_true. by right.
Qed.

Lemma runs_free c q : runs (hand c) (fun _ => nothing) (sys (ChannelFree c)) q.
Proof.
  intros Hb. destruct q as [t w]. apply wp_sys_pair. intros r e _.
  exists [Event (ChannelFree c) r]. split; [ran_done|]. split; [done|reflexivity|]. split.
  - rewrite also_hand. cbn [also a_chans nothing]. rewrite app_nil_r. apply chan_moves_free.
  - unfold sock_moves. cbn. by rewrite !app_nil_r.
  - done.
Qed.

(** What is in hand stays in hand. *)
Lemma runs_frame {A} k k' (m : TM A) j q : runs k k' m q -> runs (also j k) (fun a => also j (k' a)) m q.
Proof.
  intros H Hb. specialize (H Hb). eapply wp_conseq; [exact H|]. intros a q' (evs & R1 & [B1 S1 M1]).
  exists evs. split; [done|]. split; [done|done|]. rewrite !also_also. by apply moves_frame.
Qed.

Lemma runs_closeAccepted c ticks q :
  runs (hand c) (fun ok : bool => if ok then nothing else hand c) (closeAcceptedChannel c ticks) q.
Proof.
  unfold closeAcceptedChannel. eapply runs_then; [apply runs_tlock|]. intros [] q1; [|by apply runs_ret].
  eapply runs_then; [apply runs_close|]. intros _ q2.
  eapply runs_then; [apply runs_free|]. intros _ q3.
  eapply runs_then; [apply runs_tunlock|]. intros _ q4. by apply runs_ret.
Qed.

End Runs.

(** Programs on the slots leave the queues alone; programs on the queues see
    both. *)
Section Views.
Context {R : Type} {BR : ByteRing R} {BL : ByteRingLaws R} {Env : Type} {P : Platform Env} {T : Target}.
Implicit Types t : SSHTunnel R.

Definition same_core t t' : Prop := same_run t t' /\ same_queues t t'.

#[export] Instance same_run_preorder : PreOrder (same_run (R := R)).
Proof. split; [intros t; apply same_run_refl|intros t1 t2 t3; apply same_run_trans]. Qed.

#[export] Instance same_core_preorder : PreOrder (same_core).
Proof.
  split; [intros t; split; [reflexivity|by intros ?]|].
  intros t1 t2 t3 [S1 Q1] [S2 Q2]. split; [by etrans|]. intros k. destruct (Q1 k), (Q2 k). split; congruence.
Qed.

End Views.

Abbreviation keeps := (runs (View core_own same_core _)).
Abbreviation owns := (runs (View tunnel_own same_run _)).

Section Channels.
Context {R : Type} {BR : ByteRing R} {BL : ByteRingLaws R} {Env : Type} {P : Platform Env} {T : Target}.
Implicit Types t : SSHTunnel R.
Implicit Types q : SSHTunnel R * world Env.
Abbreviation TM A := (M (SSHTunnel R * world Env) A).

Lemma also_swap a b x : aequiv (also a (also b x)) (also b (also a x)).
Proof.
  split; cbn; rewrite <- !app_assoc; apply Permutation_app_head, Permutation_app_comm.
Qed.

(** A program of the manager. *)
Lemma keeps_channels {A} k k' (m : M (ChannelManager R * world Env) A) q :
  (mgr_inv (channels_ q.1) ->
   wp m (fun a (x : ChannelManager R * world Env) => exists evs, ran (channels_ q.1, q.2) evs x /\
     steps_to k (channels_ q.1) evs (k' a) x.1) (channels_ q.1, q.2)) ->
  keeps k k' (on_channels m) q.
Proof.
  intros Hm Hb. destruct q as [t w]. unfold on_channels. apply wp_focus_pair. cbn [fst snd] in *.
  eapply wp_conseq; [apply Hm, Hb|]. intros a x (evs & R1 & [S1 S2 S3]). exists evs. split; [exact R1|].
  cbn [fst]. split.
  - destruct Hb as [H1 H2 H3 H4]. split; [done|done|done|]. intros []; [apply (H4 PendingQueue)|apply (H4 DeferredQueue)].
  - split; [split; [done|by unfold same_link|done]|by intros []].
  - unfold core_own. cbn. rewrite !(also_swap _ (Assets [] (held _))). by apply moves_frame.
Qed.

Lemma keeps_allocate q : keeps nothing (fun _ => nothing) (on_channels allocateSlot) q.
Proof.
  apply keeps_channels. intros Hi. eapply wp_conseq; [by apply allocateSlot_owns|].
  intros r x (evs & R1 & S1 & _). by exists evs.
Qed.

(** ** Closing, binding *)

Lemma keeps_bindAccepted slot c mapping ticks q :
  keeps (hand c) (fun r => match r with Bound => nothing | _ => hand c end)
    (bindAcceptedChannel slot c mapping ticks) q.
Proof.
  unfold bindAcceptedChannel. eapply runs_then; [apply runs_tlock|]. intros [] q1; cbn [negb]; [|by apply runs_ret].
  eapply (runs_bind _ _ (fun ok : bool => if ok then nothing else hand c)).
  { apply keeps_channels. intros Hi. eapply wp_conseq; [by apply bindChannel_owns|].
    intros ok x (evs & R1 & S1 & _). by exists evs. }
  intros ok q2. eapply runs_then; [apply runs_tunlock|]. intros _ q3. apply runs_ret. by destruct ok.
Qed.

(** ** The steps of the queues *)

Definition kept (c : chan) (r : option PendingChannel) : assets :=
  match r with None => nothing | Some _ => hand c end.

Lemma keeps_close_or_keep c ticks p q : keeps (hand c) (kept c) (close_or_keep c ticks p) q.
Proof.
  unfold close_or_keep. eapply runs_bind; [apply runs_closeAccepted|]. intros ok q1.
  apply runs_ret. by destruct ok.
Qed.

Lemma keeps_close_step now p c q : keeps (hand c) (kept c) (close_step now p c) q.
Proof. unfold close_step. destruct (_ <? _); apply keeps_close_or_keep. Qed.

Lemma keeps_pending_step now p c q : keeps (hand c) (kept c) (pending_step now p c) q.
Proof.
  unfold pending_step. destruct (bool_decide _); [apply keeps_close_step|].
  destruct (_ <? _); [apply keeps_close_or_keep|].
  eapply (runs_bind _ _ (fun _ => hand c)); [apply (runs_frame _ nothing (fun _ => nothing) _ (hand c)), keeps_allocate|].
  intros slot q1. destruct (0 <=? slot); [|by apply runs_ret].
  eapply runs_bind; [apply keeps_bindAccepted|]. intros [] q2; cbn [kept].
  - eapply runs_then; [apply runs_emit|]. intros _ q3. by apply runs_ret.
  - apply keeps_close_or_keep.
  - by apply runs_ret.
Qed.

Lemma keeps_expire_step now p c q : keeps (hand c) (kept c) (expire_step now p c) q.
Proof. unfold expire_step. destruct (_ && _); [apply keeps_close_or_keep|by apply runs_ret]. Qed.

End Channels.

(** ** The queues *)
Section Queues.
Context {R : Type} {BR : ByteRing R} {BL : ByteRingLaws R} {Env : Type} {P : Platform Env} {T : Target}.
Implicit Types t : SSHTunnel R.
Implicit Types q : SSHTunnel R * world Env.
Abbreviation TM A := (M (SSHTunnel R * world Env) A).

Definition other (k : queue) : queue := match k with PendingQueue => DeferredQueue | DeferredQueue => PendingQueue end.

(** Everything but queue [k]. *)
Definition rest_own (k : queue) t : assets := also (Assets (queue_chans (other k) t) []) (core_own t).
Definition chans (l : list PendingChannel) : assets := Assets (omap pc_channel l) [].

Lemma tunnel_own_split k t :
  aequiv (tunnel_own t) (also (chans (take (Z.to_nat (q_count k t)) (q_array k t))) (rest_own k t)).
Proof.
  unfold tunnel_own, rest_own, queues_own, chans, queue_chans.
  destruct k; split; cbn; rewrite ?app_nil_r; try done; rewrite <- app_assoc; [|done].
  apply Permutation_app_head, Permutation_app_comm.
Qed.

(** Writing to a queue leaves everything else alone. *)
Lemma q_write_fields k i p t :
  session_ (q_write k i p t) = session_ t /\ channels_ (q_write k i p t) = channels_ t /\
  transport_ (q_write k i p t) = transport_ t /\ state_ (q_write k i p t) = state_ t /\
  q_array k (q_write k i p t) = <[i := p]> (q_array k t) /\
  q_array (other k) (q_write k i p t) = q_array (other k) t /\
  (forall k', q_count k' (q_write k i p t) = q_count k' t).
Proof. by destruct k; split_and!; try done; intros []. Qed.

Lemma q_set_count_fields k n t :
  session_ (q_set_count k n t) = session_ t /\ channels_ (q_set_count k n t) = channels_ t /\
  transport_ (q_set_count k n t) = transport_ t /\ state_ (q_set_count k n t) = state_ t /\
  (forall k', q_array k' (q_set_count k n t) = q_array k' t) /\
  q_count k (q_set_count k n t) = n /\ q_count (other k) (q_set_count k n t) = q_count (other k) t.
Proof. by destruct k; split_and!; try done; intros []. Qed.

Lemma queue_cases (Q : queue -> Prop) k : Q k -> Q (other k) -> forall k', Q k'.
Proof. by destruct k; intros H1 H2 []. Qed.

Lemma base_write k i p t : base t -> base (q_write k i p t).
Proof.
  intros [H1 H2 H3 H4]. destruct (q_write_fields k i p t) as (E1 & E2 & E3 & _ & E5 & E6 & E7).
  split; rewrite ?E1, ?E2, ?E3; try done. apply (queue_cases _ k); unfold queue_wf; rewrite E7, ?E5, ?E6.
  - rewrite length_insert. apply H4.
  - apply H4.
Qed.

Lemma base_set_count k n t : 0 <= n <= q_cap k -> base t -> base (q_set_count k n t).
Proof.
  intros Hn [H1 H2 H3 H4]. destruct (q_set_count_fields k n t) as (E1 & E2 & E3 & _ & E5 & E6 & E7).
  split; rewrite ?E1, ?E2, ?E3; try done. apply (queue_cases _ k); unfold queue_wf; rewrite E5, ?E6, ?E7; [|apply H4].
  split; [apply H4|done].
Qed.

Lemma same_run_fields t t' :
  session_ t' = session_ t -> channels_ t' = channels_ t -> state_ t' = state_ t -> same_run t t'.
Proof. intros E1 E2 E3. split; rewrite ?E1, ?E2; try done. Qed.

Lemma rest_own_eq k t t' : session_ t' = session_ t -> channels_ t' = channels_ t ->
  q_array (other k) t' = q_array (other k) t -> q_count (other k) t' = q_count (other k) t ->
  rest_own k t' = rest_own k t.
Proof. intros E1 E2 E3 E4. unfold rest_own, core_own, queue_chans. by rewrite E1, E2, E3, E4. Qed.

(** Programs on the slots are programs on everything. *)
Lemma owns_keeps {A} k k' (m : TM A) q : keeps k k' m q -> owns k k' m q.
Proof.
  intros H Hb. eapply wp_conseq; [by apply H|]. intros a q' (evs & R1 & [B1 [S1 Q1] M1]). exists evs.
  split; [done|]. split; [done|done|]. cbn [v_own] in *. unfold tunnel_own.
  assert (queues_own q'.1 = queues_own q.1) as ->.
  { unfold queues_own, queue_chans. destruct (Q1 PendingQueue) as [-> ->], (Q1 DeferredQueue) as [-> ->]. done. }
  rewrite !(also_swap _ (queues_own q.1)). by apply moves_frame.
Qed.

(** Putting the channel in hand into a queue with room. *)
Lemma owns_push k p c q : pc_channel p = Some c -> q_count k q.1 < q_cap k ->
  owns (hand c) (fun _ => nothing) (q_push k p) q.
Proof.
  intros Hp Hlt Hb. destruct q as [t w]. cbn [fst] in *. apply wp_put_pair. exists [].
  split; [apply ran_nil|]. destruct (b_queue _ Hb k) as [Hl Hn].
  set (t1 := q_write k (Z.to_nat (q_count k t)) p t).
  destruct (q_write_fields k (Z.to_nat (q_count k t)) p t) as (E1 & E2 & E3 & E4 & E5 & E6 & E7). fold t1 in E1, E2, E3, E4, E5, E6, E7.
  destruct (q_set_count_fields k (q_count k t + 1) t1) as (F1 & F2 & F3 & F4 & F5 & F6 & F7).
  split.
  - apply base_set_count; [cbn [fst]; lia|by apply base_write].
  - cbn. apply same_run_fields; congruence.
  - cbn [v_own fst]. rewrite !(tunnel_own_split k), F5, F6, E5.
    rewrite (rest_own_eq k t (q_set_count k (q_count k t + 1) t1)) by (rewrite ?F1, ?F2, ?F5, ?F7, ?E7; congruence).
    replace (Z.to_nat (q_count k t + 1)) with (S (Z.to_nat (q_count k t))) by lia.
    rewrite (take_S_r _ _ p) by (apply list_lookup_insert_eq; lia).
    rewrite take_insert_ge by lia.
    assert (forall l a, aequiv (also nothing (also (chans (l ++ [p])) a)) (also (hand c) (also (chans l) a))) as ->.
    { intros l a. rewrite also_nothing. split; cbn; [|by rewrite !app_nil_r]. rewrite omap_app. cbn. rewrite Hp.
      by rewrite app_assoc. }
    apply moves_refl.
Qed.

(** ** Draining a queue *)

(** A step of the slots, with the rest of the assets besides. *)
Lemma moves_step k x h h' t evs t1 : same_queues t t1 ->
  moves (also h (core_own t)) evs (also h' (core_own t1)) ->
  moves (also h (also x (rest_own k t))) evs (also h' (also x (rest_own k t1))).
Proof.
  intros Hq H. unfold rest_own.
  assert (queue_chans (other k) t1 = queue_chans (other k) t) as ->
    by (unfold queue_chans; by destruct (Hq (other k)) as [-> ->]).
  set (o := Assets (queue_chans (other k) t) []).
  assert (forall j a, aequiv (also j (also x (also o a))) (also (also o x) (also j a))) as E.
  { intros j a. split; cbn; solve_Permutation. }
  rewrite !E. by apply moves_frame.
Qed.

(** Nothing but the entries of queue [k] differs. *)
Record only_entries (k : queue) t t' : Prop := {
  oe_session : session_ t' = session_ t;
  oe_channels : channels_ t' = channels_ t;
  oe_state : state_ t' = state_ t;
  oe_base : base t -> base t';
  oe_rest : rest_own k t' = rest_own k t;
  oe_count : q_count k t' = q_count k t;
}.

Lemma only_entries_write k i p t : only_entries k t (q_write k i p t).
Proof.
  destruct (q_write_fields k i p t) as (E1 & E2 & E3 & E4 & E5 & E6 & E7). split; try done.
  - apply base_write.
  - apply rest_own_eq; done.
Qed.

Lemma only_entries_trans k t1 t2 t3 : only_entries k t1 t2 -> only_entries k t2 t3 -> only_entries k t1 t3.
Proof. intros [A B C D E F] [A' B' C' D' E' F']. split; [congruence..|auto|congruence|congruence]. Qed.

(** Steps that either let the channel go or keep an entry for it. *)
Definition entry_step (step : PendingChannel -> chan -> TM (option PendingChannel)) : Prop :=
  (forall p c q, pc_channel p = Some c -> keeps (hand c) (kept c) (step p c) q) /\
  (forall p c q, wp (step p c) (fun r _ => forall p', r = Some p' -> pc_channel p' = pc_channel p) q).

Definition compacted (k : queue) (n i w : nat) q (w' : nat) q' : Prop :=
  exists evs, ran q evs q' /\ base q'.1 /\ same_run q.1 q'.1 /\ (w' <= i + n)%nat /\
    q_count k q'.1 = q_count k q.1 /\
    moves (also (chans (take w (q_array k q.1) ++ take n (drop i (q_array k q.1)))) (rest_own k q.1)) evs
      (also (chans (take w' (q_array k q'.1))) (rest_own k q'.1)).

(** One entry handled: the state [q2] before the rest of the loop. *)
Lemma compacted_step k n i w q w1 q2 w' q' e1 :
  ran q e1 q2 -> same_run q.1 q2.1 -> q_count k q2.1 = q_count k q.1 ->
  moves (also (chans (take w (q_array k q.1) ++ take (S n) (drop i (q_array k q.1)))) (rest_own k q.1)) e1
    (also (chans (take w1 (q_array k q2.1) ++ take n (drop (S i) (q_array k q2.1)))) (rest_own k q2.1)) ->
  compacted k n (S i) w1 q2 w' q' -> compacted k (S n) i w q w' q'.
Proof.
  intros R1 S1 C1 M1 (evs & R2 & B2 & S2 & L2 & C2 & M2). exists (e1 ++ evs).
  split; [by eapply ran_app|]. split; [done|]. split; [by etrans|]. split; [lia|]. split; [congruence|].
  by eapply moves_trans.
Qed.

Lemma chans_take l p c : pc_channel p = Some c -> forall l2,
  aequiv (chans (l ++ p :: l2)) (also (hand c) (chans (l ++ l2))).
Proof.
  intros Hp l2. split; cbn; [|done]. rewrite !omap_app. cbn. rewrite Hp. solve_Permutation.
Qed.

Lemma q_array_write k i p t : q_array k (q_write k i p t) = <[i := p]> (q_array k t).
Proof. apply q_write_fields. Qed.

(** An empty entry is skipped. *)
Lemma compacted_empty k n i w q p0 w' q' :
  q_array k q.1 !! i = Some p0 -> pc_channel p0 = None ->
  compacted k n (S i) w q w' q' -> compacted k (S n) i w q w' q'.
Proof.
  intros Hp0 Ec H. destruct q as [t w0].
  eapply (compacted_step _ _ _ _ _ w _ _ _ []); [apply ran_nil|reflexivity|done| |exact H].
  cbn [fst] in *. rewrite (drop_S _ _ _ Hp0). cbn [take].
  assert (forall l1 l2, aequiv (chans (l1 ++ p0 :: l2)) (chans (l1 ++ l2))) as ->.
  { intros l1 l2. split; cbn; [|done]. rewrite !omap_app. cbn. by rewrite Ec. }
  apply moves_refl.
Qed.

(** The step let the channel go or kept it ([e1], [q1]); then entries were written
    ([q2]) that hold [l] in its place. *)
Lemma compacted_entry k n i w q e1 q1 p0 c r l q2 w1 w' q' :
  q_array k q.1 !! i = Some p0 -> pc_channel p0 = Some c ->
  ran q e1 q1 -> gmoves (View core_own same_core _) (hand c) q.1 e1 (kept c r) q1.1 ->
  ran q1 [] q2 -> only_entries k q1.1 q2.1 ->
  take w1 (q_array k q2.1) = take w (q_array k q1.1) ++ l -> aequiv (chans l) (kept c r) ->
  drop (S i) (q_array k q2.1) = drop (S i) (q_array k q1.1) ->
  compacted k n (S i) w1 q2 w' q' -> compacted k (S n) i w q w' q'.
Proof.
  intros Hp0 Ec R1 [B1 [S1 Q1] M1] R2 [O1 O2 O3 O4 O5 O6] Ht Hk Hdr H. destruct (Q1 k) as [A1 C1].
  eapply (compacted_step _ _ _ _ _ w1 _ _ _ (e1 ++ [])); [by eapply ran_app| |congruence| |exact H].
  { etrans; [exact S1|]. by apply same_run_fields. }
  cbn [v_own] in M1. rewrite app_nil_r, Ht, Hdr, A1, (drop_S _ _ _ Hp0), O5. cbn [take].
  rewrite (chans_take _ p0 c Ec), also_also.
  assert (forall l1 l2, aequiv (chans ((l1 ++ l) ++ l2)) (also (kept c r) (chans (l1 ++ l2)))) as ->.
  { intros l1 l2. rewrite <- Hk. split; cbn; [|done]. rewrite !omap_app. solve_Permutation. }
  rewrite also_also. by apply moves_step.
Qed.

(** The writes that keep an entry, at its own place and at the place of the next
    kept entry. *)
Lemma kept_written k i w p t : (w <= i)%nat -> (i < length (q_array k t))%nat ->
  let t' := if (w =? i)%nat then q_write k i p t else q_write k w p (q_write k i p t) in
  only_entries k t t' /\ take (S w) (q_array k t') = take w (q_array k t) ++ [p] /\
  drop (S i) (q_array k t') = drop (S i) (q_array k t).
Proof.
  intros Hw Hi t'. unfold t'. destruct (Nat.eqb_spec w i) as [->|Hne]; rewrite !q_array_write.
  - split; [apply only_entries_write|]. split; [|by rewrite drop_insert_lt by lia].
    rewrite (take_S_r _ _ p) by by rewrite list_lookup_insert_eq.
    by rewrite take_insert_ge by lia.
  - split; [eapply only_entries_trans; apply only_entries_write|].
    split; [|by rewrite !drop_insert_lt by lia].
    rewrite (take_S_r _ _ p) by (rewrite list_lookup_insert_eq; [done|rewrite length_insert; lia]).
    by rewrite take_insert_ge, take_insert_ge by lia.
Qed.

Lemma compact_owns k step : entry_step step -> forall n i w q,
  base q.1 -> (w <= i)%nat -> (i + n <= Z.to_nat (q_count k q.1))%nat ->
  wp (compact k step n i w) (fun w' q' => compacted k n i w q w' q') q.
Proof.
  intros [Hs Hc] n. induction n as [|n IH]; intros i w q Hb Hw Hn; cbn [compact].
  { apply wp_ret. exists []. destruct q as [t w0]. split; [apply ran_nil|]. split; [done|]. split; [reflexivity|].
    split; [lia|]. split; [done|]. cbn [fst]. rewrite app_nil_r. apply moves_refl. }
  destruct (b_queue _ Hb k) as [Hl Hcap].
  destruct (lookup_lt_is_Some_2 (q_array k q.1) i) as [p0 Hp0]; [rewrite Hl; lia|].
  apply wp_bind, wp_get. assert (q_read k i q.1 = p0) as -> by (unfold q_read; by rewrite Hp0).
  destruct (pc_channel p0) as [c|] eqn:Ec.
  2: { eapply wp_conseq; [apply IH; [done|lia|lia]|]. intros w' q'. by apply (compacted_empty _ _ _ _ _ p0). }
  apply wp_bind. pose proof (Hs p0 c q Ec Hb) as H1. pose proof (Hc p0 c q) as H2. unfold wp at 1. unfold wp in H1, H2.
  destruct (step p0 c q) as [r [t1 v1]]. cbn [fst snd] in *. destruct H1 as (e1 & R1 & G1).
  pose proof G1 as [_ [_ Q1] _]. destruct (Q1 k) as [A1 C1].
  assert ((i < length (q_array k t1))%nat) as Hlen by (rewrite A1, Hl; lia).
  (* the rest of the loop, after the writes *)
  assert (forall t2 l w1, only_entries k t1 t2 -> (w1 <= S i)%nat ->
    take w1 (q_array k t2) = take w (q_array k t1) ++ l -> aequiv (chans l) (kept c r) ->
    drop (S i) (q_array k t2) = drop (S i) (q_array k t1) ->
    wp (compact k step n (S i) w1) (fun w' q' => compacted k (S n) i w q w' q') (t2, v1)) as Hrest.
  { intros t2 l w1 O Hw1 Ht Hk Hd. eapply wp_conseq; [apply IH; [by apply O, G1|done|]|].
    - cbn [fst]. rewrite (oe_count _ _ _ O), C1. lia.
    - intros w' q'. eapply (compacted_entry k n i w q e1 (t1, v1) p0 c r l); try done. apply ran_nil. }
  destruct r as [p'|]; cbn [kept] in Hrest.
  - specialize (H2 p' eq_refl). rewrite Ec in H2.
    destruct (kept_written k i w p' t1 Hw Hlen) as (O & Ht & Hd).
    assert (aequiv (chans [p']) (hand c)) as Hk by (split; cbn; by rewrite ?H2).
    apply wp_bind, wp_put_pair, wp_bind, wp_when; intros Hne; destruct (w =? i)%nat; try done.
    + apply wp_put_pair. apply (Hrest _ [p']); [done|lia|done..].
    + apply (Hrest _ [p']); [done|lia|done..].
  - apply wp_bind, wp_put_pair. apply (Hrest _ []); [apply only_entries_write|lia| |done|].
    + rewrite q_array_write, app_nil_r. by rewrite take_insert_ge by lia.
    + rewrite q_array_write. by rewrite drop_insert_lt by lia.
Qed.

Lemma owns_drain k step q : entry_step step -> owns nothing (fun _ => nothing) (drain_queue k step) q.
Proof.
  intros Hs Hb. destruct q as [t w0]. unfold drain_queue. apply wp_bind, wp_get, wp_bind. cbn [fst] in *.
  destruct (b_queue _ Hb k) as [Hl Hcap].
  eapply wp_conseq; [apply (compact_owns k step Hs _ 0 0); [done|lia|cbn [fst]; lia]|].
  intros w [t1 w1] (evs & R1 & B1 & S1 & L1 & C1 & M1). apply wp_put_pair. cbn [fst] in *.
  exists evs. split; [exact R1|]. destruct (q_set_count_fields k (Z.of_nat w) t1) as (F1 & F2 & F3 & F4 & F5 & F6 & F7).
  split.
  - apply base_set_count; [lia|done].
  - cbn. etrans; [exact S1|]. by apply same_run_fields.
  - cbn [v_own]. rewrite !also_nothing, !(tunnel_own_split k), F5, F6, Nat2Z.id.
    rewrite (rest_own_eq k t1 (q_set_count k (Z.of_nat w) t1)) by (rewrite ?F1, ?F2, ?F5, ?F7; done).
    by rewrite take_0, app_nil_l, drop_0 in M1.
Qed.

(** ** The three drains *)

Lemma wp_any {A} (m : TM A) q : wp m (fun _ _ => True) q.
Proof. done. Qed.

(** Skip a part whose answer and effect do not matter. *)
Ltac wp_skip := apply wp_bind; eapply wp_conseq; [apply wp_any|]; intros ? ? _.

Lemma close_or_keep_chan c ticks p q :
  wp (close_or_keep c ticks p) (fun r _ => forall p', r = Some p' -> p' = p) q.
Proof. unfold close_or_keep. wp_skip. apply wp_ret. intros p'. destruct a; [done|]. by intros [= <-]. Qed.

Lemma entry_close_or_keep c ticks p p0 q : pc_channel p = pc_channel p0 ->
  wp (close_or_keep c ticks p) (fun r _ => forall p', r = Some p' -> pc_channel p' = pc_channel p0) q.
Proof.
  intros E. eapply wp_conseq; [apply close_or_keep_chan|]. intros r q' H p' Hr. by rewrite (H p' Hr).
Qed.

Lemma close_step_entry now : entry_step (close_step now).
Proof.
  split; [intros p c q _; apply keeps_close_step|]. intros p c q. unfold close_step.
  destruct (_ <? _); by apply entry_close_or_keep.
Qed.

Lemma expire_step_entry now : entry_step (expire_step now).
Proof.
  split; [intros p c q _; apply keeps_expire_step|]. intros p c q. unfold expire_step.
  destruct (_ && _); [by apply entry_close_or_keep|]. apply wp_ret. by intros p' [= <-].
Qed.

Lemma pending_step_entry now : entry_step (pending_step now).
Proof.
  split; [intros p c q _; apply keeps_pending_step|]. intros p c q. unfold pending_step.
  destruct (bool_decide _); [apply close_step_entry|]. destruct (_ <? _); [by apply entry_close_or_keep|].
  wp_skip. destruct (0 <=? a); [|apply wp_ret; by intros p' [= <-]]. wp_skip. destruct a0.
  - wp_skip. by apply wp_ret.
  - by apply entry_close_or_keep.
  - apply wp_ret. by intros p' [= <-].
Qed.

Lemma owns_drainPending q : owns nothing (fun _ => nothing) drainPendingQueue q.
Proof. eapply runs_then; [apply runs_millis|]. intros now q1. apply owns_drain, pending_step_entry. Qed.
Lemma owns_drainDeferred q : owns nothing (fun _ => nothing) drainDeferredCloseQueue q.
Proof. eapply runs_then; [apply runs_millis|]. intros now q1. apply owns_drain, close_step_entry. Qed.
Lemma owns_cleanExpired q : owns nothing (fun _ => nothing) cleanExpiredPending q.
Proof. eapply runs_then; [apply runs_millis|]. intros now q1. apply owns_drain, expire_step_entry. Qed.

(** ** Emptying a queue *)

Lemma moves_close_free c x r1 r2 :
  moves (also (hand c) x) [Event (ChannelClose c) r1; Event (ChannelFree c) r2] x.
Proof.
  split; [|by unfold sock_moves; cbn; rewrite !app_nil_r|done]. rewrite also_hand.
  eapply (chan_moves_trans _ (c :: a_chans x) _ [_] [_]); [|apply chan_moves_free].
  apply chan_moves_use. constructor; [|constructor]. apply bool_decide_eq_true. by right.
Qed.

Lemma chans_null l i p c : l !! i = Some p -> pc_channel p = Some c ->
  aequiv (chans l) (also (hand c) (chans (<[i := p <| pc_channel := None |>]> l))).
Proof.
  intros Hl Hp. split; [|done]. rewrite also_hand. cbn.
  pose proof (omap_swap pc_channel l i p (p <| pc_channel := None |>) Hl) as H. cbn in H. by rewrite Hp in H.
Qed.

(** The counts stay while the entries are cleared. *)
Definition same_counts t t' : Prop := same_run t t' /\ forall k, q_count k t' = q_count k t.
#[local] Instance same_counts_preorder : PreOrder same_counts.
Proof.
  split; [intros t; by split|]. intros t1 t2 t3 [S1 C1] [S2 C2]. split; [by etrans|]. intros k. by rewrite C2.
Qed.
Abbreviation clears := (runs (View tunnel_own same_counts _)).

Lemma only_entries_counts k t t' : only_entries k t t' ->
  (forall k', q_count k' t' = q_count k' t) -> same_counts t t'.
Proof. intros [E1 E2 E3 _ _ _] Hc. split; [by apply same_run_fields|done]. Qed.

Lemma clears_entry k i q : (i < Z.to_nat (q_count k q.1))%nat ->
  clears nothing (fun _ => nothing) (clear_entry k i) q.
Proof.
  intros Hi Hb. destruct q as [t w]. cbn [fst] in *. destruct (b_queue _ Hb k) as [Hl Hcap].
  destruct (lookup_lt_is_Some_2 (q_array k t) i) as [p Hp]; [lia|].
  assert (q_read k i t = p) as Er by (unfold q_read; by rewrite Hp).
  unfold clear_entry. apply wp_bind, wp_get. cbn [fst]. rewrite Er. destruct (pc_channel p) as [c|] eqn:Ec.
  2:{ apply wp_ret. exists []. split; [apply ran_nil|]. split; [done|reflexivity|apply moves_refl]. }
  apply wp_bind, (wp_sys_pair (ChannelClose c)). intros r1 e1 _. apply wp_bind, (wp_sys_pair (ChannelFree c)). intros r2 e2 _.
  apply wp_put_pair. eexists. split; [ran_done|]. cbn [fst]. rewrite Er.
  pose proof (only_entries_write k i (p <| pc_channel := None |>) t) as Ho.
  destruct (q_write_fields k i (p <| pc_channel := None |>) t) as (_ & _ & _ & _ & Ea & _ & Ecnt).
  split; [by apply Ho|by eapply only_entries_counts|]. cbn [v_own].
  rewrite !also_nothing, !(tunnel_own_split k), (oe_rest _ _ _ Ho), Ecnt, Ea, take_insert_lt by done.
  rewrite (chans_null _ i p c) by (done || by rewrite lookup_take_lt).
  rewrite also_also. apply moves_close_free.
Qed.

(** Forgetting what is left in a queue. *)
Lemma owns_forget k q : owns nothing (fun _ => nothing) (put (q_set_count k 0)) q.
Proof.
  intros Hb. destruct q as [t w]. apply wp_put_pair. exists []. split; [apply ran_nil|]. cbn [fst] in *.
  destruct (q_set_count_fields k 0 t) as (F1 & F2 & F3 & F4 & F5 & F6 & F7).
  split; [|by apply same_run_fields|].
  { apply base_set_count; [by destruct k|done]. }
  cbn [v_own]. rewrite !also_nothing, !(tunnel_own_split k), F5, F6.
  rewrite (rest_own_eq k t (q_set_count k 0 t)) by (rewrite ?F1, ?F2, ?F5, ?F7; done).
  cbn [Z.to_nat take]. split; [|unfold sock_moves; cbn; by rewrite !app_nil_r|done].
  apply chan_moves_drop. cbn. rewrite app_nil_r. by apply submseteq_inserts_r.
Qed.

Lemma owns_counts {A} k k' (m : TM A) q : clears k k' m q -> owns k k' m q.
Proof.
  intros H Hb. eapply wp_conseq; [by apply H|]. intros a q' (evs & R1 & [B1 [S1 _] M1]). exists evs. by split_and!.
Qed.

(** Going on knowing that the counts are what they were. *)
Lemma owns_after {A B} k k' (m : TM A) (f : A -> TM B) q : clears k (fun _ => k) m q ->
  (forall a q', (forall j, q_count j q'.1 = q_count j q.1) -> owns k k' (f a) q') -> owns k k' (bind m f) q.
Proof.
  intros H Hf Hb. specialize (H Hb). unfold wp, bind in *. destruct (m q) as [a q1]. cbn [fst snd] in *.
  destruct H as (e1 & R1 & [B1 [S1 C1] M1]). specialize (Hf a q1 C1 B1). unfold wp in Hf.
  destruct (f a q1) as [b q2]. destruct Hf as (e2 & R2 & [B2 S2 M2]). exists (e1 ++ e2).
  split; [by eapply ran_app|]. split; [done|by etrans|by eapply moves_trans].
Qed.

Lemma clears_entries k n q : (n <= Z.to_nat (q_count k q.1))%nat ->
  clears nothing (fun _ => nothing) (for_each (seq 0 n) (clear_entry k)) q.
Proof.
  intros Hn. apply runs_for_each_from. intros i q' Hi%elem_of_seq [_ Hc]. apply clears_entry. rewrite Hc. lia.
Qed.

Lemma owns_clear_queue k q : owns nothing (fun _ => nothing) (clear_queue k) q.
Proof.
  unfold clear_queue. apply runs_get. destruct (_ =? 0); [by apply runs_ret|].
  eapply owns_after; [apply runs_tlock|]. intros ok q1 Hc. destruct ok; cbn [negb]; [|by apply runs_ret].
  eapply runs_then; [apply owns_counts, clears_entries; by rewrite Hc|]. intros _ q2.
  eapply runs_then; [apply runs_tunlock|]. intros _ q3.
  eapply runs_then; [apply owns_forget|]. intros _ q4. by apply runs_ret.
Qed.

(** Nulling an entry lets go of what it held. *)
Lemma owns_null k i q :
  owns nothing (fun _ => nothing) (put (fun t => q_write k i ((q_read k i t) <| pc_channel := None |>) t)) q.
Proof.
  intros Hb. destruct q as [t w]. apply wp_put_pair. exists []. split; [apply ran_nil|]. cbn [fst] in *.
  set (p := (q_read k i t) <| pc_channel := None |>).
  pose proof (only_entries_write k i p t) as Ho.
  destruct (q_write_fields k i p t) as (_ & _ & _ & _ & Ea & _ & Ecnt).
  split; [by apply Ho|by destruct Ho; apply same_run_fields|].
  cbn [v_own]. rewrite !also_nothing, !(tunnel_own_split k), (oe_rest _ _ _ Ho), Ecnt, Ea.
  split; [|unfold sock_moves; cbn; by rewrite !app_nil_r|done]. apply chan_moves_drop. cbn.
  apply submseteq_skips_l. set (n := Z.to_nat (q_count k t)). rewrite take_insert. destruct (decide (i < n)%nat) as [Hlt|]; [|done].
  destruct (q_array k t !! i) as [p0|] eqn:Hp.
  - pose proof (omap_swap pc_channel (take n (q_array k t)) i p0 p) as H. rewrite lookup_take_lt in H by done.
    specialize (H Hp). cbn in H. rewrite H. by apply submseteq_inserts_l.
  - rewrite list_insert_ge; [done|]. rewrite length_take. apply lookup_ge_None in Hp. lia.
Qed.

Lemma owns_drop_queue k q : owns nothing (fun _ => nothing) (drop_queue k) q.
Proof.
  unfold drop_queue. apply runs_get. eapply runs_then; [apply runs_for_each; intros i q'; apply owns_null|].
  intros _ q1. apply owns_forget.
Qed.

(** ** Slots given up *)

Lemma keeps_abandon i reason q : keeps nothing (fun _ => nothing) (on_channels (abandonSlot i reason)) q.
Proof.
  apply keeps_channels. intros Hi. eapply wp_conseq; [by apply abandonSlot_owns|].
  intros u x (evs & R1 & S1 & _). by exists evs.
Qed.

Lemma keeps_finalize i q : out_of_range i (channels_ q.1) = false ->
  keeps nothing (fun _ => nothing) (on_channels (finalizeClose i)) q.
Proof. intros Hr. apply keeps_channels. intros Hi. by apply finalizeClose_owns. Qed.

Lemma keeps_release locked reason i q : out_of_range i (channels_ q.1) = false ->
  keeps nothing (fun _ => nothing) (release_slot locked reason i) q.
Proof.
  intros Hr. unfold release_slot. apply runs_get, runs_when. intros _. eapply runs_then; [|intros _ q1; apply runs_emit].
  destruct locked; [|apply keeps_abandon]. eapply runs_then; [by apply keeps_finalize|]. intros _ q1. by apply runs_ret.
Qed.

Lemma keeps_release_all locked reason q :
  keeps nothing (fun _ => nothing)
    (for_each (seqZ 0 (maxSlots_ (channels_ q.1))) (release_slot locked reason)) q.
Proof.
  apply runs_for_each_from. intros i q' Hi [[_ _ Hm] _]. apply keeps_release. unfold out_of_range.
  rewrite Hm. apply elem_of_seqZ in Hi. rewrite (proj2 (Z.ltb_ge i 0)), (proj2 (Z.leb_gt _ i)) by lia. done.
Qed.

Lemma keeps_abandon_all reason q : keeps nothing (fun _ => nothing) (abandon_all reason) q.
Proof.
  unfold abandon_all, slot_indices. apply runs_get, runs_for_each. intros i q'. apply keeps_abandon.
Qed.

Lemma owns_drop_all reason q : owns nothing (fun _ => nothing) (drop_all reason) q.
Proof.
  unfold drop_all. eapply runs_then; [apply owns_keeps, keeps_abandon_all|]. intros _ q1.
  eapply runs_then; [apply owns_drop_queue|]. intros _ q2. apply owns_drop_queue.
Qed.

Lemma owns_updateStats q : owns nothing (fun _ => nothing) updateStats q.
Proof.
  unfold updateStats. apply runs_get. destruct (negb _); [by apply runs_ret|].
  eapply runs_then; [by apply (runs_sys _ nothing (SemTake StatsMutex _))|]. intros ok q1. apply runs_when. intros _.
  eapply runs_then; [|intros _ q2; by apply (runs_sys _ nothing (SemGive StatsMutex))].
  by apply runs_put; [intros []|..]; try done; split.
Qed.

(** ** A channel just accepted *)

(** A channel in hand may be forgotten. *)
Lemma runs_shed {A} k k' (m : TM A) q : (forall a, k' a = nothing \/ exists c, k' a = hand c) ->
  owns k k' m q -> owns k (fun _ => nothing) m q.
Proof.
  intros Hk H Hb. eapply wp_conseq; [by apply H|]. intros a q' (evs & R1 & [B1 S1 M1]). exists evs.
  split; [done|]. split; [done|done|]. destruct (Hk a) as [E|[c E]]; rewrite E in M1; [done|].
  rewrite <- (app_nil_r evs). eapply moves_trans; [exact M1|]. split; [|unfold sock_moves; by rewrite app_nil_r|done].
  apply chan_moves_drop. cbn. apply submseteq_skips_l. apply submseteq_nil_l.
Qed.

Definition gone_if (c : chan) (b : bool) : assets := if b then nothing else hand c.

Lemma gone_if_cases c b : gone_if c b = nothing \/ exists c', gone_if c b = hand c'.
Proof. destruct b; [by left|right; by exists c]. Qed.

Lemma owns_push_if k c p q : pc_channel p = Some c -> q_count k q.1 < q_cap k ->
  owns (hand c) (gone_if c) (q_push k p;; ret true) q.
Proof. intros Hp Hq. eapply runs_then; [by apply owns_push|]. intros _ q1. by apply runs_ret. Qed.

Lemma owns_enqueue c mapping q : owns (hand c) (gone_if c) (enqueueDeferredClose c mapping) q.
Proof.
  unfold enqueueDeferredClose. eapply runs_bind; [apply runs_closeAccepted|]. intros [] q1; [by apply runs_ret|].
  apply runs_get. destruct (Z.leb_spec MAX_DEFERRED_CLOSE (deferredCloseCount_ q1.1)); [by apply runs_ret|].
  eapply owns_after; [apply runs_millis|]. intros now q2 Hc.
  apply (owns_push_if DeferredQueue); [done|by rewrite Hc].
Qed.

Lemma owns_queue_for_bind c mapping q : owns (hand c) (gone_if c) (queue_for_bind c mapping) q.
Proof.
  unfold queue_for_bind. apply runs_get. destruct (Z.ltb_spec (pendingCount_ q.1) MAX_PENDING); [|by apply runs_ret].
  eapply owns_after; [apply runs_millis|]. intros now q2 Hc.
  apply (owns_push_if PendingQueue); [done|by rewrite Hc].
Qed.

Lemma owns_defer c mapping (q : SSHTunnel R * world Env) :
  owns (hand c) (fun _ => nothing) (_ <- enqueueDeferredClose c mapping;; ret false) q.
Proof.
  eapply runs_then; [eapply runs_shed; [apply gone_if_cases|apply owns_enqueue]|]. intros _ q1. by apply runs_ret.
Qed.

Lemma owns_bind_new slot c mapping q : owns (hand c) (fun _ => nothing) (bind_new slot c mapping) q.
Proof.
  unfold bind_new. eapply runs_bind; [apply owns_keeps, keeps_bindAccepted|]. intros [] q1.
  - eapply runs_then; [apply runs_emit|]. intros _ q2. by apply runs_ret.
  - apply owns_defer.
  - eapply runs_bind; [apply owns_queue_for_bind|]. intros [] q2; [by apply runs_ret|apply owns_defer].
Qed.

Lemma owns_reject_new c mapping q : owns (hand c) (fun _ => nothing) (reject_new c mapping) q.
Proof.
  unfold reject_new. eapply runs_bind; [apply owns_queue_for_bind|]. intros [] q1; [by apply runs_ret|].
  eapply runs_bind; [apply runs_closeAccepted|]. intros [] q2; [by apply runs_ret|].
  eapply runs_bind; [apply owns_enqueue|]. intros [] q3; [by apply runs_ret|].
  eapply runs_then; [eapply runs_shed; [apply gone_if_cases|apply runs_closeAccepted]|]. intros _ q4. by apply runs_ret.
Qed.

(** What [handleNewConnection] does with it. *)
Definition place_new (c : chan) (mapping : TunnelConfig) : TM bool :=
  now <- millis;;
  off <- get (fun t => isMappingBackedOff (remoteBindPort mapping) now (channels_ t));;
  if off : bool then
    closed <- closeAcceptedChannel c (pdMS_TO_TICKS 200);;
    if closed : bool then ret false else
    _ <- enqueueDeferredClose c mapping;; ret false
  else
    slot <- on_channels allocateSlot;;
    if 0 <=? slot then bind_new slot c mapping else reject_new c mapping.

Lemma owns_place_new c mapping q : owns (hand c) (fun _ => nothing) (place_new c mapping) q.
Proof.
  unfold place_new. eapply runs_then; [apply runs_millis|]. intros now q1. apply runs_get.
  destruct (isMappingBackedOff _ _ _).
  - eapply runs_bind; [apply runs_closeAccepted|]. intros [] q2; [by apply runs_ret|apply owns_defer].
  - eapply (runs_bind _ _ (fun _ => hand c));
      [apply (runs_frame _ nothing (fun _ => nothing) _ (hand c)), owns_keeps, keeps_allocate|].
    intros slot q2. destruct (0 <=? slot); [apply owns_bind_new|apply owns_reject_new].
Qed.

End Queues.
