(* ===== verification/TunnelFacts.v ===== *)
(** * The tunnel between two calls

    Every public operation keeps [tinv] and performs [trel] (TunnelOwns.v):
    programs that only move the assets do so directly ([owns_trel]); a teardown
    ([does_down]) leaves the tunnel at rest, with nothing left alive; connecting
    starts from a tunnel at rest. *)

From S2P Require Import Prelude Platform Handles Policies Ring Breaker Config Net Channel Lock Transport Flow Cycle Owners Session SessionFacts Tunnel TunnelOwns.

(** ** Relations between states *)
Section Relations.
Context {R : Type} {BR : ByteRing R} {BL : ByteRingLaws R} {Env : Type} {P : Platform Env} {T : Target}.
Implicit Types t : SSHTunnel R.
Implicit Types q : SSHTunnel R * world Env.
Implicit Types C : lives.
Abbreviation TM A := (M (SSHTunnel R * world Env) A).

Definition all_dead C : Prop := forall c, C c = Dead.

(** Without a connection. *)
Definition at_rest t : Prop := base t /\ is_idle t.

(** From one tunnel without a connection to another. *)
Record irel t (evs : list event) t' : Prop := {
  ir_rest : at_rest t';
  ir_socks : sock_moves (a_fds (tunnel_own t)) evs (a_fds (tunnel_own t'));
  ir_dead : forall C, all_dead C -> all_dead (after C evs);
}.

#[export] Instance irel_order : TraceOrder at_rest irel.
Proof.
  split.
  - intros t Ht. split; [done| |done]. unfold sock_moves. by rewrite app_nil_r.
  - intros t1 t2 t3 e1 e2 [I1 S1 K1] [I2 S2 K2]. split; [done|by eapply sock_moves_trans|].
    intros C Hc c. rewrite after_app. by apply K2, K1.
  - by intros t e t' [].
Qed.

Lemma coherent_nil C : all_dead C -> coherent C [].
Proof. intros H. split; [constructor|by intros c Hc%elem_of_nil|by left]. Qed.

Lemma idle_own t : is_idle t -> a_chans (tunnel_own t) = [].
Proof. by intros []. Qed.

Lemma tinv_rest t : tinv t -> state_ t <> TUNNEL_CONNECTED -> at_rest t.
Proof. intros [H1 _ _ H4] Hs. split; auto. Qed.

Lemma rest_tinv t : at_rest t -> state_ t <> TUNNEL_CONNECTED -> state_ t <> TUNNEL_CONNECTING -> tinv t.
Proof. intros [H1 H2] H3 H4. by split. Qed.

Lemma known_dead C t : known C t -> state_ t <> TUNNEL_CONNECTED -> all_dead C.
Proof. intros [_ H] Hs. exact (H Hs). Qed.

Lemma rest_known C t : at_rest t -> all_dead C -> known C t.
Proof. intros [_ Hi] Hd. split; [|by intros _]. rewrite (idle_own t Hi). by apply coherent_nil. Qed.

(** A run between tunnels without a connection is a run of the tunnel. *)
Lemma irel_trel t evs t' : state_ t <> TUNNEL_CONNECTED -> irel t evs t' ->
  state_ t' <> TUNNEL_CONNECTED -> state_ t' <> TUNNEL_CONNECTING -> trel t evs t'.
Proof.
  intros Hs [H1 H2 H3] Hs1 Hs2. split; [by apply rest_tinv|done|].
  intros C Hk _. apply rest_known, H3; [done|by eapply known_dead].
Qed.

(** Moving assets from rest. *)
Lemma gmoves_irel t evs t' : at_rest t ->
  gmoves (View tunnel_own same_run _) nothing t evs nothing t' -> irel t evs t'.
Proof.
  intros [Hb [Hn Ht]] [B1 [S1 S2 S3] M1]. cbn in M1. rewrite !also_nothing in M1. split.
  - split; [done|]. split.
    + by apply (moves_dead (fun _ => Dead) evs _ _ M1 Hn).
    + destruct Ht as (T1 & T2 & T3). destruct S2 as (L1 & L2 & L3 & L4 & L5). unfold torn_down. by rewrite L2, L3, L4.
  - apply M1.
  - intros C Hd. exact (proj1 (moves_dead C evs _ _ M1 Hn Hd)).
Qed.

(** A connected tunnel that stays so. *)
Lemma linked_trel t evs t' : tinv t -> state_ t = TUNNEL_CONNECTED -> base t' -> same_run t t' ->
  chan_moves (a_chans (tunnel_own t)) evs (a_chans (tunnel_own t')) ->
  sock_moves (a_fds (tunnel_own t)) evs (a_fds (tunnel_own t')) -> trel t evs t'.
Proof.
  intros Hi Hs Hb [S1 S2 S3] Hc Hf. split; [|done|].
  - split; [done|by rewrite S1; apply Hi| |by rewrite S1].
    intros _. destruct S2 as [-> _]. by apply (ti_up t Hi).
  - intros C [Hk _] Hfr. split; [|by rewrite S1].
    specialize (Hc C [] ltac:(by rewrite app_nil_r) Hfr). by rewrite app_nil_r in Hc.
Qed.

Lemma gmoves_trel t evs t' : tinv t ->
  gmoves (View tunnel_own same_run _) nothing t evs nothing t' -> trel t evs t'.
Proof.
  intros Hi G. destruct (decide (state_ t = TUNNEL_CONNECTED)) as [Hs|Hs].
  - destruct G as [B1 S1 M1]. cbn in M1. rewrite !also_nothing in M1. by apply linked_trel; [..|apply M1|apply M1].
  - pose proof (gm_same _ _ _ _ _ _ G) as [S1 _ _]. apply irel_trel; rewrite ?S1; [done| |done|apply Hi].
    apply gmoves_irel; [by apply tinv_rest|done].
Qed.

(** What a program that only moves assets leaves alone. *)
Definition unmoved t t' : Prop :=
  state_ t' = state_ t /\ Session.session_ (session_ t') = Session.session_ (session_ t).

Lemma owns_irel {A} (m : TM A) q : at_rest q.1 -> owns nothing (fun _ => nothing) m q ->
  does irel (fun _ t => unmoved q.1 t) m q.
Proof.
  intros Hr H. eapply wp_conseq; [apply H, Hr|]. intros a q' (evs & R1 & G). exists evs.
  split; [done|]. split; [by apply gmoves_irel|]. destruct G as [_ [E1 [E2 _] _] _]. by split.
Qed.

Lemma owns_trel {A} (m : TM A) q : tinv q.1 -> owns nothing (fun _ => nothing) m q ->
  does trel (fun _ t => unmoved q.1 t) m q.
Proof.
  intros Hi H. eapply wp_conseq; [apply H, Hi|]. intros a q' (evs & R1 & G). exists evs.
  split; [done|]. split; [by apply gmoves_trel|]. destruct G as [_ [E1 [E2 _] _] _]. by split.
Qed.

Lemma owns_does {A} (m : TM A) q : tinv q.1 -> owns nothing (fun _ => nothing) m q -> does trel anything m q.
Proof. intros Hi H. by eapply does_any, owns_trel. Qed.

End Relations.

(** ** Giving up what is left *)
Section Drops.
Context {R : Type} {BR : ByteRing R} {BL : ByteRingLaws R} {Env : Type} {P : Platform Env} {T : Target}.
Implicit Types t : SSHTunnel R.
Implicit Types q : SSHTunnel R * world Env.
Abbreviation TM A := (M (SSHTunnel R * world Env) A).

(** Slots and queue entries are given up without a call to libssh2. *)
Record drops t (evs : list event) t' : Prop := {
  dr_base : base t';
  dr_run : same_run t t';
  dr_calm : Forall (fun ev => calm ev = true) evs;
  dr_socks : sock_moves (a_fds (tunnel_own t)) evs (a_fds (tunnel_own t'));
  dr_slots : forall j, 0 <= j -> active (getSlot j (channels_ t)) = false ->
    active (getSlot j (channels_ t')) = false;
  dr_counts : forall k, q_count k t = 0 -> q_count k t' = 0;
}.

#[export] Instance drops_order : TraceOrder base drops.
Proof.
  split.
  - intros t Ht. split; [done|reflexivity|constructor| |done|done]. unfold sock_moves. by rewrite app_nil_r.
  - intros t1 t2 t3 e1 e2 [A1 A2 A3 A4 A5 A6] [B1 B2 B3 B4 B5 B6].
    split; [done|by etrans|by apply Forall_app|by eapply sock_moves_trans|auto|auto].
  - by intros t e t' [].
Qed.

Lemma base_channels t m : base t -> mgr_inv m -> base (t <| channels_ := m |>).
Proof.
  intros [H1 H2 H3 H4] Hm. split; [done..|]. intros []; [apply (H4 PendingQueue)|apply (H4 DeferredQueue)].
Qed.

Lemma own_channels t m evs : moves (own (channels_ t)) evs (own m) ->
  moves (tunnel_own t) evs (tunnel_own (t <| channels_ := m |>)).
Proof. intros H. by apply (moves_frame (queues_own t)), (moves_frame (Assets [] _)). Qed.

Lemma drops_abandon i reason q : base q.1 ->
  does drops (fun _ t => out_of_range i (channels_ q.1) = false -> active (getSlot i (channels_ t)) = false)
    (on_channels (abandonSlot i reason)) q.
Proof.
  intros Hb. destruct q as [t w]. unfold does, on_channels. apply wp_focus_pair.
  eapply wp_conseq; [apply abandonSlot_owns, Hb|]. intros u [m w1] (evs & R1 & [S1 S2 S3] & H1 & H2 & H3).
  cbn [fst snd] in *. rewrite !also_nothing in S3. exists evs. split; [exact R1|]. split; [|exact H2].
  split; [by apply base_channels|by split|done|apply (own_channels t m evs S3)|exact H3|by intros []].
Qed.

Lemma drops_abandon_list reason l q : base q.1 ->
  does drops (fun _ t => forall i, i ∈ l -> out_of_range i (channels_ q.1) = false ->
      active (getSlot i (channels_ t)) = false)
    (for_each l (fun i => on_channels (abandonSlot i reason))) q.
Proof.
  revert q. induction l as [|i l IH]; intros q Hb; cbn [for_each].
  { apply does_ret; [done|]. by intros i Hi%elem_of_nil. }
  eapply does_bind; [apply does_keep, drops_abandon, Hb|]. intros u q1 Hb1 [Hi [e1 D1]].
  eapply does_conseq; [apply does_keep, (IH q1 Hb1)|done|]. intros _ t2 [Hl [e2 D2]] j Hj Hr.
  assert (out_of_range j (channels_ q1.1) = false) as Hr1
    by (rewrite <- Hr; apply range_eq, (sr_max _ _ (dr_run _ _ _ D1))).
  apply elem_of_cons in Hj as [->|Hj]; [|by apply Hl].
  apply (dr_slots _ _ _ D2); [|by apply Hi]. apply out_of_range_nonneg in Hr. lia.
Qed.

Lemma drops_put (f : SSHTunnel R -> SSHTunnel R) (Q : unit -> SSHTunnel R -> Prop) q :
  base q.1 -> base (f q.1) -> session_ (f q.1) = session_ q.1 -> channels_ (f q.1) = channels_ q.1 ->
  state_ (f q.1) = state_ q.1 -> (forall k, q_count k q.1 = 0 -> q_count k (f q.1) = 0) -> Q tt (f q.1) ->
  does drops Q (put f) q.
Proof.
  intros Hb Hb' E1 E2 E3 Hc HQ. apply does_put; [|done]. split; [done|by apply same_run_fields|constructor| |by rewrite E2|done].
  unfold sock_moves, tunnel_own, core_own. cbn. by rewrite E1, E2, app_nil_r.
Qed.

Lemma drops_queue k q : base q.1 -> does drops (fun _ t => q_count k t = 0) (drop_queue k) q.
Proof.
  intros Hb. unfold drop_queue. apply does_get. eapply (does_bind anything).
  - apply does_for_each; [|done]. intros i q1 _ Hb1.
    destruct (q_write_fields k i ((q_read k i q1.1) <| pc_channel := None |>) q1.1) as (F1 & F2 & F3 & F4 & _ & _ & F7).
    apply drops_put; [done|by apply base_write|done..| |done]. intros k' <-. apply F7.
  - intros _ q1 Hb1 _. destruct (q_set_count_fields k 0 q1.1) as (F1 & F2 & F3 & F4 & _ & F6 & F7).
    apply drops_put; [done|apply base_set_count; [by destruct k|done]|done..| |done].
    apply (queue_cases (fun k0 => q_count k0 q1.1 = 0 -> q_count k0 (q_set_count k 0 q1.1) = 0) k); [done|by rewrite F7].
Qed.

(** When every slot is free, no channel and no socket is held by one. *)
Lemma own_empty (m : ChannelManager R) : mgr_inv m ->
  (forall i, out_of_range i m = false -> active (getSlot i m) = false) -> own m = nothing.
Proof.
  intros Hi Ha. unfold own, nothing. pose proof (mgr_inv_len m Hi) as Hlen.
  assert (Forall (fun s => active s = false) (slot_list m)) as H.
  { apply Forall_lookup. intros n s Hs. pose proof (lookup_lt_Some _ _ _ Hs).
    assert (out_of_range (Z.of_nat n) m = false) as Hr
      by (unfold out_of_range; rewrite Hlen; apply orb_false_iff; split; [apply Z.ltb_ge|apply Z.leb_gt]; lia).
    specialize (Ha _ Hr). unfold getSlot in Ha. by rewrite Nat2Z.id, Hs in Ha. }
  clear Hlen. f_equal; induction H as [|s l Hs _ IH]; try done; cbn [omap list_omap]; unfold slot_chan, slot_fd in *; by rewrite Hs.
Qed.

Definition slots_free t : Prop :=
  forall i, out_of_range i (channels_ t) = false -> active (getSlot i (channels_ t)) = false.

Lemma drops_free t evs t' : drops t evs t' -> slots_free t -> slots_free t'.
Proof.
  intros D H i Hr. pose proof (out_of_range_nonneg _ _ Hr) as Hn.
  apply (dr_slots _ _ _ D); [lia|]. apply H. rewrite <- Hr. symmetry. apply range_eq, (sr_max _ _ (dr_run _ _ _ D)).
Qed.

(** Afterwards no slot and no queue entry is left. *)
Lemma drops_all reason q : base q.1 ->
  does drops (fun _ t => a_chans (tunnel_own t) = []) (drop_all reason) q.
Proof.
  intros Hb. unfold drop_all, abandon_all, slot_indices. eapply (does_bind (fun _ t => slots_free t)).
  { apply does_get. eapply does_conseq; [apply does_keep, drops_abandon_list, Hb|done|].
    intros _ t1 [Hs [e1 D1]] i Hr.
    rewrite (range_eq i _ _ (sr_max _ _ (dr_run _ _ _ D1))) in Hr. apply Hs; [|done].
    apply out_of_range_nonneg in Hr. apply elem_of_seqZ. lia. }
  intros _ q1 Hb1 H1. eapply does_bind; [apply does_keep, drops_queue, Hb1|]. intros _ q2 Hb2 [H2 [e2 D2]].
  eapply does_conseq; [apply does_keep, drops_queue, Hb2|done|]. intros _ t3 [H3 [e3 D3]].
  apply (drops_free _ _ _ D2), (drops_free _ _ _ D3) in H1. apply own_empty in H1; [|apply D3].
  unfold tunnel_own, core_own, queues_own, queue_chans.
  by rewrite H1, (dr_counts _ _ _ D3 PendingQueue H2), H3.
Qed.

End Drops.

(** ** Teardown *)
Section Teardown.
Context {R : Type} {BR : ByteRing R} {BL : ByteRingLaws R} {Env : Type} {P : Platform Env} {T : Target}.
Implicit Types t : SSHTunnel R.
Implicit Types q : SSHTunnel R * world Env.
Abbreviation TM A := (M (SSHTunnel R * world Env) A).

Definition settled t : Prop := state_ t <> TUNNEL_CONNECTED /\ state_ t <> TUNNEL_CONNECTING.

(** The connection goes, and everything with it. *)
Record down t (evs : list event) t' : Prop := {
  dn_rest : at_rest t';
  dn_state : state_ t' = state_ t;
  dn_socks : sock_moves (a_fds (tunnel_own t)) evs (a_fds (tunnel_own t'));
  dn_dead : forall C, coherent C (a_chans (tunnel_own t)) ->
    (Session.session_ (session_ t) = None -> all_dead C) -> all_dead (after C evs);
}.

Lemma base_session t x : base t -> sess_inv x -> base (t <| session_ := x |>).
Proof.
  intros [H1 H2 H3 H4] Hx. split; [done..|]. intros []; [apply (H4 PendingQueue)|apply (H4 DeferredQueue)].
Qed.

(** The session's socket is one of the tunnel's. *)
Lemma conserves_moves t x evs : conserves (socketfd_ (session_ t)) evs (socketfd_ x) ->
  sock_moves (a_fds (tunnel_own t)) evs (a_fds (tunnel_own (t <| session_ := x |>))).
Proof.
  intros H. unfold conserves in H. unfold sock_moves. cbn. rewrite !app_nil_r, <- app_assoc, H.
  apply Permutation_app_swap_app.
Qed.

Lemma plain_no_channel evs : Forall (fun ev => plain ev = true) evs -> Forall (fun ev => no_channel ev = true) evs.
Proof. intros H. eapply Forall_impl; [|exact H]. intros [[] r]; done. Qed.

Lemma tears_down reason q : base q.1 ->
  does down anything (on_session Session.disconnect;; drop_all reason) q.
Proof.
  intros Hb. apply wp_bind. destruct q as [t w]. unfold on_session. apply wp_focus_pair.
  eapply wp_conseq; [apply disconnect_ok, si_fd, Hb|].
  intros u [x w1] (Hc & e1 & R1 & [C1 P1] & F1). cbn [fst snd] in *.
  pose proof (cleaned_inv _ _ Hc) as [Hi1 Ht1].
  assert (base (t <| session_ := x |>)) as Hb1 by by apply base_session.
  eapply does_wp; [apply (drops_all reason (t <| session_ := x |>, w1) Hb1)|].
  intros u2 q2 e2 R2 D2 H2. exists (e1 ++ e2). split; [by eapply ran_app|]. split; [|exact I].
  cbn [fst] in *. destruct (dr_run _ _ _ D2) as [S1 (L1 & L2 & L3 & L4 & L5) S3]. split.
  - split; [apply D2|]. split; [done|]. unfold torn_down. by rewrite L2, L3, L4.
  - done.
  - eapply sock_moves_trans; [|apply D2]. apply conserves_moves. by rewrite (proj1 Ht1).
  - intros C Hk Hd c. rewrite after_app, (after_calm _ e2) by apply D2.
    rewrite after_no_channel by first [by apply plain_no_channel|apply Hk].
    destruct (session_freed e1) eqn:E; [done|]. apply Hd.
    destruct (Session.session_ (session_ t)); [|done]. by specialize (F1 ltac:(done)).
Qed.

Lemma wp_assoc {S A B D} (m : M S A) (n : A -> M S B) (k : B -> M S D) Q s :
  wp (bind (bind m n) k) Q s -> wp (bind m (fun a => bind (n a) k)) Q s.
Proof. unfold wp, bind. by destruct (m s). Qed.

Lemma down_trel t e1 t1 e2 t2 : tinv t -> down t e1 t1 -> irel t1 e2 t2 -> settled t2 -> trel t (e1 ++ e2) t2.
Proof.
  intros Hi [D1 D2 D3 D4] [I1 I2 I3] [Hs1 Hs2]. split; [by apply rest_tinv|by eapply sock_moves_trans|].
  intros C [Hk Hd] _. apply rest_known; [done|]. intros c. rewrite after_app. apply I3, D4; [done|].
  intros Hn. refine (Hd _). intros Hs. destruct (ti_up t Hi Hs) as [s E]. congruence.
Qed.

(** A teardown, and what is done afterwards. *)
Lemma does_down {A} reason (Q : A -> SSHTunnel R -> Prop) (k : TM A) q : tinv q.1 ->
  (forall q', at_rest q'.1 -> state_ q'.1 = state_ q.1 -> does irel (fun a t => Q a t /\ settled t) k q') ->
  does trel Q (on_session Session.disconnect;; drop_all reason;; k) q.
Proof.
  intros Hi Hk. apply (wp_assoc _ (fun _ => drop_all reason) (fun _ => k)), wp_bind.
  eapply does_wp; [apply (tears_down reason q (ti_base _ Hi))|]. intros u1 q1 e1 R1 D1 _.
  eapply does_wp; [apply (Hk q1 (dn_rest _ _ _ D1) (dn_state _ _ _ D1))|].
  intros a q2 e2 R2 I2 [HQ Hs]. exists (e1 ++ e2).
  split; [by eapply ran_app|]. split; [by eapply down_trel|done].
Qed.

Lemma does_down_idle reason q : tinv q.1 -> settled q.1 ->
  does trel (fun _ t => settled t) (on_session Session.disconnect;; drop_all reason) q.
Proof.
  intros Hi Hs. eapply does_wp; [apply (tears_down reason q (ti_base _ Hi))|]. intros u1 q1 e1 R1 D1 _.
  assert (settled q1.1) as Hs1 by (unfold settled; by rewrite (dn_state _ _ _ D1)).
  exists e1. split; [done|]. split; [|done]. rewrite <- (app_nil_r e1). eapply down_trel; [done|done| |done].
  apply trace_refl, D1.
Qed.

(** Calls that touch nothing and fields that play no part. *)
Lemma irel_silent t evs t' : at_rest t -> session_ t' = session_ t -> channels_ t' = channels_ t ->
  bufSize_ (transport_ t') = bufSize_ (transport_ t) ->
  (forall k, q_array k t' = q_array k t /\ q_count k t' = q_count k t) ->
  Forall (fun ev => calm ev = true) evs -> opened evs = [] -> closed evs = [] -> irel t evs t'.
Proof.
  intros [[H1 H2 H3 H4] [H5 H6]] E1 E2 E3 E4 Hc Ho Hcl.
  assert (tunnel_own t' = tunnel_own t) as Eo.
  { unfold tunnel_own, core_own, queues_own, queue_chans. destruct (E4 PendingQueue) as [-> ->], (E4 DeferredQueue) as [-> ->].
    by rewrite E1, E2. }
  split; [|unfold sock_moves; by rewrite Eo, Ho, Hcl, app_nil_r|]. 1: split.
  - split; [by rewrite E1|by rewrite E2|by rewrite E3|]. intros k. unfold queue_wf. destruct (E4 k) as [-> ->]. apply H4.
  - split; [by rewrite Eo|by rewrite E1].
  - intros C Hd c. rewrite after_calm by done. apply Hd.
Qed.

Lemma does_irel_put (f : SSHTunnel R -> SSHTunnel R) (Q : unit -> SSHTunnel R -> Prop) q : at_rest q.1 ->
  session_ (f q.1) = session_ q.1 -> channels_ (f q.1) = channels_ q.1 ->
  bufSize_ (transport_ (f q.1)) = bufSize_ (transport_ q.1) ->
  (forall k, q_array k (f q.1) = q_array k q.1 /\ q_count k (f q.1) = q_count k q.1) -> Q tt (f q.1) ->
  does irel Q (put f) q.
Proof. intros Hr E1 E2 E3 E4 HQ. apply does_put; [by apply irel_silent|done]. Qed.

End Teardown.

(** ** Going down, coming up *)
Section Operations.
Context {R : Type} {BR : ByteRing R} {BL : ByteRingLaws R} {Env : Type} {P : Platform Env} {T : Target}.
Implicit Types t : SSHTunnel R.
Implicit Types q : SSHTunnel R * world Env.
Abbreviation TM A := (M (SSHTunnel R * world Env) A).

(** First a program that only moves assets. *)
Lemma trel_then {A B} (Q : B -> SSHTunnel R -> Prop) (m : TM A) (k : A -> TM B) q :
  tinv q.1 -> owns nothing (fun _ => nothing) m q ->
  (forall a q', tinv q'.1 -> unmoved q.1 q'.1 -> does trel Q (k a) q') -> does trel Q (bind m k) q.
Proof. intros Hi Hm Hk. eapply does_bind; [by apply owns_trel|]. intros a q' Hi' Hu. by apply Hk. Qed.

Lemma irel_then {A B} (Q : B -> SSHTunnel R -> Prop) (m : TM A) (k : A -> TM B) q :
  at_rest q.1 -> owns nothing (fun _ => nothing) m q ->
  (forall a q', at_rest q'.1 -> unmoved q.1 q'.1 -> does irel Q (k a) q') -> does irel Q (bind m k) q.
Proof. intros Hi Hm Hk. eapply does_bind; [by apply owns_irel|]. intros a q' Hi' Hu. by apply Hk. Qed.

Lemma settled_unmoved t t' : settled t -> unmoved t t' -> settled t'.
Proof. intros [H1 H2] [E _]. unfold settled. by rewrite E. Qed.

Lemma owns_settled {A} (m : TM A) q : at_rest q.1 -> settled q.1 -> owns nothing (fun _ => nothing) m q ->
  does irel (fun a t => anything a t /\ settled t) m q.
Proof.
  intros Hr Hs H. eapply does_conseq; [by apply owns_irel|done|]. intros a t Hu. split; [done|by eapply settled_unmoved].
Qed.

Lemma does_irel_state (f : SSHTunnel R -> SSHTunnel R) q : at_rest q.1 ->
  session_ (f q.1) = session_ q.1 -> channels_ (f q.1) = channels_ q.1 ->
  bufSize_ (transport_ (f q.1)) = bufSize_ (transport_ q.1) ->
  (forall k, q_array k (f q.1) = q_array k q.1 /\ q_count k (f q.1) = q_count k q.1) -> settled (f q.1) ->
  does irel (fun a t => anything a t /\ settled t) (put f) q.
Proof. intros Hr E1 E2 E3 E4 Hs. by apply does_irel_put. Qed.

Lemma does_settled {A} (m : TM A) q : tinv q.1 -> settled q.1 ->
  does irel (fun a t => anything a t /\ settled t) m q -> does trel anything m q.
Proof.
  intros Hi [Hs _] H. eapply does_wp; [exact H|]. intros a q' evs R1 I1 [_ [S1 S2]]. exists evs.
  split; [done|]. split; [by apply irel_trel|done].
Qed.

Lemma does_disconnect q : tinv q.1 -> does trel anything Tunnel.disconnect q.
Proof.
  intros Hi. unfold Tunnel.disconnect. eapply trel_then; [done|apply owns_clear_queue|]. intros _ q1 Hi1 _.
  eapply trel_then; [done|apply owns_clear_queue|]. intros _ q2 Hi2 _. apply does_get.
  eapply trel_then; [done|destruct (Session.isConnected _); [apply runs_tlock|by apply runs_ret]|]. intros locked q3 Hi3 _.
  unfold slot_indices. apply does_get. eapply trel_then; [done|apply owns_keeps, keeps_release_all|]. intros _ q4 Hi4 _.
  eapply trel_then; [done|apply runs_when; intros _; apply runs_tunlock|]. intros _ q5 Hi5 _.
  apply does_down; [done|]. intros q6 Hr6 _.
  eapply irel_then; [done|apply owns_updateStats|]. intros _ q7 Hr7 _. apply does_get.
  eapply irel_then; [done|apply runs_when; intros _; apply runs_emit|]. intros _ q8 Hr8 _.
  by apply does_irel_state; [..|intros []|split].
Qed.

Lemma does_enterError q : tinv q.1 -> does trel anything enterErrorState q.
Proof.
  intros Hi. unfold enterErrorState. eapply trel_then; [done|apply owns_clear_queue|]. intros _ q1 Hi1 _.
  eapply trel_then; [done|apply owns_clear_queue|]. intros _ q2 Hi2 _.
  eapply trel_then; [done|apply runs_tlock|]. intros locked q3 Hi3 _.
  unfold slot_indices. apply does_get. eapply trel_then; [done|apply owns_keeps, keeps_release_all|]. intros _ q4 Hi4 _.
  eapply trel_then; [done|apply runs_when; intros _; apply runs_tunlock|]. intros _ q5 Hi5 _.
  apply does_down; [done|]. intros q6 Hr6 _.
  eapply irel_then; [done|apply owns_updateStats|]. intros _ q7 Hr7 _.
  eapply does_bind; [by apply does_irel_state; [..|intros []|split]|]. intros _ q8 Hr8 [_ Hs8].
  eapply irel_then; [done|apply runs_millis|]. intros now q9 Hr9 Hu9.
  assert (settled q9.1) as Hs9 by by eapply settled_unmoved.
  eapply does_bind; [by apply does_irel_state; [..|intros []|]|]. intros _ q10 Hr10 [_ Hs10].
  apply owns_settled; [done|done|apply runs_emit].
Qed.

Lemma does_requestReconnect q : tinv q.1 -> does trel anything requestReconnect q.
Proof.
  intros Hi. unfold requestReconnect. apply does_get. destruct (_ || _) eqn:E; [by apply does_ret|].
  assert (settled q.1) as [Hs Hs'].
  { split; intros H; rewrite H in E; discriminate. }
  assert (at_rest q.1) as Hr by by apply tinv_rest.
  apply does_settled; [done|by split|]. eapply does_bind; [by apply does_irel_state; [..|intros []|]|]. intros _ q1 Hr1 _.
  eapply irel_then; [done|apply runs_millis|]. intros now q2 Hr2 _.
  by apply does_irel_state; [..|intros []|split].
Qed.

(** ** Connecting *)

(** Without a channel, and with a session that may be up. *)
Lemma connect_moves cfg q : at_rest q.1 ->
  wp (on_session (Session.connect cfg)) (fun ok q' => exists evs, ran q evs q' /\
    (exists x, q'.1 = q.1 <| session_ := x |>) /\
    base q'.1 /\ a_chans (tunnel_own q'.1) = [] /\
    sock_moves (a_fds (tunnel_own q.1)) evs (a_fds (tunnel_own q'.1)) /\
    (forall C, all_dead C -> all_dead (after C evs)) /\ dialed ok (session_ q'.1) evs /\
    if ok then is_Some (Session.session_ (session_ q'.1)) else at_rest q'.1) q.
Proof.
  intros [Hb Hn]. destruct q as [t w]. unfold on_session. apply wp_focus_pair.
  eapply wp_conseq; [apply (connect_opens cfg Raw), Hb|]. intros ok [x w1] (evs & p' & R1 & D1 & [C1 A1] & H).
  cbn [fst snd] in *. assert (sess_inv x) as Hx by (destruct ok; [by eapply connected_inv, H|apply H]).
  exists evs. split; [done|]. split; [by exists x|]. split; [by apply base_session|]. split; [apply Hn|].
  split; [by apply conserves_moves|]. split.
  - intros C Hd c. rewrite after_no_channel; [by rewrite Hd; destruct (session_freed evs)|by eapply auth_run_no_channel|by left].
  - split; [exact D1|]. destruct ok; [apply H|]. split; [by apply base_session|]. split; [apply Hn|apply H].
Qed.

(** What [connectSSH] does with the answer. *)
Definition conclude (ok : bool) : TM bool :=
  if negb ok then
    put (fun t => t <| state_ := TUNNEL_ERROR |>);;
    emitErrorEvent (-1) "SSH connection failed"%string;;
    ret false
  else
    put (fun t => t <| state_ := TUNNEL_CONNECTED |> <| reconnectAttempts_ := 0 |>
      <| socketHealthFailures_ := 0 |>);;
    now <- millis;;
    put (fun t => t <| lastKeepAlive_ := now |>);;
    emitSessionConnected;;
    ret true.

(** The tunnel when [Session.connect] has answered. *)
Record answered t (evs : list event) (ok : bool) t' : Prop := {
  an_base : base t';
  an_chans : a_chans (tunnel_own t') = [];
  an_socks : sock_moves (a_fds (tunnel_own t)) evs (a_fds (tunnel_own t'));
  an_dead : forall C, all_dead C -> all_dead (after C evs);
  an_dialed : dialed ok (session_ t') evs;
  an_time : exists now, Event Millis now ∈ evs /\ lastConnectionAttempt_ t' = now;
  an_ok : if ok then is_Some (Session.session_ (session_ t')) else at_rest t';
}.

Lemma connectSSH_from Q q : at_rest q.1 -> state_ q.1 <> TUNNEL_CONNECTED ->
  (forall ok q' evs, ran q evs q' -> answered q.1 evs ok q'.1 -> wp (conclude ok) Q q') -> wp connectSSH Q q.
Proof.
  intros Hr Hs Hk. unfold connectSSH. apply wp_bind, wp_get.
  destruct (bool_decide_reflect (state_ q.1 = TUNNEL_CONNECTED)) as [|_]; [done|]. destruct q as [t w]. cbn [fst] in *.
  apply wp_bind, wp_put_pair, wp_bind, (wp_sys_pair Millis). intros r e _.
  apply wp_bind, wp_put_pair, wp_bind, wp_get_pair, wp_bind.
  match goal with |- wp _ _ ?s => set (q1 := s) end.
  assert (irel t [Event Millis r] q1.1) as I1 by (apply irel_silent; try done; by events).
  assert (ran (t, w) [Event Millis r] q1) as R1 by ran_done.
  eapply wp_conseq; [apply connect_moves, I1|].
  intros ok q2 (e2 & R2 & (x & E2) & B2 & N2 & S2 & D2 & L2 & H).
  apply (Hk ok q2 ([Event Millis r] ++ e2)); [by eapply ran_app|]. split; [done|done| | | | |done].
  - eapply sock_moves_trans; [apply I1|exact S2].
  - intros C Hd c. rewrite after_app. by apply D2, I1.
  - by apply dialed_last.
  - exists r. split; [by left|by rewrite E2].
Qed.

(** Up, with the libssh2 session just made. *)
Lemma up_trel t evs t1 t2 : tinv t -> state_ t <> TUNNEL_CONNECTED -> answered t evs true t1 ->
  t2 = t1 <| state_ := TUNNEL_CONNECTED |> <| reconnectAttempts_ := 0 |> <| socketHealthFailures_ := 0 |> ->
  trel t evs t2.
Proof.
  intros Hi Hs [B1 N1 S1 D1 _ _ H] ->. split; [split|exact S1|].
  - destruct B1 as [F1 F2 F3 F4]. split; [done..|]. intros []; [apply (F4 PendingQueue)|apply (F4 DeferredQueue)].
  - done.
  - intros _. exact H.
  - intros E. by destruct E.
  - intros C Hk _. split; [|intros E; by destruct E].
    match goal with |- coherent _ ?l => change l with (a_chans (tunnel_own t1)) end.
    rewrite N1. by eapply coherent_nil, D1, known_dead.
Qed.

Lemma does_connectSSH q : tinv q.1 -> does trel anything connectSSH q.
Proof.
  intros Hi. destruct (decide (state_ q.1 = TUNNEL_CONNECTED)) as [Hs|Hs].
  { unfold connectSSH. apply does_get. rewrite bool_decide_true by done. by apply does_ret. }
  apply connectSSH_from; [by apply tinv_rest|done|]. intros ok q2 evs R2 A2. unfold conclude. destruct ok; cbn [negb].
  - apply wp_bind, wp_put. match goal with |- wp _ _ ?s => set (q3 := s) end.
    assert (trel q.1 evs q3.1) as T3 by by eapply up_trel.
    refine (does_from _ _ q q3 evs R2 T3 _). pose proof (tr_inv _ _ _ T3) as Hi3.
    eapply trel_then; [done|apply runs_millis|]. intros now q4 Hi4 _.
    eapply trel_then; [done|apply runs_put; [intros []; by split| |done]; by split|]. intros _ q5 Hi5 _.
    eapply trel_then; [done|apply runs_emit|]. intros _ q6 Hi6 _. by apply does_ret.
  - destruct A2 as [B2 N2 S2 D2 _ _ H2].
    assert (does irel (fun a t => anything a t /\ settled t) (put (fun t => t <| state_ := TUNNEL_ERROR |>);;
      emitErrorEvent (-1) "SSH connection failed"%string;; ret false) q2) as K.
    { eapply does_bind; [by apply does_irel_state; [..|intros []|split]|]. intros _ q3 Hr3 [_ Hs3].
      eapply irel_then; [done|apply runs_emit|]. intros _ q4 Hr4 Hu4.
      apply does_ret; [done|]. split; [done|]. by eapply settled_unmoved. }
    eapply does_wp; [exact K|]. intros a q' e3 R3 I3 [_ [S1' S2']].
    eexists. split; [by eapply ran_app|]. split; [|done].
    apply irel_trel; [done| |done|done]. eapply trace_trans; [|exact I3]. by split.
Qed.

End Operations.

(** ** Serving *)
Section Serving.
Context {R : Type} {BR : ByteRing R} {BL : ByteRingLaws R} {Env : Type} {P : Platform Env} {T : Target}.
Implicit Types t : SSHTunnel R.
Implicit Types q : SSHTunnel R * world Env.
Abbreviation TM A := (M (SSHTunnel R * world Env) A).

(** A session operation that keeps the link and accepts no channel. *)
Lemma link_gmoves t x evs : base t -> same_link (session_ t) x -> side evs ->
  base (t <| session_ := x |>) /\ same_run t (t <| session_ := x |>) /\
  chan_moves (a_chans (tunnel_own t)) evs (accepted evs ++ a_chans (tunnel_own t)) /\
  sock_moves (a_fds (tunnel_own t)) evs (a_fds (tunnel_own (t <| session_ := x |>))).
Proof.
  intros Hb L S. split_and!.
  - apply base_session; [done|]. eapply same_link_inv; [done|apply Hb].
  - by split.
  - apply chan_moves_gentle, S.
  - apply conserves_moves. destruct L as (_ & -> & _). by apply conserves_side.
Qed.

Lemma owns_session {A} (m : M (SSHSession * world Env) A) q :
  wp m (fun _ x => same_link (session_ q.1) x.1 /\ exists evs, ran (session_ q.1, q.2) evs x /\ side evs /\
    accepted evs = []) (session_ q.1, q.2) ->
  owns nothing (fun _ => nothing) (on_session m) q.
Proof.
  intros H Hb. destruct q as [t w]. unfold on_session. apply wp_focus_pair.
  eapply wp_conseq; [exact H|]. intros a [x w1] (L & evs & R1 & S1 & A1). cbn [fst snd] in *.
  destruct (link_gmoves t x evs Hb L S1) as (B & S & C & F). exists evs. split; [exact R1|]. split; [done|done|].
  cbn. rewrite !also_nothing. split; [by rewrite A1 in C|done|done].
Qed.

Lemma polls_accepted evs : polls evs = [] -> accepted evs = [].
Proof.
  unfold polls, accepted. induction evs as [|[cl r] evs IH]; [done|]. rewrite !bind_cons.
  intros [E1 E2]%app_eq_nil. rewrite (IH E2), app_nil_r. destruct cl; try done. by destruct r.
Qed.

Lemma owns_check q : owns nothing (fun _ => nothing) (on_session checkConnection) q.
Proof.
  apply owns_session. eapply wp_conseq; [apply checkConnection_ok|].
  intros ok x (E & evs & R1 & S1 & P1 & _). split; [by rewrite E|]. exists evs.
  split_and!; [done|done|by apply polls_accepted].
Qed.

Lemma owns_keepalive q : owns nothing (fun _ => nothing) (on_session sendKeepalive) q.
Proof.
  apply owns_session. eapply wp_conseq; [apply sendKeepalive_ok|].
  intros ok x (L & _ & _ & evs & R1 & S1 & P1 & _). split; [done|]. exists evs.
  split_and!; [done|done|by apply polls_accepted].
Qed.

(** ** New connections *)

Lemma does_handleNew q : tinv q.1 -> does trel anything handleNewConnection q.
Proof.
  intros Hi. destruct q as [t w]. unfold handleNewConnection. apply wp_bind. unfold on_session. apply wp_focus_pair.
  eapply wp_conseq; [apply acceptChannel_ok|]. intros r [x w1] (L & e1 & R1 & S1 & _ & A1 & Hr). cbn [fst snd] in *.
  destruct (link_gmoves t x e1 (ti_base _ Hi) L S1) as (B & S & C & F). set (q1 := (t <| session_ := x |>, w1)).
  destruct r as [[c m]|]; cbn in A1; rewrite A1 in C.
  - assert (state_ t = TUNNEL_CONNECTED) as Hs.
    { destruct (decide (state_ t = TUNNEL_CONNECTED)) as [|Hs]; [done|]. exfalso.
      destruct (ti_idle _ Hi Hs) as [_ (_ & Hl & _)]. destruct (Hr c m eq_refl) as (e & h & He & _).
      rewrite Hl in He. by apply elem_of_nil in He. }
    eapply wp_conseq; [exact (owns_place_new c m q1 B)|]. intros a q2 (e2 & R2 & [B2 S2 [C2 F2 _]]).
    exists (e1 ++ e2). split; [by eapply ran_app|]. split; [|done]. cbn in B2, S2. apply linked_trel; [done|done|done|by etrans| |].
    + eapply chan_moves_trans; [exact C|]. by rewrite also_hand, (proj1 (also_nothing _)) in C2.
    + eapply sock_moves_trans; [exact F|].
      change (sock_moves (a_fds (also nothing (tunnel_own q1.1))) e2 (a_fds (also nothing (tunnel_own q2.1)))) in F2.
      by rewrite !(proj2 (also_nothing _)) in F2.
  - assert (trel t e1 q1.1) as T1.
    { apply gmoves_trel; [done|]. split; [done|done|]. cbn. rewrite !also_nothing. by split. }
    refine (does_from _ _ (t, w) q1 e1 R1 T1 _). pose proof (tr_inv _ _ _ T1) as Hi1. apply does_get.
    eapply does_then; [apply does_when; [done|intros _; by apply does_enterError]|]. intros _ q2 Hi2. by apply does_ret.
Qed.

Lemma does_accept_all q : tinv q.1 -> does trel anything accept_all q.
Proof. intros Hi. unfold accept_all. apply does_get. apply does_loop; [|done]. intros q1. apply does_handleNew. Qed.

(** ** The loop *)

Lemma owns_pump q : owns nothing (fun _ => nothing) (on_transport pumpAll) q.
Proof.
  intros Hb. destruct q as [t w]. unfold on_transport. apply wp_focus_pair. cbn [fst snd] in *.
  set (p := mkPump (transport_ t) (channels_ t) (sessionMutex_ (session_ t)) false).
  assert (pump_wf (maxSlots_ (channels_ t)) p) as Hw by (split_and!; [apply Hb|apply (b_buf _ Hb)|apply (b_buf _ Hb)|done]).
  eapply does_wp; [apply (pumpAll_owns (maxSlots_ (channels_ t)) (p, w) Hw)|].
  intros a [p1 w1] evs R1 (_ & (W1 & W2 & W3) & _ & _ & M1) _. cbn [fst snd] in *. exists evs. split; [exact R1|].
  destruct Hb as [H1 H2 H3 H4]. split.
  - split; [done|exact W1|exact W2|]. intros []; [apply (H4 PendingQueue)|apply (H4 DeferredQueue)].
  - by split.
  - cbn. rewrite !also_nothing. by apply (own_channels t (manager p1) evs).
Qed.

(** Assignments to fields that play no part. *)
Lemma owns_put (f : SSHTunnel R -> SSHTunnel R) q : session_ (f q.1) = session_ q.1 ->
  channels_ (f q.1) = channels_ q.1 -> state_ (f q.1) = state_ q.1 ->
  bufSize_ (transport_ (f q.1)) = bufSize_ (transport_ q.1) ->
  (forall k, q_array k (f q.1) = q_array k q.1 /\ q_count k (f q.1) = q_count k q.1) ->
  owns nothing (fun _ => nothing) (put f) q.
Proof.
  intros E1 E2 E3 E4 E5. apply runs_put; cbn.
  - intros [H1 H2 H3 H4]. split; [by rewrite E1|by rewrite E2|by rewrite E4|].
    intros k. unfold queue_wf. destruct (E5 k) as [-> ->]. apply H4.
  - by apply same_run_fields.
  - unfold tunnel_own, core_own, queues_own, queue_chans.
    destruct (E5 PendingQueue) as [-> ->], (E5 DeferredQueue) as [-> ->]. by rewrite E1, E2.
Qed.

Lemma owns_drain_deferred q : owns nothing (fun _ => nothing) drain_deferred q.
Proof. unfold drain_deferred. apply runs_get, runs_when. intros _. apply owns_drainDeferred. Qed.

Lemma does_serve q : tinv q.1 -> does trel anything serve q.
Proof.
  intros Hi. unfold serve. eapply trel_then; [done|apply owns_drain_deferred|]. intros _ q1 Hi1 _.
  eapply does_then; [by apply does_accept_all|]. intros _ q2 Hi2.
  eapply trel_then; [done|apply owns_pump|]. intros _ q3 Hi3 _. apply does_get.
  destruct (consumeCloseEvents MAX_CLOSE_EVENTS (transport_ q3.1)) as [[events n] t3] eqn:E. cbn [fst snd].
  eapply trel_then; [done|apply owns_put; try done|].
  { unfold consumeCloseEvents in E. cbn. by injection E as _ _ <-. }
  intros _ q4 Hi4 _.
  eapply trel_then; [done|apply runs_for_each; intros e q'; apply runs_emit|]. intros _ q5 Hi5 _. apply does_get.
  destruct (sessionDegraded _).
  - eapply trel_then; [done|apply owns_put; try done; by intros []|]. intros _ q6 Hi6 _. by apply does_enterError.
  - apply does_get. eapply trel_then; [done| |].
    { apply runs_when. intros _. eapply runs_then; [apply owns_cleanExpired|]. intros _ q'. apply owns_drainPending. }
    intros _ q6 Hi6 _. eapply trel_then; [done|apply owns_drain_deferred|]. intros _ q7 Hi7 _.
    by apply owns_does, owns_updateStats.
Qed.

(** Up to the connection attempt itself. *)
Lemma attempt_from Q q : tinv q.1 -> settled q.1 ->
  (forall q' e, ran q e q' -> trel q.1 e q'.1 -> settled q'.1 ->
    wp (ok <- connectSSH;; when ok (put (fun t => t <| reconnectAttempts_ := 0 |>))) Q q') ->
  wp attempt_reconnect Q q.
Proof.
  intros Hi Hs Hk. unfold attempt_reconnect. apply wp_bind.
  eapply does_wp; [apply (owns_trel _ _ Hi), owns_clear_queue|]. intros u1 q1 e1 R1 T1 U1.
  apply wp_bind. eapply does_wp; [apply (owns_trel _ _ (tr_inv _ _ _ T1)), owns_clear_queue|]. intros u2 q2 e2 R2 T2 U2.
  pose proof (settled_unmoved _ _ (settled_unmoved _ _ Hs U1) U2) as Hs2.
  apply (wp_assoc _ (fun _ => drop_all Error)), wp_bind.
  eapply does_wp; [apply (does_down_idle Error _ (tr_inv _ _ _ T2) Hs2)|]. intros u3 q3 e3 R3 T3 Hs3.
  apply wp_bind. eapply does_wp; [apply (owns_trel _ _ (tr_inv _ _ _ T3)); by apply owns_put|]. intros u4 q4 e4 R4 T4 U4.
  apply (Hk q4 (((e1 ++ e2) ++ e3) ++ e4)).
  - eapply ran_app; [eapply ran_app; [by eapply ran_app|done]|done].
  - eapply trace_trans; [eapply trace_trans; [by eapply trace_trans|done]|done].
  - exact (settled_unmoved _ _ Hs3 U4).
Qed.

Lemma does_reconnect q : tinv q.1 -> settled q.1 -> does trel anything handleReconnection q.
Proof.
  intros Hi Hs. unfold handleReconnection. apply does_get, does_get.
  assert (forall q, tinv q.1 -> settled q.1 -> does trel anything reconnect_when_due q) as Hdue.
  { clear. intros q Hi Hs. unfold reconnect_when_due. eapply trel_then; [done|apply runs_millis|]. intros now q1 Hi1 Hu1.
    apply does_get, does_get, does_get. destruct (_ <? _); [by apply does_ret|].
    apply attempt_from; [done|by eapply settled_unmoved|]. intros q2 e2 R2 T2 Hs2.
    refine (does_from _ _ q1 q2 e2 R2 T2 _). pose proof (tr_inv _ _ _ T2) as Hi2.
    eapply does_then; [by apply does_connectSSH|]. intros ok q6 Hi6.
    apply does_when; [done|]. intros _. apply owns_does; [done|]. by apply owns_put. }
  destruct (_ <=? _); [|by apply Hdue]. eapply trel_then; [done|apply runs_millis|]. intros now q1 Hi1 Hu1. apply does_get.
  assert (settled q1.1) as Hs1 by by eapply settled_unmoved.
  destruct (_ <? _); [by apply does_ret|].
  eapply trel_then; [done|apply owns_put; try done; by intros []|]. intros _ q2 Hi2 Hu2.
  apply Hdue; [done|by eapply settled_unmoved].
Qed.

Lemma does_tunnel_loop q : tinv q.1 -> does trel anything tunnel_loop q.
Proof.
  intros Hi. unfold tunnel_loop. apply does_get.
  assert (does trel anything (up <- get (fun t => Session.isConnected (session_ t));;
      if negb up then enterErrorState else
      ok <- check_health;; if negb ok then ret tt else
      ok <- keep_alive;; if negb ok then ret tt else serve) q) as Hup.
  { apply does_get. destruct (negb _); [by apply does_enterError|].
    eapply does_then; [|intros ok q1 Hi1; destruct (negb ok); [by apply does_ret|]].
    - unfold check_health. eapply trel_then; [done|apply owns_check|]. intros ok q1 Hi1 _. destruct (negb ok).
      + eapply trel_then; [done|apply owns_put; try done; by intros []|]. intros _ q2 Hi2 _. apply does_get.
        destruct (_ <=? _); [|by apply does_ret].
        eapply does_then; [by apply does_enterError|]. intros _ q3 Hi3. by apply does_ret.
      + eapply trel_then; [done|apply owns_put; try done; by intros []|]. intros _ q2 Hi2 _. by apply does_ret.
    - eapply does_then; [|intros ok2 q2 Hi2; destruct (negb ok2); [by apply does_ret|by apply does_serve]].
      unfold keep_alive. eapply trel_then; [done|apply runs_millis|]. intros now q2 Hi2 _. apply does_get, does_get.
      destruct (_ && _); [|by apply does_ret].
      eapply trel_then; [done|apply owns_keepalive|]. intros ok2 q3 Hi3 _. destruct (negb ok2).
      + eapply does_then; [by apply does_enterError|]. intros _ q4 Hi4. by apply does_ret.
      + eapply trel_then; [done|apply owns_put; try done; by intros []|]. intros _ q4 Hi4 _. by apply does_ret. }
  destruct (state_ q.1) eqn:Es; [by apply does_ret|exact Hup|exact Hup|].
  apply does_reconnect; [done|]. split; by rewrite Es.
Qed.

End Serving.
