(* ===== verification/Lifecycle.v ===== *)
(** * The life of a tunnel

    What holds from [init] on, over any sequence of calls of the public
    operations, for any environment: the tunnel stays well formed, no channel
    is misused, no socket is lost; the accept loop ends; reconnection respects
    its back-off and never gives up. *)

From S2P Require Import Prelude Platform Handles Policies Ring Breaker Config Net Channel Lock Transport Flow Cycle Owners Session SessionFacts Tunnel TunnelOwns TunnelFacts.

Section Runs.
Context {R : Type} {BR : ByteRing R} {BL : ByteRingLaws R} {Env : Type} {P : Platform Env} {T : Target}.
Implicit Types t : SSHTunnel R.
Implicit Types q : SSHTunnel R * world Env.
Abbreviation TM A := (M (SSHTunnel R * world Env) A).

(** ** The public operations *)

Inductive tunnel_op :=
  | OConnect | ODisconnect | OLoop | ORequestReconnect
  | OAddMapping (m : TunnelConfig) | ORemoveMapping (h : String) (p : Z)
  | OSetHandlers (h : SSHTunnelEvents)
  | OConfigure (cfg : SSHConfiguration).   (* the application changes [globalSSHConfig] *)

Definition run_tunnel (o : tunnel_op) : TM unit :=
  match o with
  | OConnect => _ <- connectSSH;; ret tt
  | ODisconnect => Tunnel.disconnect
  | OLoop => tunnel_loop
  | ORequestReconnect => requestReconnect
  | OAddMapping m => _ <- addReverseTunnel m;; ret tt
  | ORemoveMapping h p => _ <- removeReverseTunnel h p;; ret tt
  | OSetHandlers h => setEventHandlers h
  | OConfigure cfg => put (fun t => t <| globalSSHConfig := cfg |>)
  end.

Definition run_tunnel_all (os : list tunnel_op) : TM unit := for_each os run_tunnel.

(** A locked update of the configuration touches neither channels nor sockets. *)
Lemma owns_config {A} (m : M (SSHConfiguration * world Env) A) q :
  wp m (fun _ x => exists evs, ran (globalSSHConfig q.1, q.2) evs x /\
    Forall (fun ev => calm ev = true) evs /\ opened evs = [] /\ closed evs = []) (globalSSHConfig q.1, q.2) ->
  owns nothing (fun _ => nothing) (on_config m) q.
Proof.
  intros H Hb. destruct q as [t w]. unfold on_config. apply wp_focus_pair.
  eapply wp_conseq; [exact H|]. intros a [c w1] (evs & R1 & H1 & H2 & H3). cbn [fst snd] in *.
  exists evs. split; [exact R1|]. destruct Hb as [B1 B2 B3 B4]. split.
  - split; [done..|]. intros []; [apply (B4 PendingQueue)|apply (B4 DeferredQueue)].
  - by split.
  - by apply moves_silent.
Qed.

Lemma owns_add m q : owns nothing (fun _ => nothing) (on_config (addTunnelMapping m)) q.
Proof.
  apply owns_config. unfold addTunnelMapping, locked, lockConfig, unlockConfig.
  wp_go; eexists; (split; [first [apply ran_nil|ran_done]|by split_and!; [events|..]]).
Qed.

Lemma owns_remove i q : owns nothing (fun _ => nothing) (on_config (removeTunnelMapping i)) q.
Proof.
  apply owns_config. unfold removeTunnelMapping, lockConfig, unlockConfig.
  wp_go; eexists; (split; [first [apply ran_nil|ran_done]|by split_and!; [events|..]]).
Qed.

Lemma does_run_tunnel o q : tinv q.1 -> does trel anything (run_tunnel o) q.
Proof.
  intros Hi. destruct o; cbn [run_tunnel].
  - eapply does_then; [by apply does_connectSSH|]. intros ok q1 Hi1. by apply does_ret.
  - by apply does_disconnect.
  - by apply does_tunnel_loop.
  - by apply does_requestReconnect.
  - unfold addReverseTunnel. apply owns_does; [done|].
    eapply (runs_then _ nothing nothing); [|intros a q1; by apply runs_ret].
    eapply (runs_then _ nothing nothing); [apply owns_add|]. intros a q1. by apply runs_ret.
  - unfold removeReverseTunnel. apply owns_does; [done|].
    eapply (runs_then _ nothing nothing); [|intros a q1; by apply runs_ret]. apply runs_get.
    destruct (find_mapping _ _ _ _) as [i|]; [|by apply runs_ret].
    eapply (runs_then _ nothing nothing); [apply owns_remove|]. intros a q1. by apply runs_ret.
  - apply owns_does; [done|]. by apply owns_put.
  - apply owns_does; [done|]. by apply owns_put.
Qed.

Lemma does_run_all os q : tinv q.1 -> does trel anything (run_tunnel_all os) q.
Proof. apply does_for_each. intros o q1 _. apply does_run_tunnel. Qed.

(** ** init *)

(** The ring sizes, that of a new manager included, fit a [size_t] with the
    put-back area; [init] checks the rest. *)
Definition sizes_ok (cfg : SSHConfiguration) : Prop :=
  let c := connectionConfig cfg in
  0 <= maxChannels c /\ Z.max (ringBufferSize_ (new_manager (R := R))) (tunnelRingBufferSize c) + SSH_TUNNEL_PREPEND_CAPACITY < 2 ^ 32.

Lemma own_none (m : ChannelManager R) : mgr_inv m -> activeCount_ m = 0 -> own m = nothing.
Proof.
  intros Hi Hc. apply own_empty; [done|]. intros i Hr. destruct (in_range_lookup i m Hi Hr) as [_ Hl].
  assert (forall s : ChannelSlot R, 0 <= activity s) as Hb by (intros s; unfold activity; destruct (active s); simpl; lia).
  pose proof (lsum_ge activity _ _ _ Hb Hl) as H. rewrite <- (mi_count m Hi), Hc in H.
  unfold activity in H. by destruct (active _).
Qed.

(** [SSHSession::init] leaves the connection alone. *)
Lemma session_init_ok x (w : world Env) :
  wp Session.init (fun _ (q' : SSHSession * world Env) => Session.session_ q'.1 = Session.session_ x /\ socketfd_ q'.1 = socketfd_ x /\
    listeners_ q'.1 = listeners_ x /\ boundPort_ q'.1 = boundPort_ x) (x, w).
Proof. unfold Session.init. wp_go; by split_and!. Qed.

Lemma new_inv cfg : sizes_ok cfg -> mgr_inv (new_manager (R := R)).
Proof.
  intros [_ H]. cbn in H. constructor; [done|constructor|done|cbn; lia|exact new_breaker_inv|by split_and!].
Qed.

(** [init] of a new object. *)
Lemma tunnel_init_ok cfg (w : world Env) : sizes_ok cfg ->
  wp Tunnel.init (fun ok q' => ok = true ->
    tinv q'.1 /\ own (channels_ q'.1) = nothing /\ state_ q'.1 = TUNNEL_DISCONNECTED) (new_tunnel cfg, w).
Proof.
  intros Hok. pose proof Hok as (Hn & Hsz). cbn in Hsz. unfold Tunnel.init. apply wp_bind, wp_put_pair, wp_bind, wp_get_pair, wp_bind.
  match goal with |- wp (if ?b then _ else _) _ _ => change b with false end. cbn iota. apply wp_bind, (wp_sys_pair (SemCreate StatsMutex)). intros r e _.
  apply wp_bind, wp_put_pair, wp_ret. destruct r; cbn [negb]; [|by apply wp_ret].
  apply wp_bind. unfold on_session. apply wp_focus_pair. eapply wp_conseq; [apply session_init_ok|].
  intros ok [x w1] (X1 & X2 & X3 & X4). cbn [fst snd] in *. destruct ok; cbn [negb]; [|by apply wp_ret].
  apply wp_bind, wp_get_pair. match goal with |- wp _ _ (?t, _) => set (t1 := t) end.
  change (connectionConfig (globalSSHConfig t1)) with (connectionConfig cfg).
  set (c := connectionConfig cfg) in *. set (bufSize := if 0 <? bufferSize c then _ else _).
  destruct (Z.ltb_spec SSH_TUNNEL_PREPEND_CAPACITY bufSize); [by apply wp_ret|].
  assert (0 < bufSize) by (unfold bufSize; destruct (Z.ltb_spec 0 (bufferSize c)); lia).
  set (size := if tunnelRingBufferSize c <? 8192 then _ else _).
  assert (0 < size /\ size + SSH_TUNNEL_PREPEND_CAPACITY < 2 ^ 32) as [Hs1 Hs2]
    by (unfold size; destruct (Z.ltb_spec (tunnelRingBufferSize c) 8192); lia).
  apply wp_bind. unfold on_channels. apply wp_focus_pair.
  eapply wp_conseq; [apply (Channel.init_ok _ size); [by eapply new_inv|done..]|].
  intros ok [m w2] (Hm & _ & Hc & _). cbn [fst snd] in *. destruct ok; cbn [negb]; [|by apply wp_ret].
  unfold Transport.init, attach, on_transport. wp_go; cbn [negb] in *; try done. intros _. split_and!.
  - apply rest_tinv; [|done|done]. split; [split; [split| |split|]|split].
    + cbn. by rewrite X2.
    + intros _. unfold torn_down. cbn. by rewrite X2, X3, X4.
    + cbn. by rewrite X3.
    + exact Hm.
    + done.
    + done.
    + by intros [].
    + unfold tunnel_own, core_own. cbn -[own]. by rewrite (own_none m Hm Hc).
    + unfold torn_down. cbn. by rewrite X2, X3, X4.
  - by apply own_none.
  - done.
Qed.

(** No connection, no socket. *)
Lemma idle_fds t : base t -> is_idle t -> a_fds (tunnel_own t) = [].
Proof.
  intros Hb [Hc (Hf & _)]. unfold tunnel_own, core_own in *. cbn [a_chans a_fds also queues_own] in *.
  apply app_eq_nil in Hc as [[Hc _]%app_eq_nil _]. rewrite Hf, !app_nil_r.
  assert (own (channels_ t) = nothing) as ->; [|done]. apply own_empty; [apply Hb|]. intros i Hr.
  destruct (in_range_lookup i _ (b_mgr _ Hb) Hr) as [_ Hl]. pose proof (mgr_inv_slot i _ (b_mgr _ Hb) Hr) as Hs.
  unfold slot_inv in Hs. destruct (active (getSlot i (channels_ t))) eqn:Ea; [|done]. exfalso.
  destruct (sa_chan _ Hs) as [c Ec]. apply (not_elem_of_nil c). rewrite <- Hc.
  apply list_elem_of_omap. eexists. split; [by eapply list_elem_of_lookup_2|]. unfold slot_chan. by rewrite Ea.
Qed.

(** From [init] on. *)
Lemma from_init cfg (w : world Env) os q0 : sizes_ok cfg ->
  Tunnel.init (new_tunnel cfg, w) = (true, q0) ->
  let q := snd (run_tunnel_all os q0) in
  at_rest q0.1 /\ state_ q0.1 <> TUNNEL_CONNECTED /\ tinv q.1 /\ exists evs, ran q0 evs q /\ trel q0.1 evs q.1.
Proof.
  intros Hok E. pose proof (tunnel_init_ok cfg w Hok) as H. unfold wp in H. rewrite E in H.
  destruct (H eq_refl) as (Hi & _ & Hs). cbn [fst snd] in *.
  assert (state_ q0.1 <> TUNNEL_CONNECTED) as Hs' by by rewrite Hs.
  destruct (does_run_all os q0 Hi) as (evs & R1 & T1 & _).
  split; [by apply tinv_rest|]. split; [done|]. split; [apply T1|by exists evs].
Qed.

(** ** Properties *)

(** C9: from [init] on, over any sequence of public operations and whatever the
    environment answers, the tunnel is well formed between two calls: it is
    connecting at no time, when connected it has a libssh2 session, otherwise
    no slot, queue entry, socket or listener is left; the queues keep within
    their arrays, the active count within the slots, and the pump's buffer
    within the put-back area. *)
Theorem tunnel_well_formed cfg (w : world Env) os q0 : sizes_ok cfg ->
  Tunnel.init (new_tunnel cfg, w) = (true, q0) ->
  let t := (snd (run_tunnel_all os q0)).1 in
  tinv t /\ 0 <= activeCount_ (channels_ t) <= maxSlots_ (channels_ t) /\
  0 <= pendingCount_ t <= MAX_PENDING /\ 0 <= deferredCloseCount_ t <= MAX_DEFERRED_CLOSE.
Proof.
  intros Hok E. destruct (from_init cfg w os q0 Hok E) as (Hr0 & Hs0 & Hi & evs & R1 & T1). cbn zeta.
  pose proof (ti_base _ Hi) as [_ Hm _ Hq]. split; [done|]. split.
  - rewrite (mi_count _ Hm), (mgr_inv_len _ Hm). apply lsum_bound. intros s. unfold activity.
    destruct (active s); simpl; lia.
  - split; [apply (Hq PendingQueue)|apply (Hq DeferredQueue)].
Qed.

(** C2: from [init] on, over any sequence of public operations, no SSH channel
    is used before libssh2 handed it out or after it was freed, and none is
    freed twice; the channels the tunnel still holds, in a slot or in a queue,
    are alive and held once; and while the tunnel is not connected every
    channel it was ever given is dead.  The one assumption on libssh2 is that a
    handle it hands out is not one that is still alive. *)
Theorem tunnel_channels_safe cfg (w : world Env) os q0 : sizes_ok cfg ->
  Tunnel.init (new_tunnel cfg, w) = (true, q0) ->
  let q := snd (run_tunnel_all os q0) in
  exists evs, ran q0 evs q /\
    let C := after (fun _ => Dead) evs in
    ((forall c, C c <> Reused) ->
     (forall c, C c <> Misused) /\
     NoDup (a_chans (tunnel_own q.1)) /\ (forall c, c ∈ a_chans (tunnel_own q.1) -> C c = Alive) /\
     (state_ q.1 <> TUNNEL_CONNECTED -> a_chans (tunnel_own q.1) = [] /\ forall c, C c = Dead)).
Proof.
  intros Hok E. destruct (from_init cfg w os q0 Hok E) as (Hr0 & Hs0 & Hi & evs & R1 & T1). cbn zeta.
  exists evs. split; [done|]. set (C := after _ evs). intros Hf.
  assert (known (fun _ => Dead) q0.1) as Hk by by apply rest_known.
  destruct (tr_known _ _ _ T1 _ Hk Hf) as [[H1 H2 H3] H4]. split_and!; [|done|done|].
  - intros c. fold C in H3. by destruct (H3 c) as [->| ->].
  - intros Hn. split; [|by apply H4]. apply idle_own. by apply (ti_idle _ Hi).
Qed.

(** C4: over the same runs no socket is lost or closed twice: the descriptors
    opened are, as a multiset, those closed and those the tunnel still holds
    (one per active slot and that of the session); while it is not connected
    it holds none, so every socket ever opened has been closed exactly once. *)
Theorem tunnel_sockets_kept cfg (w : world Env) os q0 : sizes_ok cfg ->
  Tunnel.init (new_tunnel cfg, w) = (true, q0) ->
  let q := snd (run_tunnel_all os q0) in
  exists evs, ran q0 evs q /\ opened evs ≡ₚ closed evs ++ a_fds (tunnel_own q.1) /\
    (state_ q.1 <> TUNNEL_CONNECTED -> opened evs ≡ₚ closed evs).
Proof.
  intros Hok E. destruct (from_init cfg w os q0 Hok E) as (Hr0 & Hs0 & Hi & evs & R1 & T1). cbn zeta.
  exists evs. split; [done|]. pose proof (idle_fds _ (proj1 Hr0) (proj2 Hr0)) as E0.
  pose proof (tr_socks _ _ _ T1) as S1. unfold sock_moves in S1. rewrite E0 in S1. split; [exact S1|].
  intros Hn. by rewrite (idle_fds _ (ti_base _ Hi) (ti_idle _ Hi Hn)), app_nil_r in S1.
Qed.

(** ** The accept loop *)

(** Only the answer matters. *)
Definition answers_false (m : TM bool) q : Prop := wp m (fun go _ => go = false) q.

Lemma false_ret q : answers_false (ret false) q.
Proof. done. Qed.
Lemma false_bind {A} (m : TM A) (k : A -> TM bool) q : (forall a q', answers_false (k a) q') -> answers_false (bind m k) q.
Proof. intros H. apply wp_bind. eapply wp_conseq; [apply wp_any|]. intros a q' _. apply H. Qed.
Lemma false_if (b : bool) (m1 m2 : TM bool) q : answers_false m1 q -> answers_false m2 q -> answers_false (if b then m1 else m2) q.
Proof. by destruct b. Qed.

Lemma false_wp (m : TM bool) (Q : SSHTunnel R * world Env -> Prop) q :
  answers_false m q -> wp m (fun go q' => go = true -> Q q') q.
Proof. unfold answers_false, wp. by intros ->. Qed.

(** Only a bind is answered by [true]. *)
Ltac false_go :=
  repeat first [apply false_ret | apply false_bind; intros ? ? | apply false_if | progress unfold reject_new].

(** The lock and the events leave the state alone. *)
Lemma tlock_state ticks q : wp (tlock ticks) (fun _ q' => q'.1 = q.1) q.
Proof. destruct q as [t w]. unfold tlock, lock. wp_go; done. Qed.
Lemma tunlock_state q : wp tunlock (fun _ q' => q'.1 = q.1) q.
Proof. destruct q as [t w]. unfold tunlock, unlock. wp_go; done. Qed.
Lemma emit_state h l l' q : wp (emit h l l') (fun _ q' => q'.1 = q.1) q.
Proof. destruct q as [t w]. unfold emit. wp_go; done. Qed.

(** A round that asks for another fills a slot. *)
Definition filled t t' : Prop :=
  activeCount_ (channels_ t') = activeCount_ (channels_ t) + 1 /\ maxSlots_ (channels_ t') = maxSlots_ (channels_ t).

Lemma bind_new_fills slot c mapping q : base q.1 ->
  wp (bind_new slot c mapping) (fun go q' => go = true -> filled q.1 q'.1) q.
Proof.
  intros Hb. unfold bind_new. apply wp_bind.
  eapply (wp_conseq _ (fun r q' => r = Bound -> filled q.1 q'.1)).
  { unfold bindAcceptedChannel. apply wp_bind. eapply wp_conseq; [apply tlock_state|]. intros ok [t w] E.
    cbn [fst] in E. subst t. destruct ok; cbn [negb]; [|by apply wp_ret].
    apply wp_bind. unfold on_channels. apply wp_focus_pair. eapply wp_conseq; [apply bindChannel_owns, Hb|].
    intros ok [m w1] (evs & R1 & S1 & H). cbn [fst snd] in *. apply wp_bind.
    eapply wp_conseq; [apply tunlock_state|]. intros u [t2 w2] E. cbn [fst] in E. subst t2. apply wp_ret.
    destruct ok; [|done]. intros _. split; [apply H|apply S1]. }
  intros r q1 H. destruct r.
  - apply wp_bind. eapply wp_conseq; [apply emit_state|]. intros u q2 E. apply wp_ret. intros _. rewrite E. by apply H.
  - apply false_wp. false_go.
  - apply false_wp. false_go.
Qed.

Lemma new_fills q : base q.1 -> wp handleNewConnection (fun go q' => go = true -> filled q.1 q'.1) q.
Proof.
  intros Hb. destruct q as [t w]. unfold handleNewConnection, on_session. apply wp_bind, wp_focus_pair.
  eapply wp_conseq; [apply acceptChannel_ok|]. intros r [x w1] (L & evs & _ & S1 & _). cbn [fst snd] in *.
  destruct (link_gmoves t x evs Hb L S1) as (B & _).
  destruct r as [[c m]|]; [|apply false_wp; false_go].
  apply wp_bind, (wp_sys_pair Millis). intros now e _. apply wp_bind, wp_get_pair.
  destruct (isMappingBackedOff _ _ _); [apply false_wp; false_go|].
  unfold on_channels. apply wp_bind, wp_focus_pair. eapply wp_conseq; [apply allocateSlot_owns, B|].
  intros slot [m1 w2] (e2 & _ & _ & H). cbn [fst snd] in *.
  destruct (Z.leb_spec 0 slot); [|apply false_wp; false_go].
  destruct (H ltac:(done)) as (-> & _).
  eapply wp_conseq; [apply bind_new_fills|]; [|done]. by apply base_channels; [|apply B].
Qed.

(** Enough rounds for a measure that decreases: more make no difference. *)
Lemma loop_enough {S} (Dom : S -> Prop) (mu : S -> nat) (body : M S bool) :
  (forall s, Dom s -> wp body (fun go s' => Dom s' /\ (go = true -> (mu s' < mu s)%nat)) s) ->
  forall n k s, Dom s -> (mu s <= n)%nat -> loop (1 + n + k) body s = loop (1 + n) body s.
Proof.
  intros Hb n. induction n as [|n IH]; intros k s Hd Hm; specialize (Hb s Hd); unfold wp in Hb;
    cbn [loop Nat.add]; unfold bind; destruct (body s) as [go s']; destruct go; try done;
    destruct Hb as [Hd' Hlt]; specialize (Hlt eq_refl); cbn [fst snd] in *; [lia|].
  apply (IH k s'); [done|lia].
Qed.

(** C10: the accept loop [while (handleNewConnection()) {}] ends.  Every round
    that asks for another binds a channel to a free slot, so as many rounds as
    there are slots, and one more, are enough: with any larger bound the loop
    does exactly the same. *)
Theorem accept_loop_ends k q : tinv q.1 ->
  loop (1 + Z.to_nat (maxSlots_ (channels_ q.1)) + k) handleNewConnection q = accept_all q /\
  accept_all q = loop (1 + Z.to_nat (maxSlots_ (channels_ q.1) - activeCount_ (channels_ q.1))) handleNewConnection q.
Proof.
  intros Hi. set (mu := fun q : SSHTunnel R * world Env =>
    Z.to_nat (maxSlots_ (channels_ q.1) - activeCount_ (channels_ q.1))).
  assert (forall q : SSHTunnel R * world Env, tinv q.1 ->
    0 <= activeCount_ (channels_ q.1) <= maxSlots_ (channels_ q.1)) as Hbound.
  { intros q1 H1. pose proof (b_mgr _ (ti_base _ H1)) as Hm. rewrite (mi_count _ Hm), (mgr_inv_len _ Hm).
    apply lsum_bound. intros s. unfold activity. destruct (active s); simpl; lia. }
  assert (forall s : SSHTunnel R * world Env, tinv s.1 ->
    wp handleNewConnection (fun go s' => tinv s'.1 /\ (go = true -> (mu s' < mu s)%nat)) s) as Hb.
  { intros s Hs. pose proof (new_fills s (ti_base _ Hs)) as H1.
    destruct (does_handleNew s Hs) as (evs & _ & T1 & _). split; [apply T1|].
    intros Hgo. destruct (H1 Hgo) as [E1 E2]. pose proof (Hbound _ (tr_inv _ _ _ T1)).
    pose proof (Hbound _ Hs). unfold mu. lia. }
  pose proof (Hbound q Hi). assert ((mu q <= Z.to_nat (maxSlots_ (channels_ q.1)))%nat) as Hmu by (unfold mu; lia).
  unfold accept_all, bind, get, gets. split; [by apply (loop_enough (fun q => tinv q.1) mu)|].
  replace (S (Z.to_nat (maxSlots_ (channels_ q.1)))) with
    (1 + mu q + Z.to_nat (activeCount_ (channels_ q.1)))%nat by (unfold mu; lia).
  by apply (loop_enough (fun q => tinv q.1) mu).
Qed.

(** ** Reconnection *)

(** Doubling, capped: the cap makes the early exit of the loop invisible. *)
Lemma double_delay_capped fuel k d : Z.to_nat k = fuel -> 0 <= k -> 0 <= d < 2 ^ 31 ->
  Z.min 60000 (double_delay fuel k d) = Z.min 60000 (d * 2 ^ k).
Proof.
  revert k d. induction fuel as [|fuel IH]; intros k d Hf Hk Hd; cbn [double_delay].
  { assert (k = 0) as -> by lia. by rewrite Z.mul_1_r. }
  assert (2 ^ k = 2 * 2 ^ (k - 1)) as E by (rewrite <- Z.pow_succ_r by lia; f_equal; lia).
  pose proof (Z.pow_pos_nonneg 2 (k - 1) ltac:(lia) ltac:(lia)).
  rewrite (proj2 (Z.ltb_lt 0 k)) by lia. cbn [andb]. destruct (Z.ltb_spec d 60000).
  - rewrite u32_small by lia. rewrite IH by lia. f_equal. rewrite E. ring.
  - rewrite E. nia.
Qed.

(** The delay of [handleReconnection] after [k] failed attempts. *)
Lemma backoff_delay_ok base k : 0 <= base < 2 ^ 31 -> 0 <= k -> backoff_delay base k = Z.min 60000 (base * 2 ^ k).
Proof.
  intros Hb Hk. unfold backoff_delay. rewrite u32_small by lia.
  rewrite <- (double_delay_capped (Z.to_nat k)) by lia. destruct (Z.ltb_spec 60000 (double_delay (Z.to_nat k) k base)); lia.
Qed.

(** C11: after a failed connection the tunnel waits.  While less than
    [min(60000, reconnectDelayMs * 2^attempts)] milliseconds have passed since
    the last attempt, a call of [loop()] reads the clock once and does nothing
    else, whatever the number of attempts; the doubling never overflows. *)
Theorem backoff_respected q :
  let c := connectionConfig (globalSSHConfig q.1) in
  state_ q.1 = TUNNEL_ERROR -> 0 <= reconnectDelayMs c < 2 ^ 31 -> 0 <= reconnectAttempts_ q.1 ->
  let '(now, e) := answer Millis (w_env q.2) in
  u32_sub now (lastConnectionAttempt_ q.1) < Z.min 60000 (reconnectDelayMs c * 2 ^ reconnectAttempts_ q.1) ->
  tunnel_loop q = (tt, (q.1, log Millis now e q.2)).
Proof.
  destruct q as [t w]. cbn [fst snd]. intros Hs Hb Ha. destruct (answer Millis (w_env w)) as [now e] eqn:E. intros Hlt.
  assert (forall k : Z -> TM unit, bind millis k (t, w) = k now (t, log Millis now e w)) as Hm.
  { intros k. unfold bind, millis, sys. cbn [get_world pair_has_world snd]. by rewrite E. }
  unfold tunnel_loop, handleReconnection, reconnect_when_due. unfold bind at 1, get at 1, gets. cbn [fst]. rewrite Hs.
  unfold bind at 1, get at 1, gets. unfold bind at 1, get at 1, gets. cbn [fst].
  destruct (Z.leb_spec (maxReconnectAttempts (connectionConfig (globalSSHConfig t))) (reconnectAttempts_ t)).
  - rewrite Hm. unfold bind at 1, get at 1, gets. cbn [fst]. by rewrite (proj2 (Z.ltb_lt _ 60000)) by lia.
  - rewrite Hm. unfold bind, get, gets. cbn [fst].
    by rewrite (proj2 (Z.ltb_lt _ (backoff_delay _ _))) by (rewrite backoff_delay_ok by done; exact Hlt).
Qed.

Lemma emit_ran h l l' q : wp (emit h l l') (fun _ q' => q'.1 = q.1 /\ exists evs, ran q evs q') q.
Proof. destruct q as [t w]. unfold emit. wp_go; (split; [done|eexists; first [apply ran_nil|ran_done]]). Qed.

(** The tail of [connectSSH] settles the state and lets the dialling stand. *)
Lemma conclude_ok (ok : bool) q : (if ok then is_Some (Session.session_ (session_ q.1)) else True) ->
  wp (ok <- conclude ok;; when ok (put (fun t => t <| reconnectAttempts_ := 0 |>)))
    (fun _ q' => (exists evs, ran q evs q') /\ session_ q'.1 = session_ q.1 /\
      lastConnectionAttempt_ q'.1 = lastConnectionAttempt_ q.1 /\
      if ok then state_ q'.1 = TUNNEL_CONNECTED /\ is_Some (Session.session_ (session_ q'.1)) /\
        reconnectAttempts_ q'.1 = 0
      else state_ q'.1 = TUNNEL_ERROR) q.
Proof.
  intros Hok. destruct q as [t w]. unfold conclude. apply wp_bind. destruct ok; cbn [negb].
  - apply wp_bind, wp_put_pair, wp_bind, (wp_sys_pair Millis). intros r e _. apply wp_bind, wp_put_pair, wp_bind.
    eapply wp_conseq; [apply emit_ran|]. intros u [t2 w2] (E2 & evs & R2). cbn [fst] in E2. subst t2.
    apply wp_ret, wp_put_pair. cbn [when]. split; [|by split_and!].
    exists ([Event Millis r] ++ evs). eapply ran_app; [|exact R2]. ran_done.
  - apply wp_bind, wp_put_pair, wp_bind. eapply wp_conseq; [apply emit_ran|].
    intros u [t2 w2] (E2 & evs & R2). cbn [fst] in E2. subst t2. apply wp_ret. cbn [when]. apply wp_ret.
    by split; [exists evs|].
Qed.

(** The attempt takes the time; it asks for a new socket and ends connected, or in
    the error state; or it ends in the error state without, because the old session
    is still there although libssh2 was asked to free it. *)
Definition redialed q (evs : list event) q' : Prop :=
  ran q evs q' /\ Event Millis (lastConnectionAttempt_ q'.1) ∈ evs /\
  (asked evs /\ state_ q'.1 = TUNNEL_CONNECTED /\ is_Some (Session.session_ (session_ q'.1)) /\
     reconnectAttempts_ q'.1 = 0 \/
   asked evs /\ state_ q'.1 = TUNNEL_ERROR \/
   is_Some (Session.session_ (session_ q'.1)) /\ session_freed evs = true /\ state_ q'.1 = TUNNEL_ERROR).

Lemma attempt_dials q : tinv q.1 -> settled q.1 ->
  wp attempt_reconnect (fun _ q' => exists evs, redialed q evs q') q.
Proof.
  intros Hi Hs. apply attempt_from; [done|done|]. intros q1 e1 R1 T1 [Hs1 _].
  pose proof (tinv_rest _ (tr_inv _ _ _ T1) Hs1) as Hr1. apply wp_bind, connectSSH_from; [done|done|].
  intros ok q2 e2 R2 [_ _ _ _ D2 (now & N2 & L2) H2].
  assert (if ok then is_Some (Session.session_ (session_ q2.1)) else True) as Hok by by destruct ok.
  pose proof (conclude_ok ok q2 Hok) as H. unfold wp, bind in *. destruct (conclude ok q2) as [b q3].
  destruct H as ((e3 & R3) & E3 & L3 & H3). exists (e1 ++ e2 ++ e3).
  split; [eapply ran_app; [exact R1|by eapply ran_app]|]. cbn [fst snd] in *. rewrite E3, L3, L2.
  split; [rewrite !elem_of_app; by right; left|].
  destruct (dialed_last _ _ e1 _ (dialed_first _ _ _ e3 D2)) as [Ha|(-> & Hs2 & Hf)].
  - rewrite E3 in H3. destruct ok; [left|right; left]; by split.
  - by right; right.
Qed.

Lemma redialed_after q e1 q1 e2 q' : ran q e1 q1 -> redialed q1 e2 q' -> redialed q (e1 ++ e2) q'.
Proof.
  intros R1 (R2 & L2 & H2). split; [by eapply ran_app|]. split; [apply elem_of_app; by right|].
  assert (Ha : asked e2 -> asked (e1 ++ e2)) by (intros [n Hn]; exists n; apply elem_of_app; by right).
  rewrite session_freed_app. destruct H2 as [[? ?]|[[? ?]|(? & -> & ?)]]; [left|right; left|right; right]; auto.
  by rewrite orb_true_r.
Qed.

(** The clock readings of a run. *)
Definition ev_reading (ev : event) : list Z :=
  match ev with
  | Event cl r => match cl return ret_of cl -> list Z with Millis => fun now => [now] | _ => fun _ => [] end r
  end.
Definition readings (evs : list event) : list Z := evs ≫= ev_reading.

(** All of them are at least a minute after [last]. *)
Definition a_minute_after (last : Z) (evs : list event) : Prop :=
  Forall (fun now => 60000 <= u32_sub now last) (readings evs).

Lemma a_minute_reading last evs now : a_minute_after last evs -> Event Millis now ∈ evs -> 60000 <= u32_sub now last.
Proof.
  unfold a_minute_after. rewrite list.Forall_forall. intros H Hin. apply H. unfold readings.
  apply list_elem_of_bind. exists (Event Millis now). split; [by left|done].
Qed.

Lemma due_dials q q1 e1 : ran q e1 q1 -> tinv q1.1 -> settled q1.1 ->
  0 <= reconnectDelayMs (connectionConfig (globalSSHConfig q1.1)) < 2 ^ 31 -> 0 <= reconnectAttempts_ q1.1 ->
  wp reconnect_when_due (fun _ q' => exists evs, ran q evs q' /\
    (a_minute_after (lastConnectionAttempt_ q1.1) evs -> redialed q evs q')) q1.
Proof.
  intros R1 Hi Hs Hb Ha. destruct q1 as [t w]. cbn [fst] in *. unfold reconnect_when_due.
  apply wp_bind, (wp_sys_pair Millis). intros now e _. do 3 apply wp_bind, wp_get_pair.
  assert (ran q (e1 ++ [Event Millis now]) (t, log Millis now e w)) as R2 by (eapply ran_app; [exact R1|ran_done]).
  destruct (Z.ltb_spec (u32_sub now (lastConnectionAttempt_ t))
    (backoff_delay (reconnectDelayMs (connectionConfig (globalSSHConfig t))) (reconnectAttempts_ t))) as [Hlt|Hge].
  - apply wp_ret. eexists. split; [exact R2|]. intros H. exfalso. rewrite backoff_delay_ok in Hlt by done.
    apply (a_minute_reading _ _ now) in H; [lia|]. apply elem_of_app. right. by left.
  - eapply wp_conseq; [by apply attempt_dials|]. intros u q' (e2 & D2).
    pose proof (redialed_after _ _ _ _ _ R2 D2) as D. eexists. split; [apply D|]. intros _. exact D.
Qed.

(** C6: the tunnel never gives up.  With any [reconnectDelayMs] from 0 on, and however
    many attempts have failed, a call
    of [loop()] in the error state whose clock readings are all at least 60 s
    after the last attempt makes another one and takes its time.  It asks for a new
    socket, and ends connected with the attempts forgotten or in the error state.
    There is one exception: when libssh2 was asked to free the old session and the
    session is still there, it ends in the error state without a new socket. *)
Theorem error_state_redials q : tinv q.1 -> state_ q.1 = TUNNEL_ERROR ->
  0 <= reconnectDelayMs (connectionConfig (globalSSHConfig q.1)) < 2 ^ 31 -> 0 <= reconnectAttempts_ q.1 ->
  let q' := snd (tunnel_loop q) in
  exists evs, ran q evs q' /\ (a_minute_after (lastConnectionAttempt_ q.1) evs -> redialed q evs q').
Proof.
  intros Hi Hs Hb Ha. change (wp tunnel_loop (fun _ q' => exists evs, ran q evs q' /\
    (a_minute_after (lastConnectionAttempt_ q.1) evs -> redialed q evs q')) q).
  unfold tunnel_loop, handleReconnection. apply wp_bind, wp_get. rewrite Hs. apply wp_bind, wp_get, wp_bind, wp_get.
  assert (settled q.1) as Hset by (split; by rewrite Hs). destruct q as [t w]. cbn [fst] in *.
  destruct (_ <=? _); [|apply (due_dials (t, w) (t, w) []); [apply ran_nil|done..]].
  apply wp_bind, (wp_sys_pair Millis). intros now e _. apply wp_bind, wp_get_pair.
  destruct (Z.ltb_spec (u32_sub now (lastConnectionAttempt_ t)) 60000).
  - apply wp_ret. eexists. split; [ran_done|]. intros Hm. exfalso. apply (a_minute_reading _ _ now) in Hm; [lia|by left].
  - apply wp_bind, wp_put_pair. match goal with |- wp _ _ ?s => apply (due_dials (t, w) s [Event Millis now]); [ran_done| |done|done|done] end.
    set (w1 := log _ _ _ w). assert (does trel anything (put (fun t => t <| reconnectAttempts_ := 0 |>)) (t, w1)) as H1
      by (apply owns_does; [done|by apply owns_put]).
    destruct H1 as (evs & _ & T1 & _). exact (tr_inv _ _ _ T1).
Qed.

End Runs.

(** ** Concrete runs *)
Section Example.
#[local] Existing Instance esp32_target.

(** A server that grants everything and opens one channel. *)
Definition example_world : world script := World (idle_script <| sc_chans := [Some 700] |>) [].
Abbreviation example_up := (Tunnel.init (new_tunnel (R := wrap_ring) example_cfg, example_world)).
Abbreviation example_run os := (snd (run_tunnel_all os (snd example_up))).

Lemma example_sizes : sizes_ok (R := wrap_ring) example_cfg.
Proof. by split. Qed.
Lemma example_up_ok : fst example_up = true.
Proof. by vm_compute. Qed.
Lemma pair_up {A} (p : bool * A) : fst p = true -> p = (true, snd p).
Proof. by destruct p; intros [= ->]. Qed.

(** What a run did since [init]. *)
Definition since_init (q : SSHTunnel wrap_ring * world script) : list event :=
  drop (length (w_trace (snd example_up).2)) (w_trace q.2).

Lemma since_init_ran evs (q : SSHTunnel wrap_ring * world script) : ran (snd example_up) evs q -> evs = since_init q.
Proof. unfold ran, since_init. intros ->. by rewrite drop_app_length. Qed.

Lemma tunnel_well_formed_witness :
  let t := (example_run [OConnect; OLoop]).1 in
  state_ t = TUNNEL_CONNECTED /\ activeCount_ (channels_ t) = 1 /\ tinv t.
Proof.
  cbn zeta. split; [by vm_compute|]. split; [by vm_compute|].
  exact (proj1 (tunnel_well_formed example_cfg example_world [OConnect; OLoop] _ example_sizes (pair_up _ example_up_ok))).
Defined.

Lemma tunnel_channels_safe_witness :
  let q := example_run [OConnect; OLoop; ODisconnect] in
  accepted (since_init q) = [700] /\ forall c, after (fun _ => Dead) (since_init q) c = Dead.
Proof.
  cbn zeta. set (q := example_run _). assert (accepted (since_init q) = [700]) as Ea by (by vm_compute). split; [done|].
  assert (state_ q.1 = TUNNEL_DISCONNECTED) as Es by (by vm_compute).
  destruct (tunnel_channels_safe example_cfg example_world [OConnect; OLoop; ODisconnect] _ example_sizes
    (pair_up _ example_up_ok)) as (evs & R1 & H). cbn zeta in H. rewrite (since_init_ran _ _ R1) in H. fold q in H.
  refine (proj2 (proj2 (proj2 (proj2 (H _))) _)); [|by rewrite Es].
  apply accepted_once. rewrite Ea. apply NoDup_singleton.
Defined.

Lemma tunnel_sockets_kept_witness :
  let q := example_run [OConnect; OLoop; ODisconnect] in
  opened (since_init q) = [50; 50] /\ opened (since_init q) ≡ₚ closed (since_init q).
Proof.
  cbn zeta. set (q := example_run _). split; [by vm_compute|].
  assert (state_ q.1 = TUNNEL_DISCONNECTED) as Es by (by vm_compute).
  destruct (tunnel_sockets_kept example_cfg example_world [OConnect; OLoop; ODisconnect] _ example_sizes
    (pair_up _ example_up_ok)) as (evs & R1 & _ & H). rewrite (since_init_ran _ _ R1) in H. fold q in H.
  apply H. by rewrite Es.
Defined.

Lemma accept_loop_ends_witness :
  let q := example_run [OConnect] in
  maxSlots_ (channels_ q.1) = 10 /\ loop 14 handleNewConnection q = accept_all q.
Proof.
  cbn zeta. set (q := example_run _). assert (maxSlots_ (channels_ q.1) = 10) as Em by (by vm_compute). split; [done|].
  destruct (from_init example_cfg example_world [OConnect] _ example_sizes (pair_up _ example_up_ok)) as (_ & _ & Hi & _).
  fold q in Hi. pose proof (proj1 (accept_loop_ends 3 q Hi)) as H. rewrite Em in H. exact H.
Defined.

(** Two failed attempts, half a second ago. *)
Definition waiting : SSHTunnel wrap_ring * world script :=
  ((new_tunnel example_cfg) <| state_ := TUNNEL_ERROR |> <| lastConnectionAttempt_ := 500 |>
     <| reconnectAttempts_ := 2 |>, example_world).

Lemma backoff_respected_witness :
  exists e, tunnel_loop waiting = (tt, (waiting.1, log Millis 1000 e waiting.2)).
Proof.
  eexists. pose proof (backoff_respected waiting) as H. cbn zeta in H.
  exact (H eq_refl ltac:(split; [discriminate|reflexivity]) ltac:(discriminate) eq_refl).
Defined.

(** A minute and more passes between two clock readings. *)
Definition slow_world : world script := World (idle_script <| sc_step := 70000 |>) [].
Abbreviation slow_up := (Tunnel.init (new_tunnel (R := wrap_ring) example_cfg, slow_world)).
Abbreviation slow_run := (snd (run_tunnel_all [ORequestReconnect] (snd slow_up))).

Lemma error_state_redials_witness :
  let q := slow_run in
  state_ q.1 = TUNNEL_ERROR /\ exists evs, redialed q evs (snd (tunnel_loop q)).
Proof.
  cbn zeta. set (q := slow_run). assert (state_ q.1 = TUNNEL_ERROR) as Es by (by vm_compute). split; [done|].
  assert (fst slow_up = true) as Hup by (by vm_compute).
  destruct (from_init example_cfg slow_world [ORequestReconnect] _ example_sizes (pair_up _ Hup)) as (_ & _ & Hi & _).
  fold q in Hi. destruct (error_state_redials q Hi Es) as (evs & R1 & H).
  - split; [by apply Z.leb_le; vm_compute|by apply Z.ltb_lt; vm_compute].
  - by apply Z.leb_le; vm_compute.
  - exists evs. apply H. unfold ran in R1.
    assert (evs = drop (length (w_trace q.2)) (w_trace (snd (tunnel_loop q)).2)) as -> by (by rewrite R1, drop_app_length).
    unfold a_minute_after. apply Forall_forall. intros now Hin. apply Z.leb_le. revert now Hin.
    apply forallb_forall. by vm_compute.
Defined.

End Example.
